(** * Bob build tool: recipe elaboration (pym/bob/input.py)

    A shallow embedding of the recipe-to-package elaboration engine:
    the two-part step digest ([DigestHasher], [CoreStep.getDigest],
    [CoreStep.getResultId]), the step constructors, class resolution
    ([Recipe.resolveClasses]), the flattening of dependency entries
    ([Recipe.Dependency.parseEntries]) and the memoising elaboration
    ([Recipe.prepare] with [PackageMatcher]).

    Conventions.
    - Python [bytes] are [list Z] with entries in [0, 256).
    - Python [str] is [string]; every character is read as the code point
      of the same number (code points below 256), [len] is [String.length]
      and [encode('utf8')] is [utf8].
    - A Python [dict] is an association list in insertion order with unique
      keys ([Dict]); a Python [set] of names is a [gset string].
    - Exceptions are the [Err] results of the [result] type; a function that
      recurses through the recipe graph takes fuel and reports [OutOfFuel]
      when it is exhausted, which is kept apart from the program's errors. *)

From Stdlib Require Import ZArith List String Ascii Lia Bool Permutation.
From Stdlib Require OrderedTypeEx.
From stdpp Require Import base decidable option list gmap strings sets.

Local Open Scope string_scope.
Local Open Scope list_scope.

(** ** Bytes, struct.pack and UTF-8 *)

Abbreviation bytes := (list Z).

Module Bytes.
Local Open Scope Z_scope.

(** [b'\x00' * n] *)
Definition zeros (n : nat) : bytes := repeat 0 n.

(** The four bytes of [struct.pack("<I", n)] for [0 <= n < 2^32]. *)
Definition le32 (n : Z) : bytes :=
  [ n mod 256; (n / 256) mod 256; (n / 65536) mod 256; (n / 16777216) mod 256 ].

(** [struct.pack("<I", n)]: little-endian unsigned 32 bit; a value out of
    range raises [struct.error]. *)
Definition pack_I (n : nat) : option bytes :=
  if Z.of_nat n <? 4294967296 then Some (le32 (Z.of_nat n)) else None.

(** [struct.pack("<?", b)]: one byte. *)
Definition pack_bool (b : bool) : bytes := [ if b then 1 else 0 ].

(** [c.encode('utf8')] for one code point below 256. *)
Definition utf8_char (c : ascii) : bytes :=
  let n := Z.of_N (N_of_ascii c) in
  if n <? 128 then [ n ] else [ 192 + n / 64; 128 + n mod 64 ].

(** [s.encode('utf8')] *)
Fixpoint utf8 (s : string) : bytes :=
  match s with
  | EmptyString => []
  | String c r => utf8_char c ++ utf8 r
  end.
End Bytes.

(** ** SHA-1 (hashlib.sha1), FIPS 180-4 *)

Module SHA1.
Local Open Scope Z_scope.

Definition w32 (x : Z) : Z := x mod 4294967296.

Definition rotl (n x : Z) : Z :=
  Z.lor (w32 (Z.shiftl x n)) (Z.shiftr x (32 - n)).

Definition be32 (x : Z) : bytes :=
  [ (x / 16777216) mod 256; (x / 65536) mod 256; (x / 256) mod 256; x mod 256 ].

Definition be64 (x : Z) : bytes := be32 (x / 4294967296) ++ be32 (w32 x).

(** Message padding: a one bit, zeros up to 56 modulo 64, the bit length. *)
Definition pad (m : bytes) : bytes :=
  let l := Z.of_nat (length m) in
  m ++ [128] ++ repeat 0 (Z.to_nat ((55 - l) mod 64)) ++ be64 (8 * l).

Fixpoint words (bs : bytes) : list Z :=
  match bs with
  | a :: b :: c :: d :: r => (((a * 256 + b) * 256 + c) * 256 + d) :: words r
  | _ => []
  end.

Definition f_k (t b c d : Z) : Z * Z :=
  if t <? 20 then (Z.lor (Z.land b c) (Z.land (Z.lnot b) d), 1518500249)
  else if t <? 40 then (Z.lxor (Z.lxor b c) d, 1859775393)
  else if t <? 60 then
    (Z.lor (Z.lor (Z.land b c) (Z.land b d)) (Z.land c d), 2400959708)
  else (Z.lxor (Z.lxor b c) d, 3395469782).

Definition state : Type := Z * Z * Z * Z * Z.

(** [win] holds the message schedule words W[t] .. W[t+15]. *)
Fixpoint rounds (n : nat) (t : Z) (win : list Z) (s : state) : state :=
  match n with
  | O => s
  | S n' =>
      let '(a, b, c, d, e) := s in
      let '(f, k) := f_k t b c d in
      let tmp := w32 (rotl 5 a + f + e + k + nth 0 win 0) in
      let nxt := rotl 1 (Z.lxor (Z.lxor (nth 13 win 0) (nth 8 win 0))
                                (Z.lxor (nth 2 win 0) (nth 0 win 0))) in
      rounds n' (t + 1) (tl win ++ [nxt]) (tmp, a, rotl 30 b, c, d)
  end.

Definition block (s : state) (w : list Z) : state :=
  let '(h0, h1, h2, h3, h4) := s in
  let '(a, b, c, d, e) := rounds 80 0 w s in
  (w32 (h0 + a), w32 (h1 + b), w32 (h2 + c), w32 (h3 + d), w32 (h4 + e)).

Fixpoint blocks (n : nat) (s : state) (ws : list Z) : state :=
  match n with
  | O => s
  | S n' => blocks n' (block s (firstn 16 ws)) (skipn 16 ws)
  end.

Definition init : state :=
  (1732584193, 4023233417, 2562383102, 271733878, 3285377520).

Definition out (s : state) : bytes :=
  let '(h0, h1, h2, h3, h4) := s in
  be32 h0 ++ be32 h1 ++ be32 h2 ++ be32 h3 ++ be32 h4.

(** [hashlib.sha1(m).digest()] *)
Definition sha1 (m : bytes) : bytes :=
  let ws := words (pad m) in
  out (blocks (Nat.div (length ws) 16) init ws).

Definition hexdigit (n : Z) : string :=
  String.substring (Z.to_nat n) 1 "0123456789abcdef".

(** [asHexStr] *)
Fixpoint hex (bs : bytes) : string :=
  match bs with
  | [] => ""
  | b :: r => hexdigit (b / 16) ++ hexdigit (b mod 16) ++ hex r
  end.
End SHA1.

(** ** Python dictionaries and [sorted] *)

Module Dict.
Section Dict.
Context {V : Type}.

(** [d.get(k)] *)
Fixpoint get (k : string) (d : list (string * V)) : option V :=
  match d with
  | [] => None
  | (k', v) :: r => if String.eqb k k' then Some v else get k r
  end.

(** [d[k] = v]: an existing key keeps its position, a new one is
    appended. *)
Fixpoint set (k : string) (v : V) (d : list (string * V)) : list (string * V) :=
  match d with
  | [] => [(k, v)]
  | (k', v') :: r =>
      if String.eqb k k' then (k, v) :: r else (k', v') :: set k v r
  end.

(** [d.update(other)] *)
Definition update (d other : list (string * V)) : list (string * V) :=
  fold_left (fun acc kv => set kv.1 kv.2 acc) other d.

(** [del d[k]] for a key that is present. *)
Definition remove (k : string) (d : list (string * V)) : list (string * V) :=
  List.filter (fun kv => negb (String.eqb k kv.1)) d.

Definition keys (d : list (string * V)) : list string := map fst d.

(** One step of a stable insertion sort on the key. *)
Fixpoint insert_sorted (kv : string * V) (l : list (string * V)) :=
  match l with
  | [] => [kv]
  | x :: r =>
      if String.leb kv.1 x.1 then kv :: l else x :: insert_sorted kv r
  end.

(** [sorted(d.items())] and [sorted(d.items(), key=lambda t: t[0])]:
    the keys of a dictionary are unique, so the tuples are ordered by
    their first component alone. *)
Definition sorted_items (d : list (string * V)) : list (string * V) :=
  fold_right insert_sorted [] d.
End Dict.

(** [sorted(names)] for a list of strings. *)
Definition sorted (l : list string) : list string :=
  map fst (sorted_items (map (fun k => (k, tt)) l)).
End Dict.

(** ** Exceptions *)

Inductive error :=
| ParseError (msg : string)
| StructError
| ValueError.

Inductive result (A : Type) :=
| Ok (a : A)
| Err (e : error)
| OutOfFuel.
Arguments Ok {A}.
Arguments Err {A}.
Arguments OutOfFuel {A}.

Definition rbind {A B : Type} (m : result A) (f : A -> result B) : result B :=
  match m with
  | Ok a => f a
  | Err e => Err e
  | OutOfFuel => OutOfFuel
  end.

#[global] Instance result_bind : MBind result := fun A B f m => rbind m f.

(** A [struct.error] of the digest code as an exception of the caller. *)
Definition packed {A : Type} (o : option A) : result A :=
  match o with
  | Some a => Ok a
  | None => Err StructError
  end.

(** [for x in l: b = f(b, x)] where [f] may raise *)
Fixpoint foldR {A B : Type} (f : B -> A -> result B) (l : list A) (b : B) : result B :=
  match l with
  | [] => Ok b
  | x :: r => b' ← f b x; foldR f r b'
  end.

(** [[f(x) for x in l]] where [f] may raise *)
Fixpoint mapR {A B : Type} (f : A -> result B) (l : list A) : result (list B) :=
  match l with
  | [] => Ok []
  | x :: r => y ← f x; ys ← mapR f r; Ok (y :: ys)
  end.

(** ** DigestHasher *)

Module DigestHasher.
Record t := mk { recipes : bytes; host : bytes }.

Definition new : t := mk [] [].

(** Add bytes to recipe-internal part of digest. *)
Definition update (h : t) (real : bytes) : t := mk (recipes h ++ real) (host h).

(** Add bytes of fingerprint to host part of digest. *)
Definition fingerprint (h : t) (imag : bytes) : t := mk (recipes h) (host h ++ imag).

(** [if self.__host:] a bytearray is true when it is not empty. *)
Definition digest (h : t) : bytes :=
  match host h with
  | [] => SHA1.sha1 (recipes h)
  | _ :: _ => SHA1.sha1 (recipes h) ++ SHA1.sha1 (host h)
  end.

Definition sliceRecipes (digest : bytes) : bytes := firstn 20 digest.
Definition sliceHost (digest : bytes) : bytes := skipn 20 digest.
End DigestHasher.

(** ** Recipes as the elaboration reads them *)

#[local] Set Warnings "-register-all".

Abbreviation dict := (list (string * string)).

(** [fingerprintIf]: [schema.Or(None, str, bool)] *)
Inductive FingerprintIf :=
| FpNone
| FpBool (b : bool)
| FpStr (s : string).

(** A dependency after [Recipe.Dependency.parseEntries]. *)
Module Dependency.
Record t := mk {
  recipe : string;
  envOverride : dict;
  provideGlobal : bool;
  use : list string;
  condition : option string
}.

Definition uses (what : string) (d : t) : bool :=
  existsb (String.eqb what) (use d).

Definition useEnv := uses "environment".
Definition useTools := uses "tools".
Definition useBuildResult := uses "result".
Definition useDeps := uses "deps".
Definition useSandbox := uses "sandbox".

(** An entry of a [depends] list in the YAML document: a plain name, or a
    dictionary whose keys may be absent. *)
Inductive Entry :=
| Str (name : string)
| Dict (name : option string) (depends : option (list Entry))
       (environment : option dict) (forward : option bool)
       (use : option (list string)) (cond : option string).

(** The condition of an entry below the condition of the entries around
    it: [cond = "$(and,{},{})".format(cond, newCond) if cond is not None
    else newCond] when the entry has an [if]. *)
Definition joinCond (cond newCond : option string) : option string :=
  match newCond with
  | Some nc =>
      Some (match cond with
            | Some c => ("$(and," ++ c ++ "," ++ nc ++ ")")%string
            | None => nc
            end)
  | None => cond
  end.

(** [__parseEntry]; the inner loop is [parseEntries]. *)
Fixpoint parseEntry (dep : Entry) (env : dict) (fwd : bool) (use : list string)
    (cond : option string) : result (list t) :=
  match dep with
  | Str name => Ok [mk name env fwd use cond]
  | Dict name depends environment forward use' newCond =>
      let env := match environment with
                 | Some (kv :: r) => Dict.update env (kv :: r)
                 | _ => env
                 end in
      let fwd := match forward with Some f => f | None => fwd end in
      let use := match use' with Some u => u | None => use end in
      let cond := joinCond cond newCond in
      match name with
      | Some (String c n) =>
          match depends with
          | Some _ =>
              Err (ParseError
                "A dependency must not use 'name' and 'depends' at the same time!")
          | None => Ok [mk (String c n) env fwd use cond]
          end
      | _ =>
          match depends with
          | None =>
              Err (ParseError "Either 'name' or 'depends' required for dependencies!")
          | Some dependencies =>
              (fix parseEntries (deps : list Entry) : result (list t) :=
                 match deps with
                 | [] => Ok []
                 | d :: r =>
                     x ← parseEntry d env fwd use cond;
                     y ← parseEntries r;
                     Ok (x ++ y)
                 end) dependencies
          end
      end
  end.

(** [parseEntries(deps, env, fwd, use, cond)]: all dependencies as a flat
    list. *)
Fixpoint parseEntries (deps : list Entry) (env : dict) (fwd : bool)
    (use : list string) (cond : option string) : result (list t) :=
  match deps with
  | [] => Ok []
  | d :: r =>
      x ← parseEntry d env fwd use cond;
      y ← parseEntries r env fwd use cond;
      Ok (x ++ y)
  end.

(** [parseEntries(recipe.get("depends", []))] with the default arguments. *)
Definition parse (deps : list Entry) : result (list t) :=
  parseEntries deps [] false ["result"; "deps"] None.

(** The entries that contain a dependency named [n], with the conditions
    of the entries on the way to it, the outermost first. *)
Inductive nested (n : string) : list string -> Entry -> Prop :=
| nested_str : nested n [] (Str n)
| nested_name c r environment forward use cond :
    n = String c r ->
    nested n (match cond with Some x => [x] | None => [] end)
      (Dict (Some n) None environment forward use cond)
| nested_depends name deps environment forward use cond conds d :
    match name with Some (String _ _) => False | _ => True end ->
    In d deps -> nested n conds d ->
    nested n (match cond with Some x => x :: conds | None => conds end)
      (Dict name (Some deps) environment forward use cond).

(** The conditions joined from the outside in. *)
Definition joinConds (cond : option string) (conds : list string) : option string :=
  fold_left (fun c x => joinCond c (Some x)) conds cond.
End Dependency.

Module AbstractTool.
Record t := mk {
  path : string;
  libs : list string;
  netAccess : bool;
  environment : dict;
  fingerprintScript : string;
  fingerprintIf : FingerprintIf
}.
End AbstractTool.

(** The [provideSandbox] entry of a recipe. *)
Module SandboxSpec.
Record t := mk {
  paths : list string;
  mount : list (string * string * list string);
  environment : dict
}.
End SandboxSpec.

(** An entry of [checkoutSCM] as far as the elaboration reads it: its [if]
    condition, and what the [Scm] object built from it reports: whether
    [getDirectory()] is an absolute path, the components of that directory
    ([os.path.normcase(os.path.normpath(p)).split(os.sep)]),
    [asDigestScript()] and [isDeterministic()]. The SCM classes live in
    [bob.scm]. *)
Module ScmSpec.
Record t := mk {
  cond : option string;
  isabs : bool;
  directory : list string;
  digestScript : string;
  deterministic : bool
}.
End ScmSpec.

Module CheckoutAssert.
(** [start] and [end] hold [str(self.__start)] and [str(self.__end)]. *)
Record t := mk {
  file : string;
  digestSHA1 : string;
  start : string;
  end_ : string
}.

Definition asDigestScript (a : t) : string :=
  file a ++ " " ++ digestSHA1 a ++ " " ++ start a ++ " " ++ end_ a.
End CheckoutAssert.

(** The [RecipeSet] as a recipe sees it through [self.__recipeSet]: the
    policies that the elaboration reads through [getPolicy] (an unset
    policy, [None], is false in every test the code makes) and the sandbox
    settings of the user configuration. Its tables of recipes and classes
    are passed to the functions that look names up. *)
Module RecipeSet.
Record t := mk {
  mergeEnvironment : bool;
  sandboxInvariant : bool;
  uniqueDependency : bool;
  allRelocatable : bool;
  getSandboxPaths : list string;
  getSandboxMounts : list (string * string * list string)
}.
End RecipeSet.

(** An entry of a filter list: the function that [__maybeGlob] makes of a
    pattern, from the verdict so far and the name to the new verdict. *)
Abbreviation GlobPred := (bool -> string -> bool).

(** [checkGlobList(name, allowed)]. Modelled from the spec ([bob.stringparser]
    is not at hand): without a list every name passes; with one, the
    patterns are applied in order, each overriding the verdict of the ones
    before it. *)
Definition checkGlobList (name : string) (allowed : option (list GlobPred)) : bool :=
  match allowed with
  | None => true
  | Some preds => fold_left (fun ok pred => pred ok name) preds false
  end.

(** [PluginState]: the attributes of a state tracker ([vars(self)]), which
    is what [__eq__] compares. The handlers are those of the base class,
    which do nothing. *)
Abbreviation PluginState := (list (string * string)).

Module Recipe.
(** The attributes of a [Recipe] object once [resolveClasses] has run. The
    two memoisation tables ([__corePackagesByMatch], [__corePackagesById])
    are mutable and live in the elaboration store. *)
Record t := mk {
  getRecipeSet : RecipeSet.t;
  packageName : string;
  baseName : string;
  deps : list Dependency.t;
  filterEnv : option (list GlobPred);
  filterTools : option (list GlobPred);
  filterSandbox : option (list GlobPred);
  root : bool;
  shared : bool;
  relocatable : bool;
  provideTools : list (string * AbstractTool.t);
  provideVars : dict;
  provideDeps : gset string;
  provideSandbox : option SandboxSpec.t;
  varSelf : list dict;
  varPrivate : list dict;
  metaEnv : dict;
  checkoutVars : gset string;
  checkoutVarsWeak : gset string;
  buildVars : gset string;
  buildVarsWeak : gset string;
  packageVars : gset string;
  packageVarsWeak : gset string;
  toolDepCheckout : gset string;
  toolDepBuild : gset string;
  toolDepPackage : gset string;
  checkout : option string * option string * list ScmSpec.t * list CheckoutAssert.t;
  build : option string * option string;
  package : option string * option string;
  fingerprintScripts : list (option string);
  fingerprintIf : list FingerprintIf;
  checkoutDeterministic : bool
}.

(** [self.__checkout[1] or ""] *)
Definition checkoutDigestScript (r : t) : string :=
  match (checkout r).1.1.2 with
  | Some s => s
  | None => ""
  end.

Definition checkoutAsserts (r : t) : list CheckoutAssert.t := (checkout r).2.
Definition checkoutScript (r : t) : option string := (checkout r).1.1.1.
Definition checkoutSCMs (r : t) : list ScmSpec.t := (checkout r).1.2.
Definition buildDigestScript (r : t) : option string := (build r).2.
Definition packageScript (r : t) : option string := (package r).1.
Definition packageDigestScript (r : t) : option string := (package r).2.
Definition getPackageName (r : t) : string := packageName r.
Definition isShared (r : t) : bool := shared r.
End Recipe.

(** The newline character. *)
Definition nl : string := String (ascii_of_nat 10) "".

(** A letter, a digit or the underscore. *)
Definition isWordChar (c : ascii) : bool :=
  let n := nat_of_ascii c in
  (Nat.leb 65 n && Nat.leb n 90) || (Nat.leb 97 n && Nat.leb n 122)
  || (Nat.leb 48 n && Nat.leb n 57) || Nat.eqb n 95.

(** [joinScripts(scripts, glue)]. Modelled from the spec ([bob.utils] is not
    at hand): the scripts that are present are concatenated in order,
    joined by the glue; nothing present gives [None]. *)
Definition joinScripts (scripts : list (option string)) (glue : string) : option string :=
  match omap id scripts with
  | [] => None
  | l => Some (String.concat glue l)
  end.

(** [mergeFilter] *)
Definition mergeFilter (left right : option (list GlobPred)) : option (list GlobPred) :=
  match left, right with
  | None, _ => right
  | _, None => left
  | Some l, Some r => Some (l ++ r)
  end.

(** ** Recipes and classes before [resolveClasses] *)

Module RawRecipe.

(** The attributes of a [Recipe] object after [__init__]. The sources, the
    net access flags and the plugin properties are left out: the
    elaboration of the core graph does not read them. *)
Inductive t := mk {
  getRecipeSet : RecipeSet.t;
  packageName : string;
  baseName : string;
  inherit : list string;
  anonBaseClass : option t;
  deps : list Dependency.t;
  filterEnv : option (list GlobPred);
  filterTools : option (list GlobPred);
  filterSandbox : option (list GlobPred);
  root : option bool;
  shared : option bool;
  relocatable : option bool;
  provideTools : list (string * AbstractTool.t);
  provideVars : dict;
  provideDeps : gset string;
  provideSandbox : option SandboxSpec.t;
  varSelf : dict;
  varPrivate : dict;
  metaEnv : dict;
  checkoutVars : gset string;
  checkoutVarsWeak : gset string;
  buildVars : gset string;
  buildVarsWeak : gset string;
  packageVars : gset string;
  packageVarsWeak : gset string;
  toolDepCheckout : gset string;
  toolDepBuild : gset string;
  toolDepPackage : gset string;
  checkout : option string * option string * list ScmSpec.t * list CheckoutAssert.t;
  build : option string * option string;
  package : option string * option string;
  fingerprintScripts : list (option string);
  fingerprintIf : list FingerprintIf;
  checkoutDeterministic : bool
}.

(** [RecipeSet.getClass] *)
Definition getClass (classes : gmap string t) (className : string) : result t :=
  match classes !! className with
  | Some c => Ok c
  | None => Err (ParseError "Class requested but not found.")
  end.

(** [__resolveClassesOrder]: the classes in depth-first order, each once;
    [visited] is the set that the calls share. The recursion follows the
    class names, so it takes fuel. *)
Fixpoint resolveClassesOrder (fuel : nat) (classes : gmap string t) (cls : t)
    (stack : list string) (visited : gset string) (isRecipe : bool)
  : result (list t * gset string) :=
  match fuel with
  | O => OutOfFuel
  | S fuel =>
      let clsName := if isRecipe then "<recipe>" else packageName cls in
      if existsb (String.eqb clsName) stack then
        Err (ParseError "Cyclic class inheritence")
      else
        subInherit ← mapR (getClass classes) (inherit cls);
        let subInherit := match anonBaseClass cls with
                          | Some a => a :: subInherit
                          | None => subInherit
                          end in
        '(ret, visited) ←
          foldR (fun acc c =>
                   '(r, v) ← resolveClassesOrder fuel classes c (stack ++ [clsName])
                               acc.2 false;
                   Ok (acc.1 ++ r, v))
                subInherit ([], visited);
        if negb (bool_decide (clsName ∈ visited)) && negb isRecipe
        then Ok (ret ++ [cls], {[ clsName ]} ∪ visited)
        else Ok (ret, visited)
  end.

(** [self.__varSelf] while the classes are merged: one dictionary, or with
    the [mergeEnvironment] policy the list of dictionaries to apply. *)
Inductive EnvList :=
| Plain (d : dict)
| Merged (l : list dict).

(** [[ d ] if d else []] *)
Definition listIfAny (d : dict) : list dict :=
  match d with [] => [] | _ => [d] end.

(** The environment part of one round of the inheritance loop. *)
Definition inheritEnv (self : EnvList) (cls : dict) : EnvList :=
  match self with
  | Merged l => Merged (match cls with [] => l | _ => cls :: l end)
  | Plain d => Plain (Dict.update cls d)
  end.

(** [if self.x is None: self.x = cls.x] *)
Definition orElse {A : Type} (self cls : option A) : option A :=
  match self with Some _ => self | None => cls end.

(** One round of the inheritance loop for everything but the two
    environments. *)
Definition inheritClass (self cls : t) : t :=
  let '(checkoutScript, checkoutDigestScript, checkoutSCMs, checkoutAsserts) :=
    checkout self in
  mk (getRecipeSet self) (packageName self) (baseName self) (inherit self)
     (anonBaseClass self)
     (deps cls ++ deps self)
     (mergeFilter (filterEnv self) (filterEnv cls))
     (mergeFilter (filterTools self) (filterTools cls))
     (mergeFilter (filterSandbox self) (filterSandbox cls))
     (orElse (root self) (root cls))
     (orElse (shared self) (shared cls))
     (orElse (relocatable self) (relocatable cls))
     (Dict.update (provideTools cls) (provideTools self))
     (Dict.update (provideVars cls) (provideVars self))
     (provideDeps self ∪ provideDeps cls)
     (orElse (provideSandbox self) (provideSandbox cls))
     (varSelf self) (varPrivate self)
     (Dict.update (metaEnv cls) (metaEnv self))
     (checkoutVars self ∪ checkoutVars cls)
     (checkoutVarsWeak self ∪ checkoutVarsWeak cls)
     (buildVars self ∪ buildVars cls)
     (buildVarsWeak self ∪ buildVarsWeak cls)
     (packageVars self ∪ packageVars cls)
     (packageVarsWeak self ∪ packageVarsWeak cls)
     (toolDepCheckout self ∪ toolDepCheckout cls)
     (toolDepBuild self ∪ toolDepBuild cls)
     (toolDepPackage self ∪ toolDepPackage cls)
     (joinScripts [(checkout cls).1.1.1; checkoutScript] nl,
      joinScripts [(checkout cls).1.1.2; checkoutDigestScript] nl,
      (checkout cls).1.2 ++ checkoutSCMs,
      (checkout cls).2 ++ checkoutAsserts)
     (joinScripts [(build cls).1; (build self).1] nl,
      joinScripts [(build cls).2; (build self).2] nl)
     (joinScripts [(package cls).1; (package self).1] nl,
      joinScripts [(package cls).2; (package self).2] nl)
     (fingerprintScripts cls ++ fingerprintScripts self)
     (fingerprintIf cls ++ fingerprintIf self)
     (checkoutDeterministic self && checkoutDeterministic cls).

(** The whole loop [for cls in inherit] over the reversed class order. *)
Definition inheritAll (self : t) (vs vp : EnvList) (inherit : list t)
  : t * EnvList * EnvList :=
  fold_left (fun acc cls =>
               (inheritClass acc.1.1 cls,
                inheritEnv acc.1.2 (varSelf cls),
                inheritEnv acc.2 (varPrivate cls)))
            (rev inherit) (self, vs, vp).

(** The list of dictionaries that the elaboration applies. *)
Definition finalEnv (e : EnvList) : list dict :=
  match e with
  | Merged l => l
  | Plain d => listIfAny d
  end.

Section Resolve.
(** [fnmatch.fnmatchcase] of the Python library *)
Variable fnmatchcase : string -> string -> bool.

(** The check of the provided dependencies at the end of
    [resolveClasses]. *)
Definition resolveProvideDeps (availDeps : list string) (patterns : gset string)
  : result (gset string) :=
  foldR (fun (acc : gset string) pattern =>
           match List.filter (fun d => fnmatchcase d pattern) availDeps with
           | [] => Err (ParseError "Unknown dependency in provideDeps")
           | l => Ok (acc ∪ list_to_set l)
           end)
        (elements patterns) ∅.

(** [resolveClasses], from the recipe as [__init__] left it to the recipe
    that is elaborated. *)
Definition resolveClasses (fuel : nat) (classes : gmap string t) (self : t)
  : result Recipe.t :=
  '(inherit, _) ← resolveClassesOrder fuel classes self [] ∅ true;
  let mergeEnvironment := RecipeSet.mergeEnvironment (getRecipeSet self) in
  let vs := if mergeEnvironment then Merged (listIfAny (varSelf self))
            else Plain (varSelf self) in
  let vp := if mergeEnvironment then Merged (listIfAny (varPrivate self))
            else Plain (varPrivate self) in
  let '(self, vs, vp) := inheritAll self vs vp inherit in
  let package := match (package self).1 with
                 | None => (Some "", Some "da39a3ee5e6b4b0d3255bfef95601890afd80709")
                 | Some _ => package self
                 end in
  let shared := match shared self with Some true => true | _ => false end in
  let relocatable :=
    match relocatable self with
    | Some b => b
    | None => RecipeSet.allRelocatable (getRecipeSet self)
              || match provideTools self with [] => true | _ => false end
    end in
  provideDeps ← resolveProvideDeps (map Dependency.recipe (deps self)) (provideDeps self);
  Ok (Recipe.mk (getRecipeSet self) (packageName self) (baseName self) (deps self)
        (filterEnv self) (filterTools self) (filterSandbox self)
        (match root self with Some true => true | _ => false end)
        shared relocatable (provideTools self) (provideVars self) provideDeps
        (provideSandbox self) (finalEnv vs) (finalEnv vp) (metaEnv self)
        (checkoutVars self) (checkoutVarsWeak self) (buildVars self)
        (buildVarsWeak self) (packageVars self) (packageVarsWeak self)
        (toolDepCheckout self) (toolDepBuild self) (toolDepPackage self)
        (checkout self) (build self) package
        (fingerprintScripts self) (fingerprintIf self) (checkoutDeterministic self)).
End Resolve.

(** *** From the YAML document to the recipe object *)

(** The double quote character. *)
Definition dq : string := String (ascii_of_nat 34) "".

(** [pipes.quote] of the Python library. *)
Definition isSafeChar (c : ascii) : bool :=
  isWordChar c
  || existsb (Ascii.eqb c) (list_ascii_of_string "@%+=:,./-").

Fixpoint quoteBody (s : string) : string :=
  match s with
  | EmptyString => ""
  | String c r =>
      (if Ascii.eqb c "'" then "'" ++ dq ++ "'" ++ dq ++ "'" else String c "")
      ++ quoteBody r
  end.

Definition quote (s : string) : string :=
  match s with
  | EmptyString => "''"
  | _ =>
      if forallb isSafeChar (list_ascii_of_string s) then s
      else "'" ++ quoteBody s ++ "'"
  end.

(** [IncludeHelper.resolve] for a script that includes no file: the script
    behind its source anchor, and the digest of its text. *)
Definition resolveScript (sourceName : string) (text : option string)
  : option string * option string :=
  match text with
  | Some t =>
      (Some ("_BOB_SOURCES[$LINENO]=" ++ quote sourceName ++ nl ++ t)%string,
       Some (SHA1.hex (SHA1.sha1 (Bytes.utf8 t))))
  | None => (None, None)
  end.

(** The keys of a recipe or class document that the model reads; an absent
    key is [None] or the empty list. The filters are given as
    [maybeGlob] makes them, the tools as [AbstractTool] objects, and the
    SCMs as described for [ScmSpec]. *)
Record Doc := mkDoc {
  dInherit : list string;
  dDepends : list Dependency.Entry;
  dFilterEnv : option (list GlobPred);
  dFilterTools : option (list GlobPred);
  dFilterSandbox : option (list GlobPred);
  dRoot : option bool;
  dShared : option bool;
  dRelocatable : option bool;
  dProvideTools : list (string * AbstractTool.t);
  dProvideVars : dict;
  dProvideDeps : list string;
  dProvideSandbox : option SandboxSpec.t;
  dEnvironment : dict;
  dPrivateEnvironment : dict;
  dMetaEnvironment : dict;
  dCheckoutVars : list string;
  dCheckoutVarsWeak : list string;
  dBuildVars : list string;
  dBuildVarsWeak : list string;
  dPackageVars : list string;
  dPackageVarsWeak : list string;
  dCheckoutTools : list string;
  dBuildTools : list string;
  dPackageTools : list string;
  dCheckoutScript : option string;
  dBuildScript : option string;
  dPackageScript : option string;
  dCheckoutSCM : list ScmSpec.t;
  dCheckoutAssert : list CheckoutAssert.t;
  dFingerprintScript : option string;
  dFingerprintIf : option FingerprintIf;
  dCheckoutDeterministic : option bool
}.

(** A document without keys. *)
Definition emptyDoc : Doc :=
  mkDoc [] [] None None None None None None [] [] [] None [] [] []
        [] [] [] [] [] [] [] [] [] None None None [] [] None None None.

(** [Recipe.__init__] *)
Definition init (recipeSet : RecipeSet.t) (recipe : Doc) (packageName baseName : string)
    (isRecipe : bool) (anonBaseClass : option t) : result t :=
  deps ← Dependency.parse (dDepends recipe);
  let set (l : list string) : gset string := list_to_set l in
  let checkoutVars := set (dCheckoutVars recipe) in
  let checkoutVarsWeak := set (dCheckoutVarsWeak recipe) in
  let buildVars := set (dBuildVars recipe) ∪ checkoutVars in
  let buildVarsWeak := set (dBuildVarsWeak recipe) ∪ checkoutVarsWeak in
  let packageVars := set (dPackageVars recipe) ∪ buildVars in
  let packageVarsWeak := set (dPackageVarsWeak recipe) ∪ buildVarsWeak in
  let toolDepCheckout := set (dCheckoutTools recipe) in
  let toolDepBuild := set (dBuildTools recipe) ∪ toolDepCheckout in
  let toolDepPackage := set (dPackageTools recipe) ∪ toolDepBuild in
  let sourceName := ((if isRecipe then "Recipe " else "Class  ") ++ packageName)%string in
  let '(checkoutScript, checkoutDigestScript) :=
    resolveScript sourceName (dCheckoutScript recipe) in
  let fingerprintScript := dFingerprintScript recipe in
  let fingerprintIf :=
    match dFingerprintIf recipe with
    | Some f => f
    | None => match fingerprintScript with
              | Some (String _ _) => FpNone
              | _ => FpBool false
              end
    end in
  let fingerprinted := match fingerprintIf with FpBool false => false | _ => true end in
  Ok (mk recipeSet packageName baseName (dInherit recipe) anonBaseClass deps
        (dFilterEnv recipe) (dFilterTools recipe) (dFilterSandbox recipe)
        (dRoot recipe) (dShared recipe) (dRelocatable recipe)
        (dProvideTools recipe) (dProvideVars recipe) (set (dProvideDeps recipe))
        (dProvideSandbox recipe)
        (dEnvironment recipe) (dPrivateEnvironment recipe) (dMetaEnvironment recipe)
        checkoutVars checkoutVarsWeak buildVars buildVarsWeak packageVars packageVarsWeak
        toolDepCheckout toolDepBuild toolDepPackage
        (checkoutScript, checkoutDigestScript, dCheckoutSCM recipe, dCheckoutAssert recipe)
        (resolveScript sourceName (dBuildScript recipe))
        (resolveScript sourceName (dPackageScript recipe))
        (if fingerprinted then [fingerprintScript] else [])
        (if fingerprinted then [fingerprintIf] else [])
        (match dCheckoutDeterministic recipe with
         | Some b => b
         | None => match checkoutScript with None => true | Some _ => false end
         end)).

(** The document of [Recipe.createVirtualRoot]. *)
Definition virtualRootDoc (roots : list string) : Doc :=
  mkDoc [] (map (fun name => Dependency.Dict (Some name) None None None
                               (Some ["result"]) None) roots)
        None None None None None None [] [] [] None [] [] []
        [] [] [] [] [] [] [] [] [] None (Some "true") (Some "true") [] [] None None None.
End RawRecipe.

(** ** Core items *)

Inductive StepKind := CheckoutKind | BuildKind | PackageKind.

(** [CoreRef]: a handle on a core item with the stack to add. The overlays
    [diffTools] and [diffSandbox] only serve [refDeref], which builds the
    user-facing view, and are left out. *)
Module CoreRef.
Record t (S : Type) := mk {
  destination : S;
  stackAdd : list string
}.
Arguments mk {S}.
Arguments destination {S}.
Arguments stackAdd {S}.
End CoreRef.

Module CoreTool.
Record t (S : Type) := mk {
  coreStep : S;
  path : string;
  libs : list string;
  netAccess : bool;
  environment : dict;
  fingerprintScript : string;
  fingerprintIf : FingerprintIf
}.
Arguments mk {S}.
Arguments coreStep {S}.
Arguments path {S}.
Arguments libs {S}.
Arguments netAccess {S}.
Arguments environment {S}.
Arguments fingerprintScript {S}.
Arguments fingerprintIf {S}.
End CoreTool.

Module CoreSandbox.
Record t (S : Type) := mk {
  coreStep : S;
  enabled : bool;
  paths : list string;
  mounts : list (string * string * list string);
  environment : dict
}.
Arguments mk {S}.
Arguments coreStep {S}.
Arguments enabled {S}.
Arguments paths {S}.
Arguments mounts {S}.
Arguments environment {S}.
End CoreSandbox.

(** A provided tool or sandbox is a [CoreTool] or [CoreSandbox] whose
    [coreStep] is the package step that provides it. The step cannot hold a
    value that holds the step, so the provides are stored without their
    [coreStep] and get it back where a consumer picks them up
    ([CoreStep.providedToolsOf], [CoreStep.providedSandboxOf]). *)
Module Provided.
Record tool := mkTool {
  path : string;
  libs : list string;
  netAccess : bool;
  environment : dict;
  fingerprintScript : string;
  fingerprintIf : FingerprintIf
}.

Record sandbox := mkSandbox {
  enabled : bool;
  paths : list string;
  mounts : list (string * string * list string);
  sbEnvironment : dict
}.
End Provided.

(** [for x in l: h = f(h, x)] where [f] may raise *)
Fixpoint foldM {A B : Type} (f : B -> A -> option B) (l : list A) (b : B) : option B :=
  match l with
  | [] => Some b
  | x :: r => b' ← f b x; foldM f r b'
  end.

Module CoreStep.
Import Bytes.

(** A [CoreStep] with the attributes of its [corePackage] that a step
    reads ([recipe], [tools], [sandbox], [states], [pkgId],
    [fingerprintMask]); [kind] tells the subclass and [scmList] is empty
    unless the step is a [CoreCheckoutStep]. *)
Inductive t : Type := mk {
  kind : StepKind;
  recipe : Recipe.t;
  tools : list (string * CoreTool.t t);
  sandbox : option (CoreSandbox.t t);
  states : list (string * PluginState);
  pkgId : nat;
  fingerprintMask : Z;
  isValid : bool;
  digestEnv : dict;
  env : dict;
  args : list (CoreRef.t t);
  scmList : list ScmSpec.t;
  variantId : bytes;
  deterministic : bool;
  providedEnv : dict;
  providedTools : list (string * Provided.tool);
  providedDeps : list (CoreRef.t t);
  providedSandbox : option Provided.sandbox
}.

Definition isCheckoutStep (s : t) : bool :=
  match kind s with CheckoutKind => true | _ => false end.

Definition isPackageStep (s : t) : bool :=
  match kind s with PackageKind => true | _ => false end.

(** [corePackage.getName()] *)
Definition getName (s : t) : string := Recipe.getPackageName (recipe s).

(** [_getToolKeys]: the relevant tool names for this step. *)
Definition _getToolKeys (s : t) : gset string :=
  match kind s with
  | CheckoutKind => Recipe.toolDepCheckout (recipe s)
  | BuildKind => Recipe.toolDepBuild (recipe s)
  | PackageKind => Recipe.toolDepPackage (recipe s)
  end.

Definition getTools (s : t) : list (string * CoreTool.t t) :=
  if isValid s then
    List.filter (fun nt => bool_decide (nt.1 ∈ _getToolKeys s)) (tools s)
  else [].

Definition getSandbox (s : t) (forceSandbox : bool) : option (CoreSandbox.t t) :=
  let forceSandbox :=
    forceSandbox && negb (RecipeSet.sandboxInvariant (Recipe.getRecipeSet(recipe s))) in
  match sandbox s with
  | Some sb =>
      if (CoreSandbox.enabled sb || forceSandbox) && isValid s then Some sb else None
  | None => None
  end.

Definition getAllDepCoreSteps (s : t) (forceSandbox : bool) : list t :=
  map CoreRef.destination (args s)
  ++ map (fun nd => CoreTool.coreStep nd.2) (Dict.sorted_items (getTools s))
  ++ match getSandbox s forceSandbox with
     | Some sb => [CoreSandbox.coreStep sb]
     | None => []
     end.

(** [isDeterministic]; a [CoreCheckoutStep] also asks its SCMs. *)
Definition isDeterministic (s : t) : bool :=
  match kind s with
  | CheckoutKind => deterministic s && forallb ScmSpec.deterministic (scmList s)
  | _ => deterministic s
  end.

Definition getDigestScript (s : t) : option string :=
  match kind s with
  | CheckoutKind =>
      if isValid s then
        Some (String.concat (String (ascii_of_nat 10) "")
                (map ScmSpec.digestScript (scmList s)
                 ++ [Recipe.checkoutDigestScript (recipe s)]
                 ++ map CheckoutAssert.asDigestScript
                      (Recipe.checkoutAsserts (recipe s))))
      else None
  | BuildKind => Recipe.buildDigestScript (recipe s)
  | PackageKind => Recipe.packageDigestScript (recipe s)
  end.

Definition isFingerprinted (s : t) : bool :=
  negb (isCheckoutStep s) && negb (fingerprintMask s =? 0)%Z.

(** [h.update(struct.pack("<I", len(p))); h.update(p.encode('utf8'))] *)
Definition updateStr (h : DigestHasher.t) (p : string) : option DigestHasher.t :=
  n ← pack_I (String.length p);
  Some (DigestHasher.update (DigestHasher.update h n) (utf8 p)).

(** [h.update(struct.pack("<II", len(key), len(val)));
     h.update((key+val).encode('utf8'))] *)
Definition updateKeyVal (h : DigestHasher.t) (kv : string * string)
  : option DigestHasher.t :=
  a ← pack_I (String.length kv.1);
  b ← pack_I (String.length kv.2);
  Some (DigestHasher.update (DigestHasher.update h (a ++ b)) (utf8 (kv.1 ++ kv.2))).

(** The sandbox part of the recipe digest. *)
Definition updateSandbox (calculate : t -> bytes) (h : DigestHasher.t)
    (sb : option (CoreSandbox.t t)) : option DigestHasher.t :=
  match sb with
  | Some sandbox =>
      let h := DigestHasher.update h
                 (DigestHasher.sliceRecipes (calculate (CoreSandbox.coreStep sandbox))) in
      n ← pack_I (length (CoreSandbox.paths sandbox));
      foldM updateStr (CoreSandbox.paths sandbox) (DigestHasher.update h n)
  | None => Some (DigestHasher.update h (zeros 20))
  end.

(** [if script: ... else: h.update(b'\x00\x00\x00\x00')]: [None] and the
    empty string are false. *)
Definition updateScript (h : DigestHasher.t) (script : option string)
  : option DigestHasher.t :=
  match script with
  | Some (String c r) => updateStr h (String c r)
  | _ => Some (DigestHasher.update h [0; 0; 0; 0]%Z)
  end.

(** One entry of the tool table. *)
Definition updateTool (calculate : t -> bytes) (h : DigestHasher.t)
    (nt : string * CoreTool.t t) : option DigestHasher.t :=
  let tool := nt.2 in
  let h := DigestHasher.update h
             (DigestHasher.sliceRecipes (calculate (CoreTool.coreStep tool))) in
  a ← pack_I (String.length (CoreTool.path tool));
  b ← pack_I (length (CoreTool.libs tool));
  let h := DigestHasher.update h (a ++ b) in
  let h := DigestHasher.update h (utf8 (CoreTool.path tool)) in
  foldM updateStr (CoreTool.libs tool) h.

(** One argument: its recipe slice goes to the recipe part, its host slice
    to the host part. *)
Definition updateArg (calculate : t -> bytes) (h : DigestHasher.t) (arg : t)
  : DigestHasher.t :=
  let a := calculate arg in
  DigestHasher.fingerprint
    (DigestHasher.update h (DigestHasher.sliceRecipes a))
    (DigestHasher.sliceHost a).

(** The valid arguments of the step. *)
Definition validArgs (s : t) : list t :=
  List.filter isValid (map CoreRef.destination (args s)).

Definition getDigest (calculate : t -> bytes) (forceSandbox : bool) (s : t)
  : option bytes :=
  let h := DigestHasher.new in
  let h :=
    if isFingerprinted s then
      match getSandbox s false with
      | Some sb =>
          DigestHasher.fingerprint h
            (DigestHasher.sliceRecipes (calculate (CoreSandbox.coreStep sb)))
      | None => h
      end
    else h in
  let sandbox :=
    if RecipeSet.sandboxInvariant (Recipe.getRecipeSet(recipe s)) then None
    else getSandbox s forceSandbox in
  h ← updateSandbox calculate h sandbox;
  h ← updateScript h (getDigestScript s);
  n ← pack_I (length (getTools s));
  h ← foldM (updateTool calculate) (Dict.sorted_items (getTools s))
        (DigestHasher.update h n);
  n ← pack_I (length (digestEnv s));
  h ← foldM updateKeyVal (Dict.sorted_items (digestEnv s)) (DigestHasher.update h n);
  n ← pack_I (length (validArgs s));
  let h := fold_left (updateArg calculate) (validArgs s) (DigestHasher.update h n) in
  Some (DigestHasher.digest h).

(** Assignments to attributes of an existing step. *)
Definition setDeterministic (s : t) (d : bool) : t :=
  mk (kind s) (recipe s) (tools s) (sandbox s) (states s) (pkgId s)
     (fingerprintMask s) (isValid s) (digestEnv s) (env s) (args s) (scmList s)
     (variantId s) d (providedEnv s) (providedTools s) (providedDeps s)
     (providedSandbox s).

Definition setVariantId (s : t) (v : bytes) : t :=
  mk (kind s) (recipe s) (tools s) (sandbox s) (states s) (pkgId s)
     (fingerprintMask s) (isValid s) (digestEnv s) (env s) (args s) (scmList s)
     v (deterministic s) (providedEnv s) (providedTools s) (providedDeps s)
     (providedSandbox s).

Definition setProvided (s : t) (pe : dict) (pt : list (string * Provided.tool))
    (pd : list (CoreRef.t t)) (ps : option Provided.sandbox) : t :=
  mk (kind s) (recipe s) (tools s) (sandbox s) (states s) (pkgId s)
     (fingerprintMask s) (isValid s) (digestEnv s) (env s) (args s) (scmList s)
     (variantId s) (deterministic s) pe pt pd ps.

(** The same step with other dictionaries for the tools of its package
    and for its digest environment. *)
Definition withDicts (s : t) (tl : list (string * CoreTool.t t)) (de : dict) : t :=
  mk (kind s) (recipe s) tl (sandbox s) (states s) (pkgId s)
     (fingerprintMask s) (isValid s) de (env s) (args s) (scmList s)
     (variantId s) (deterministic s) (providedEnv s) (providedTools s)
     (providedDeps s) (providedSandbox s).

(** [CoreStep.__init__]. The package attributes come first, [scmList] is
    set by [CoreCheckoutStep.__init__] before it calls this constructor.
    [struct.error] from the digest is the [None] result. *)
Definition init (kind : StepKind) (recipe : Recipe.t)
    (tools : list (string * CoreTool.t t)) (sandbox : option (CoreSandbox.t t))
    (states : list (string * PluginState)) (pkgId : nat) (fingerprintMask : Z)
    (scmList : list ScmSpec.t)
    (isValid deterministic : bool) (digestEnv env : dict) (args : list (CoreRef.t t))
  : option t :=
  let self := mk kind recipe tools sandbox states pkgId fingerprintMask isValid
                 digestEnv env args scmList [] false [] [] [] None in
  let self := setDeterministic self
                (deterministic && forallb isDeterministic (getAllDepCoreSteps self true)) in
  v ← getDigest variantId false self;
  Some (setVariantId self v).

(** The provided tools and sandbox as the consumers see them. *)
Definition toolOf (s : t) (p : Provided.tool) : CoreTool.t t :=
  CoreTool.mk s (Provided.path p) (Provided.libs p) (Provided.netAccess p)
    (Provided.environment p) (Provided.fingerprintScript p) (Provided.fingerprintIf p).

Definition providedToolsOf (s : t) : list (string * CoreTool.t t) :=
  map (fun np => (np.1, toolOf s np.2)) (providedTools s).

Definition providedSandboxOf (s : t) : option (CoreSandbox.t t) :=
  match providedSandbox s with
  | Some p => Some (CoreSandbox.mk s (Provided.enabled p) (Provided.paths p)
                      (Provided.mounts p) (Provided.sbEnvironment p))
  | None => None
  end.

(** ** Result-Id *)

Definition rUpdateStr (h : bytes) (p : string) : option bytes :=
  n ← pack_I (String.length p); Some (h ++ n ++ utf8 p).

Definition rUpdateKeyVal (h : bytes) (kv : string * string) : option bytes :=
  a ← pack_I (String.length kv.1);
  b ← pack_I (String.length kv.2);
  Some (h ++ a ++ b ++ utf8 (kv.1 ++ kv.2)).

Definition rUpdateDict (h : bytes) (d : dict) : option bytes :=
  n ← pack_I (length d);
  foldM rUpdateKeyVal (Dict.sorted_items d) (h ++ n).

Definition rUpdateTool (self : t) (h : bytes) (nt : string * Provided.tool)
  : option bytes :=
  let name := nt.1 in
  let tool := nt.2 in
  let h := h ++ variantId self in
  a ← pack_I (String.length name);
  b ← pack_I (String.length (Provided.path tool));
  c ← pack_I (length (Provided.libs tool));
  let h := h ++ a ++ b ++ c ++ utf8 name ++ utf8 (Provided.path tool) in
  h ← foldM rUpdateStr (Provided.libs tool) h;
  n ← pack_I (length (Provided.environment tool));
  let h := h ++ pack_bool (Provided.netAccess tool) ++ n in
  h ← foldM rUpdateKeyVal (Dict.sorted_items (Provided.environment tool)) h;
  rUpdateStr h (Provided.fingerprintScript tool).

Definition rUpdateMount (h : bytes) (m : string * string * list string)
  : option bytes :=
  let '(mntFrom, mntTo, mntOpts) := m in
  a ← pack_I (String.length mntFrom);
  b ← pack_I (String.length mntTo);
  c ← pack_I (length mntOpts);
  Some (h ++ a ++ b ++ c ++ utf8 (mntFrom ++ mntTo ++ String.concat "" mntOpts)).

(** [getResultId]: the bytes fed to [hashlib.sha1()], then its digest. *)
Definition getResultId (self : t) : option bytes :=
  let h := variantId self in
  h ← rUpdateDict h (providedEnv self);
  n ← pack_I (length (providedTools self));
  h ← foldM (rUpdateTool self) (Dict.sorted_items (providedTools self)) (h ++ n);
  n ← pack_I (length (providedDeps self));
  let h := fold_left (fun h dep => h ++ variantId (CoreRef.destination dep))
             (providedDeps self) (h ++ n) in
  h ← match providedSandbox self with
      | Some sb =>
          let h := h ++ variantId self in
          n ← pack_I (length (Provided.paths sb));
          h ← foldM rUpdateStr (Provided.paths sb) (h ++ n);
          n ← pack_I (length (Provided.mounts sb));
          h ← foldM rUpdateMount (Provided.mounts sb) (h ++ n);
          rUpdateDict h (Provided.sbEnvironment sb)
      | None => Some (h ++ zeros 20)
      end;
  Some (SHA1.sha1 h).

(** ** What the statements about [getDigest] speak of *)

(** A length that [struct.pack("<I", n)] accepts. *)
Definition fits (n : nat) : Prop := (Z.of_nat n < 4294967296)%Z.
Definition strFits (p : string) : Prop := fits (String.length p).

(** Every length that [getDigest] packs is below [2^32]. *)
Definition digestFits (forceSandbox : bool) (s : t) : Prop :=
  (if RecipeSet.sandboxInvariant (Recipe.getRecipeSet(recipe s)) then True
   else match getSandbox s forceSandbox with
        | Some sb => fits (length (CoreSandbox.paths sb))
                     /\ Forall strFits (CoreSandbox.paths sb)
        | None => True
        end)
  /\ match getDigestScript s with Some p => strFits p | None => True end
  /\ fits (length (getTools s))
  /\ Forall (fun nt => strFits (CoreTool.path nt.2)
                       /\ fits (length (CoreTool.libs nt.2))
                       /\ Forall strFits (CoreTool.libs nt.2)) (getTools s)
  /\ fits (length (digestEnv s))
  /\ Forall (fun kv => strFits kv.1 /\ strFits kv.2) (digestEnv s)
  /\ fits (length (validArgs s)).

(** The step has something for the host part of its digest: it is
    fingerprinted and runs in a sandbox, or a valid argument brings a host
    slice (its digest has 40 bytes). *)
Definition hostContribution (calculate : t -> bytes) (s : t) : Prop :=
  (isFingerprinted s = true /\ is_Some (getSandbox s false))
  \/ Exists (fun a => length (calculate a) = 40) (validArgs s).

(** The steps whose digest [getDigest] asks for. *)
Definition digestDeps (s : t) (forceSandbox : bool) : list t :=
  validArgs s
  ++ map (fun nd => CoreTool.coreStep nd.2) (getTools s)
  ++ match getSandbox s forceSandbox with
     | Some sb => [CoreSandbox.coreStep sb]
     | None => []
     end
  ++ match getSandbox s false with
     | Some sb => [CoreSandbox.coreStep sb]
     | None => []
     end.

(** What the digest is computed from: the sandbox contribution (the host
    slice of a fingerprinted step, the recipe slice and the paths of the
    sandbox), the digest script, the tool table in the order of the tool
    names (recipe slice of the tool's step, path, libs), the digest
    environment in the order of its names, and the digests of the valid
    arguments. *)
Record DigestInput := mkDigestInput {
  inFingerprint : option bytes;
  inSandbox : option (bytes * list string);
  inScript : option string;
  inTools : list (bytes * string * list string);
  inEnv : list (string * string);
  inArgs : list bytes
}.

Definition digestInput (calculate : t -> bytes) (forceSandbox : bool) (s : t)
  : DigestInput :=
  {| inFingerprint :=
       if isFingerprinted s then
         match getSandbox s false with
         | Some sb => Some (DigestHasher.sliceRecipes (calculate (CoreSandbox.coreStep sb)))
         | None => None
         end
       else None;
     inSandbox :=
       if RecipeSet.sandboxInvariant (Recipe.getRecipeSet(recipe s)) then None
       else match getSandbox s forceSandbox with
            | Some sb => Some (DigestHasher.sliceRecipes (calculate (CoreSandbox.coreStep sb)),
                               CoreSandbox.paths sb)
            | None => None
            end;
     inScript := getDigestScript s;
     inTools := map (fun nt => (DigestHasher.sliceRecipes (calculate (CoreTool.coreStep nt.2)),
                                CoreTool.path nt.2, CoreTool.libs nt.2))
                  (Dict.sorted_items (getTools s));
     inEnv := Dict.sorted_items (digestEnv s);
     inArgs := map calculate (validArgs s) |}.

Definition updateToolRow (h : DigestHasher.t) (row : bytes * string * list string)
  : option DigestHasher.t :=
  let h := DigestHasher.update h row.1.1 in
  a ← pack_I (String.length row.1.2);
  b ← pack_I (length row.2);
  let h := DigestHasher.update h (a ++ b) in
  let h := DigestHasher.update h (utf8 row.1.2) in
  foldM updateStr row.2 h.

Definition updateArgDigest (h : DigestHasher.t) (a : bytes) : DigestHasher.t :=
  DigestHasher.fingerprint
    (DigestHasher.update h (DigestHasher.sliceRecipes a))
    (DigestHasher.sliceHost a).

(** The digest as a function of its input alone. *)
Definition digestOf (i : DigestInput) : option bytes :=
  let h := DigestHasher.new in
  let h := match inFingerprint i with
           | Some b => DigestHasher.fingerprint h b
           | None => h
           end in
  h ← match inSandbox i with
      | Some sp =>
          n ← pack_I (length sp.2);
          foldM updateStr sp.2 (DigestHasher.update (DigestHasher.update h sp.1) n)
      | None => Some (DigestHasher.update h (zeros 20))
      end;
  h ← updateScript h (inScript i);
  n ← pack_I (length (inTools i));
  h ← foldM updateToolRow (inTools i) (DigestHasher.update h n);
  n ← pack_I (length (inEnv i));
  h ← foldM updateKeyVal (inEnv i) (DigestHasher.update h n);
  n ← pack_I (length (inArgs i));
  let h := fold_left updateArgDigest (inArgs i) (DigestHasher.update h n) in
  Some (DigestHasher.digest h).

(** ** Constructed steps *)

(** [d] is one of the steps that [s] depends on directly: an argument, the
    step of a tool it uses, or the step of its sandbox, with the sandbox
    forced as the constructor asks for it. *)
Definition dependsOn (s d : t) : Prop := In d (getAllDepCoreSteps s true).

(** The steps that the program builds: a step comes out of the constructor
    with steps it depends on that were built before it, and a package step
    gets its provides assigned afterwards. *)
Inductive constructed : t -> Prop :=
| constructed_init kind recipe tools sandbox states pkgId fingerprintMask scmList
    isValid deterministic digestEnv env args s :
    init kind recipe tools sandbox states pkgId fingerprintMask scmList
         isValid deterministic digestEnv env args = Some s ->
    (forall d, dependsOn s d -> constructed d) ->
    constructed s
| constructed_provided s pe pt pd ps :
    constructed s -> constructed (setProvided s pe pt pd ps).
End CoreStep.

(** ** The substitution language of [Env] *)

(** Modelled from the spec: [bob.stringparser] (the class [Env] with
    [substitute] and [evaluate], the string parser and the built-in string
    functions) is not part of the sources at hand. The model follows
    section 4.1 of the specification: [$NAME] and [${NAME}] give the value
    of [NAME] and fail when it is undefined; [${NAME:-default}] and
    [${NAME:+alt}] have the shell semantics, the default and the alternative
    being substituted only when they are used; [$(fn,arg1,...)] calls a
    string function with its substituted arguments, which are separated by
    commas outside of parentheses, a literal comma being written [\,]; every
    variable that is read is recorded as touched. The text is read one
    character at a time with a stack of the constructs that are open. *)
Module StringParser.

(** The call context of the string functions: the sandbox flag and the
    names of the tools in view. *)
Record FunArgs := mkFunArgs { sandbox : bool; tools : list string }.

Inductive Frame :=
| Top (buf : string)
| Dollar
| Name (n : string)
| BraceName (n : string)
| BraceColon (n : string)
| BraceAlt (act : bool) (value : string) (plus needed : bool) (buf : string)
| Call (act : bool) (done : list string) (cur : string) (depth : nat) (esc : bool).

Record State := mkState { stack : list Frame; touched : gset string }.

Definition isNameChar (c : ascii) : bool :=
  let n := nat_of_ascii c in
  (Nat.leb 65 n && Nat.leb n 90) || (Nat.leb 97 n && Nat.leb n 122)
  || (Nat.leb 48 n && Nat.leb n 57) || Nat.eqb n 95.

(** The truth of a substituted text: the empty text, [0] and [false] are
    false. *)
Definition isTrue (s : string) : bool :=
  negb (String.eqb s "" || String.eqb s "0" || String.eqb s "false").

Definition ofBool (b : bool) : string := if b then "true" else "false".

(** The built-in string functions. [match] needs regular expressions and is
    not modelled: it fails like an unknown function. *)
Definition applyFun (fa : FunArgs) (fn : string) (args : list string) : result string :=
  if String.eqb fn "and" then Ok (ofBool (forallb isTrue args))
  else if String.eqb fn "or" then Ok (ofBool (existsb isTrue args))
  else if String.eqb fn "not" then
    match args with
    | [a] => Ok (ofBool (negb (isTrue a)))
    | _ => Err (ParseError "not expects one argument")
    end
  else if String.eqb fn "eq" then
    match args with
    | [a; b] => Ok (ofBool (String.eqb a b))
    | _ => Err (ParseError "eq expects two arguments")
    end
  else if String.eqb fn "if-then-else" then
    match args with
    | [c; a; b] => Ok (if isTrue c then a else b)
    | _ => Err (ParseError "if-then-else expects three arguments")
    end
  else if String.eqb fn "is-sandbox-enabled" then
    match args with
    | [] => Ok (ofBool (sandbox fa))
    | _ => Err (ParseError "is-sandbox-enabled expects no arguments")
    end
  else if String.eqb fn "is-tool" then
    match args with
    | [a] => Ok (ofBool (existsb (String.eqb a) (tools fa)))
    | _ => Err (ParseError "is-tool expects one argument")
    end
  else Err (ParseError "Unknown function").

(** The text of the innermost open construct is in use. *)
Fixpoint active (stk : list Frame) : bool :=
  match stk with
  | [] => true
  | Top _ :: _ => true
  | BraceAlt act _ _ _ _ :: _ => act
  | Call act _ _ _ _ :: _ => act
  | _ :: r => active r
  end.

(** Append substituted text to the innermost construct that collects text. *)
Fixpoint emit (s : string) (stk : list Frame) : list Frame :=
  match stk with
  | [] => []
  | Top buf :: r => Top (buf ++ s) :: r
  | BraceAlt a v p n buf :: r => BraceAlt a v p n (buf ++ s) :: r
  | Call a d cur depth esc :: r => Call a d (cur ++ s) depth esc :: r
  | f :: r => f :: emit s r
  end.

Section Parser.
Variable env : dict.
Variable fa : FunArgs.

(** Read variable [n] where its value is needed. *)
Definition lookup (act : bool) (n : string) (t : gset string)
  : result (string * gset string) :=
  if act then
    match Dict.get n env with
    | Some v => Ok (v, {[ n ]} ∪ t)
    | None => Err (ParseError "undefined variable")
    end
  else Ok ("", t).

Definition chr (c : ascii) : string := String c "".

(** A character of the text of a function argument. *)
Definition callChar (act : bool) (done : list string) (cur : string) (depth : nat)
    (r : list Frame) (t : gset string) (c : ascii) : result State :=
  if Ascii.eqb c "\" then Ok (mkState (Call act done cur depth true :: r) t)
  else if Ascii.eqb c "$" then Ok (mkState (Dollar :: Call act done cur depth false :: r) t)
  else if Ascii.eqb c "(" then
    Ok (mkState (Call act done (cur ++ "(") (S depth) false :: r) t)
  else if Ascii.eqb c "," then
    match depth with
    | O => Ok (mkState (Call act (done ++ [cur]) "" 0 false :: r) t)
    | S _ => Ok (mkState (Call act done (cur ++ ",") depth false :: r) t)
    end
  else if Ascii.eqb c ")" then
    match depth with
    | S d => Ok (mkState (Call act done (cur ++ ")") d false :: r) t)
    | O =>
        match done ++ [cur] with
        | fn :: args =>
            v ← (if act then applyFun fa fn args else Ok "");
            Ok (mkState (emit v r) t)
        | [] => Err (ParseError "Expected function name")
        end
    end
  else Ok (mkState (Call act done (cur ++ chr c) depth false :: r) t).

(** A character where text is collected. *)
Definition stepText (st : State) (c : ascii) : result State :=
  let t := touched st in
  match stack st with
  | Top buf :: r =>
      if Ascii.eqb c "$" then Ok (mkState (Dollar :: Top buf :: r) t)
      else Ok (mkState (Top (buf ++ chr c) :: r) t)
  | BraceAlt a v p n buf :: r =>
      if Ascii.eqb c "$" then Ok (mkState (Dollar :: BraceAlt a v p n buf :: r) t)
      else if Ascii.eqb c "}" then
        Ok (mkState (emit (if n then buf else if p then "" else v) r) t)
      else Ok (mkState (BraceAlt a v p n (buf ++ chr c) :: r) t)
  | Call act done cur depth true :: r =>
      if Ascii.eqb c "," then Ok (mkState (Call act done (cur ++ ",") depth false :: r) t)
      else callChar act done (cur ++ "\") depth r t c
  | Call act done cur depth false :: r => callChar act done cur depth r t c
  | _ => Err (ParseError "Invalid substitution")
  end.

Definition step (st : State) (c : ascii) : result State :=
  let t := touched st in
  match stack st with
  | Dollar :: r =>
      if Ascii.eqb c "{" then Ok (mkState (BraceName "" :: r) t)
      else if Ascii.eqb c "(" then Ok (mkState (Call (active r) [] "" 0 false :: r) t)
      else if isNameChar c then Ok (mkState (Name (chr c) :: r) t)
      else Err (ParseError "Invalid $-substitution")
  | Name n :: r =>
      if isNameChar c then Ok (mkState (Name (n ++ chr c) :: r) t)
      else
        '(v, t') ← lookup (active r) n t;
        stepText (mkState (emit v r) t') c
  | BraceName n :: r =>
      if Ascii.eqb c "}" then
        '(v, t') ← lookup (active r) n t;
        Ok (mkState (emit v r) t')
      else if Ascii.eqb c ":" then Ok (mkState (BraceColon n :: r) t)
      else if isNameChar c then Ok (mkState (BraceName (n ++ chr c) :: r) t)
      else Err (ParseError "Invalid variable name")
  | BraceColon n :: r =>
      if Ascii.eqb c "-" || Ascii.eqb c "+" then
        let act := active r in
        let v := if act then match Dict.get n env with Some v => v | None => "" end
                 else "" in
        let t' := if act then {[ n ]} ∪ t else t in
        let plus := Ascii.eqb c "+" in
        let needed := if plus then negb (String.eqb v "") else String.eqb v "" in
        Ok (mkState (BraceAlt (act && needed) v plus needed "" :: r) t')
      else Err (ParseError "Invalid variable substitution")
  | _ => stepText st c
  end.

Fixpoint run (st : State) (text : string) : result State :=
  match text with
  | EmptyString => Ok st
  | String c r => st' ← step st c; run st' r
  end.

(** The end of the text: nothing but a bare [$NAME] may be open. *)
Definition finish (st : State) : result (string * gset string) :=
  match stack st with
  | [Top buf] => Ok (buf, touched st)
  | [Name n; Top buf] =>
      '(v, t') ← lookup true n (touched st); Ok (String.append buf v, t')
  | _ => Err (ParseError "Unexpected end of string")
  end.

(** The substituted text and the variables that were read. *)
Definition parse (text : string) : result (string * gset string) :=
  st ← run (mkState [Top ""] ∅) text; finish st.
End Parser.
End StringParser.

(** [Env]. Modelled from the spec (section 3 and 4.1): a mapping from names
    to values in insertion order. The touched names are kept by the
    elaboration itself, which collects what each operation reports. *)
Module Env.

(** [env.substitute(text, diagKey)] with the names it read. *)
Definition substitute (fa : StringParser.FunArgs) (env : dict) (text : string)
  : result (string * gset string) :=
  StringParser.parse env fa text.

(** [env.evaluate(expr, diagKey)]: a missing condition holds. *)
Definition evaluate (fa : StringParser.FunArgs) (env : dict) (cond : option string)
  : result (bool * gset string) :=
  match cond with
  | None => Ok (true, ∅)
  | Some c =>
      '(v, t) ← substitute fa env c; Ok (StringParser.isTrue v, t)
  end.

(** [env.derive(overrides)], [env.update(other)] *)
Definition derive (env overrides : dict) : dict := Dict.update env overrides.

(** [env.prune(names)]: retain only the listed names. *)
Definition prune (env : dict) (names : gset string) : dict :=
  List.filter (fun kv => bool_decide (kv.1 ∈ names)) env.

(** [env.filter(globs)]: retain the names that the glob list accepts; every
    name that was looked at is touched. Without a list nothing happens. *)
Definition filter (env : dict) (globs : option (list GlobPred)) : dict * gset string :=
  match globs with
  | None => (env, ∅)
  | Some _ => (List.filter (fun kv => checkGlobList kv.1 globs) env,
               list_to_set (Dict.keys env))
  end.

(** [{ key : env.substitute(value, ...) for key, value in d.items() }] *)
Definition substituteAll (fa : StringParser.FunArgs) (env : dict) (d : dict)
  : result (dict * gset string) :=
  foldR (fun acc kv =>
           '(v, t) ← substitute fa env kv.2;
           Ok (Dict.set kv.1 v acc.1, t ∪ acc.2))
        d ([], ∅).

(** [[ env.substitute(l, ...) for l in texts ]] *)
Definition substituteList (fa : StringParser.FunArgs) (env : dict) (texts : list string)
  : result (list string * gset string) :=
  foldR (fun acc text =>
           '(v, t) ← substitute fa env text;
           Ok (acc.1 ++ [v], t ∪ acc.2))
        texts ([], ∅).
End Env.

(** ** Packages and the memoisation tables *)

Abbreviation Ref := (CoreRef.t CoreStep.t).
Abbreviation Tool := (CoreTool.t CoreStep.t).
Abbreviation Sandbox := (CoreSandbox.t CoreStep.t).

Module CorePackage.
(** [internalRef] holds the overlays of [refDeref] and is left out. *)
Record t := mk {
  recipe : Recipe.t;
  tools : list (string * Tool);
  sandbox : option Sandbox;
  directDepSteps : list Ref;
  indirectDepSteps : list Ref;
  states : list (string * PluginState);
  pkgId : nat;
  fingerprintMask : Z;
  checkoutStep : CoreStep.t;
  buildStep : CoreStep.t;
  packageStep : CoreStep.t
}.

Definition getCorePackageStep (p : t) : CoreStep.t := packageStep p.
Definition getName (p : t) : string := Recipe.getPackageName (recipe p).
End CorePackage.

(** [CoreRef(d, [name], ...)] for a reference [d]: the destination of [d]
    with the name in front of its stack. *)
Definition wrapRef (name : string) (d : Ref) : Ref :=
  CoreRef.mk (CoreRef.destination d) (name :: CoreRef.stackAdd d).

Module DepTracker.
Record t := mk { item : Ref; isNew : bool; usedResult : bool }.

Definition new (item : Ref) : t := mk item true false.

(** The methods return their result and the tracker as they leave it. *)
Definition prime (d : t) : bool * t :=
  if isNew d then (true, mk (item d) false (usedResult d)) else (false, d).

Definition useResultOnce (d : t) : bool * t :=
  if usedResult d then (false, d) else (true, mk (item d) (isNew d) true).
End DepTracker.

Module UniquePackageList.
(** [errorHandler] is [__raiseIncompatibleProvided]; [stack] only serves
    its message. *)
Record t := mk { ret : list Ref; cache : list (string * Ref) }.

Definition new : t := mk [] [].

Definition append (l : t) (ref : Ref) : result t :=
  let step := CoreRef.destination ref in
  let name := CoreStep.getName step in
  match Dict.get name (cache l) with
  | None => Ok (mk (ret l ++ [ref]) (Dict.set name ref (cache l)))
  | Some ref2 =>
      if bool_decide (CoreStep.variantId (CoreRef.destination ref2)
                      = CoreStep.variantId step)
      then Ok l
      else Err (ParseError "Incompatible variants of package")
  end.

Definition extend (l : t) (gen : list Ref) : result t := foldR append gen l.

Definition result_ (l : t) : list Ref := ret l.
End UniquePackageList.

(** Equality of two Python dictionaries: the same keys with equal values,
    in whatever order. *)
Definition dictEqb {V : Type} (eqb : V -> V -> bool) (a b : list (string * V)) : bool :=
  Nat.eqb (length a) (length b)
  && forallb (fun kv => match Dict.get kv.1 b with
                        | Some v => eqb kv.2 v
                        | None => false
                        end) a.

(** [PluginState.__eq__]: [vars(self) == vars(other)] *)
Definition stateEqb (a b : PluginState) : bool := dictEqb String.eqb a b.

Module PackageMatcher.
Record t := mk {
  corePackage : CorePackage.t;
  env : list (string * option string);
  tools : list (string * option bytes);
  states : list (string * PluginState);
  sandbox : option bytes;
  subTreePackages : gset string
}.

Definition toolId (tool : option Tool) : option bytes :=
  match tool with
  | Some t => Some (CoreStep.variantId (CoreTool.coreStep t))
  | None => None
  end.

Definition sandboxId (sandbox : option Sandbox) : option bytes :=
  match sandbox with
  | Some s => Some (CoreStep.variantId (CoreSandbox.coreStep s))
  | None => None
  end.

(** [PackageMatcher.__init__]; the touched keys of the two environments
    are passed along with their data. *)
Definition new (corePackage : CorePackage.t)
    (envData : dict) (envTouched : gset string)
    (toolsData : list (string * Tool)) (toolsTouched : gset string)
    (states : list (string * PluginState)) (sandbox : option Sandbox)
    (subTreePackages : gset string) : t :=
  mk corePackage
     (map (fun name => (name, Dict.get name envData)) (elements envTouched))
     (map (fun name => (name, toolId (Dict.get name toolsData))) (elements toolsTouched))
     states (sandboxId sandbox) subTreePackages.

Definition matches (m : t) (inputEnv : dict) (inputTools : list (string * Tool))
    (inputStates : list (string * PluginState)) (inputSandbox : option Sandbox) : bool :=
  forallb (fun ne => bool_decide (ne.2 = Dict.get ne.1 inputEnv)) (env m)
  && forallb (fun nt => bool_decide (nt.2 = toolId (Dict.get nt.1 inputTools))) (tools m)
  && bool_decide (sandbox m = sandboxId inputSandbox)
  && dictEqb stateEqb (states m) inputStates.

(** The names that [touch] marks in the environment and in the tools. *)
Definition touchedEnv (m : t) : gset string := list_to_set (map fst (env m)).
Definition touchedTools (m : t) : gset string := list_to_set (map fst (tools m)).
End PackageMatcher.

(** The mutable state of the elaboration: for every recipe, by its package
    name, the list [__corePackagesByMatch] and the dictionary
    [__corePackagesById]; and the counter of [uidGen]. *)
Module Store.
Record t := mk {
  byMatch : gmap string (list PackageMatcher.t);
  byId : gmap string (gmap bytes CorePackage.t);
  cur : nat
}.

Definition empty : t := mk ∅ ∅ 0.

Definition matchers (s : t) (name : string) : list PackageMatcher.t :=
  default [] (byMatch s !! name).

Definition packages (s : t) (name : string) : gmap bytes CorePackage.t :=
  default ∅ (byId s !! name).
End Store.

(** ** The step constructors of the subclasses *)

(** [overlappingPaths] on the components of two normalised paths. *)
Definition pathParts (p : list string) : list string :=
  match p with
  | ["."] => []
  | _ => p
  end.

Fixpoint agreeingParts (p1 p2 : list string) : bool :=
  match p1, p2 with
  | a :: r1, b :: r2 => String.eqb a b && agreeingParts r1 r2
  | _, _ => true
  end.

Definition overlappingPaths (p1 p2 : list string) : bool :=
  agreeingParts (pathParts p1) (pathParts p2).

(** The validation that SCM paths do not overlap. *)
Fixpoint validateScmPaths (knownPaths : list (list string)) (scmList : list ScmSpec.t)
  : result unit :=
  match scmList with
  | [] => Ok tt
  | s :: r =>
      if ScmSpec.isabs s then Err (ParseError "SCM paths must be relative!")
      else if existsb (fun known => overlappingPaths known (ScmSpec.directory s)) knownPaths
      then Err (ParseError "SCM paths overlap.")
      else validateScmPaths (knownPaths ++ [ScmSpec.directory s]) r
  end.

(** The attributes of the package that the constructors hand to
    [CoreStep.__init__]. *)
Record PackageBase := mkPackageBase {
  pbRecipe : Recipe.t;
  pbTools : list (string * Tool);
  pbSandbox : option Sandbox;
  pbStates : list (string * PluginState);
  pbPkgId : nat;
  pbFingerprintMask : Z
}.

Definition initStep (kind : StepKind) (p : PackageBase) (scmList : list ScmSpec.t)
    (isValid deterministic : bool) (digestEnv env : dict) (args : list Ref)
  : result CoreStep.t :=
  packed (CoreStep.init kind (pbRecipe p) (pbTools p) (pbSandbox p) (pbStates p)
            (pbPkgId p) (pbFingerprintMask p) scmList isValid deterministic
            digestEnv env args).

(** The SCMs whose [if] condition holds in the full environment. *)
Definition activeScms (fa : StringParser.FunArgs) (fullEnv : dict) (scms : list ScmSpec.t)
  : result (list ScmSpec.t * gset string) :=
  foldR (fun (acc : list ScmSpec.t * gset string) scm =>
           '(c, t) ← Env.evaluate fa fullEnv (ScmSpec.cond scm);
           Ok (if c : bool then acc.1 ++ [scm] else acc.1, t ∪ acc.2))
        scms ([], ∅).

(** [CoreCheckoutStep.__init__]; [checkout] is [None] for
    [createInvalidCoreCheckoutStep]. The tuple that is passed is never
    empty, so [if checkout:] asks only whether one was passed. *)
Definition CoreCheckoutStep (p : PackageBase)
    (checkout : option (option string * option string * list ScmSpec.t
                        * list CheckoutAssert.t))
    (fa : StringParser.FunArgs) (fullEnv digestEnv env : dict)
  : result (CoreStep.t * gset string) :=
  match checkout with
  | Some co =>
      '(scmList, t) ← activeScms fa fullEnv co.1.2;
      let isValid := match co.1.1.1 with Some _ => true | None => false end
                     || match scmList with [] => false | _ => true end in
      checked ← validateScmPaths [] scmList;
      s ← initStep CheckoutKind p scmList isValid
            (Recipe.checkoutDeterministic (pbRecipe p)) digestEnv env [];
      Ok (s, t)
  | None =>
      s ← initStep CheckoutKind p [] false
            (Recipe.checkoutDeterministic (pbRecipe p)) [] [] [];
      Ok (s, ∅)
  end.

(** [CoreBuildStep.__init__] and [CorePackageStep.__init__] *)
Definition CoreBuildStep (p : PackageBase) (script : option string * option string)
    (digestEnv env : dict) (args : list Ref) : result CoreStep.t :=
  initStep BuildKind p [] (match script.1 with Some _ => true | None => false end)
    true digestEnv env args.

Definition CorePackageStep (p : PackageBase) (script : option string * option string)
    (digestEnv env : dict) (args : list Ref) : result CoreStep.t :=
  initStep PackageKind p [] (match script.1 with Some _ => true | None => false end)
    true digestEnv env args.

(** [AbstractTool.prepare] without the step, see [Provided]. *)
Definition prepareTool (fa : StringParser.FunArgs) (env : dict) (tool : AbstractTool.t)
  : result (Provided.tool * gset string) :=
  '(path, t1) ← Env.substitute fa env (AbstractTool.path tool);
  '(libs, t2) ← Env.substituteList fa env (AbstractTool.libs tool);
  '(environment, t3) ← Env.substituteAll fa env (AbstractTool.environment tool);
  Ok (Provided.mkTool path libs (AbstractTool.netAccess tool) environment
        (AbstractTool.fingerprintScript tool) (AbstractTool.fingerprintIf tool),
      t1 ∪ t2 ∪ t3).

(** The environment of [CoreSandbox.__init__]: the comprehension iterates
    over the dictionary itself, that is over its keys, and unpacks each key
    into [(k, v)]. A key of two characters is split, any other key raises
    [ValueError]. *)
Definition sandboxEnvironment (fa : StringParser.FunArgs) (env : dict) (d : dict)
  : result (dict * gset string) :=
  foldR (fun acc kv =>
           match kv.1 with
           | String k (String v EmptyString) =>
               '(x, t) ← Env.substitute fa env (String v "");
               Ok (Dict.set (String k "") x acc.1, t ∪ acc.2)
           | _ => Err ValueError
           end)
        d ([], ∅).

(** [CoreSandbox.__init__] without the step. *)
Definition prepareSandbox (fa : StringParser.FunArgs) (rs : RecipeSet.t) (env : dict)
    (enabled : bool) (spec : SandboxSpec.t) : result (Provided.sandbox * gset string) :=
  '(mounts, t1) ←
    foldR (fun (acc : list (string * string * list string) * gset string) mount =>
             '(a, ta) ← Env.substitute fa env mount.1.1;
             '(b, tb) ← Env.substitute fa env mount.1.2;
             Ok (if negb (String.eqb a "") && negb (String.eqb b "")
                 then acc.1 ++ [(a, b, mount.2)] else acc.1,
                 ta ∪ tb ∪ acc.2))
          (SandboxSpec.mount spec) ([], ∅);
  '(environment, t2) ← sandboxEnvironment fa env (SandboxSpec.environment spec);
  Ok (Provided.mkSandbox enabled
        (RecipeSet.getSandboxPaths rs ++ SandboxSpec.paths spec)
        (mounts ++ RecipeSet.getSandboxMounts rs)
        environment,
      t1 ∪ t2).

(** ** Elaboration: [Recipe.prepare] *)

Module Prepare.

(** The arguments of a call, apart from [sandboxEnabled], which is the same
    for the whole elaboration, and the stack. *)
Record Inputs := mkInputs {
  inputEnv : dict;
  inputStates : list (string * PluginState);
  inputSandbox : option Sandbox;
  inputTools : list (string * Tool)
}.

(** What a call hands back: the package and the names of the packages
    below it, and the names that the call touched in the environment and
    in the tools of its caller. *)
Record Output := mkOutput {
  package : CorePackage.t;
  subTree : gset string;
  touchedEnv : gset string;
  touchedTools : gset string
}.

(** The local variables of [prepare] that the loop over the dependencies
    changes, with the store. The plugin states only have the handlers of
    the base class, which leave them as they are. *)
Record Loop := mkLoop {
  store : Store.t;
  env : dict;
  tools : list (string * Tool);
  sandbox : option Sandbox;
  depEnv : dict;
  depTools : list (string * Tool);
  depSandbox : option Sandbox;
  subTreePackages : gset string;
  directPackages : list Ref;
  indirectPackages : list Ref;
  provideDeps : UniquePackageList.t;
  results : list Ref;
  thisDeps : list (string * DepTracker.t);
  touchedE : gset string;
  touchedT : gset string
}.

(** [setFunArgs]: the sandbox flag and the tools in view. *)
Definition funArgs (sandboxEnabled : bool) (sandbox : option Sandbox)
    (tools : list (string * Tool)) : StringParser.FunArgs :=
  StringParser.mkFunArgs
    (match sandbox with Some _ => sandboxEnabled | None => false end)
    (Dict.keys tools).

(** [set(stack) & m.subTreePackages] is not empty. *)
Definition onStack (stack : list string) (names : gset string) : bool :=
  existsb (fun n => bool_decide (n ∈ names)) stack.

(** The first entry of [__corePackagesByMatch] that matches. *)
Definition findMatch (ms : list PackageMatcher.t) (i : Inputs) : option PackageMatcher.t :=
  List.find (fun m => PackageMatcher.matches m (inputEnv i) (inputTools i)
                        (inputStates i) (inputSandbox i)) ms.

(** [for i in self.__varSelf: env = env.derive({...})] and the same loop
    for [self.__varPrivate]. *)
Definition applyEnvs (fa : StringParser.FunArgs) (env : dict) (l : list dict)
  : result (dict * gset string) :=
  foldR (fun (acc : dict * gset string) d =>
           '(vals, t) ← Env.substituteAll fa acc.1 d;
           Ok (Env.derive acc.1 vals, t ∪ acc.2))
        l (env, ∅).

(** The dependency tracker of a name, as [thisDeps.setdefault] returns
    it. *)
Definition tracker (thisDeps : list (string * DepTracker.t)) (name : string)
    (depRef : Ref) : DepTracker.t :=
  match Dict.get name thisDeps with
  | Some d => d
  | None => DepTracker.new depRef
  end.

(** The first naming of a dependency makes it a direct package; a later
    one must be the same variant and is an error under the
    [uniqueDependency] policy. *)
Definition primeDirect (uniqueDependency : bool) (dep : Dependency.t) (depRef : Ref)
    (thisDeps : list (string * DepTracker.t)) (directPackages : list Ref)
  : result (list (string * DepTracker.t) * list Ref) :=
  let depTrack := tracker thisDeps (Dependency.recipe dep) depRef in
  let '(isNew, depTrack') := DepTracker.prime depTrack in
  directPackages ←
    (if isNew then Ok (directPackages ++ [depRef])
     else if negb (bool_decide
                     (CoreStep.variantId (CoreRef.destination depRef)
                      = CoreStep.variantId (CoreRef.destination (DepTracker.item depTrack))))
     then Err (ParseError "Multiple incompatible dependencies to package")
     else if uniqueDependency
     then Err (ParseError "Duplicate dependency. Each dependency must only be named once!")
     else Ok directPackages);
  Ok (Dict.set (Dependency.recipe dep) depTrack' thisDeps, directPackages).

(** [if dep.useBuildResult and depTrack.useResultOnce(): results.append(depRef)] *)
Definition useResult (dep : Dependency.t) (depRef : Ref)
    (thisDeps : list (string * DepTracker.t)) (results : list Ref)
  : list (string * DepTracker.t) * list Ref :=
  if Dependency.useBuildResult dep then
    let '(once, depTrack) :=
      DepTracker.useResultOnce (tracker thisDeps (Dependency.recipe dep) depRef) in
    (Dict.set (Dependency.recipe dep) depTrack thisDeps,
     if once then results ++ [depRef] else results)
  else (thisDeps, results).

(** One round of the loop that filters the indirect packages. *)
Definition indirectStep
    (acc : list (string * DepTracker.t) * list Ref * list Ref) (depRef : Ref)
  : result (list (string * DepTracker.t) * list Ref * list Ref) :=
  let '(thisDeps, indirectPackages, results) := acc in
  let depCoreStep := CoreRef.destination depRef in
  let name := CoreStep.getName depCoreStep in
  let depTrack := tracker thisDeps name depRef in
  let '(isNew, depTrack') := DepTracker.prime depTrack in
  indirectPackages ←
    (if isNew then Ok (indirectPackages ++ [depRef])
     else if negb (bool_decide
                     (CoreStep.variantId depCoreStep
                      = CoreStep.variantId (CoreRef.destination (DepTracker.item depTrack))))
     then Err (ParseError "Incompatible variants of package")
     else Ok indirectPackages);
  let '(once, depTrack'') := DepTracker.useResultOnce depTrack' in
  Ok (Dict.set name depTrack'' thisDeps, indirectPackages,
      if once then results ++ [depRef] else results).

Section Elaboration.
(** [RecipeSet.__recipes] and the [sandboxEnabled] argument. *)
Variable recipes : gmap string Recipe.t.
Variable sandboxEnabled : bool.

(** [RecipeSet.getRecipe] *)
Definition getRecipe (packageName : string) : result Recipe.t :=
  match recipes !! packageName with
  | Some r => Ok r
  | None => Err (ParseError "Package requested but not found.")
  end.

(** From the head of [prepare] to the loop over the dependencies. *)
Definition enter (self : Recipe.t) (i : Inputs) (st : Store.t) : result Loop :=
  let sandbox := inputSandbox i in
  let inputTools := match Recipe.filterTools self with
                    | None => inputTools i
                    | Some _ =>
                        List.filter (fun nt => checkGlobList nt.1 (Recipe.filterTools self))
                          (inputTools i)
                    end in
  let tools := inputTools in
  let fa := funArgs sandboxEnabled sandbox tools in
  let '(env, t0) := Env.filter (inputEnv i) (Recipe.filterEnv self) in
  '(env, t1) ← applyEnvs fa env (Recipe.varSelf self);
  let sandbox :=
    match sandbox with
    | Some sb =>
        if checkGlobList (CoreStep.getName (CoreSandbox.coreStep sb))
             (Recipe.filterSandbox self)
        then Some sb else None
    | None => None
    end in
  Ok (mkLoop st env tools sandbox env tools sandbox ∅ [] [] UniquePackageList.new
        [] [] (t0 ∪ t1) ∅).

(** The tools of the recipe's filter, which the matcher stores. *)
Definition filteredTools (self : Recipe.t) (i : Inputs) : list (string * Tool) :=
  match Recipe.filterTools self with
  | None => inputTools i
  | Some _ =>
      List.filter (fun nt => checkGlobList nt.1 (Recipe.filterTools self)) (inputTools i)
  end.

(** What the loop does with the package of a dependency. *)
Definition applyDep (self : Recipe.t) (l : Loop) (dep : Dependency.t)
    (st : Store.t) (out : Output) : result Loop :=
  let p := package out in
  let name := CorePackage.getName p in
  let depCoreStep := CorePackage.getCorePackageStep p in
  let depRef := CoreRef.mk depCoreStep [name] in
  '(thisDeps, directPackages) ←
    primeDirect (RecipeSet.uniqueDependency (Recipe.getRecipeSet self)) dep depRef
      (thisDeps l) (directPackages l);
  let indirectPackages :=
    if Dependency.useDeps dep
    then indirectPackages l ++ map (wrapRef name) (CoreStep.providedDeps depCoreStep)
    else indirectPackages l in
  let '(thisDeps, results) := useResult dep depRef thisDeps (results l) in
  let fwd := Dependency.provideGlobal dep in
  let providedTools := CoreStep.providedToolsOf depCoreStep in
  let tools := if Dependency.useTools dep then Dict.update (tools l) providedTools
               else tools l in
  let depTools := if Dependency.useTools dep && fwd
                  then Dict.update (depTools l) providedTools else depTools l in
  let env := if Dependency.useEnv dep
             then Dict.update (env l) (CoreStep.providedEnv depCoreStep) else env l in
  let depEnv := if Dependency.useEnv dep && fwd
                then Dict.update (depEnv l) (CoreStep.providedEnv depCoreStep)
                else depEnv l in
  let '(sandbox, depSandbox, env, depEnv) :=
    match CoreStep.providedSandboxOf depCoreStep with
    | Some sb =>
        if Dependency.useSandbox dep then
          (Some sb,
           if fwd then Some sb else depSandbox l,
           if sandboxEnabled then Dict.update env (CoreSandbox.environment sb) else env,
           if sandboxEnabled && fwd
           then Dict.update depEnv (CoreSandbox.environment sb) else depEnv)
        else (sandbox l, depSandbox l, env, depEnv)
    | None => (sandbox l, depSandbox l, env, depEnv)
    end in
  provideDeps ←
    (if bool_decide (Dependency.recipe dep ∈ Recipe.provideDeps self) then
       pd ← UniquePackageList.append (provideDeps l) depRef;
       UniquePackageList.extend pd
         (map (wrapRef name) (CoreStep.providedDeps depCoreStep))
     else Ok (provideDeps l));
  Ok (mkLoop st env tools sandbox depEnv depTools depSandbox
        ({[ name ]} ∪ subTree out ∪ subTreePackages l)
        directPackages indirectPackages provideDeps results thisDeps
        (touchedEnv out ∪ touchedE l) (touchedTools out ∪ touchedT l)).

(** One round of [for dep in self.__deps]; [rec] is the recursive call. *)
Definition depStep
    (rec : Store.t -> Recipe.t -> Inputs -> list string -> result (Store.t * Output))
    (self : Recipe.t) (i : Inputs) (stack : list string) (l : Loop)
    (dep : Dependency.t) : result Loop :=
  let fa := funArgs sandboxEnabled (sandbox l) (tools l) in
  '(c, t) ← Env.evaluate fa (env l) (Dependency.condition dep);
  let l := mkLoop (store l) (env l) (tools l) (sandbox l) (depEnv l) (depTools l)
             (depSandbox l) (subTreePackages l) (directPackages l)
             (indirectPackages l) (provideDeps l) (results l) (thisDeps l)
             (t ∪ touchedE l) (touchedT l) in
  if negb c then Ok l
  else
    r ← getRecipe (Dependency.recipe dep);
    if existsb (String.eqb (Recipe.packageName r)) stack
    then Err (ParseError "Recipes are cyclic (1st package in cylce)")
    else
      '(st, out) ← rec (store l) r
                     (mkInputs (Env.derive (depEnv l) (Dependency.envOverride dep))
                        (inputStates i) (depSandbox l) (depTools l))
                     (stack ++ [Recipe.packageName r]);
      applyDep self l dep st out.

(** [for i in self.__toolDepPackage]: the environments of the used tools. *)
Definition applyToolEnvs (self : Recipe.t) (toolsView : list (string * Tool)) (env : dict)
  : result dict :=
  '(_, env) ←
    foldR (fun (acc : gset string * dict) i =>
             match Dict.get i toolsView with
             | None => Ok acc
             | Some tool =>
                 match CoreTool.environment tool with
                 | [] => Ok acc
                 | e =>
                     let tmp : gset string := list_to_set (Dict.keys e) in
                     if bool_decide (tmp ## acc.1)
                     then Ok (acc.1 ∪ tmp, Dict.update acc.2 e)
                     else Err (ParseError
                       "Multiple tools defined the same environment variable(s)")
                 end
             end)
          (elements (Recipe.toolDepPackage self)) (∅, env);
  Ok env.

(** The mask of the fingerprints that apply. *)
Definition fingerprintMask (self : Recipe.t) (fa : StringParser.FunArgs)
    (toolsView : list (string * Tool)) (env : dict) : result (Z * gset string) :=
  let conditions :=
    omap (fun i => CoreTool.fingerprintIf <$> Dict.get i toolsView)
         (Dict.sorted (elements (Recipe.toolDepPackage self)))
    ++ Recipe.fingerprintIf self in
  '(doFingerprint, doFingerprintMaybe, _, t) ←
    foldR (fun (acc : Z * Z * Z * gset string) fingerprintIf =>
             let '(doFp, maybe, mask, t) := acc in
             match fingerprintIf with
             | FpNone => Ok (doFp, Z.lor maybe mask, Z.shiftl mask 1, t)
             | FpBool true => Ok (Z.lor doFp mask, maybe, Z.shiftl mask 1, t)
             | FpBool false => Ok (doFp, maybe, Z.shiftl mask 1, t)
             | FpStr s =>
                 '(c, t') ← Env.evaluate fa env (Some s);
                 Ok (if c : bool then Z.lor doFp mask else doFp, maybe,
                     Z.shiftl mask 1, t' ∪ t)
             end)
          conditions (0%Z, 0%Z, 1%Z, ∅);
  Ok (if (doFingerprint =? 0)%Z then 0%Z else Z.lor doFingerprint doFingerprintMaybe, t).

(** What the end of [prepare] has built before it looks into the tables. *)
Record Built := mkBuilt {
  builtPackage : CorePackage.t;
  builtTouchedE : gset string;
  builtTouchedT : gset string
}.

(** From the end of the loop to the package with its three steps and its
    provides; [states] are the copies of the input states and [pkgId] is
    the number that [uidGen()] returned. *)
Definition finish (self : Recipe.t) (states : list (string * PluginState)) (l : Loop)
    (pkgId : nat) : result Built :=
  '(thisDeps, indirectPackages, results) ←
    foldR indirectStep (indirectPackages l) (thisDeps l, [], results l);
  let tools := tools l in
  let sandbox := sandbox l in
  env ← applyToolEnvs self tools (env l);
  let fa := funArgs sandboxEnabled sandbox tools in
  '(env, t1) ← applyEnvs fa env (Recipe.varPrivate self);
  let env := Dict.update env (Recipe.metaEnv self) in
  let env := Dict.set "BOB_RECIPE_NAME" (Recipe.baseName self) env in
  let env := Dict.set "BOB_PACKAGE_NAME" (Recipe.packageName self) env in
  let touchedE := touchedE l ∪ t1 ∪ Recipe.packageVars self ∪ Recipe.packageVarsWeak self in
  let touchedT := touchedT l ∪ Recipe.toolDepPackage self in
  '(doFingerprint, t2) ← fingerprintMask self fa tools env;
  let p := mkPackageBase self tools sandbox states pkgId doFingerprint in
  let weak (vars weakVars : gset string) :=
    if bool_decide (weakVars = ∅) then Env.prune env vars
    else Env.prune env (vars ∪ weakVars) in
  '(srcCoreStep, t3) ←
    match Recipe.checkout self with
    | (None, None, [], []) => CoreCheckoutStep p None fa env [] []
    | checkout =>
        CoreCheckoutStep p (Some checkout) fa env
          (Env.prune env (Recipe.checkoutVars self))
          (weak (Recipe.checkoutVars self) (Recipe.checkoutVarsWeak self))
    end;
  buildCoreStep ←
    match Recipe.build self with
    | (None, None) => CoreBuildStep p (None, None) [] [] []
    | build =>
        CoreBuildStep p build
          (Env.prune env (Recipe.buildVars self))
          (weak (Recipe.buildVars self) (Recipe.buildVarsWeak self))
          (CoreRef.mk srcCoreStep [] :: results)
    end;
  packageCoreStep ←
    CorePackageStep p (Recipe.package self)
      (Env.prune env (Recipe.packageVars self))
      (weak (Recipe.packageVars self) (Recipe.packageVarsWeak self))
      [CoreRef.mk buildCoreStep []];
  '(provideEnv, t4) ← Env.substituteAll fa env (Recipe.provideVars self);
  '(providedTools, t5) ←
    foldR (fun (acc : list (string * Provided.tool) * gset string) nt =>
             '(tool, t) ← prepareTool fa env nt.2;
             Ok (Dict.set nt.1 tool acc.1, t ∪ acc.2))
          (Recipe.provideTools self) ([], ∅);
  '(providedSandbox, t6) ←
    match Recipe.provideSandbox self with
    | Some spec =>
        '(sb, t) ← prepareSandbox fa (Recipe.getRecipeSet self) env sandboxEnabled spec;
        Ok (Some sb, t)
    | None => Ok (None, ∅)
    end;
  let packageCoreStep :=
    CoreStep.setProvided packageCoreStep provideEnv providedTools
      (UniquePackageList.result_ (provideDeps l)) providedSandbox in
  if Recipe.shared self && negb (CoreStep.isDeterministic packageCoreStep)
  then Err (ParseError "Shared packages must be deterministic!")
  else
    Ok (mkBuilt
          (CorePackage.mk self tools sandbox (directPackages l) indirectPackages states
             pkgId doFingerprint srcCoreStep buildCoreStep packageCoreStep)
          (touchedE ∪ t2 ∪ t3 ∪ t4 ∪ t5 ∪ t6) touchedT).

(** [# remember calculated package]: the package is registered under the
    Result-Id of its package step unless one is registered there already,
    and a matcher for the registered package is put in front of the list.
    [DEBUG['pkgck']] is a debugging switch of the command line and is taken
    to be off, so a call that gets here had no match. *)
Definition remember (self : Recipe.t) (i : Inputs) (l : Loop) (b : Built)
  : result (Store.t * Output) :=
  let p := builtPackage b in
  let st := store l in
  let name := Recipe.packageName self in
  pid ← packed (CoreStep.getResultId (CorePackage.getCorePackageStep p));
  let byId := Store.packages st name in
  let reusableCorePackage := match byId !! pid with Some q => q | None => p end in
  let byId := match byId !! pid with Some _ => byId | None => <[ pid := p ]> byId end in
  let m := PackageMatcher.new reusableCorePackage (inputEnv i) (builtTouchedE b)
             (filteredTools self i) (builtTouchedT b) (inputStates i)
             (inputSandbox i) (subTreePackages l) in
  Ok (Store.mk (<[ name := m :: Store.matchers st name ]> (Store.byMatch st))
               (<[ name := byId ]> (Store.byId st))
               (S (Store.cur st)),
      mkOutput reusableCorePackage (subTreePackages l) (builtTouchedE b)
        (builtTouchedT b)).

(** The body of [prepare] with [rec] for the recursive calls. A match
    returns the package of the matcher after the check for a cycle and
    [m.touch(inputEnv, inputTools)]. *)
Definition prepareBody
    (rec : Store.t -> Recipe.t -> Inputs -> list string -> result (Store.t * Output))
    (st : Store.t) (self : Recipe.t) (i : Inputs) (stack : list string)
  : result (Store.t * Output) :=
  match findMatch (Store.matchers st (Recipe.packageName self)) i with
  | Some m =>
      if onStack stack (PackageMatcher.subTreePackages m)
      then Err (ParseError "Recipes are cyclic")
      else Ok (st, mkOutput (PackageMatcher.corePackage m)
                     (PackageMatcher.subTreePackages m)
                     (PackageMatcher.touchedEnv m) (PackageMatcher.touchedTools m))
  | None =>
      l ← enter self i st;
      l ← foldR (depStep rec self i stack) (Recipe.deps self) l;
      b ← finish self (inputStates i) l (S (Store.cur (store l)));
      remember self i l b
  end.

(** [Recipe.prepare]. The recursion follows the dependencies of the
    recipes, so it takes fuel. *)
Fixpoint prepare (fuel : nat) (st : Store.t) (self : Recipe.t) (i : Inputs)
    (stack : list string) : result (Store.t * Output) :=
  match fuel with
  | O => OutOfFuel
  | S fuel => prepareBody (prepare fuel) st self i stack
  end.

(** [RecipeSet.__generatePackages] without the cache on disk: the virtual
    root is prepared with no sandbox, no tools and an empty stack. *)
Definition generatePackages (fuel : nat) (rootRecipe : Recipe.t) (env : dict)
    (states : list (string * PluginState)) : result (Store.t * Output) :=
  prepare fuel Store.empty rootRecipe (mkInputs env states None []) [].
End Elaboration.
End Prepare.

(** ** A project: [RecipeSet.__parse] and [generatePackages] *)

Module Project.
Record t := mk {
  recipes : gmap string Recipe.t;
  rootRecipe : Recipe.t
}.

Section Load.
Variable fnmatchcase : string -> string -> bool.

(** [__addRecipe] and [__addClass] *)
Definition add {A : Type} (what : string) (m : gmap string A) (name : string) (x : A)
  : result (gmap string A) :=
  match m !! name with
  | Some _ => Err (ParseError (what ++ " already defined"))
  | None => Ok (<[ name := x ]> m)
  end.

(** [RecipeSet.__parse] for one layer whose files hold one recipe or class
    each (no [multiPackage]) and without a root filter: the classes and the
    recipes are created from their documents, the classes of every recipe
    are resolved, and the virtual root depends on the sorted root recipes.
    [fuel] bounds the depth of the class hierarchy. *)
Definition load (fuel : nat) (recipeSet : RecipeSet.t)
    (classDocs recipeDocs : list (string * RawRecipe.Doc)) : result t :=
  classes ←
    foldR (fun (m : gmap string RawRecipe.t) nd =>
             c ← RawRecipe.init recipeSet nd.2 nd.1 nd.1 false None;
             add "Class" m nd.1 c)
          classDocs ∅;
  raws ←
    foldR (fun (acc : gmap string RawRecipe.t * list RawRecipe.t) nd =>
             r ← RawRecipe.init recipeSet nd.2 nd.1 nd.1 true None;
             m ← add "Package" acc.1 nd.1 r;
             Ok (m, acc.2 ++ [r]))
          recipeDocs (∅, []);
  resolved ← mapR (RawRecipe.resolveClasses fnmatchcase fuel classes) raws.2;
  let rootRecipes := map Recipe.getPackageName (List.filter Recipe.root resolved) in
  vr ← RawRecipe.init recipeSet (RawRecipe.virtualRootDoc (Dict.sorted rootRecipes))
         "" "" true None;
  rootRecipe ← RawRecipe.resolveClasses fnmatchcase fuel classes vr;
  table ← foldR (fun (m : gmap string Recipe.t) r => add "Package" m (Recipe.getPackageName r) r)
            (resolved ++ [rootRecipe]) ∅;
  Ok (mk table rootRecipe).
End Load.

(** [generatePackages] for a loaded project. *)
Definition generate (fuel : nat) (p : t) (sandboxEnabled : bool) (env : dict)
    (states : list (string * PluginState)) : result (Store.t * Prepare.Output) :=
  Prepare.generatePackages (recipes p) sandboxEnabled fuel (rootRecipe p) env states.
End Project.

(** ** The graph of the recipes and the tables of an elaboration *)

Module Graph.
Section Graph.
Variable recipes : gmap string Recipe.t.

(** [__addRecipe] files every recipe under its package name. *)
Definition registered : Prop :=
  forall k r, recipes !! k = Some r -> Recipe.packageName r = k.

(** [n] names [d] in a dependency without [if]: every elaboration of [n]
    goes into [d]. *)
Definition edge (n d : string) : Prop :=
  exists r dep, recipes !! n = Some r /\ In dep (Recipe.deps r)
    /\ Dependency.condition dep = None /\ Dependency.recipe dep = d.

(** [n] depends on [d] through one or more such dependencies. *)
Definition reach : string -> string -> Prop := tc edge.

(** No recipe that [n] depends on depends on itself. *)
Definition acyclicBelow (n : string) : Prop := forall d, reach n d -> ~ reach d d.
End Graph.
End Graph.

Module Tables.
Section Tables.
Variable recipes : gmap string Recipe.t.
Variable sandboxEnabled : bool.
(** A property of packages, which the end of [prepare] is to establish. *)
Variable good : CorePackage.t -> Prop.

(** The Result-Id of the package step of a package. *)
Definition resultIdOf (p : CorePackage.t) : option bytes :=
  CoreStep.getResultId (CorePackage.getCorePackageStep p).

(** A call of [prepare] that returned took the tables from [st] to [st']. *)
Definition call (st st' : Store.t) : Prop :=
  exists fuel self i stack out,
    recipes !! Recipe.packageName self = Some self
    /\ Prepare.prepare recipes sandboxEnabled fuel st self i stack = Ok (st', out).

(** [st'] comes after [st] in an elaboration. *)
Definition later : Store.t -> Store.t -> Prop := rtc call.

(** What holds of the tables throughout: a package is registered under the
    Result-Id of its package step in the table of its recipe and is [good],
    the package of a matcher is registered, and the names below a matcher
    hold all that its recipe depends on, none of which depends on itself. *)
Record invariant (st : Store.t) : Prop := mkInvariant {
  inv_byId : forall name pid q,
    Store.packages st name !! pid = Some q ->
    resultIdOf q = Some pid /\ CorePackage.getName q = name /\ good q;
  inv_match : forall name m,
    In m (Store.matchers st name) ->
    exists pid, Store.packages st name !! pid = Some (PackageMatcher.corePackage m);
  inv_tree : forall name m,
    In m (Store.matchers st name) ->
    (forall d, Graph.reach recipes name d -> d ∈ PackageMatcher.subTreePackages m)
    /\ Graph.acyclicBelow recipes name
}.

(** The registered packages of [st] are registered in [st']. *)
Definition extends (st st' : Store.t) : Prop :=
  forall name pid q,
    Store.packages st name !! pid = Some q -> Store.packages st' name !! pid = Some q.

(** What a call that returned [out] from [st] leaves behind in [st']. *)
Record post (st : Store.t) (self : Recipe.t) (stack : list string)
    (st' : Store.t) (out : Prepare.Output) : Prop := mkPost {
  post_inv : invariant st';
  post_ext : extends st st';
  post_frame : forall n, In n stack -> n <> Recipe.packageName self ->
    Store.matchers st' n = Store.matchers st n;
  post_own : In (Recipe.packageName self) stack ->
    Store.matchers st' (Recipe.packageName self)
      = Store.matchers st (Recipe.packageName self)
    \/ exists m,
         Store.matchers st' (Recipe.packageName self)
           = m :: Store.matchers st (Recipe.packageName self)
         /\ PackageMatcher.corePackage m = Prepare.package out;
  post_reg : exists pid,
    Store.packages st' (Recipe.packageName self) !! pid = Some (Prepare.package out);
  post_reach : forall d,
    Graph.reach recipes (Recipe.packageName self) d -> d ∈ Prepare.subTree out;
  post_stack : forall n, In n stack -> n ∉ Prepare.subTree out;
  post_acyclic : Graph.acyclicBelow recipes (Recipe.packageName self)
}.

(** What holds of the local variables of a call from [st] during its loop
    over the dependencies. *)
Record loopInv (st : Store.t) (stack : list string) (l : Prepare.Loop) : Prop :=
  mkLoopInv {
  li_inv : invariant (Prepare.store l);
  li_ext : extends st (Prepare.store l);
  li_frame : forall n, In n stack ->
    Store.matchers (Prepare.store l) n = Store.matchers st n;
  li_stack : forall n, In n stack -> n ∉ Prepare.subTreePackages l
}.

(** What the loop has found out about a dependency without [if] once it
    is through with it. *)
Definition depDone (dep : Dependency.t) (l : Prepare.Loop) : Prop :=
  Dependency.condition dep = None ->
  Dependency.recipe dep ∈ Prepare.subTreePackages l
  /\ (forall d, Graph.reach recipes (Dependency.recipe dep) d ->
                d ∈ Prepare.subTreePackages l)
  /\ ~ Graph.reach recipes (Dependency.recipe dep) (Dependency.recipe dep)
  /\ Graph.acyclicBelow recipes (Dependency.recipe dep).

(** The same of a function that stands for the recursive call. *)
Definition sound
    (rec : Store.t -> Recipe.t -> Prepare.Inputs -> list string
           -> result (Store.t * Prepare.Output)) : Prop :=
  forall st self i stack st' out,
    invariant st -> recipes !! Recipe.packageName self = Some self ->
    rec st self i stack = Ok (st', out) -> post st self stack st' out.
End Tables.
End Tables.

(** ** Valid steps *)

(** What the end of [prepare] builds for a recipe with a package
    script. *)
Definition validSteps (p : CorePackage.t) : Prop :=
  CoreStep.isValid (CorePackage.packageStep p) = true
  /\ (CoreStep.isValid (CorePackage.checkoutStep p) = true
      <-> Recipe.checkoutScript (CorePackage.recipe p) <> None
          \/ CoreStep.scmList (CorePackage.checkoutStep p) <> [])
  /\ exists fa env t,
       activeScms fa env (Recipe.checkoutSCMs (CorePackage.recipe p))
       = Ok (CoreStep.scmList (CorePackage.checkoutStep p), t).

(** ** The results that a build step takes *)

(** The name of the package that a reference leads to. *)
Definition refName (r : Ref) : string := CoreStep.getName (CoreRef.destination r).

(** The results hold a name once, and they hold the names whose tracker
    has [usedResult] set. *)
Definition tracked (thisDeps : list (string * DepTracker.t)) (results : list Ref) : Prop :=
  NoDup (map refName results)
  /\ forall n, In n (map refName results)
               <-> exists d, Dict.get n thisDeps = Some d /\ DepTracker.usedResult d = true.

(** The package step of a package belongs to the recipe of the package. *)
Definition stepRecipe (p : CorePackage.t) : Prop :=
  CoreStep.recipe (CorePackage.packageStep p) = CorePackage.recipe p.

(** How often the results hold a reference to the package [n]. *)
Definition occurrences (n : string) (results : list Ref) : nat :=
  length (List.filter (fun r => String.eqb (refName r) n) results).

(** ** Conditions that are expressions of their own *)

Module Condition.
Import StringParser.

(** A character that is text wherever it stands. *)
Definition plainChar (c : ascii) : bool :=
  negb (Ascii.eqb c "$" || Ascii.eqb c "\" || Ascii.eqb c "(" || Ascii.eqb c ")"
        || Ascii.eqb c ",").

Definition plain (a : string) : bool := forallb plainChar (list_ascii_of_string a).

Section Condition.
Variable env : dict.
Variable fa : FunArgs.

(** As an argument of a call that is in use, [a] contributes the text [v]
    and reads the names [T]: up to the comma or the parenthesis that ends
    the argument the parser is where it would be had it read [v] as plain
    text. *)
Definition argValue (a v : string) (T : gset string) : Prop :=
  forall done cur r t c, c = ","%char \/ c = ")"%char ->
    exists mid,
      run env fa (mkState (Call true done cur 0 false :: r) t) a = Ok mid
      /\ step env fa mid c
         = step env fa (mkState (Call true done (cur ++ v)%string 0 false :: r) (T ∪ t)) c.

(** [a] is an expression of its own: it has the value [v] alone and as an
    argument. *)
Definition selfContained (a v : string) (T : gset string) : Prop :=
  parse env fa a = Ok (v, T) /\ argValue a v T.
End Condition.
End Condition.

(** Induction on an entry with the entries of its [depends] list. *)
Fixpoint Entry_nested_ind (P : Dependency.Entry -> Prop)
    (Hstr : forall name, P (Dependency.Str name))
    (Hdict : forall name depends environment forward use cond,
       match depends with Some l => Forall P l | None => True end ->
       P (Dependency.Dict name depends environment forward use cond))
    (e : Dependency.Entry) : P e :=
  match e with
  | Dependency.Str name => Hstr name
  | Dependency.Dict name depends environment forward use cond =>
      Hdict name depends environment forward use cond
        match depends with
        | Some l =>
            (fix all (l : list Dependency.Entry) : Forall P l :=
               match l with
               | [] => @List.Forall_nil _ P
               | x :: r => @List.Forall_cons _ P x r (Entry_nested_ind P Hstr Hdict x) (all r)
               end) l
        | None => I
        end
  end.

(** ** The lengths of a digest as a test *)

(** [digestFits] as a test. *)
Definition fitsb (n : nat) : bool := (Z.of_nat n <? 4294967296)%Z.
Definition strFitsb (p : string) : bool := fitsb (String.length p).

Definition digestFitsb (forceSandbox : bool) (s : CoreStep.t) : bool :=
  (if RecipeSet.sandboxInvariant (Recipe.getRecipeSet (CoreStep.recipe s)) then true
   else match CoreStep.getSandbox s forceSandbox with
        | Some sb => fitsb (length (CoreSandbox.paths sb))
                     && forallb strFitsb (CoreSandbox.paths sb)
        | None => true
        end)
  && match CoreStep.getDigestScript s with Some p => strFitsb p | None => true end
  && fitsb (length (CoreStep.getTools s))
  && forallb (fun nt : string * Tool =>
                strFitsb (CoreTool.path nt.2)
                && fitsb (length (CoreTool.libs nt.2))
                && forallb strFitsb (CoreTool.libs nt.2)) (CoreStep.getTools s)
  && fitsb (length (CoreStep.digestEnv s))
  && forallb (fun kv : string * string => strFitsb kv.1 && strFitsb kv.2)
       (CoreStep.digestEnv s)
  && fitsb (length (CoreStep.validArgs s)).

(** ** Example projects *)

Module Examples.

Definition policies (mergeEnvironment : bool) : RecipeSet.t :=
  RecipeSet.mk mergeEnvironment false false false [] [].

(** A document with the keys that the examples set. *)
Definition doc (inherit : list string) (depends : list Dependency.Entry) (root : bool)
    (provideVars environment : dict) (packageVars : list string)
    (buildScript packageScript : option string) (scms : list ScmSpec.t)
  : RawRecipe.Doc :=
  RawRecipe.mkDoc inherit depends None None None (if root then Some true else None)
    None None [] provideVars [] None environment [] []
    [] [] [] [] packageVars [] [] [] [] None buildScript packageScript scms []
    None None None.

(** The table of the recipes of a project, empty when it did not load. *)
Definition tableOf (r : result Project.t) : gmap string Recipe.t :=
  match r with Ok p => Project.recipes p | _ => ∅ end.

Definition dependency (name : string) (environment : dict) (use : list string)
    (cond : option string) : Dependency.Entry :=
  Dependency.Dict (Some name) None (Some environment) None (Some use) cond.

(** A library that provides a variable from its environment and reads
    another one, and an application that names the library twice. *)
Definition depotDocs : list (string * RawRecipe.Doc) :=
  [("lib", doc [] [] false [("X", "$FOO")] [("Y", "$BAR")] [] None (Some "true") []);
   ("app", doc [] [dependency "lib" [("FOO", "1")] ["result"] None;
                   dependency "lib" [("FOO", "1")] ["result"; "deps"] None]
             true [] [] [] (Some "make") (Some "true") [])].

Definition depot : result Project.t :=
  Project.load String.eqb 5 (policies false) [] depotDocs.

(** Two recipes that depend on each other. *)
Definition cyclic : result Project.t :=
  Project.load String.eqb 5 (policies false) []
    [("a", doc [] [Dependency.Str "b"] true [] [] [] None (Some "true") []);
     ("b", doc [] [Dependency.Str "a"] false [] [] [] None (Some "true") [])].

(** [x] depends on [a], and [a] depends on [x] when [FLAG] is set. *)
Definition flagged : result Project.t :=
  Project.load String.eqb 5 (policies false) []
    [("x", doc [] [Dependency.Str "a"] false [] [] [] None (Some "true") []);
     ("a", doc [] [dependency "x" [("FLAG", "0")] ["result"] (Some "$FLAG")]
             false [] [] [] None (Some "true") []);
     ("top", doc [] [Dependency.Str "x";
                     dependency "a" [("FLAG", "1")] ["result"] None]
               true [] [] [] None (Some "true") [])].

(** A recipe whose only SCM is switched off. *)
Definition scmOff : result Project.t :=
  Project.load String.eqb 5 (policies false) []
    [("src", doc [] [] true [] [] [] None (Some "true")
               [ScmSpec.mk (Some "false") false ["src"] "git" true])].

(** The class and the recipe of scenario S2 of the specification. *)
Definition classDoc : RawRecipe.Doc :=
  doc [] [] false [] [("A", "1"); ("B", "2")] [] None None [].

Definition recipeDoc : RawRecipe.Doc :=
  doc ["c"] [] true [] [("B", "3"); ("C", "4")] ["A"; "B"; "C"] None (Some "true") [].

Definition inputs (env : dict) : Prepare.Inputs := Prepare.mkInputs env [] None [].

(** [generatePackages] for a project, when it has loaded. *)
Definition gen (p : result Project.t) (env : dict) : result (Store.t * Prepare.Output) :=
  p ← p; Project.generate 10 p false env [].
(** A shared recipe with a deterministic SCM and a build script. *)
Definition sharedDocs : list (string * RawRecipe.Doc) :=
  [("tool",
    RawRecipe.mkDoc [] [] None None None (Some true) (Some true) None [] [] [] None [] [] []
      [] [] [] [] [] [] [] [] [] None (Some "make") (Some "true")
      [ScmSpec.mk None false ["src"] "git" true] [] None None None)].

Definition sharedTool : result Project.t :=
  Project.load String.eqb 5 (policies false) [] sharedDocs.

(** Two classes that inherit from each other, and a recipe that inherits
    from one of them. *)
Definition loopClasses : gmap string RawRecipe.t :=
  match RawRecipe.init (policies false)
          (doc ["b"] [] false [] [] [] None None []) "a" "a" false None,
        RawRecipe.init (policies false)
          (doc ["a"] [] false [] [] [] None None []) "b" "b" false None with
  | Ok a, Ok b => {[ "a" := a; "b" := b ]}
  | _, _ => ∅
  end.

Definition loopDoc : RawRecipe.Doc := doc ["a"] [] true [] [] [] None (Some "true") [].

(** A class with a fingerprint script and a recipe that asks for the
    fingerprint. *)
Definition fingerprintDocs : list (string * RawRecipe.Doc) * list (string * RawRecipe.Doc) :=
  ([("c",
     RawRecipe.mkDoc [] [] None None None None None None [] [] [] None [] [] []
       [] [] [] [] [] [] [] [] [] None None None [] [] (Some "uname") None None)],
   [("r",
     RawRecipe.mkDoc ["c"] [] None None None (Some true) None None [] [] [] None [] [] []
       [] [] [] [] [] [] [] [] [] None None (Some "true") [] [] None (Some (FpBool true))
       None)]).

Definition fingerprinted : result Project.t :=
  Project.load String.eqb 5 (policies false) fingerprintDocs.1 fingerprintDocs.2.
End Examples.

(** ** What the further properties speak of *)

Definition refVariant (r : Ref) : bytes := CoreStep.variantId (CoreRef.destination r).

Record uniqueOf (seen : list Ref) (l : UniquePackageList.t) : Prop := {
  uo_nodup : NoDup (map refName (UniquePackageList.ret l));
  uo_cached : forall r, In r (UniquePackageList.ret l) ->
                Dict.get (refName r) (UniquePackageList.cache l) = Some r;
  uo_cache : forall n r, Dict.get n (UniquePackageList.cache l) = Some r ->
               In r (UniquePackageList.ret l) /\ refName r = n;
  uo_sub : sublist (UniquePackageList.ret l) seen;
  uo_all : forall r, In r seen ->
             exists r', In r' (UniquePackageList.ret l)
                        /\ refName r' = refName r /\ refVariant r' = refVariant r
}.

(** What [prepare] has checked of a shared package. *)
Definition sharedDeterministic (p : CorePackage.t) : Prop :=
  Recipe.shared (CorePackage.recipe p) = true ->
  CoreStep.isDeterministic (CorePackage.packageStep p) = true
  /\ CoreStep.isDeterministic (CorePackage.buildStep p) = true
  /\ (Recipe.build (CorePackage.recipe p) <> (None, None) ->
      CoreStep.isDeterministic (CorePackage.checkoutStep p) = true
      /\ forallb ScmSpec.deterministic (CoreStep.scmList (CorePackage.checkoutStep p))
         = true).

(** Dictionaries of states as Python has them: every key once. *)
Definition properStates (states : list (string * PluginState)) : Prop :=
  NoDup (Dict.keys states) /\ Forall (fun ns => NoDup (Dict.keys ns.2)) states.

(** The three steps as the end of [prepare] builds them. *)
Record builtSteps (p : CorePackage.t) : Prop := mkBuiltSteps {
  bs_kinds : CoreStep.kind (CorePackage.checkoutStep p) = CheckoutKind
             /\ CoreStep.kind (CorePackage.buildStep p) = BuildKind
             /\ CoreStep.kind (CorePackage.packageStep p) = PackageKind;
  bs_recipe : CoreStep.recipe (CorePackage.checkoutStep p) = CorePackage.recipe p
              /\ CoreStep.recipe (CorePackage.buildStep p) = CorePackage.recipe p
              /\ CoreStep.recipe (CorePackage.packageStep p) = CorePackage.recipe p;
  bs_checkout : CoreStep.args (CorePackage.checkoutStep p) = [];
  bs_package : CoreStep.args (CorePackage.packageStep p)
               = [CoreRef.mk (CorePackage.buildStep p) []];
  bs_build : CoreStep.isValid (CorePackage.buildStep p) = true
             <-> (Recipe.build (CorePackage.recipe p)).1 <> None;
  bs_noBuild : Recipe.build (CorePackage.recipe p) = (None, None) ->
               CoreStep.args (CorePackage.buildStep p) = []
}.

(** The stored Variant-Id of a step is its digest. *)
Definition digested (s : CoreStep.t) : Prop :=
  CoreStep.getDigest CoreStep.variantId false s = Some (CoreStep.variantId s).

Definition digestedSteps (p : CorePackage.t) : Prop :=
  digested (CorePackage.checkoutStep p) /\ digested (CorePackage.buildStep p)
  /\ digested (CorePackage.packageStep p).

Module Classes.
Section Classes.
Variable classes : gmap string RawRecipe.t.

(** [d] is a class that [c] inherits from directly: its anonymous base
    class, or the class of a name of its [inherit] list. *)
Definition inheritsFrom (c d : RawRecipe.t) : Prop :=
  RawRecipe.anonBaseClass c = Some d
  \/ exists n, In n (RawRecipe.inherit c) /\ classes !! n = Some d.

(** The names of a list of classes. *)
Definition names (l : list RawRecipe.t) : list string := map RawRecipe.packageName l.

(** Every class of the list comes after the classes it inherits from,
    which are in the list or in [visited]. *)
Definition basesFirst (visited : gset string) (l : list RawRecipe.t) : Prop :=
  forall k c d, l !! k = Some c -> inheritsFrom c d ->
    RawRecipe.packageName d ∈ visited \/ In (RawRecipe.packageName d) (names (take k l)).

(** What a call of [__resolveClassesOrder] on [c] that found [visited]
    returns. *)
Record ordered (c : RawRecipe.t) (isRecipe : bool) (visited : gset string)
    (ret : list RawRecipe.t) (visited' : gset string) : Prop := mkOrdered {
  ord_visited : visited' = visited ∪ list_to_set (names ret);
  ord_nodup : NoDup (names ret);
  ord_fresh : forall x, In x ret -> RawRecipe.packageName x ∉ visited;
  ord_first : basesFirst visited ret;
  ord_bases : forall d, inheritsFrom c d -> RawRecipe.packageName d ∈ visited';
  ord_self : isRecipe = false -> RawRecipe.packageName c ∈ visited';
  ord_from : forall x, In x ret ->
               (if isRecipe then tc inheritsFrom c x else rtc inheritsFrom c x)
}.
(** The classes are filed under their names and have no anonymous base
    class, as [__addClass] files the classes of the class files. *)
Definition filed : Prop :=
  forall n c, classes !! n = Some c ->
    RawRecipe.packageName c = n /\ RawRecipe.anonBaseClass c = None.
End Classes.
End Classes.

(** What [__parse] has gone through when it returns. *)
Record loaded (fnmatchcase : string -> string -> bool) (fuel : nat)
    (recipeSet : RecipeSet.t) (classDocs recipeDocs : list (string * RawRecipe.Doc))
    (p : Project.t) (classes : gmap string RawRecipe.t)
    (raws : list RawRecipe.t) (resolved : list Recipe.t) (vr : RawRecipe.t) : Prop :=
  mkLoaded {
  ld_classNames : NoDup (map fst classDocs);
  ld_classes : forall n c, classes !! n = Some c <->
                 exists doc, In (n, doc) classDocs
                             /\ RawRecipe.init recipeSet doc n n false None = Ok c;
  ld_recipeNames : NoDup (map fst recipeDocs);
  ld_raws : Forall2 (fun nd raw => RawRecipe.init recipeSet nd.2 nd.1 nd.1 true None = Ok raw)
              recipeDocs raws;
  ld_resolved : Forall2 (fun raw r => RawRecipe.resolveClasses fnmatchcase fuel classes raw
                                      = Ok r) raws resolved;
  ld_vr : RawRecipe.init recipeSet
            (RawRecipe.virtualRootDoc
               (Dict.sorted (map Recipe.getPackageName (List.filter Recipe.root resolved))))
            "" "" true None = Ok vr;
  ld_root : RawRecipe.resolveClasses fnmatchcase fuel classes vr = Ok (Project.rootRecipe p);
  ld_names : NoDup (map Recipe.getPackageName (resolved ++ [Project.rootRecipe p]));
  ld_table : forall k r, Project.recipes p !! k = Some r
               <-> In r (resolved ++ [Project.rootRecipe p]) /\ Recipe.getPackageName r = k
}.

(** What is there for the checkout step is there for the build step, and
    what is there for the build step is there for the package step. *)
Definition ascending (c b p : gset string) : Prop := c ⊆ b /\ b ⊆ p.

Definition rawAscending (r : RawRecipe.t) : Prop :=
  ascending (RawRecipe.checkoutVars r) (RawRecipe.buildVars r) (RawRecipe.packageVars r)
  /\ ascending (RawRecipe.checkoutVarsWeak r) (RawRecipe.buildVarsWeak r)
       (RawRecipe.packageVarsWeak r)
  /\ ascending (RawRecipe.toolDepCheckout r) (RawRecipe.toolDepBuild r)
       (RawRecipe.toolDepPackage r).

(** The environments of the tools that the package step uses and that are
    in view, in the order of the loop. *)
Definition toolEnvs (self : Recipe.t) (toolsView : list (string * Tool)) : list dict :=
  omap (fun i => CoreTool.environment <$> Dict.get i toolsView)
       (elements (Recipe.toolDepPackage self)).

(** The names that a dictionary defines. *)
Definition keySet (d : dict) : gset string := list_to_set (Dict.keys d).

(** The conditions that [prepare] goes through: those of the tools that
    the package step uses and that are in view, in the order of their
    names, and then those of the recipe and its classes. *)
Definition fingerprintConditions (self : Recipe.t) (toolsView : list (string * Tool))
  : list FingerprintIf :=
  omap (fun i => CoreTool.fingerprintIf <$> Dict.get i toolsView)
       (Dict.sorted (elements (Recipe.toolDepPackage self)))
  ++ Recipe.fingerprintIf self.

(** [b] tells whether the condition holds: [True] does, a string does when
    it evaluates to true, and [None] and [False] do not. *)
Definition conditionHolds (fa : StringParser.FunArgs) (env : dict)
    (c : FingerprintIf) (b : bool) : Prop :=
  match c with
  | FpNone => b = false
  | FpBool x => b = x
  | FpStr s => exists t, Env.evaluate fa env (Some s) = Ok (b, t)
  end.

Definition isUnset (c : FingerprintIf) : bool :=
  match c with FpNone => true | _ => false end.

(** The names that an entry of a [depends] list names, in their order. *)
Fixpoint entryNames (e : Dependency.Entry) : list string :=
  match e with
  | Dependency.Str name => [name]
  | Dependency.Dict name depends _ _ _ _ =>
      match name with
      | Some (String c n) => [String c n]
      | _ => match depends with
             | Some l => flat_map entryNames l
             | None => []
             end
      end
  end.

(** An entry has a name or a [depends] list, not both, and so have the
    entries of its list. *)
Fixpoint entryWellFormed (e : Dependency.Entry) : bool :=
  match e with
  | Dependency.Str _ => true
  | Dependency.Dict name depends _ _ _ _ =>
      match name with
      | Some (String _ _) => match depends with Some _ => false | None => true end
      | _ => match depends with
             | Some l => forallb entryWellFormed l
             | None => false
             end
      end
  end.

Definition parsedAs (deps : list Dependency.Entry) (r : result (list Dependency.t)) : Prop :=
  match r with
  | Ok l => forallb entryWellFormed deps = true
            /\ map Dependency.recipe l = flat_map entryNames deps
  | Err e => forallb entryWellFormed deps = false /\ exists msg, e = ParseError msg
  | OutOfFuel => False
  end.

(** The registered packages have numbers that [uidGen] has given out, and
    no two of them have the same. *)
Record numbered (st : Store.t) : Prop := mkNumbered {
  nb_range : forall name pid q, Store.packages st name !! pid = Some q ->
               1 <= CorePackage.pkgId q <= Store.cur st;
  nb_apart : forall n1 p1 q1 n2 p2 q2,
               Store.packages st n1 !! p1 = Some q1 ->
               Store.packages st n2 !! p2 = Some q2 ->
               CorePackage.pkgId q1 = CorePackage.pkgId q2 ->
               n1 = n2 /\ p1 = p2
}.

Module Built.
Definition ref (r : Ref) : Prop := CoreStep.constructed (CoreRef.destination r).

Definition tool (nt : string * Tool) : Prop := CoreStep.constructed (CoreTool.coreStep nt.2).

Definition sandbox (sb : option Sandbox) : Prop :=
  match sb with
  | Some s => CoreStep.constructed (CoreSandbox.coreStep s)
  | None => True
  end.

(** The tools and the sandbox that a call is given. *)
Definition inputs (i : Prepare.Inputs) : Prop :=
  Forall tool (Prepare.inputTools i) /\ sandbox (Prepare.inputSandbox i).

(** The steps of a package and what its package step provides. *)
Record package (p : CorePackage.t) : Prop := mkPackage {
  pk_checkout : CoreStep.constructed (CorePackage.checkoutStep p);
  pk_build : CoreStep.constructed (CorePackage.buildStep p);
  pk_package : CoreStep.constructed (CorePackage.packageStep p);
  pk_provided : Forall ref (CoreStep.providedDeps (CorePackage.packageStep p))
}.

(** The local variables of a call. *)
Record loop (l : Prepare.Loop) : Prop := mkLoop {
  lp_tools : Forall tool (Prepare.tools l);
  lp_depTools : Forall tool (Prepare.depTools l);
  lp_sandbox : sandbox (Prepare.sandbox l);
  lp_depSandbox : sandbox (Prepare.depSandbox l);
  lp_results : Forall ref (Prepare.results l);
  lp_indirect : Forall ref (Prepare.indirectPackages l);
  lp_provide : Forall ref (UniquePackageList.ret (Prepare.provideDeps l))
}.

(** The tables. *)
Record store (st : Store.t) : Prop := mkStore {
  st_byId : forall name pid q, Store.packages st name !! pid = Some q -> package q;
  st_match : forall name m, In m (Store.matchers st name) ->
               package (PackageMatcher.corePackage m)
}.
End Built.

(** * Properties *)

(** ** SHA-1 test vectors *)

Example sha1_empty :
  SHA1.hex (SHA1.sha1 []) = "da39a3ee5e6b4b0d3255bfef95601890afd80709".
Proof. vm_compute. reflexivity. Qed.

Example sha1_abc :
  SHA1.hex (SHA1.sha1 (Bytes.utf8 "abc")) = "a9993e364706816aba3e25717850c26c9cd0d89d".
Proof. vm_compute. reflexivity. Qed.

Example sha1_two_blocks :
  SHA1.hex (SHA1.sha1 (Bytes.utf8
    "abcdbcdecdefdefgefghfghighijhijkijkljklmklmnlmnomnopnopq"))
  = "84983e441c3bd26ebaae4aa1f95129e5e54670f1".
Proof. vm_compute. reflexivity. Qed.

Lemma sha1_length (m : bytes) : length (SHA1.sha1 m) = 20.
Proof.
  unfold SHA1.sha1.
  destruct (SHA1.blocks _ _ _) as [[[[h0 h1] h2] h3] h4].
  reflexivity.
Qed.

(** ** The order on strings and [sorted] *)

Lemma leb_trans (a b c : string) :
  String.leb a b = true -> String.leb b c = true -> String.leb a c = true.
Proof.
  unfold String.leb.
  destruct (String.compare a b) eqn:Hab; try discriminate;
    destruct (String.compare b c) eqn:Hbc; try discriminate; intros _ _.
  - apply String.compare_eq_iff in Hab, Hbc. subst.
    destruct (String.compare c c) eqn:Hcc; try reflexivity.
    pose proof (String.compare_antisym c c) as H.
    rewrite Hcc in H. discriminate H.
  - apply String.compare_eq_iff in Hab. subst. now rewrite Hbc.
  - apply String.compare_eq_iff in Hbc. subst. now rewrite Hab.
  - assert (H : String.compare a c = Lt).
    { apply OrderedTypeEx.String_as_OT.cmp_lt.
      eapply OrderedTypeEx.String_as_OT.lt_trans;
        apply OrderedTypeEx.String_as_OT.cmp_lt; eassumption. }
    now rewrite H.
Qed.

Section SortedItems.
Context {V : Type}.
Implicit Types (d l : list (string * V)) (kv : string * V).

Lemma insert_sorted_perm kv l : Dict.insert_sorted kv l ≡ₚ kv :: l.
Proof.
  induction l as [|x r IH]; simpl; [reflexivity|].
  destruct (String.leb kv.1 x.1); [reflexivity|].
  rewrite IH. apply perm_swap.
Qed.

Lemma sorted_items_perm d : Dict.sorted_items d ≡ₚ d.
Proof.
  induction d as [|x r IH]; simpl; [reflexivity|].
  rewrite insert_sorted_perm. now rewrite IH.
Qed.

Lemma sorted_items_length d : length (Dict.sorted_items d) = length d.
Proof. apply Permutation_length, sorted_items_perm. Qed.

(** Two insertions with different keys commute. *)
Lemma insert_sorted_comm a b l :
  a.1 <> b.1 ->
  Dict.insert_sorted a (Dict.insert_sorted b l)
  = Dict.insert_sorted b (Dict.insert_sorted a l).
Proof.
  intros Hne. induction l as [|x r IH]; simpl.
  - destruct (String.leb a.1 b.1) eqn:Hab, (String.leb b.1 a.1) eqn:Hba;
      try reflexivity.
    + exfalso. apply Hne. now apply String.leb_antisym.
    + destruct (String.leb_total a.1 b.1); congruence.
  - destruct (String.leb b.1 x.1) eqn:Hbx, (String.leb a.1 x.1) eqn:Hax; simpl.
    + destruct (String.leb a.1 b.1) eqn:Hab, (String.leb b.1 a.1) eqn:Hba;
        rewrite ?Hax, ?Hbx; try reflexivity.
      * exfalso. apply Hne. now apply String.leb_antisym.
      * destruct (String.leb_total a.1 b.1); congruence.
    + destruct (String.leb a.1 b.1) eqn:Hab.
      * rewrite (leb_trans _ _ _ Hab Hbx) in Hax. discriminate.
      * now rewrite Hax, Hbx.
    + destruct (String.leb b.1 a.1) eqn:Hba.
      * rewrite (leb_trans _ _ _ Hba Hax) in Hbx. discriminate.
      * now rewrite Hax, Hbx.
    + rewrite Hax, Hbx. now rewrite IH.
Qed.

(** Sorting the items forgets the insertion order of a dictionary. *)
Lemma sorted_items_order d d' :
  NoDup (Dict.keys d) -> d ≡ₚ d' -> Dict.sorted_items d = Dict.sorted_items d'.
Proof.
  intros Hnd Hp. induction Hp as [|x l l' Hp IH|x y l|l l' l'' Hp1 IH1 Hp2 IH2].
  - reflexivity.
  - simpl. f_equal. apply IH. simpl in Hnd. now inversion Hnd.
  - simpl. apply insert_sorted_comm.
    simpl in Hnd. inversion Hnd as [|? ? Hin _]; subst.
    intros Heq. apply Hin. rewrite Heq. now left.
  - rewrite IH1 by assumption. apply IH2.
    unfold Dict.keys in *. now rewrite <- Hp1.
Qed.
End SortedItems.

(** ** The digest of a step *)

(** Take the next binding of a computation in the option monad apart. *)
Ltac bind_inv H :=
  match type of H with
  | mbind _ ?m = Some _ =>
      let x := fresh "x" in
      let E := fresh "E" in
      destruct m as [x|] eqn:E; [cbn [mbind option_bind] in H | discriminate H]
  end.

Lemma foldM_preserves {A B : Type} (P : B -> Prop) (f : B -> A -> option B) l :
  (forall b x b', f b x = Some b' -> P b -> P b') ->
  forall b b', foldM f l b = Some b' -> P b -> P b'.
Proof.
  intros Hf. induction l as [|x r IH]; simpl; intros b b' H Hb.
  - now inversion H; subst.
  - bind_inv H. eapply IH; eauto.
Qed.

Lemma foldM_total {A B : Type} (Q : A -> Prop) (f : B -> A -> option B) l :
  (forall b x, Q x -> is_Some (f b x)) ->
  Forall Q l -> forall b, is_Some (foldM f l b).
Proof.
  intros Hf Hl. induction Hl as [|x r Hx _ IH]; simpl; intros b.
  - eauto.
  - destruct (Hf b x Hx) as [b' ->]. apply IH.
Qed.

Lemma pack_I_fits n : CoreStep.fits n -> Bytes.pack_I n = Some (Bytes.le32 (Z.of_nat n)).
Proof.
  unfold CoreStep.fits, Bytes.pack_I. intros H.
  destruct (Z.ltb_spec (Z.of_nat n) 4294967296); [reflexivity | lia].
Qed.

Section Host.
Variable calculate : CoreStep.t -> bytes.

Lemma updateStr_host h p h' :
  CoreStep.updateStr h p = Some h' -> DigestHasher.host h' = DigestHasher.host h.
Proof.
  unfold CoreStep.updateStr. intros H. bind_inv H. now inversion H.
Qed.

Lemma updateStrs_host l h h' :
  foldM CoreStep.updateStr l h = Some h' -> DigestHasher.host h' = DigestHasher.host h.
Proof.
  intros H.
  apply (foldM_preserves (fun x => DigestHasher.host x = DigestHasher.host h)
           CoreStep.updateStr l) with (b := h); auto.
  intros b x b' Hb <-. now apply updateStr_host with x.
Qed.

Lemma updateKeyVal_host h kv h' :
  CoreStep.updateKeyVal h kv = Some h' -> DigestHasher.host h' = DigestHasher.host h.
Proof.
  unfold CoreStep.updateKeyVal. intros H. bind_inv H. bind_inv H. now inversion H.
Qed.

Lemma updateSandbox_host h sb h' :
  CoreStep.updateSandbox calculate h sb = Some h' ->
  DigestHasher.host h' = DigestHasher.host h.
Proof.
  unfold CoreStep.updateSandbox. destruct sb as [sb|]; intros H.
  - bind_inv H. now apply updateStrs_host in H.
  - now inversion H.
Qed.

Lemma updateScript_host h p h' :
  CoreStep.updateScript h p = Some h' -> DigestHasher.host h' = DigestHasher.host h.
Proof.
  unfold CoreStep.updateScript. destruct p as [[|c r]|]; intros H;
    try (now inversion H). now apply updateStr_host in H.
Qed.

Lemma updateTool_host h nt h' :
  CoreStep.updateTool calculate h nt = Some h' ->
  DigestHasher.host h' = DigestHasher.host h.
Proof.
  unfold CoreStep.updateTool. intros H. bind_inv H. bind_inv H.
  now apply updateStrs_host in H.
Qed.

Lemma updateArgs_host l h :
  DigestHasher.host (fold_left (CoreStep.updateArg calculate) l h)
  = DigestHasher.host h
    ++ concat (map (fun a => DigestHasher.sliceHost (calculate a)) l).
Proof.
  revert h. induction l as [|a r IH]; intros h; simpl.
  - now rewrite app_nil_r.
  - rewrite IH. simpl. now rewrite <- app_assoc.
Qed.

(** The host part that [getDigest] collects. *)
Definition hostPart (s : CoreStep.t) : bytes :=
  (if CoreStep.isFingerprinted s then
     match CoreStep.getSandbox s false with
     | Some sb => DigestHasher.sliceRecipes (calculate (CoreSandbox.coreStep sb))
     | None => []
     end
   else [])
  ++ concat (map (fun a => DigestHasher.sliceHost (calculate a)) (CoreStep.validArgs s)).

Lemma getDigest_host force s d :
  CoreStep.getDigest calculate force s = Some d ->
  exists r, d = DigestHasher.digest (DigestHasher.mk r (hostPart s)).
Proof.
  unfold CoreStep.getDigest. intros H.
  bind_inv H. rename x into h1, E into E1.
  bind_inv H. rename x into h2, E into E2.
  bind_inv H. rename x into n1, E into En1.
  bind_inv H. rename x into h3, E into E3.
  bind_inv H. rename x into n2, E into En2.
  bind_inv H. rename x into h4, E into E4.
  bind_inv H. rename x into n3, E into En3.
  inversion H as [Hd]. clear H.
  apply updateSandbox_host in E1. apply updateScript_host in E2.
  apply (foldM_preserves
           (fun x => DigestHasher.host x = DigestHasher.host h2)) in E3;
    [| intros b x b' Hb <-; now apply updateTool_host with x | reflexivity].
  apply (foldM_preserves
           (fun x => DigestHasher.host x = DigestHasher.host h3)) in E4;
    [| intros b x b' Hb <-; now apply updateKeyVal_host with x | reflexivity].
  set (hf := fold_left _ _ _).
  exists (DigestHasher.recipes hf).
  assert (Hh : DigestHasher.host hf = hostPart s).
  { unfold hf. rewrite updateArgs_host. simpl. rewrite E4, E3, E2, E1.
    unfold hostPart. f_equal.
    destruct (CoreStep.isFingerprinted s); [|reflexivity].
    destruct (CoreStep.getSandbox s false); reflexivity. }
  rewrite <- Hh. now destruct hf.
Qed.

Lemma digest_length h :
  length (DigestHasher.digest h)
  = match DigestHasher.host h with [] => 20 | _ :: _ => 40 end.
Proof.
  unfold DigestHasher.digest. destruct (DigestHasher.host h).
  - apply sha1_length.
  - rewrite length_app, !sha1_length. reflexivity.
Qed.

(** The next binding of a computation succeeds. *)
Ltac bind_some tac :=
  match goal with
  | |- is_Some (mbind _ ?m) =>
      let x := fresh "x" in
      let E := fresh "E" in
      assert (is_Some m) as [x E] by tac;
      rewrite E; cbn [mbind option_bind]
  end.

Lemma updateStr_total h p : CoreStep.strFits p -> is_Some (CoreStep.updateStr h p).
Proof.
  intros H. unfold CoreStep.updateStr. rewrite (pack_I_fits _ H). simpl. eauto.
Qed.

Lemma updateStrs_total l h :
  Forall CoreStep.strFits l -> is_Some (foldM CoreStep.updateStr l h).
Proof.
  intros H. revert h. apply foldM_total with (Q := CoreStep.strFits); auto.
  intros b x Hx. now apply updateStr_total.
Qed.

Lemma updateKeyVal_total h kv :
  CoreStep.strFits kv.1 /\ CoreStep.strFits kv.2 -> is_Some (CoreStep.updateKeyVal h kv).
Proof.
  intros [H1 H2]. unfold CoreStep.updateKeyVal.
  rewrite (pack_I_fits _ H1), (pack_I_fits _ H2). simpl. eauto.
Qed.

Lemma updateTool_total h (nt : string * CoreTool.t CoreStep.t) :
  CoreStep.strFits (CoreTool.path nt.2)
  /\ CoreStep.fits (length (CoreTool.libs nt.2))
  /\ Forall CoreStep.strFits (CoreTool.libs nt.2) ->
  is_Some (CoreStep.updateTool calculate h nt).
Proof.
  intros (H1 & H2 & H3). unfold CoreStep.updateTool.
  rewrite (pack_I_fits _ H1), (pack_I_fits _ H2). simpl.
  now apply updateStrs_total.
Qed.

Lemma getDigest_total force s :
  CoreStep.digestFits force s -> is_Some (CoreStep.getDigest calculate force s).
Proof.
  intros (Hsb & Hscript & Htl & Htools & Hel & Henv & Hargs).
  unfold CoreStep.getDigest. cbv zeta.
  bind_some ltac:(
    unfold CoreStep.updateSandbox;
    destruct (RecipeSet.sandboxInvariant _); [eauto|];
    destruct (CoreStep.getSandbox s force) as [sb|]; [|eauto];
    destruct Hsb as [Hn Hp]; rewrite (pack_I_fits _ Hn); simpl;
    now apply updateStrs_total).
  bind_some ltac:(
    unfold CoreStep.updateScript;
    destruct (CoreStep.getDigestScript s) as [[|c r]|]; eauto;
    now apply updateStr_total).
  rewrite (pack_I_fits _ Htl). cbn [mbind option_bind].
  bind_some ltac:(
    apply foldM_total with
      (Q := fun nt : string * CoreTool.t CoreStep.t =>
              CoreStep.strFits (CoreTool.path nt.2)
              /\ CoreStep.fits (length (CoreTool.libs nt.2))
              /\ Forall CoreStep.strFits (CoreTool.libs nt.2));
    [ intros; now apply updateTool_total
    | now rewrite sorted_items_perm ]).
  rewrite (pack_I_fits _ Hel). cbn [mbind option_bind].
  bind_some ltac:(
    apply foldM_total with
      (Q := fun kv : string * string => CoreStep.strFits kv.1 /\ CoreStep.strFits kv.2);
    [ intros; now apply updateKeyVal_total
    | now rewrite sorted_items_perm ]).
  rewrite (pack_I_fits _ Hargs). cbn [mbind option_bind]. eauto.
Qed.

Lemma sliceHost_nil_iff (d : bytes) :
  length d = 20 \/ length d = 40 ->
  (DigestHasher.sliceHost d <> [] <-> length d = 40).
Proof.
  intros Hd. unfold DigestHasher.sliceHost. split.
  - intros Hne. destruct Hd as [Hd|Hd]; [|assumption].
    exfalso. apply Hne. apply length_zero_iff_nil. rewrite length_skipn. lia.
  - intros H40 Hnil. apply (f_equal (@length Z)) in Hnil.
    rewrite length_skipn in Hnil. simpl in Hnil. lia.
Qed.

Lemma sliceRecipes_not_nil (d : bytes) :
  length d = 20 \/ length d = 40 -> DigestHasher.sliceRecipes d <> [].
Proof.
  intros Hd Hnil. apply (f_equal (@length Z)) in Hnil.
  unfold DigestHasher.sliceRecipes in Hnil. rewrite length_firstn in Hnil.
  change (length (@nil Z)) with 0 in Hnil. lia.
Qed.

Lemma args_host_slices (l : list CoreStep.t) :
  Forall (fun t => length (calculate t) = 20 \/ length (calculate t) = 40) l ->
  concat (map (fun a => DigestHasher.sliceHost (calculate a)) l) <> []
  <-> Exists (fun a => length (calculate a) = 40) l.
Proof.
  induction 1 as [|a r Ha _ IH]; simpl.
  - split; [congruence | intros H; inversion H].
  - split.
    + intros H. destruct (DigestHasher.sliceHost (calculate a)) eqn:E.
      * right. now apply IH.
      * left. apply sliceHost_nil_iff; [assumption|]. now rewrite E.
    + intros H Hnil. apply app_eq_nil in Hnil as [Hx Hr].
      inversion H; subst.
      * now apply (sliceHost_nil_iff _ Ha).
      * now apply IH.
Qed.

Lemma hostPart_contribution force s :
  Forall (fun t => length (calculate t) = 20 \/ length (calculate t) = 40)
         (CoreStep.digestDeps s force) ->
  (hostPart s <> [] <-> CoreStep.hostContribution calculate s).
Proof.
  unfold CoreStep.digestDeps. rewrite !Forall_app.
  intros (Hargs & _ & _ & Hsb).
  unfold hostPart, CoreStep.hostContribution.
  pose proof (args_host_slices _ Hargs) as Hc.
  destruct (CoreStep.isFingerprinted s).
  - destruct (CoreStep.getSandbox s false) as [sb|].
    + split; [intros _; left; eauto|]. intros _ Hnil.
      apply app_eq_nil in Hnil as [Hnil _].
      apply sliceRecipes_not_nil in Hnil; [assumption|].
      now inversion Hsb.
    + simpl. rewrite Hc. split; [now right|].
      intros [[_ [x Hx]]|H]; [discriminate | assumption].
  - simpl. rewrite Hc. split; [now right|].
    intros [[Hf _]|H]; [discriminate | assumption].
Qed.
End Host.

(** C2. The digest that [CoreStep.getDigest] returns has 40 bytes exactly
    when the step contributes to the host part (it is fingerprinted and has
    a sandbox, or a valid argument brings a host slice), and 20 bytes
    exactly when it does not. The digests asked of the steps it depends on
    are digests themselves (20 or 40 bytes), and the lengths packed into
    the digest fit 32 bits, so that [struct.pack] does not raise. *)
Theorem getDigest_length (calculate : CoreStep.t -> bytes) (forceSandbox : bool)
    (s : CoreStep.t) :
  CoreStep.digestFits forceSandbox s ->
  Forall (fun t => length (calculate t) = 20 \/ length (calculate t) = 40)
         (CoreStep.digestDeps s forceSandbox) ->
  exists d, CoreStep.getDigest calculate forceSandbox s = Some d
    /\ (length d = 40 <-> CoreStep.hostContribution calculate s)
    /\ (length d = 20 <-> ~ CoreStep.hostContribution calculate s).
Proof.
  intros Hfits Hdeps.
  destruct (getDigest_total calculate forceSandbox s Hfits) as [d Hd].
  exists d. split; [assumption|].
  destruct (getDigest_host calculate forceSandbox s d Hd) as [r ->].
  rewrite digest_length. simpl.
  rewrite <- (hostPart_contribution calculate forceSandbox s Hdeps).
  destruct (hostPart calculate s); split; split; try congruence; try lia.
  intros H. exfalso. now apply H.
Qed.

(** ** What the digest depends on *)

Lemma foldM_map {A B C : Type} (f : B -> C -> option B) (g : A -> C) l b :
  foldM f (map g l) b = foldM (fun b x => f b (g x)) l b.
Proof.
  revert b. induction l as [|x r IH]; intros b; simpl; [reflexivity|].
  destruct (f b (g x)); simpl; auto.
Qed.

Lemma fold_left_map {A B C : Type} (f : B -> C -> B) (g : A -> C) l b :
  fold_left f (map g l) b = fold_left (fun b x => f b (g x)) l b.
Proof. revert b. induction l as [|x r IH]; intros b; simpl; auto. Qed.

Lemma bind_ext {A B : Type} (f g : A -> option B) (m : option A) :
  (forall x, f x = g x) -> mbind f m = mbind g m.
Proof. intros H. destruct m; simpl; auto. Qed.

(** [getDigest] reads the step through [digestInput] only. *)
Lemma getDigest_factors calculate force s :
  CoreStep.getDigest calculate force s
  = CoreStep.digestOf (CoreStep.digestInput calculate force s).
Proof.
  unfold CoreStep.getDigest, CoreStep.digestOf, CoreStep.digestInput.
  cbn [CoreStep.inFingerprint CoreStep.inSandbox CoreStep.inScript CoreStep.inTools
       CoreStep.inEnv CoreStep.inArgs].
  rewrite !length_map, !sorted_items_length.
  assert (H0 :
    (if CoreStep.isFingerprinted s then
       match CoreStep.getSandbox s false with
       | Some sb => DigestHasher.fingerprint DigestHasher.new
                      (DigestHasher.sliceRecipes (calculate (CoreSandbox.coreStep sb)))
       | None => DigestHasher.new
       end
     else DigestHasher.new)
    = match (if CoreStep.isFingerprinted s then
               match CoreStep.getSandbox s false with
               | Some sb => Some (DigestHasher.sliceRecipes
                                    (calculate (CoreSandbox.coreStep sb)))
               | None => None
               end
             else None) with
      | Some b => DigestHasher.fingerprint DigestHasher.new b
      | None => DigestHasher.new
      end).
  { destruct (CoreStep.isFingerprinted s); [|reflexivity].
    destruct (CoreStep.getSandbox s false); reflexivity. }
  cbv zeta. rewrite H0. clear H0.
  match goal with |- mbind _ ?a = mbind _ ?b => assert (H1 : a = b) end.
  { unfold CoreStep.updateSandbox.
    destruct (RecipeSet.sandboxInvariant _); [reflexivity|].
    destruct (CoreStep.getSandbox s force); reflexivity. }
  rewrite H1. clear H1.
  apply bind_ext; intros h1. apply bind_ext; intros h2. apply bind_ext; intros n1.
  rewrite foldM_map.
  apply bind_ext; intros h3. apply bind_ext; intros n2.
  apply bind_ext; intros h4. apply bind_ext; intros n3.
  rewrite fold_left_map. reflexivity.
Qed.

Lemma keys_filter_elem {V : Type} (P : string * V -> bool) (l : list (string * V)) k :
  k ∈ Dict.keys (List.filter P l) -> k ∈ Dict.keys l.
Proof.
  unfold Dict.keys. induction l as [|y r IH]; simpl; [auto|].
  destruct (P y); simpl; rewrite !elem_of_cons; intuition.
Qed.

Lemma NoDup_keys_filter {V : Type} (P : string * V -> bool) (l : list (string * V)) :
  NoDup (Dict.keys l) -> NoDup (Dict.keys (List.filter P l)).
Proof.
  induction l as [|x r IH]; simpl; [auto|].
  intros Hnd. apply NoDup_cons in Hnd as [Hin Hr].
  destruct (P x); simpl; [|now apply IH].
  apply NoDup_cons. split; [|now apply IH].
  intros Hx. apply Hin. now apply keys_filter_elem in Hx.
Qed.

(** The tools that a step uses, for a permutation of the tool dictionary. *)
Lemma getTools_withDicts s tl de :
  NoDup (Dict.keys (CoreStep.tools s)) -> CoreStep.tools s ≡ₚ tl ->
  Dict.sorted_items (CoreStep.getTools (CoreStep.withDicts s tl de))
  = Dict.sorted_items (CoreStep.getTools s)
  /\ length (CoreStep.getTools (CoreStep.withDicts s tl de))
     = length (CoreStep.getTools s).
Proof.
  intros Hnd Hp. unfold CoreStep.getTools. simpl.
  destruct (CoreStep.isValid s); [|split; reflexivity].
  set (P := fun nt : string * CoreTool.t CoreStep.t =>
              bool_decide (nt.1 ∈ CoreStep._getToolKeys s)).
  change (CoreStep._getToolKeys (CoreStep.withDicts s tl de))
    with (CoreStep._getToolKeys s).
  assert (Hpf : List.filter P (CoreStep.tools s) ≡ₚ List.filter P tl).
  { clear Hnd. induction Hp; simpl.
    - reflexivity.
    - destruct (P x); [apply perm_skip|]; assumption.
    - destruct (P x), (P y); try reflexivity. apply perm_swap.
    - etransitivity; eassumption. }
  split.
  - symmetry. apply sorted_items_order; [|assumption].
    now apply NoDup_keys_filter.
  - symmetry. now apply Permutation_length.
Qed.

(** C4. The digest of a step (its Variant-Id when [calculate] reads the
    stored Variant-Ids) depends only on its digest input: the digest script,
    the digest environment, the tool table (recipe slices of the tools'
    steps, path, libs) in the order of the tool names, the digests of the
    valid arguments and the sandbox contribution. Two steps with the same
    digest input have the same digest, whatever else differs; and a step
    whose tool dictionary and digest environment hold the same items in
    another insertion order has the same digest. *)
Theorem getDigest_depends_only_on (calculate : CoreStep.t -> bytes) (forceSandbox : bool) :
  (forall s1 s2,
      CoreStep.digestInput calculate forceSandbox s1
      = CoreStep.digestInput calculate forceSandbox s2 ->
      CoreStep.getDigest calculate forceSandbox s1
      = CoreStep.getDigest calculate forceSandbox s2)
  /\ (forall s tl de,
      NoDup (Dict.keys (CoreStep.tools s)) -> CoreStep.tools s ≡ₚ tl ->
      NoDup (Dict.keys (CoreStep.digestEnv s)) -> CoreStep.digestEnv s ≡ₚ de ->
      CoreStep.getDigest calculate forceSandbox (CoreStep.withDicts s tl de)
      = CoreStep.getDigest calculate forceSandbox s).
Proof.
  split.
  - intros s1 s2 H. now rewrite !getDigest_factors, H.
  - intros s tl de Hnt Hpt Hne Hpe.
    rewrite !getDigest_factors. f_equal.
    destruct (getTools_withDicts s tl de Hnt Hpt) as [Ht _].
    unfold CoreStep.digestInput. rewrite Ht.
    change (CoreStep.digestEnv (CoreStep.withDicts s tl de)) with de.
    rewrite (sorted_items_order _ _ Hne Hpe).
    reflexivity.
Qed.

(** ** Determinism of a step *)

(** What the constructor stores in [deterministic]. *)
Lemma init_deterministic kind recipe tools sandbox states pkgId fingerprintMask
    scmList isValid deterministic digestEnv env args s :
  CoreStep.init kind recipe tools sandbox states pkgId fingerprintMask scmList
    isValid deterministic digestEnv env args = Some s ->
  CoreStep.deterministic s
  = deterministic
    && forallb CoreStep.isDeterministic (CoreStep.getAllDepCoreSteps s true).
Proof.
  unfold CoreStep.init. cbv zeta. intros H. bind_inv H.
  inversion H; subst. reflexivity.
Qed.

Lemma isDeterministic_flag s :
  CoreStep.isDeterministic s = true -> CoreStep.deterministic s = true.
Proof.
  unfold CoreStep.isDeterministic.
  destruct (CoreStep.kind s); auto. now intros [H _]%andb_true_iff.
Qed.

Lemma constructed_deps s :
  CoreStep.constructed s ->
  (forall d, CoreStep.dependsOn s d -> CoreStep.constructed d)
  /\ (CoreStep.deterministic s = true ->
      forall d, CoreStep.dependsOn s d -> CoreStep.isDeterministic d = true).
Proof.
  induction 1 as [k r tl sb st id fm scm v det de e a s Hinit Hdeps _
                 | s pe pt pd ps Hs [IH1 IH2]].
  - split; [assumption|].
    rewrite (init_deterministic _ _ _ _ _ _ _ _ _ _ _ _ _ _ Hinit).
    intros [_ Hall]%andb_true_iff d Hd.
    rewrite forallb_forall in Hall. now apply Hall.
  - split; assumption.
Qed.


(** ** Computations that may raise *)

Lemma rbind_Ok {A B : Type} (m : result A) (f : A -> result B) b :
  mbind f m = Ok b -> exists a, m = Ok a /\ f a = Ok b.
Proof. destruct m; simpl; intros H; try discriminate. eauto. Qed.

Lemma rbind_fuel {A B : Type} (m : result A) (f : A -> result B) :
  mbind f m = OutOfFuel -> m = OutOfFuel \/ exists a, m = Ok a /\ f a = OutOfFuel.
Proof. destruct m; simpl; intros H; try discriminate; eauto. Qed.

(** Take the next binding of a computation that returned apart. *)
Ltac rinv H :=
  let a := fresh "a" in
  let E := fresh "E" in
  apply rbind_Ok in H as (a & E & H).

Lemma packed_Ok {A : Type} (o : option A) a : packed o = Ok a -> o = Some a.
Proof. destruct o; simpl; intros H; now inversion H. Qed.

Lemma packed_fuel {A : Type} (o : option A) : packed o <> OutOfFuel.
Proof. now destruct o. Qed.

Lemma foldR_inv {A B : Type} (P : B -> Prop) (f : B -> A -> result B) l :
  (forall b x b', In x l -> f b x = Ok b' -> P b -> P b') ->
  forall b b', foldR f l b = Ok b' -> P b -> P b'.
Proof.
  induction l as [|x r IH]; simpl; intros Hf b b' H Hb.
  - now inversion H; subst.
  - rinv H. eapply IH; [| exact H |]; eauto.
Qed.

(** What a round establishes for its element stays until the end. *)
Lemma foldR_each {A B : Type} (Q : A -> B -> Prop) (P : B -> Prop)
    (f : B -> A -> result B) l :
  (forall b x b', In x l -> f b x = Ok b' -> P b -> P b' /\ Q x b') ->
  (forall b y b' x, f b y = Ok b' -> P b -> Q x b -> Q x b') ->
  forall b b', foldR f l b = Ok b' -> P b ->
  P b' /\ forall x, In x l -> Q x b'.
Proof.
  induction l as [|x r IH]; simpl; intros Hf Hq b b' H Hb.
  - inversion H; subst. split; [assumption | contradiction].
  - rinv H. destruct (Hf b x a (or_introl eq_refl) E Hb) as [Ha Hx].
    assert (Hr : P b' /\ forall y, In y r -> Q y b').
    { eapply IH; [| | exact H | exact Ha]; eauto. }
    destruct Hr as [Hb' Hr]. split; [assumption|].
    intros y [<-|Hy]; [|now apply Hr].
    apply (foldR_inv (fun c => P c /\ Q x c) f r) with (b := a) (b' := b');
      [| assumption | now split].
    intros c z c' Hz Hfz [Hc Hqc]. split; [|now apply (Hq c z)].
    now apply (Hf c z c' (or_intror Hz)).
Qed.

Lemma foldR_fuel {A B : Type} (P : B -> Prop) (f : B -> A -> result B) l :
  (forall b x, In x l -> P b -> f b x <> OutOfFuel) ->
  (forall b x b', In x l -> f b x = Ok b' -> P b -> P b') ->
  forall b, P b -> foldR f l b <> OutOfFuel.
Proof.
  induction l as [|x r IH]; simpl; intros Hf Hp b Hb H; [discriminate|].
  apply rbind_fuel in H as [H|(a & E & H)].
  - now apply (Hf b x (or_introl eq_refl)).
  - apply (IH (fun b y Hy => Hf b y (or_intror Hy))
              (fun b y b' Hy => Hp b y b' (or_intror Hy)) a); [|assumption].
    now apply (Hp b x a (or_introl eq_refl)).
Qed.

(** ** Fuel *)

Lemma nf_bind {A B : Type} (m : result A) (f : A -> result B) :
  m <> OutOfFuel -> (forall a, m = Ok a -> f a <> OutOfFuel) -> mbind f m <> OutOfFuel.
Proof. destruct m; simpl; intros H1 H2; [now apply H2 | discriminate | contradiction]. Qed.

Lemma nf_foldR {A B : Type} (f : B -> A -> result B) l b :
  (forall b x, f b x <> OutOfFuel) -> foldR f l b <> OutOfFuel.
Proof.
  intros Hf. revert b. induction l as [|x r IH]; intros b; simpl; [discriminate|].
  apply nf_bind; auto.
Qed.

Lemma nf_mapR {A B : Type} (f : A -> result B) l :
  (forall x, f x <> OutOfFuel) -> mapR f l <> OutOfFuel.
Proof.
  intros Hf. induction l as [|x r IH]; simpl; [discriminate|].
  apply nf_bind; auto; intros; apply nf_bind; auto; intros; discriminate.
Qed.

(** No part of the elaboration but the recursive call runs out of fuel. *)
Create HintDb nofuel.

Ltac nofuel_step :=
  match goal with
  | |- Ok _ <> OutOfFuel => discriminate
  | |- Err _ <> OutOfFuel => discriminate
  | |- mbind _ _ <> OutOfFuel => apply nf_bind; [|intros]
  | |- packed _ <> OutOfFuel => apply packed_fuel
  | |- foldR _ _ _ <> OutOfFuel => apply nf_foldR; intros
  | |- mapR _ _ <> OutOfFuel => apply nf_mapR; intros
  | |- context [match ?x with _ => _ end] => destruct x eqn:?
  | _ => solve [auto with nofuel]
  end.
Ltac nofuel := repeat nofuel_step.

Lemma nf_applyFun fa fn args : StringParser.applyFun fa fn args <> OutOfFuel.
Proof. unfold StringParser.applyFun. nofuel. Qed.
#[local] Hint Resolve nf_applyFun : nofuel.

Lemma nf_lookup env act n t : StringParser.lookup env act n t <> OutOfFuel.
Proof. unfold StringParser.lookup. nofuel. Qed.
#[local] Hint Resolve nf_lookup : nofuel.

Lemma nf_callChar fa a d c n r t ch : StringParser.callChar fa a d c n r t ch <> OutOfFuel.
Proof. unfold StringParser.callChar. nofuel. Qed.
#[local] Hint Resolve nf_callChar : nofuel.

Lemma nf_stepText fa st c : StringParser.stepText fa st c <> OutOfFuel.
Proof. unfold StringParser.stepText. nofuel. Qed.
#[local] Hint Resolve nf_stepText : nofuel.

Lemma nf_step env fa st c : StringParser.step env fa st c <> OutOfFuel.
Proof. unfold StringParser.step. nofuel. Qed.
#[local] Hint Resolve nf_step : nofuel.

Lemma nf_run env fa text : forall st, StringParser.run env fa st text <> OutOfFuel.
Proof. induction text; intros st; simpl; nofuel. Qed.
#[local] Hint Resolve nf_run : nofuel.

Lemma nf_parse env fa text : StringParser.parse env fa text <> OutOfFuel.
Proof. unfold StringParser.parse, StringParser.finish. nofuel. Qed.
#[local] Hint Resolve nf_parse : nofuel.

Lemma nf_substitute fa env text : Env.substitute fa env text <> OutOfFuel.
Proof. unfold Env.substitute. nofuel. Qed.
#[local] Hint Resolve nf_substitute : nofuel.

Lemma nf_evaluate fa env c : Env.evaluate fa env c <> OutOfFuel.
Proof. unfold Env.evaluate. nofuel. Qed.
#[local] Hint Resolve nf_evaluate : nofuel.

Lemma nf_substituteAll fa env d : Env.substituteAll fa env d <> OutOfFuel.
Proof. unfold Env.substituteAll. nofuel. Qed.
#[local] Hint Resolve nf_substituteAll : nofuel.
Lemma nf_substituteList fa env d : Env.substituteList fa env d <> OutOfFuel.
Proof. unfold Env.substituteList. nofuel. Qed.
#[local] Hint Resolve nf_substituteList : nofuel.

Lemma nf_applyEnvs fa env l : Prepare.applyEnvs fa env l <> OutOfFuel.
Proof. unfold Prepare.applyEnvs. nofuel. Qed.
#[local] Hint Resolve nf_applyEnvs : nofuel.

Lemma nf_enter se self i st : Prepare.enter se self i st <> OutOfFuel.
Proof. unfold Prepare.enter. nofuel. Qed.

Lemma nf_append l r : UniquePackageList.append l r <> OutOfFuel.
Proof. unfold UniquePackageList.append. nofuel. Qed.
#[local] Hint Resolve nf_append : nofuel.

Lemma nf_primeDirect u dep r td dp : Prepare.primeDirect u dep r td dp <> OutOfFuel.
Proof. unfold Prepare.primeDirect. nofuel. Qed.
#[local] Hint Resolve nf_primeDirect : nofuel.

Lemma nf_applyDep se self l dep st out : Prepare.applyDep se self l dep st out <> OutOfFuel.
Proof. unfold Prepare.applyDep, UniquePackageList.extend. nofuel. Qed.

Lemma nf_indirectStep acc r : Prepare.indirectStep acc r <> OutOfFuel.
Proof. unfold Prepare.indirectStep. nofuel. Qed.
#[local] Hint Resolve nf_indirectStep : nofuel.

Lemma nf_validate k l : validateScmPaths k l <> OutOfFuel.
Proof. revert k. induction l; intros k; simpl; nofuel. Qed.
#[local] Hint Resolve nf_validate : nofuel.

Lemma nf_finish se self states l n : Prepare.finish se self states l n <> OutOfFuel.
Proof.
  unfold Prepare.finish, Prepare.applyToolEnvs, Prepare.fingerprintMask,
    CoreCheckoutStep, CoreBuildStep, CorePackageStep, initStep, activeScms,
    prepareTool, prepareSandbox, sandboxEnvironment.
  nofuel.
Qed.

(** ** The loop over the dependencies *)

Lemma existsb_eqb_false (n : string) (stack : list string) :
  existsb (String.eqb n) stack = false <-> ~ In n stack.
Proof.
  induction stack as [|x r IH]; simpl; [tauto|].
  rewrite orb_false_iff, IH. destruct (String.eqb_spec n x); intuition congruence.
Qed.

Lemma onStack_false (stack : list string) (names : gset string) :
  Prepare.onStack stack names = false <-> forall n, In n stack -> n ∉ names.
Proof.
  unfold Prepare.onStack. induction stack as [|x r IH]; simpl; [tauto|].
  rewrite orb_false_iff, IH, bool_decide_eq_false.
  split; [intros [? ?] n [<-|?]; auto | auto].
Qed.

Lemma applyDep_Ok sandboxEnabled self l dep st out l' :
  Prepare.applyDep sandboxEnabled self l dep st out = Ok l' ->
  Prepare.store l' = st
  /\ Prepare.subTreePackages l'
     = {[ CorePackage.getName (Prepare.package out) ]} ∪ Prepare.subTree out
       ∪ Prepare.subTreePackages l.
Proof.
  unfold Prepare.applyDep. intros H.
  rinv H. destruct a as [thisDeps directPackages].
  destruct (Prepare.useResult _ _ _ _) as [thisDeps' results].
  repeat case_match; rinv H; inversion H; subst; simpl; auto.
Qed.

Section Elaboration.
Variable recipes : gmap string Recipe.t.
Variable sandboxEnabled : bool.

Lemma evaluate_None fa env : Env.evaluate fa env None = Ok (true, ∅).
Proof. reflexivity. Qed.

(** A round of the loop either skips a dependency with a condition or
    goes into a recipe that is not on the stack. *)
Lemma depStep_Ok rec self i stack l dep l' :
  Prepare.depStep recipes sandboxEnabled rec self i stack l dep = Ok l' ->
  (Dependency.condition dep <> None
   /\ Prepare.store l' = Prepare.store l
   /\ Prepare.subTreePackages l' = Prepare.subTreePackages l)
  \/ exists r i' st out,
       recipes !! Dependency.recipe dep = Some r
       /\ ~ In (Recipe.packageName r) stack
       /\ rec (Prepare.store l) r i' (stack ++ [Recipe.packageName r]) = Ok (st, out)
       /\ Prepare.store l' = st
       /\ Prepare.subTreePackages l'
          = {[ CorePackage.getName (Prepare.package out) ]} ∪ Prepare.subTree out
            ∪ Prepare.subTreePackages l.
Proof.
  unfold Prepare.depStep, Prepare.getRecipe. intros H.
  rinv H. destruct a as [c t]. destruct c; simpl in H.
  - right. destruct (recipes !! Dependency.recipe dep) as [r|] eqn:Er; simpl in H;
      [|discriminate].
    destruct (existsb _ stack) eqn:Es; [discriminate|].
    rinv H. destruct a as [st out].
    apply applyDep_Ok in H as [H1 H2]. simpl in *.
    exists r. eexists. exists st, out. repeat split; eauto.
    now apply existsb_eqb_false.
  - left. inversion H; subst; simpl. repeat split; auto.
    intros Hc. rewrite Hc in E. simpl in E. discriminate.
Qed.

Lemma enter_Ok self i st l :
  Prepare.enter sandboxEnabled self i st = Ok l ->
  Prepare.store l = st /\ Prepare.subTreePackages l = ∅.
Proof.
  unfold Prepare.enter. intros H.
  destruct (Env.filter _ _) as [env t0]. rinv H. destruct a as [env' t1].
  inversion H; subst; simpl. auto.
Qed.


(** Take a computation that returned apart, binding after binding. *)
Ltac rsteps H :=
  repeat first
    [ rinv H
    | progress cbv beta iota zeta in H
    | match type of H with
      | (match ?x with _ => _ end) = Ok _ => destruct x eqn:?
      end ].

Lemma finish_Ok self states l n b :
  Prepare.finish sandboxEnabled self states l n = Ok b ->
  CorePackage.recipe (Prepare.builtPackage b) = self.
Proof.
  unfold Prepare.finish. intros H. rsteps H; try discriminate;
    inversion H; subst; reflexivity.
Qed.

Lemma remember_Ok self i l b st' out :
  Prepare.remember self i l b = Ok (st', out) ->
  exists pid m,
    Tables.resultIdOf (Prepare.builtPackage b) = Some pid
    /\ Prepare.package out
       = match Store.packages (Prepare.store l) (Recipe.packageName self) !! pid with
         | Some q => q
         | None => Prepare.builtPackage b
         end
    /\ Prepare.subTree out = Prepare.subTreePackages l
    /\ PackageMatcher.corePackage m = Prepare.package out
    /\ PackageMatcher.subTreePackages m = Prepare.subTreePackages l
    /\ Store.byMatch st'
       = <[ Recipe.packageName self :=
              m :: Store.matchers (Prepare.store l) (Recipe.packageName self) ]>
           (Store.byMatch (Prepare.store l))
    /\ Store.byId st'
       = <[ Recipe.packageName self :=
              match Store.packages (Prepare.store l) (Recipe.packageName self) !! pid with
              | Some _ => Store.packages (Prepare.store l) (Recipe.packageName self)
              | None => <[ pid := Prepare.builtPackage b ]>
                          (Store.packages (Prepare.store l) (Recipe.packageName self))
              end ]>
           (Store.byId (Prepare.store l)).
Proof.
  unfold Prepare.remember. intros H. rinv H. apply packed_Ok in E.
  inversion H; subst; clear H. exists a. eexists.
  repeat split; try reflexivity. exact E.
Qed.
End Elaboration.

(** ** The tables of an elaboration *)

Section Sound.
Variable recipes : gmap string Recipe.t.
Variable sandboxEnabled : bool.
Variable good : CorePackage.t -> Prop.
Hypothesis Hreg : Graph.registered recipes.
Hypothesis Hgood : forall self states l n b,
  recipes !! Recipe.packageName self = Some self ->
  Prepare.finish sandboxEnabled self states l n = Ok b ->
  good (Prepare.builtPackage b).

Lemma reach_inv n d :
  Graph.reach recipes n d ->
  exists e, Graph.edge recipes n e /\ (d = e \/ Graph.reach recipes e d).
Proof. intros H. inversion H; subst; eauto. Qed.

Lemma post_name st self stack st' out :
  Tables.post recipes good st self stack st' out ->
  CorePackage.getName (Prepare.package out) = Recipe.packageName self
  /\ good (Prepare.package out).
Proof.
  intros [Hinv _ _ _ [pid Hp] _ _ _].
  now destruct (Tables.inv_byId _ _ _ Hinv _ _ _ Hp) as (_ & ? & ?).
Qed.

Lemma extends_trans a b c :
  Tables.extends a b -> Tables.extends b c -> Tables.extends a c.
Proof. unfold Tables.extends. eauto. Qed.

(** A round of the loop keeps what holds of the local variables, and a
    dependency that it went into is done. *)
Lemma depStep_sound rec self i stack st l dep l' :
  Tables.sound recipes good rec ->
  Tables.loopInv recipes good st stack l ->
  Prepare.depStep recipes sandboxEnabled rec self i stack l dep = Ok l' ->
  Tables.loopInv recipes good st stack l'
  /\ Tables.depDone recipes dep l'
  /\ Prepare.subTreePackages l ⊆ Prepare.subTreePackages l'.
Proof.
  intros Hrec [Hinv Hext Hframe Hstack] H.
  apply depStep_Ok in H as [(Hc & Hs & Ht)|(r & i' & st2 & out & Hr & Hns & Hcall & Hs & Ht)].
  - split; [|split].
    + constructor; rewrite ?Hs; try assumption. now rewrite Ht.
    + intros Hn. contradiction.
    + now rewrite Ht.
  - pose proof (Hreg _ _ Hr) as Hname.
    assert (Hself : recipes !! Recipe.packageName r = Some r) by now rewrite Hname.
    pose proof (Hrec _ _ _ _ _ _ Hinv Hself Hcall) as Hpost.
    destruct (post_name _ _ _ _ _ Hpost) as [Hpn _].
    destruct Hpost as [Pinv Pext Pframe _ _ Preach Pstack Pacyc].
    rewrite Hpn in Ht. rewrite Hname in *.
    split; [|split].
    + constructor; rewrite ?Hs.
      * assumption.
      * eapply extends_trans; eassumption.
      * intros n Hn. rewrite Pframe; [now apply Hframe | apply in_or_app; now left |].
        intros ->. contradiction.
      * intros n Hn. rewrite Ht. intros Hin.
        apply elem_of_union in Hin as [Hin|Hin]; [|now apply (Hstack n)].
        apply elem_of_union in Hin as [Hin|Hin].
        -- apply elem_of_singleton in Hin. subst. contradiction.
        -- apply (Pstack n); [apply in_or_app; now left | assumption].
    + intros _. rewrite Ht. repeat split.
      * apply elem_of_union_l, elem_of_union_l. now apply elem_of_singleton.
      * intros d Hd. apply elem_of_union_l, elem_of_union_r. now apply Preach.
      * intros Hcyc. apply (Pstack (Dependency.recipe dep)).
        -- apply in_or_app. right. now left.
        -- now apply Preach.
      * assumption.
    + rewrite Ht. apply union_subseteq_r.
Qed.

Lemma loop_sound rec self i stack st l l' :
  Tables.sound recipes good rec ->
  Tables.loopInv recipes good st stack l ->
  foldR (Prepare.depStep recipes sandboxEnabled rec self i stack) (Recipe.deps self) l
    = Ok l' ->
  Tables.loopInv recipes good st stack l'
  /\ forall dep, In dep (Recipe.deps self) -> Tables.depDone recipes dep l'.
Proof.
  intros Hrec Hl H.
  eapply (foldR_each (Tables.depDone recipes) (Tables.loopInv recipes good st stack));
    [| | exact H | exact Hl].
  - intros b x b' _ Hx Hb. destruct (depStep_sound _ _ _ _ _ _ _ _ Hrec Hb Hx) as (? & ? & ?).
    now split.
  - intros b y b' x Hy Hb Hq Hc.
    destruct (depStep_sound _ _ _ _ _ _ _ _ Hrec Hb Hy) as (_ & _ & Hsub).
    destruct (Hq Hc) as (H1 & H2 & H3 & H4). repeat split; auto.
Qed.

(** After the loop the names below the call hold all that the recipe
    depends on. *)
Lemma loop_reach self l :
  recipes !! Recipe.packageName self = Some self ->
  (forall dep, In dep (Recipe.deps self) -> Tables.depDone recipes dep l) ->
  (forall d, Graph.reach recipes (Recipe.packageName self) d ->
             d ∈ Prepare.subTreePackages l)
  /\ Graph.acyclicBelow recipes (Recipe.packageName self).
Proof.
  intros Hself Hdone.
  assert (Hedge : forall e, Graph.edge recipes (Recipe.packageName self) e ->
            exists dep, In dep (Recipe.deps self) /\ Dependency.condition dep = None
                        /\ Dependency.recipe dep = e).
  { intros e (r & dep & Hr & Hin & Hc & He). rewrite Hself in Hr. inversion Hr; subst.
    eauto. }
  split.
  - intros d Hd. apply reach_inv in Hd as (e & He & Hd).
    apply Hedge in He as (dep & Hin & Hc & <-).
    destruct (Hdone dep Hin Hc) as (H1 & H2 & _). destruct Hd as [->|Hd]; auto.
  - intros d Hd. apply reach_inv in Hd as (e & He & Hd).
    apply Hedge in He as (dep & Hin & Hc & <-).
    destruct (Hdone dep Hin Hc) as (_ & _ & H3 & H4). destruct Hd as [->|Hd]; auto.
Qed.

Lemma matchers_insert (st st' : Store.t) name x n :
  Store.byMatch st' = <[ name := x ]> (Store.byMatch st) ->
  Store.matchers st' n = if decide (n = name) then x else Store.matchers st n.
Proof.
  intros H. unfold Store.matchers. rewrite H. destruct (decide (n = name)) as [->|Hn].
  - now rewrite lookup_insert_eq.
  - now rewrite lookup_insert_ne.
Qed.

Lemma packages_insert (st st' : Store.t) name x n :
  Store.byId st' = <[ name := x ]> (Store.byId st) ->
  Store.packages st' n = if decide (n = name) then x else Store.packages st n.
Proof.
  intros H. unfold Store.packages. rewrite H. destruct (decide (n = name)) as [->|Hn].
  - now rewrite lookup_insert_eq.
  - now rewrite lookup_insert_ne.
Qed.

(** The table of a recipe after [setdefault(pid, p)]. *)
Lemma setdefault_lookup (Q : gmap bytes CorePackage.t) pid p k q :
  match Q !! pid with Some _ => Q | None => <[ pid := p ]> Q end !! k = Some q ->
  Q !! k = Some q \/ (k = pid /\ q = p).
Proof.
  destruct (Q !! pid) eqn:E; [now left|].
  destruct (decide (k = pid)) as [->|Hk].
  - rewrite lookup_insert_eq. intros [= <-]. now right.
  - rewrite lookup_insert_ne by congruence. now left.
Qed.

Lemma setdefault_keeps (Q : gmap bytes CorePackage.t) pid p k q :
  Q !! k = Some q ->
  match Q !! pid with Some _ => Q | None => <[ pid := p ]> Q end !! k = Some q.
Proof.
  intros H. destruct (Q !! pid) eqn:E; [assumption|].
  rewrite lookup_insert_ne; [assumption|]. intros <-. congruence.
Qed.

Lemma setdefault_pid (Q : gmap bytes CorePackage.t) pid p :
  match Q !! pid with Some _ => Q | None => <[ pid := p ]> Q end !! pid
  = Some match Q !! pid with Some q => q | None => p end.
Proof. destruct (Q !! pid) eqn:E; [assumption|]. now rewrite lookup_insert_eq. Qed.

(** The body of [prepare] keeps the tables in order when the recursive
    calls do. *)
Lemma body_sound rec :
  Tables.sound recipes good rec ->
  Tables.sound recipes good (Prepare.prepareBody recipes sandboxEnabled rec).
Proof.
  intros Hrec st self i stack st' out Hinv Hself H.
  unfold Prepare.prepareBody in H.
  destruct (Prepare.findMatch _ i) as [m|] eqn:Hm.
  - destruct (Prepare.onStack stack _) eqn:Hon; [discriminate|].
    inversion H; subst; clear H.
    apply find_some in Hm as [Hin Hmatch].
    destruct (Tables.inv_tree _ _ _ Hinv _ _ Hin) as [Ht Ha].
    constructor; simpl; auto.
    + intros n p q Hq. exact Hq.
    + eapply Tables.inv_match; eassumption.
    + now apply onStack_false.
  - rinv H. rename a into l0. rename E into Henter.
    rinv H. rename a into l1. rename E into Hloop.
    rinv H. rename a into b. rename E into Hfinish.
    apply enter_Ok in Henter as [Hs0 Ht0].
    assert (Hl0 : Tables.loopInv recipes good st stack l0).
    { constructor; rewrite ?Hs0; auto.
      - intros n p q Hq. exact Hq.
      - intros n _. rewrite Ht0. set_solver. }
    destruct (loop_sound _ _ _ _ _ _ _ Hrec Hl0 Hloop) as [[Linv Lext Lframe Lstack] Hdone].
    destruct (loop_reach _ _ Hself Hdone) as [Hreach Hacyc].
    pose proof (Hgood _ _ _ _ _ Hself Hfinish) as Hgb.
    apply finish_Ok in Hfinish as Hrb.
    apply remember_Ok in H as (pid & m & Hpid & Hpkg & Hsub & Hmp & Hms & Hbm & Hbi).
    pose proof (fun n => matchers_insert _ _ _ _ n Hbm) as HM.
    pose proof (fun n => packages_insert _ _ _ _ n Hbi) as HP.
    assert (Hinv' : Tables.invariant recipes good st').
    { constructor.
      - intros n k q. rewrite (HP n). destruct (decide (n = Recipe.packageName self)) as [->|Hn].
        + intros Hq. apply setdefault_lookup in Hq as [Hq|[-> ->]].
          * eapply Tables.inv_byId; eassumption.
          * repeat split; auto. unfold CorePackage.getName. now rewrite Hrb.
        + apply (Tables.inv_byId _ _ _ Linv).
      - intros n m0. rewrite (HM n), (HP n). destruct (decide (n = Recipe.packageName self)) as [->|Hn].
        + intros [<-|Hin].
          * exists pid. rewrite Hmp, Hpkg. apply setdefault_pid.
          * destruct (Tables.inv_match _ _ _ Linv _ _ Hin) as [k Hk].
            exists k. now apply setdefault_keeps.
        + apply (Tables.inv_match _ _ _ Linv).
      - intros n m0. rewrite (HM n). destruct (decide (n = Recipe.packageName self)) as [->|Hn].
        + intros [<-|Hin].
          * rewrite Hms. now split.
          * eapply Tables.inv_tree; eassumption.
        + apply (Tables.inv_tree _ _ _ Linv). }
    constructor; auto.
    + eapply extends_trans; [exact Lext|].
      intros n k q. rewrite (HP n). destruct (decide (n = Recipe.packageName self)) as [->|Hn]; auto.
      apply setdefault_keeps.
    + intros n Hn Hne. rewrite (HM n). destruct (decide (n = Recipe.packageName self)); [contradiction|].
      now apply Lframe.
    + intros Hn. right. exists m. rewrite (HM (Recipe.packageName self)).
      destruct (decide (Recipe.packageName self = Recipe.packageName self)); [|contradiction].
      rewrite (Lframe _ Hn). now split.
    + exists pid. rewrite (HP (Recipe.packageName self)). destruct (decide (Recipe.packageName self = Recipe.packageName self)); [|contradiction].
      rewrite Hpkg. apply setdefault_pid.
    + now rewrite Hsub.
    + now rewrite Hsub.
Qed.

(** [prepare] keeps the tables in order. *)
Lemma prepare_sound fuel :
  Tables.sound recipes good (Prepare.prepare recipes sandboxEnabled fuel).
Proof.
  induction fuel as [|fuel IH].
  - intros st self i stack st' out _ _ H. discriminate H.
  - simpl. now apply body_sound.
Qed.

Lemma empty_invariant : Tables.invariant recipes good Store.empty.
Proof. constructor; intros n; unfold Store.matchers, Store.packages; simpl;
  rewrite ?lookup_empty; simpl; intros; try contradiction; now rewrite lookup_empty in *. Qed.

Lemma later_invariant st st' :
  Tables.later recipes sandboxEnabled st st' ->
  Tables.invariant recipes good st ->
  Tables.invariant recipes good st' /\ Tables.extends st st'.
Proof.
  induction 1 as [st|st st1 st2 (fuel & self & i & stack & out & Hself & Hcall) _ IH].
  - intros H. split; [assumption | now intros n k q].
  - intros Hinv. destruct (prepare_sound fuel _ _ _ _ _ _ Hinv Hself Hcall) as [Pinv Pext].
    destruct (IH Pinv) as [? ?]. split; [assumption | eapply extends_trans; eassumption].
Qed.
End Sound.

(** ** Elaboration returns or raises *)

#[local] Hint Resolve nf_applyDep nf_enter nf_finish : nofuel.

Section Returns.
Variable recipes : gmap string Recipe.t.
Variable sandboxEnabled : bool.
Hypothesis Hreg : Graph.registered recipes.

Lemma nf_depStep rec self i stack l dep :
  (forall st r i', recipes !! Dependency.recipe dep = Some r ->
     ~ In (Recipe.packageName r) stack ->
     rec st r i' (stack ++ [Recipe.packageName r]) <> OutOfFuel) ->
  Prepare.depStep recipes sandboxEnabled rec self i stack l dep <> OutOfFuel.
Proof.
  intros Hrec. unfold Prepare.depStep, Prepare.getRecipe. nofuel.
  match goal with
  | H : match recipes !! ?k with _ => _ end = Ok _ |- _ =>
      destruct (recipes !! k) eqn:Hr; [inversion H; subst | discriminate]
  end.
  apply Hrec; [reflexivity | now apply existsb_eqb_false].
Qed.

Lemma stack_grows (stack : list string) (n : string) :
  n ∈ dom recipes -> ~ In n stack ->
  size (dom recipes ∖ list_to_set (stack ++ [n]))
  < size (dom recipes ∖ list_to_set stack).
Proof.
  intros Hn Hs. apply subset_size. split.
  - intros x. rewrite !elem_of_difference, !elem_of_list_to_set, elem_of_app.
    intros [? Hx]. split; [assumption|]. intros ?. apply Hx. now left.
  - intros Hsub. assert (Hin : n ∈ dom recipes ∖ list_to_set (C := gset string) stack).
    { apply elem_of_difference. split; [assumption|].
      rewrite elem_of_list_to_set. intros Hx. apply Hs. now apply list_elem_of_In. }
    apply Hsub in Hin. apply elem_of_difference in Hin as [_ Hin]. apply Hin.
    rewrite elem_of_list_to_set, elem_of_app. right. apply list_elem_of_In. now left.
Qed.

(** [prepare] returns or raises when the fuel is more than the number of
    the recipes that are not on the stack. *)
Lemma prepare_returns fuel : forall st self i stack,
  size (dom recipes ∖ list_to_set (C := gset string) stack) < fuel ->
  Prepare.prepare recipes sandboxEnabled fuel st self i stack <> OutOfFuel.
Proof.
  induction fuel as [|fuel IH]; intros st self i stack Hsize; [lia|].
  simpl. unfold Prepare.prepareBody.
  destruct (Prepare.findMatch _ i) as [m|]; [destruct (Prepare.onStack _ _); discriminate|].
  apply nf_bind; [apply nf_enter | intros l0 _].
  apply nf_bind; [| intros l1 _; apply nf_bind; [apply nf_finish | intros b _]].
  - apply nf_foldR. intros l dep. apply nf_depStep. intros st' r i' Hr Hns.
    apply IH. pose proof (Hreg _ _ Hr) as Hname.
    assert (Hd : Recipe.packageName r ∈ dom recipes).
    { apply elem_of_dom. exists r. now rewrite Hname. }
    pose proof (stack_grows stack _ Hd Hns). lia.
  - unfold Prepare.remember. nofuel.
Qed.
End Returns.

(** ** Deduplication, memoization and cycles *)

Lemma reachable_invariant recipes sandboxEnabled st :
  Graph.registered recipes ->
  Tables.later recipes sandboxEnabled Store.empty st ->
  Tables.invariant recipes (fun _ => True) st.
Proof.
  intros Hreg Hl.
  apply (later_invariant recipes sandboxEnabled (fun _ => True) Hreg
           (fun _ _ _ _ _ _ _ => I) _ _ Hl).
  apply empty_invariant.
Qed.

(** C1 (amended). Two calls of [prepare] on the same recipe in one
    elaboration, the second on tables that come after those of the first,
    whose packages have package steps with equal Result-Ids return the same
    package; the package of a call is registered under that Result-Id in
    the table of its recipe. *)
Theorem same_resultId_same_package
    (recipes : gmap string Recipe.t) (sandboxEnabled : bool)
    (self : Recipe.t) (st0 st1 st2 st2' : Store.t) (fuel1 fuel2 : nat)
    (i1 i2 : Prepare.Inputs) (stack1 stack2 : list string)
    (out1 out2 : Prepare.Output) :
  Graph.registered recipes ->
  Tables.later recipes sandboxEnabled Store.empty st0 ->
  recipes !! Recipe.packageName self = Some self ->
  Prepare.prepare recipes sandboxEnabled fuel1 st0 self i1 stack1 = Ok (st1, out1) ->
  Tables.later recipes sandboxEnabled st1 st2 ->
  Prepare.prepare recipes sandboxEnabled fuel2 st2 self i2 stack2 = Ok (st2', out2) ->
  (exists pid,
     Tables.resultIdOf (Prepare.package out2) = Some pid
     /\ Store.packages st2' (Recipe.packageName self) !! pid = Some (Prepare.package out2))
  /\ (Tables.resultIdOf (Prepare.package out1) = Tables.resultIdOf (Prepare.package out2) ->
      Prepare.package out1 = Prepare.package out2).
Proof.
  intros Hreg H0 Hself Hcall1 H12 Hcall2.
  pose proof (reachable_invariant _ _ _ Hreg H0) as Hinv0.
  pose proof (prepare_sound recipes sandboxEnabled (fun _ => True) Hreg
                (fun _ _ _ _ _ _ _ => I)) as Hsound.
  destruct (Hsound fuel1 _ _ _ _ _ _ Hinv0 Hself Hcall1) as [Hinv1 _ _ _ [pid1 Hp1] _ _ _].
  destruct (later_invariant recipes sandboxEnabled (fun _ => True) Hreg
              (fun _ _ _ _ _ _ _ => I) _ _ H12 Hinv1) as [Hinv2 Hext12].
  destruct (Hsound fuel2 _ _ _ _ _ _ Hinv2 Hself Hcall2) as [Hinv2' Hext2 _ _ [pid2 Hp2] _ _ _].
  destruct (Tables.inv_byId _ _ _ Hinv1 _ _ _ Hp1) as (Hr1 & _).
  destruct (Tables.inv_byId _ _ _ Hinv2' _ _ _ Hp2) as (Hr2 & _).
  split; [now exists pid2|].
  intros Heq. rewrite Hr1, Hr2 in Heq. inversion Heq; subst.
  apply Hext12, Hext2 in Hp1. rewrite Hp1 in Hp2. now inversion Hp2.
Qed.

(** C3 (amended). A call of [prepare] whose inputs compare equal to a
    stored entry, [m] being the first such entry of the recipe, returns the
    package of [m] and leaves the tables as they are when no name on the
    stack is among the names below [m], and raises the cycle error when one
    is. A call that returns, with the name of its recipe on the stack,
    leaves the matcher list of the recipe as it is or puts one entry in
    front of it, which holds the package that the call returns. *)
Theorem matcher_hit_returns_stored_package
    (recipes : gmap string Recipe.t) (sandboxEnabled : bool)
    (self : Recipe.t) (st : Store.t) (fuel : nat) (i : Prepare.Inputs)
    (stack : list string) :
  Graph.registered recipes ->
  Tables.later recipes sandboxEnabled Store.empty st ->
  recipes !! Recipe.packageName self = Some self ->
  (forall m,
     Prepare.findMatch (Store.matchers st (Recipe.packageName self)) i = Some m ->
     In m (Store.matchers st (Recipe.packageName self))
     /\ PackageMatcher.matches m (Prepare.inputEnv i) (Prepare.inputTools i)
          (Prepare.inputStates i) (Prepare.inputSandbox i) = true
     /\ ((forall n, In n stack -> n ∉ PackageMatcher.subTreePackages m) ->
         Prepare.prepare recipes sandboxEnabled (S fuel) st self i stack
         = Ok (st, Prepare.mkOutput (PackageMatcher.corePackage m)
                     (PackageMatcher.subTreePackages m)
                     (PackageMatcher.touchedEnv m) (PackageMatcher.touchedTools m)))
     /\ ((exists n, In n stack /\ n ∈ PackageMatcher.subTreePackages m) ->
         Prepare.prepare recipes sandboxEnabled (S fuel) st self i stack
         = Err (ParseError "Recipes are cyclic")))
  /\ (forall st' out,
        Prepare.prepare recipes sandboxEnabled fuel st self i stack = Ok (st', out) ->
        In (Recipe.packageName self) stack ->
        Store.matchers st' (Recipe.packageName self)
          = Store.matchers st (Recipe.packageName self)
        \/ exists m,
             Store.matchers st' (Recipe.packageName self)
               = m :: Store.matchers st (Recipe.packageName self)
             /\ PackageMatcher.corePackage m = Prepare.package out).
Proof.
  intros Hreg Hl Hself. split.
  - intros m Hm. pose proof Hm as Hfind. apply find_some in Hfind as [Hin Hmatch].
    repeat split; try assumption.
    + intros Hoff. apply onStack_false in Hoff. simpl. unfold Prepare.prepareBody.
      now rewrite Hm, Hoff.
    + intros (n & Hn & Hsub). simpl. unfold Prepare.prepareBody. rewrite Hm.
      destruct (Prepare.onStack stack _) eqn:Hon; [reflexivity|].
      exfalso. exact (proj1 (onStack_false _ _) Hon n Hn Hsub).
  - intros st' out Hcall Hown.
    pose proof (reachable_invariant _ _ _ Hreg Hl) as Hinv.
    destruct (prepare_sound recipes sandboxEnabled (fun _ => True) Hreg
                (fun _ _ _ _ _ _ _ => I) fuel _ _ _ _ _ _ Hinv Hself Hcall)
      as [_ _ _ Pown _ _ _ _].
    now apply Pown.
Qed.


(** ** The validity of the steps *)

Lemma init_fields kind recipe tools sandbox states pkgId fingerprintMask scmList
    isValid det digestEnv env args s :
  CoreStep.init kind recipe tools sandbox states pkgId fingerprintMask scmList
    isValid det digestEnv env args = Some s ->
  CoreStep.kind s = kind /\ CoreStep.recipe s = recipe /\ CoreStep.isValid s = isValid
  /\ CoreStep.scmList s = scmList /\ CoreStep.args s = args.
Proof.
  unfold CoreStep.init. intros H.
  destruct (CoreStep.getDigest _ _ _) as [v|]; [|discriminate].
  inversion H; subst. simpl. auto.
Qed.

Lemma initStep_fields kind p scmList isValid det digestEnv env args s :
  initStep kind p scmList isValid det digestEnv env args = Ok s ->
  CoreStep.kind s = kind /\ CoreStep.recipe s = pbRecipe p /\ CoreStep.isValid s = isValid
  /\ CoreStep.scmList s = scmList /\ CoreStep.args s = args.
Proof. unfold initStep. intros H. apply packed_Ok in H. now apply init_fields in H. Qed.

(** [CoreCheckoutStep.__init__]: the step holds the SCMs whose condition
    holds, and it is valid when there is a script or such an SCM. *)
Lemma CoreCheckoutStep_Ok p checkout fa fullEnv digestEnv env s t :
  CoreCheckoutStep p checkout fa fullEnv digestEnv env = Ok (s, t) ->
  match checkout with
  | Some co =>
      (exists t', activeScms fa fullEnv co.1.2 = Ok (CoreStep.scmList s, t'))
      /\ CoreStep.isValid s
         = match co.1.1.1 with Some _ => true | None => false end
           || match CoreStep.scmList s with [] => false | _ => true end
  | None => CoreStep.scmList s = [] /\ CoreStep.isValid s = false
  end.
Proof.
  unfold CoreCheckoutStep. intros H. destruct checkout as [co|].
  - rinv H. destruct a as [scmList t']. rinv H. rinv H. inversion H; subst.
    apply initStep_fields in E1 as (_ & _ & Hv & Hs & _). rewrite Hs, Hv.
    split; [eexists; eassumption | reflexivity].
  - rinv H. inversion H; subst. apply initStep_fields in E as (_ & _ & Hv & Hs & _).
    now split.
Qed.

Lemma finish_valid sandboxEnabled self states l n b :
  Recipe.packageScript self <> None ->
  Prepare.finish sandboxEnabled self states l n = Ok b ->
  validSteps (Prepare.builtPackage b).
Proof.
  unfold Prepare.finish, validSteps, Recipe.packageScript, Recipe.checkoutScript,
    Recipe.checkoutSCMs.
  intros Hscript H.
  rinv H. destruct a as [[thisDeps indirect] results].
  rinv H. rinv H. destruct a0 as [env t1]. rinv H. destruct a0 as [mask t2].
  rinv H. destruct a0 as [src t3]. rinv H. rename a0 into bld.
  rinv H. rename a0 into pkg.
  rinv H. destruct a0 as [pe t4]. rinv H. destruct a0 as [pt t5].
  rinv H. destruct a0 as [ps t6].
  destruct (_ && _); [discriminate|]. inversion H; subst; clear H. simpl.
  unfold CorePackageStep in E5. apply initStep_fields in E5 as (_ & _ & Hv & _).
  split; [|split].
  - rewrite Hv. destruct (Recipe.package self).1; [reflexivity | contradiction].
  - destruct (Recipe.checkout self) as [[[cs cd] scms] ca] eqn:Hco. simpl.
    assert (Hsrc : CoreStep.isValid src
                   = match cs with Some _ => true | None => false end
                     || match CoreStep.scmList src with [] => false | _ => true end).
    { destruct cs, cd, scms, ca; apply CoreCheckoutStep_Ok in E3;
        simpl in E3; destruct E3 as [H1 H2]; try exact H2.
      rewrite H1, H2. reflexivity. }
    rewrite Hsrc. destruct cs, (CoreStep.scmList src); simpl; split;
      intros; try discriminate; try reflexivity; try (left; discriminate);
      try (right; discriminate).
    destruct H as [H|H]; contradiction.
  - destruct (Recipe.checkout self) as [[[cs cd] scms] ca] eqn:Hco. simpl.
    destruct cs, cd, scms, ca; apply CoreCheckoutStep_Ok in E3; simpl in E3;
      destruct E3 as [H1 H2];
      match type of H1 with
      | ex _ => destruct H1 as [t' H1]; do 3 eexists; exact H1
      | _ => rewrite H1; now exists (Prepare.funArgs sandboxEnabled None []), [], ∅
      end.
Qed.

Lemma mapR_Ok {A B : Type} (f : A -> result B) l : forall ys,
  mapR f l = Ok ys -> forall y, In y ys -> exists x, In x l /\ f x = Ok y.
Proof.
  induction l as [|x r IH]; simpl; intros ys H y Hy.
  - inversion H; subst. contradiction.
  - rinv H. rinv H. inversion H; subst. destruct Hy as [<-|Hy]; [eauto|].
    destruct (IH _ E0 y Hy) as (z & Hz & Hf). eauto.
Qed.

(** [# the package step must always be valid] *)
Lemma resolveClasses_script fnmatchcase fuel classes raw r :
  RawRecipe.resolveClasses fnmatchcase fuel classes raw = Ok r ->
  Recipe.packageScript r <> None.
Proof.
  unfold RawRecipe.resolveClasses. intros H. rinv H. destruct a as [inherit visited].
  destruct (RawRecipe.inheritAll _ _ _ _) as [[self vs] vp].
  rinv H. inversion H; subst. unfold Recipe.packageScript. simpl.
  destruct (RawRecipe.package self).1 eqn:Hp; [rewrite Hp|]; discriminate.
Qed.

(** The table of a loaded project holds every recipe under its name, and
    every recipe of the table has come out of [resolveClasses]. *)
Lemma load_table fnmatchcase fuel recipeSet classDocs recipeDocs p :
  Project.load fnmatchcase fuel recipeSet classDocs recipeDocs = Ok p ->
  Graph.registered (Project.recipes p)
  /\ forall k r, Project.recipes p !! k = Some r -> Recipe.packageScript r <> None.
Proof.
  unfold Project.load. intros H.
  rinv H. rename a into classes. rinv H. rename a into raws.
  rinv H. rename a into resolved. rinv H. rename a into vr.
  rinv H. rename a into rootRecipe. rinv H. rename a into table.
  inversion H; subst; clear H. simpl.
  assert (Hall : forall r, In r (resolved ++ [rootRecipe]) -> Recipe.packageScript r <> None).
  { intros r Hr. apply in_app_or in Hr as [Hr|[<-|[]]].
    - destruct (mapR_Ok _ _ _ E1 r Hr) as (x & _ & Hx).
      now apply resolveClasses_script in Hx.
    - now apply resolveClasses_script in E3. }
  apply (foldR_inv (fun m : gmap string Recipe.t =>
                      Graph.registered m
                      /\ forall k r, m !! k = Some r -> Recipe.packageScript r <> None)
           _ _) with (b := ∅) (b' := table) in E4; [exact E4 | |].
  - intros m r m' Hr Hadd [Hreg Hs]. unfold Project.add in Hadd.
    destruct (m !! Recipe.getPackageName r) eqn:Hl; [discriminate|].
    inversion Hadd; subst; clear Hadd. split.
    + intros k x. destruct (decide (k = Recipe.getPackageName r)) as [->|Hk].
      * rewrite lookup_insert_eq. intros [= <-]. reflexivity.
      * rewrite lookup_insert_ne by congruence. apply Hreg.
    + intros k x. destruct (decide (k = Recipe.getPackageName r)) as [->|Hk].
      * rewrite lookup_insert_eq. intros [= <-]. now apply Hall.
      * rewrite lookup_insert_ne by congruence. apply Hs.
  - split; intros k r; rewrite lookup_empty; discriminate.
Qed.


(** ** The results of the dependencies *)

Lemma get_set {V : Type} (k k' : string) (v : V) (d : list (string * V)) :
  Dict.get k' (Dict.set k v d) = if String.eqb k' k then Some v else Dict.get k' d.
Proof.
  induction d as [|[k0 v0] r IH]; simpl.
  - reflexivity.
  - destruct (String.eqb_spec k k0) as [->|Hk]; simpl.
    + destruct (String.eqb_spec k' k0); reflexivity.
    + rewrite IH. destruct (String.eqb_spec k' k0) as [->|Hk0]; [|reflexivity].
      destruct (String.eqb_spec k0 k); [congruence | reflexivity].
Qed.

Lemma tracker_get thisDeps name depRef :
  Prepare.tracker thisDeps name depRef
  = default (DepTracker.new depRef) (Dict.get name thisDeps).
Proof. unfold Prepare.tracker. now destruct (Dict.get name thisDeps). Qed.

(** Putting the tracker of a name back with the flag [usedResult] as it
    was changes nothing for the results. *)
Lemma tracked_set thisDeps results name d :
  tracked thisDeps results ->
  (DepTracker.usedResult d = true <-> In name (map refName results)) ->
  tracked (Dict.set name d thisDeps) results.
Proof.
  intros [Hnd Hiff] Hd. split; [assumption|]. intros n. rewrite get_set.
  destruct (String.eqb_spec n name) as [->|Hn]; [|apply Hiff].
  rewrite <- Hd. split.
  - intros H. now exists d.
  - intros (d' & [= <-] & H). exact H.
Qed.

Lemma tracked_fresh thisDeps results name depRef :
  tracked thisDeps results ->
  DepTracker.usedResult (Prepare.tracker thisDeps name depRef) = true
  <-> In name (map refName results).
Proof.
  intros [_ Hiff]. rewrite tracker_get, Hiff.
  destruct (Dict.get name thisDeps) as [d|]; simpl.
  - split; [eauto | now intros (d' & [= <-] & H)].
  - split; [discriminate | now intros (d' & [=] & _)].
Qed.

Lemma primeDirect_tracked u dep depRef thisDeps directPackages results td dp :
  tracked thisDeps results ->
  Prepare.primeDirect u dep depRef thisDeps directPackages = Ok (td, dp) ->
  tracked td results
  /\ exists d, Dict.get (Dependency.recipe dep) td = Some d.
Proof.
  intros Ht H. unfold Prepare.primeDirect in H.
  pose proof (tracked_fresh _ _ (Dependency.recipe dep) depRef Ht) as Hfresh.
  destruct (DepTracker.prime _) as [isNew d'] eqn:Hp. rinv H. inversion H; subst.
  split; [|rewrite get_set, String.eqb_refl; eauto].
  apply tracked_set; [assumption|]. rewrite <- Hfresh.
  unfold DepTracker.prime in Hp.
  destruct (DepTracker.isNew _); inversion Hp; subst; reflexivity.
Qed.

Lemma tracked_append thisDeps results name d depRef :
  tracked thisDeps results ->
  refName depRef = name ->
  ~ In name (map refName results) ->
  DepTracker.usedResult d = true ->
  tracked (Dict.set name d thisDeps) (results ++ [depRef]).
Proof.
  intros [Hnd Hiff] Hname Hnot Hd. split.
  - rewrite map_app. simpl. apply NoDup_app. split; [assumption|]. split.
    + intros x Hx Hin. apply list_elem_of_In in Hin as [<-|[]].
      apply Hnot. rewrite <- Hname. now apply list_elem_of_In.
    + apply NoDup_singleton.
  - intros n. rewrite map_app, in_app_iff, get_set. simpl.
    destruct (String.eqb_spec n name) as [->|Hn].
    + split; [eauto | intros _; right; left; exact Hname].
    + rewrite Hiff. split; [intros [H|[H|[]]]; [exact H | congruence] | now left].
Qed.

Lemma useResult_tracked dep depRef thisDeps results td rs :
  tracked thisDeps results ->
  refName depRef = Dependency.recipe dep ->
  Prepare.useResult dep depRef thisDeps results = (td, rs) ->
  tracked td rs
  /\ incl results rs
  /\ (Dependency.useBuildResult dep = true ->
      In (Dependency.recipe dep) (map refName rs)).
Proof.
  intros Ht Hname H. unfold Prepare.useResult in H.
  pose proof (tracked_fresh _ _ (Dependency.recipe dep) depRef Ht) as Hfresh.
  destruct (Dependency.useBuildResult dep).
  - unfold DepTracker.useResultOnce in H.
    destruct (DepTracker.usedResult _) eqn:Hu; inversion H; subst; clear H.
    + split; [|split].
      * apply tracked_set; [assumption|]. now rewrite <- Hfresh.
      * apply incl_refl.
      * intros _. now apply Hfresh.
    + assert (Hnot : ~ In (Dependency.recipe dep) (map refName results)).
      { rewrite <- Hfresh. discriminate. }
      split; [|split].
      * now apply tracked_append.
      * now apply incl_appl.
      * intros _. rewrite map_app, in_app_iff. right. left. exact Hname.
  - inversion H; subst. split; [assumption|]. split; [apply incl_refl | discriminate].
Qed.

Lemma indirectStep_tracked thisDeps ip results depRef td ip' rs :
  tracked thisDeps results ->
  Prepare.indirectStep (thisDeps, ip, results) depRef = Ok (td, ip', rs) ->
  tracked td rs /\ incl results rs /\ In (refName depRef) (map refName rs).
Proof.
  intros Ht H. unfold Prepare.indirectStep in H. fold (refName depRef) in H.
  pose proof (tracked_fresh _ _ (refName depRef) depRef Ht) as Hfresh.
  destruct (DepTracker.prime _) as [isNew d'] eqn:Hp. rinv H.
  assert (Hd' : DepTracker.usedResult d'
                = DepTracker.usedResult (Prepare.tracker thisDeps (refName depRef) depRef)).
  { unfold DepTracker.prime in Hp.
    destruct (DepTracker.isNew _); inversion Hp; subst; reflexivity. }
  unfold DepTracker.useResultOnce in H. rewrite Hd' in H.
  destruct (DepTracker.usedResult _) eqn:Hu; inversion H; subst; clear H.
  - split; [|split].
    + apply tracked_set; [assumption|]. now rewrite Hd', <- Hfresh.
    + apply incl_refl.
    + now apply Hfresh.
  - assert (Hnot : ~ In (refName depRef) (map refName results)).
    { rewrite <- Hfresh. discriminate. }
    split; [|split].
    + now apply tracked_append.
    + now apply incl_appl.
    + rewrite map_app, in_app_iff. right. now left.
Qed.

Lemma applyDep_results sandboxEnabled self l dep st out l' :
  Prepare.applyDep sandboxEnabled self l dep st out = Ok l' ->
  exists td dp,
    Prepare.primeDirect (RecipeSet.uniqueDependency (Recipe.getRecipeSet self)) dep
      (CoreRef.mk (CorePackage.getCorePackageStep (Prepare.package out))
         [CorePackage.getName (Prepare.package out)])
      (Prepare.thisDeps l) (Prepare.directPackages l) = Ok (td, dp)
    /\ Prepare.useResult dep
         (CoreRef.mk (CorePackage.getCorePackageStep (Prepare.package out))
            [CorePackage.getName (Prepare.package out)])
         td (Prepare.results l)
       = (Prepare.thisDeps l', Prepare.results l').
Proof.
  unfold Prepare.applyDep. intros H.
  rinv H. destruct a as [thisDeps directPackages].
  exists thisDeps, directPackages. split; [exact E|].
  destruct (Prepare.useResult _ _ _ _) as [thisDeps' results].
  repeat case_match; rinv H; inversion H; subst; reflexivity.
Qed.

Lemma depStep_results recipes sandboxEnabled rec self i stack l dep l' :
  Prepare.depStep recipes sandboxEnabled rec self i stack l dep = Ok l' ->
  (Dependency.condition dep <> None
   /\ Prepare.thisDeps l' = Prepare.thisDeps l
   /\ Prepare.results l' = Prepare.results l)
  \/ exists r i' st out td dp,
       recipes !! Dependency.recipe dep = Some r
       /\ rec (Prepare.store l) r i' (stack ++ [Recipe.packageName r]) = Ok (st, out)
       /\ Prepare.primeDirect (RecipeSet.uniqueDependency (Recipe.getRecipeSet self)) dep
            (CoreRef.mk (CorePackage.getCorePackageStep (Prepare.package out))
               [CorePackage.getName (Prepare.package out)])
            (Prepare.thisDeps l) (Prepare.directPackages l) = Ok (td, dp)
       /\ Prepare.useResult dep
            (CoreRef.mk (CorePackage.getCorePackageStep (Prepare.package out))
               [CorePackage.getName (Prepare.package out)])
            td (Prepare.results l)
          = (Prepare.thisDeps l', Prepare.results l').
Proof.
  unfold Prepare.depStep, Prepare.getRecipe. intros H.
  rinv H. destruct a as [c t]. destruct c; simpl in H.
  - right. destruct (recipes !! Dependency.recipe dep) as [r|] eqn:Er; simpl in H;
      [|discriminate].
    destruct (existsb _ stack) eqn:Es; [discriminate|].
    rinv H. destruct a as [st out].
    apply applyDep_results in H as (td & dp & H1 & H2). simpl in *.
    exists r. eexists. exists st, out, td, dp. repeat split; eauto.
  - left. inversion H; subst; simpl. repeat split; auto.
    intros Hc. rewrite Hc in E. simpl in E. discriminate.
Qed.

(** The steps of a package that the end of [prepare] builds. *)
Lemma finish_steps sandboxEnabled self states l n b :
  Prepare.finish sandboxEnabled self states l n = Ok b ->
  stepRecipe (Prepare.builtPackage b)
  /\ exists td ip rs,
       foldR Prepare.indirectStep (Prepare.indirectPackages l)
         (Prepare.thisDeps l, [], Prepare.results l) = Ok (td, ip, rs)
       /\ (Recipe.build self <> (None, None) ->
           CoreStep.args (CorePackage.buildStep (Prepare.builtPackage b))
           = CoreRef.mk (CorePackage.checkoutStep (Prepare.builtPackage b)) [] :: rs).
Proof.
  unfold Prepare.finish, stepRecipe. intros H.
  rinv H. destruct a as [[thisDeps indirect] results].
  rinv H. rinv H. destruct a0 as [env t1]. rinv H. destruct a0 as [mask t2].
  rinv H. destruct a0 as [src t3]. rinv H. rename a0 into bld.
  rinv H. rename a0 into pkg.
  rinv H. destruct a0 as [pe t4]. rinv H. destruct a0 as [pt t5].
  rinv H. destruct a0 as [ps t6].
  destruct (_ && _); [discriminate|]. inversion H; subst; clear H. simpl.
  unfold CorePackageStep in E5. apply initStep_fields in E5 as (_ & Hr & _).
  split; [exact Hr|]. exists thisDeps, indirect, results. split; [exact E|].
  intros Hb. destruct (Recipe.build self) as [[b1|] [b2|]] eqn:Hbuild;
    try contradiction; unfold CoreBuildStep in E4;
    apply initStep_fields in E4 as (_ & _ & _ & _ & Ha); exact Ha.
Qed.

Lemma occurrences_notin n rs : ~ In n (map refName rs) -> occurrences n rs = 0.
Proof.
  unfold occurrences. induction rs as [|r rs IH]; simpl; [reflexivity|]. intros H.
  destruct (String.eqb_spec (refName r) n) as [Hr|Hr]; [exfalso; apply H; now left|].
  apply IH. intros Hin. apply H. now right.
Qed.

Lemma occurrences_NoDup n rs :
  NoDup (map refName rs) ->
  occurrences n rs <= 1 /\ (In n (map refName rs) -> occurrences n rs = 1).
Proof.
  induction rs as [|r rs IH]; simpl; intros Hnd.
  - split; [unfold occurrences; simpl; lia | contradiction].
  - apply NoDup_cons in Hnd as [Hr Hnd]. destruct (IH Hnd) as [IH1 IH2].
    unfold occurrences in *. simpl.
    destruct (String.eqb_spec (refName r) n) as [<-|Hn]; simpl.
    + assert (H0 : occurrences (refName r) rs = 0).
      { apply occurrences_notin. intros Hin. apply Hr. now apply list_elem_of_In. }
      unfold occurrences in H0. rewrite H0. split; [lia | reflexivity].
    + split; [assumption|]. intros [H|H]; [contradiction | now apply IH2].
Qed.

Lemma enter_fresh sandboxEnabled self i st l :
  Prepare.enter sandboxEnabled self i st = Ok l ->
  Prepare.thisDeps l = [] /\ Prepare.results l = [].
Proof.
  unfold Prepare.enter. intros H.
  destruct (Env.filter _ _) as [env t0]. rinv H. destruct a as [env' t1].
  inversion H; subst; simpl. auto.
Qed.

Section Results.
Variable recipes : gmap string Recipe.t.
Variable sandboxEnabled : bool.
Hypothesis Hreg : Graph.registered recipes.

Lemma finish_stepRecipe (self : Recipe.t) states l n b :
  recipes !! Recipe.packageName self = Some self ->
  Prepare.finish sandboxEnabled self states l n = Ok b ->
  stepRecipe (Prepare.builtPackage b).
Proof. intros _ H. now apply finish_steps in H. Qed.

Lemma depStep_tracked fuel self i stack st l dep l' :
  Tables.loopInv recipes stepRecipe st stack l ->
  tracked (Prepare.thisDeps l) (Prepare.results l) ->
  Prepare.depStep recipes sandboxEnabled (Prepare.prepare recipes sandboxEnabled fuel)
    self i stack l dep = Ok l' ->
  tracked (Prepare.thisDeps l') (Prepare.results l')
  /\ incl (Prepare.results l) (Prepare.results l')
  /\ (Dependency.condition dep = None -> Dependency.useBuildResult dep = true ->
      In (Dependency.recipe dep) (map refName (Prepare.results l'))).
Proof.
  intros Hl Ht H.
  apply depStep_results in H
    as [(Hc & Htd & Hrs)|(r & i' & st2 & out & td & dp & Hr & Hcall & Hprime & Huse)].
  - rewrite Htd, Hrs. split; [assumption|]. split; [apply incl_refl|].
    intros Hn. contradiction.
  - pose proof (Hreg _ _ Hr) as Hname.
    assert (Hself : recipes !! Recipe.packageName r = Some r) by now rewrite Hname.
    pose proof (prepare_sound recipes sandboxEnabled stepRecipe Hreg finish_stepRecipe
                  fuel _ _ _ _ _ _ (Tables.li_inv _ _ _ _ _ Hl) Hself Hcall) as Hpost.
    apply post_name in Hpost as [Hpn Hsr].
    assert (Hrn : refName (CoreRef.mk (CorePackage.getCorePackageStep (Prepare.package out))
                             [CorePackage.getName (Prepare.package out)])
                  = Dependency.recipe dep).
    { unfold refName, CoreStep.getName. simpl. unfold CorePackage.getCorePackageStep.
      rewrite Hsr. unfold CorePackage.getName in Hpn. now rewrite Hpn. }
    apply (primeDirect_tracked _ _ _ _ _ _ _ _ Ht) in Hprime as [Ht1 _].
    destruct (useResult_tracked _ _ _ _ _ _ Ht1 Hrn Huse) as (H1 & H2 & H3).
    repeat split; try assumption; try apply H1. intros _. exact H3.
Qed.

End Results.

(** ** The environments of a recipe and of its classes *)

Lemma get_None {V : Type} (k : string) (d : list (string * V)) :
  Dict.get k d = None <-> ~ In k (Dict.keys d).
Proof.
  induction d as [|[k0 v0] r IH]; simpl; [tauto|].
  destruct (String.eqb_spec k k0) as [->|Hk].
  - split; [discriminate | intros H; exfalso; apply H; now left].
  - rewrite IH. intuition congruence.
Qed.

Lemma keys_set {V : Type} (k : string) (v : V) (d : list (string * V)) K :
  In K (Dict.keys (Dict.set k v d)) <-> K = k \/ In K (Dict.keys d).
Proof.
  induction d as [|[k0 v0] r IH]; simpl.
  - intuition.
  - destruct (String.eqb_spec k k0) as [->|Hk]; simpl; [intuition|].
    rewrite IH. intuition.
Qed.

Lemma NoDup_set {V : Type} (k : string) (v : V) (d : list (string * V)) :
  NoDup (Dict.keys d) -> NoDup (Dict.keys (Dict.set k v d)).
Proof.
  induction d as [|[k0 v0] r IH]; simpl; intros H.
  - apply NoDup_singleton.
  - apply NoDup_cons in H as [H0 H]. destruct (String.eqb_spec k k0) as [->|Hk]; simpl.
    + now apply NoDup_cons.
    + apply NoDup_cons. split; [|now apply IH].
      rewrite list_elem_of_In, keys_set. rewrite list_elem_of_In in H0.
      intros [->|?]; [congruence | contradiction].
Qed.

(** [d.update(other)] for a dictionary [other]: its values win. *)
Lemma get_update {V : Type} (k : string) (other : list (string * V)) :
  NoDup (Dict.keys other) -> forall d,
  Dict.get k (Dict.update d other)
  = match Dict.get k other with Some v => Some v | None => Dict.get k d end.
Proof.
  unfold Dict.update. induction other as [|[k0 v0] r IH]; simpl; intros Hnd d;
    [reflexivity|].
  apply NoDup_cons in Hnd as [H0 Hnd]. rewrite (IH Hnd), get_set.
  destruct (String.eqb_spec k k0) as [->|Hk]; [|reflexivity].
  rewrite list_elem_of_In in H0. apply get_None in H0. now rewrite H0.
Qed.

(** The substituted dictionary has the keys of the dictionary, each
    once. *)
Lemma substituteAll_keys fa env d v t :
  Env.substituteAll fa env d = Ok (v, t) ->
  NoDup (Dict.keys v) /\ forall K, In K (Dict.keys v) <-> In K (Dict.keys d).
Proof.
  unfold Env.substituteAll.
  assert (Hgen : forall (acc acc' : dict * gset string),
            foldR (fun (acc : dict * gset string) (kv : string * string) =>
                     '(v, t) ← Env.substitute fa env kv.2;
                     Ok (Dict.set kv.1 v acc.1, t ∪ acc.2)) d acc = Ok acc' ->
            NoDup (Dict.keys acc.1) ->
            NoDup (Dict.keys acc'.1)
            /\ forall K, In K (Dict.keys acc'.1)
                         <-> In K (Dict.keys acc.1) \/ In K (Dict.keys d)).
  { induction d as [|[k0 v0] r IH]; simpl; intros acc acc' H Hnd.
    - inversion H; subst. split; [assumption | tauto].
    - rinv H. rinv E. destruct a0 as [x tx]. inversion E; subst; clear E.
      destruct (IH _ _ H (NoDup_set _ _ _ Hnd)) as [H1 H2]. simpl in *.
      split; [assumption|]. intros K. rewrite H2, keys_set. intuition. }
  intros H. destruct (Hgen _ _ H (NoDup_nil_2 (A := string))) as [H1 H2]. simpl in *.
  split; [assumption|]. intros K. rewrite H2. tauto.
Qed.

Lemma fold_merged (ds : list dict) (l : list dict) :
  fold_left RawRecipe.inheritEnv (rev ds) (RawRecipe.Merged l)
  = RawRecipe.Merged (flat_map RawRecipe.listIfAny ds ++ l).
Proof.
  revert l. induction ds as [|d ds IH]; intros l; simpl; [reflexivity|].
  rewrite fold_left_app, IH. simpl. rewrite <- app_assoc. now destruct d.
Qed.

Lemma fold_plain (ds : list dict) (d : dict) :
  fold_left RawRecipe.inheritEnv (rev ds) (RawRecipe.Plain d)
  = RawRecipe.Plain (fold_right (fun c acc => Dict.update c acc) d ds).
Proof.
  induction ds as [|c ds IH]; simpl; [reflexivity|].
  now rewrite fold_left_app, IH.
Qed.

Lemma inheritAll_env self vs vp (inherit : list RawRecipe.t) :
  (RawRecipe.inheritAll self vs vp inherit).1.2
  = fold_left RawRecipe.inheritEnv (rev (map RawRecipe.varSelf inherit)) vs.
Proof.
  unfold RawRecipe.inheritAll. rewrite <- map_rev.
  generalize (rev inherit). intros l. revert self vs vp.
  induction l as [|c l IH]; intros self vs vp; simpl; [reflexivity|]. apply IH.
Qed.

Lemma resolveClasses_varSelf fnmatchcase fuel classes raw inherit visited r :
  RawRecipe.resolveClassesOrder fuel classes raw [] ∅ true = Ok (inherit, visited) ->
  RawRecipe.resolveClasses fnmatchcase fuel classes raw = Ok r ->
  Recipe.varSelf r
  = RawRecipe.finalEnv
      (fold_left RawRecipe.inheritEnv (rev (map RawRecipe.varSelf inherit))
         (if RecipeSet.mergeEnvironment (RawRecipe.getRecipeSet raw)
          then RawRecipe.Merged (RawRecipe.listIfAny (RawRecipe.varSelf raw))
          else RawRecipe.Plain (RawRecipe.varSelf raw))).
Proof.
  unfold RawRecipe.resolveClasses. intros Ho H. rewrite Ho in H. simpl in H.
  rewrite <- (inheritAll_env raw _
                (if RecipeSet.mergeEnvironment (RawRecipe.getRecipeSet raw)
                 then RawRecipe.Merged (RawRecipe.listIfAny (RawRecipe.varPrivate raw))
                 else RawRecipe.Plain (RawRecipe.varPrivate raw)) inherit).
  destruct (RawRecipe.inheritAll _ _ _ _) as [[self vs] vp].
  rinv H. inversion H; subst. reflexivity.
Qed.

Lemma NoDup_update {V : Type} (other d : list (string * V)) :
  NoDup (Dict.keys d) -> NoDup (Dict.keys (Dict.update d other)).
Proof.
  unfold Dict.update. revert d. induction other as [|[k v] r IH]; simpl; intros d H;
    [assumption|].
  now apply IH, NoDup_set.
Qed.

(** The environment that [applyEnvs] hands on does not depend on the names
    that were touched before. *)
Lemma applyEnvs_touched fa (l : list dict) : forall env t0 t0' env' t,
  foldR (fun (acc : dict * gset string) d =>
           '(vals, t) ← Env.substituteAll fa acc.1 d;
           Ok (Env.derive acc.1 vals, t ∪ acc.2)) l (env, t0) = Ok (env', t) ->
  exists t',
    foldR (fun (acc : dict * gset string) d =>
             '(vals, t) ← Env.substituteAll fa acc.1 d;
             Ok (Env.derive acc.1 vals, t ∪ acc.2)) l (env, t0') = Ok (env', t').
Proof.
  induction l as [|d l IH]; simpl; intros env t0 t0' env' t H.
  - inversion H; subst. eauto.
  - rinv H. rinv E. destruct a0 as [vals tv]. inversion E; subst; clear E. simpl in *.
    rewrite E0. simpl. eapply IH. exact H.
Qed.

Lemma applyEnvs_app fa env (l1 l2 : list dict) env' t :
  Prepare.applyEnvs fa env (l1 ++ l2) = Ok (env', t) ->
  exists e1 t1 t2,
    Prepare.applyEnvs fa env l1 = Ok (e1, t1)
    /\ Prepare.applyEnvs fa e1 l2 = Ok (env', t2).
Proof.
  unfold Prepare.applyEnvs. generalize (∅ : gset string) at 1 2. revert env.
  induction l1 as [|d l1 IH]; simpl; intros env t0 H.
  - exists env, t0. apply applyEnvs_touched with (t0' := ∅) in H as [t' H]. eauto.
  - rinv H. rinv E. destruct a0 as [vals tv]. inversion E; subst; clear E. simpl in *.
    rewrite E0. simpl. now apply IH.
Qed.

Lemma applyEnvs_one fa env (d : dict) env' t :
  Prepare.applyEnvs fa env [d] = Ok (env', t) ->
  exists v t',
    Env.substituteAll fa env d = Ok (v, t')
    /\ env' = Env.derive env v
    /\ forall K, In K (Dict.keys d) -> Dict.get K env' = Dict.get K v.
Proof.
  unfold Prepare.applyEnvs. simpl. intros H. rinv H. rinv E.
  destruct a0 as [v tv]. inversion E; subst; clear E. inversion H; subst; clear H.
  simpl. exists v, tv. repeat split; [assumption|].
  intros K HK. destruct (substituteAll_keys _ _ _ _ _ E0) as [Hnd Hk].
  unfold Env.derive. rewrite (get_update K v Hnd).
  apply Hk in HK. destruct (Dict.get K v) eqn:Hg; [reflexivity|].
  apply get_None in Hg. contradiction.
Qed.


(** ** Conditions of nested dependencies *)

Section Conditions.
Import StringParser.
Variable env : dict.
Variable fa : FunArgs.

Lemma append_cons (x : ascii) (s1 s2 : string) :
  (String x s1 ++ s2 = String x (s1 ++ s2))%string.
Proof. reflexivity. Qed.

Lemma run_app st (s1 s2 : string) :
  run env fa st (s1 ++ s2)%string = st' ← run env fa st s1; run env fa st' s2.
Proof.
  revert st. induction s1 as [|c s1 IH]; intros st; [reflexivity|].
  rewrite append_cons. simpl.
  destruct (step env fa st c) as [st'| |]; simpl; [apply IH | reflexivity..].
Qed.

Lemma append_chr (cur : string) (c : ascii) (s : string) :
  ((cur ++ chr c) ++ s = cur ++ String c s)%string.
Proof.
  induction cur as [|x cur IH]; [reflexivity|].
  rewrite !append_cons. f_equal. exact IH.
Qed.

Lemma append_nil_r (s : string) : (s ++ "")%string = s.
Proof.
  induction s as [|x s IH]; [reflexivity|]. rewrite append_cons. f_equal. exact IH.
Qed.

Lemma plainChar_call act done cur depth r t c :
  Condition.plainChar c = true ->
  callChar fa act done cur depth r t c
  = Ok (mkState (Call act done (cur ++ chr c)%string depth false :: r) t).
Proof.
  unfold Condition.plainChar, callChar. intros H. apply negb_true_iff in H.
  repeat (apply orb_false_iff in H as [H ?]).
  now repeat match goal with E : Ascii.eqb _ _ = false |- _ => rewrite E; clear E end.
Qed.

Lemma plain_call (a : string) : forall done cur r t,
  Condition.plain a = true ->
  run env fa (mkState (Call true done cur 0 false :: r) t) a
  = Ok (mkState (Call true done (cur ++ a)%string 0 false :: r) t).
Proof.
  unfold Condition.plain.
  induction a as [|c a IH]; simpl; intros done cur r t H.
  - now rewrite append_nil_r.
  - apply andb_true_iff in H as [Hc Ha]. unfold step, stepText. simpl.
    rewrite (plainChar_call _ _ _ _ _ _ _ Hc). simpl. rewrite (IH _ _ _ _ Ha).
    now rewrite append_chr.
Qed.

Lemma plain_top (a : string) : forall buf r t,
  Condition.plain a = true ->
  run env fa (mkState (Top buf :: r) t) a = Ok (mkState (Top (buf ++ a)%string :: r) t).
Proof.
  unfold Condition.plain.
  induction a as [|c a IH]; simpl; intros buf r t H.
  - now rewrite append_nil_r.
  - apply andb_true_iff in H as [Hc Ha]. unfold step, stepText. simpl.
    assert (Hd : Ascii.eqb c "$" = false).
    { unfold Condition.plainChar in Hc. apply negb_true_iff in Hc.
      now repeat (apply orb_false_iff in Hc as [Hc ?]). }
    rewrite Hd. simpl. rewrite (IH _ _ _ Ha). now rewrite append_chr.
Qed.

(** Plain text is an expression of its own. *)
Lemma plain_selfContained (a : string) :
  Condition.plain a = true -> Condition.selfContained env fa a a ∅.
Proof.
  intros H. split.
  - unfold parse. rewrite (plain_top a "" [] ∅ H). reflexivity.
  - intros done cur r t c _. eexists. split; [apply (plain_call a _ _ _ _ H)|].
    now rewrite (left_id_L ∅ (∪)).
Qed.

Lemma isTrue_ofBool (b : bool) : isTrue (ofBool b) = b.
Proof. now destruct b. Qed.

(** The text of a [$(and,a,b)] where text is collected. *)
Lemma and_run (a va b vb : string) (Ta Tb : gset string) (X : list Frame) t :
  Condition.argValue env fa a va Ta ->
  Condition.argValue env fa b vb Tb ->
  (exists buf r, X = Top buf :: r) \/ (exists done cur r, X = Call true done cur 0 false :: r) ->
  run env fa (mkState X t) ("$(and," ++ a ++ "," ++ b ++ ")")%string
  = Ok (mkState (emit (ofBool (isTrue va && isTrue vb)) X) (Tb ∪ (Ta ∪ t))).
Proof.
  intros Ha Hb HX.
  assert (H1 : run env fa (mkState X t) "$(and,"
               = Ok (mkState (Call true ["and"] "" 0 false :: X) t)).
  { destruct HX as [(buf & r & ->)|(done & cur & r & ->)]; reflexivity. }
  rewrite run_app, H1. simpl mbind.
  change (rbind (Ok ?x) ?f) with (f x). cbv beta.
  rewrite run_app.
  destruct (Ha ["and"] "" X t ","%char (or_introl eq_refl)) as (mida & Hra & Hsa).
  rewrite Hra. simpl mbind. change (rbind (Ok ?x) ?f) with (f x). cbv beta.
  change ("" ++ (b ++ ")"))%string with (b ++ ")")%string. rewrite Hsa.
  change (step env fa (mkState (Call true ["and"] ("" ++ va)%string 0 false :: X) (Ta ∪ t)) ",")
    with (Ok (A := State) (mkState (Call true ["and"; va] "" 0 false :: X) (Ta ∪ t))).
  simpl mbind. change (rbind (Ok ?x) ?f) with (f x). cbv beta.
  rewrite run_app.
  destruct (Hb ["and"; va] "" X (Ta ∪ t) ")"%char (or_intror eq_refl)) as (midb & Hrb & Hsb).
  rewrite Hrb. simpl mbind. change (rbind (Ok ?x) ?f) with (f x). cbv beta.
  simpl run. rewrite Hsb.
  change (step env fa (mkState (Call true ["and"; va] ("" ++ vb)%string 0 false :: X)
                         (Tb ∪ (Ta ∪ t))) ")")
    with (Ok (A := State)
            (mkState (emit (ofBool (isTrue va && (isTrue vb && true))) X) (Tb ∪ (Ta ∪ t)))).
  simpl. now rewrite andb_true_r.
Qed.

(** The conjunction of two expressions is an expression of its own. *)
Lemma and_selfContained (a va b vb : string) (Ta Tb : gset string) :
  Condition.selfContained env fa a va Ta ->
  Condition.selfContained env fa b vb Tb ->
  Condition.selfContained env fa ("$(and," ++ a ++ "," ++ b ++ ")")%string
    (ofBool (isTrue va && isTrue vb)) (Tb ∪ Ta).
Proof.
  intros [_ Ha] [_ Hb]. split.
  - unfold parse. rewrite (and_run a va b vb Ta Tb [Top ""] ∅ Ha Hb); [|left; eauto].
    simpl. now rewrite (right_id_L ∅ (∪)).
  - intros done cur r t c _. eexists. split.
    + apply (and_run a va b vb Ta Tb _ t Ha Hb). right. eauto.
    + simpl. now rewrite (assoc_L (∪)).
Qed.

(** A name in braces is an expression of its own when the name is
    defined. *)
Lemma nameChar_not_special c :
  isNameChar c = true -> Ascii.eqb c "}" = false /\ Ascii.eqb c ":" = false.
Proof.
  destruct c as [[] [] [] [] [] [] [] []]; vm_compute; intros H;
    first [discriminate H | split; reflexivity].
Qed.

Lemma braceName_run (n : string) : forall m r t,
  forallb isNameChar (list_ascii_of_string n) = true ->
  run env fa (mkState (BraceName m :: r) t) n
  = Ok (mkState (BraceName (m ++ n)%string :: r) t).
Proof.
  induction n as [|c n IH]; simpl; intros m r t H.
  - now rewrite append_nil_r.
  - apply andb_true_iff in H as [Hc Hn].
    destruct (nameChar_not_special c Hc) as [H1 H2]. unfold step. simpl.
    rewrite H1, H2, Hc. simpl. rewrite (IH _ _ _ Hn). now rewrite append_chr.
Qed.

Lemma braced_run (n v : string) (X : list Frame) t :
  forallb isNameChar (list_ascii_of_string n) = true ->
  Dict.get n env = Some v ->
  (exists buf r, X = Top buf :: r) \/ (exists done cur r, X = Call true done cur 0 false :: r) ->
  run env fa (mkState X t) ("${" ++ n ++ "}")%string
  = Ok (mkState (emit v X) ({[ n ]} ∪ t)).
Proof.
  intros Hn Hv HX.
  assert (H1 : run env fa (mkState X t) "${" = Ok (mkState (BraceName "" :: X) t)).
  { destruct HX as [(buf & r & ->)|(done & cur & r & ->)]; reflexivity. }
  assert (Hact : active X = true).
  { destruct HX as [(buf & r & ->)|(done & cur & r & ->)]; reflexivity. }
  rewrite run_app, H1. simpl mbind. change (rbind (Ok ?x) ?f) with (f x). cbv beta.
  rewrite run_app, (braceName_run n "" X t Hn).
  simpl mbind. change (rbind (Ok ?x) ?f) with (f x). cbv beta.
  change ("" ++ n)%string with n. simpl. unfold step. simpl. unfold lookup.
  rewrite Hact, Hv. reflexivity.
Qed.

Lemma braced_selfContained (n v : string) :
  forallb isNameChar (list_ascii_of_string n) = true ->
  Dict.get n env = Some v ->
  Condition.selfContained env fa ("${" ++ n ++ "}")%string v {[ n ]}.
Proof.
  intros Hn Hv. split.
  - unfold parse. rewrite (braced_run n v [Top ""] ∅ Hn Hv); [|left; eauto].
    simpl. now rewrite (right_id_L ∅ (∪)).
  - intros done cur r t c _.
    exists (mkState (emit v (Call true done cur 0 false :: r)) ({[ n ]} ∪ t)).
    split; [|reflexivity]. apply (braced_run n v _ t Hn Hv). right. eauto.
Qed.

(** The conditions of the entries around a dependency, joined, are an
    expression whose truth is the conjunction. *)
Lemma joinConds_selfContained (rest : list (string * string * gset string)) :
  forall c vc Tc,
  Condition.selfContained env fa c vc Tc ->
  Forall (fun x => Condition.selfContained env fa x.1.1 x.1.2 x.2) rest ->
  exists j v T,
    Dependency.joinConds (Some c) (map (fun x => x.1.1) rest) = Some j
    /\ Condition.selfContained env fa j v T
    /\ isTrue v = isTrue vc && forallb (fun x => isTrue x.1.2) rest.
Proof.
  induction rest as [|[[x vx] Tx] rest IH]; intros c vc Tc Hc Hrest.
  - exists c, vc, Tc. simpl. now rewrite andb_true_r.
  - apply Forall_cons in Hrest as [Hx Hrest]. simpl in Hx.
    destruct (IH _ _ _ (and_selfContained _ _ _ _ _ _ Hc Hx) Hrest) as (j & v & T & H1 & H2 & H3).
    exists j, v, T. split; [exact H1|]. split; [exact H2|].
    rewrite H3, isTrue_ofBool. simpl. now rewrite andb_assoc.
Qed.
End Conditions.

Lemma joinConds_None (conds : list string) : Dependency.joinConds None conds
  = match conds with [] => None | c :: r => Dependency.joinConds (Some c) r end.
Proof. now destruct conds. Qed.

(** What [parseEntry] attaches to a dependency. *)
Lemma parseEntry_condition (entry : Dependency.Entry) :
  forall env fwd use cond deps d,
  Dependency.parseEntry entry env fwd use cond = Ok deps -> In d deps ->
  exists conds,
    Dependency.nested (Dependency.recipe d) conds entry
    /\ Dependency.condition d = Dependency.joinConds cond conds.
Proof.
  induction entry as [name|name depends environment forward use' newCond IH]
    using Entry_nested_ind; intros env fwd use cond deps d H Hd.
  - simpl in H. inversion H; subst. destruct Hd as [<-|[]]. exists []. split; [constructor|].
    reflexivity.
  - simpl in H.
    assert (Hjoin : forall conds,
              Dependency.joinConds cond
                (match newCond with Some x => x :: conds | None => conds end)
              = Dependency.joinConds (Dependency.joinCond cond newCond) conds).
    { intros conds. now destruct newCond. }
    destruct name as [[|c n]|].
    + destruct depends as [l|]; [|discriminate].
      assert (Hl : exists d0 conds, In d0 l /\ Dependency.nested (Dependency.recipe d) conds d0
                   /\ Dependency.condition d
                      = Dependency.joinConds (Dependency.joinCond cond newCond) conds).
      { clear Hjoin. revert deps H Hd. induction IH as [|x r Hx Hr IHr]; intros deps H Hd.
        - inversion H; subst. contradiction.
        - rinv H. rinv H. inversion H; subst. apply in_app_or in Hd as [Hd|Hd].
          + destruct (Hx _ _ _ _ _ _ E Hd) as (conds & H1 & H2).
            exists x, conds. repeat split; auto. now left.
          + destruct (IHr _ E0 Hd) as (d0 & conds & H0 & H1 & H2).
            exists d0, conds. repeat split; auto. now right. }
      destruct Hl as (d0 & conds & H0 & H1 & H2).
      eexists. split; [|rewrite Hjoin; exact H2].
      eapply Dependency.nested_depends; [exact I | exact H0 | exact H1].
    + destruct depends as [l|]; [discriminate|]. inversion H; subst.
      destruct Hd as [<-|[]]. simpl.
      exists (match newCond with Some x => [x] | None => [] end). split.
      * now apply (Dependency.nested_name _ c n).
      * now destruct newCond.
    + destruct depends as [l|]; [|discriminate].
      assert (Hl : exists d0 conds, In d0 l /\ Dependency.nested (Dependency.recipe d) conds d0
                   /\ Dependency.condition d
                      = Dependency.joinConds (Dependency.joinCond cond newCond) conds).
      { clear Hjoin. revert deps H Hd. induction IH as [|x r Hx Hr IHr]; intros deps H Hd.
        - inversion H; subst. contradiction.
        - rinv H. rinv H. inversion H; subst. apply in_app_or in Hd as [Hd|Hd].
          + destruct (Hx _ _ _ _ _ _ E Hd) as (conds & H1 & H2).
            exists x, conds. repeat split; auto. now left.
          + destruct (IHr _ E0 Hd) as (d0 & conds & H0 & H1 & H2).
            exists d0, conds. repeat split; auto. now right. }
      destruct Hl as (d0 & conds & H0 & H1 & H2).
      eexists. split; [|rewrite Hjoin; exact H2].
      eapply Dependency.nested_depends; [exact I | exact H0 | exact H1].
Qed.



(** ** The claims on the examples *)

Lemma loaded_registered fnmatchcase fuel recipeSet classDocs recipeDocs :
  Graph.registered
    (Examples.tableOf (Project.load fnmatchcase fuel recipeSet classDocs recipeDocs)).
Proof.
  destruct (Project.load _ _ _ _ _) as [p|e|] eqn:Hp; simpl.
  - now apply load_table in Hp.
  - intros k r H. rewrite lookup_empty in H. discriminate.
  - intros k r H. rewrite lookup_empty in H. discriminate.
Qed.

(** Give a computation its value, under a name. *)
Tactic Notation "evaluated" "as" ident(a) :=
  lazymatch goal with
  | |- ex (fun _ => ?lhs = Some _ /\ _) =>
      let v := eval vm_compute in lhs in
      lazymatch v with
      | Some ?x => pose (a := x); exists a; split; [vm_compute; reflexivity|]
      end
  | |- ex (fun _ => ?lhs = Ok _ /\ _) =>
      let v := eval vm_compute in lhs in
      lazymatch v with
      | Ok ?x => pose (a := x); exists a; split; [vm_compute; reflexivity|]
      end
  end.

Tactic Notation "evaluated" "as" ident(a) ident(b) :=
  lazymatch goal with
  | |- ex (fun _ => ex (fun _ => ?lhs = Ok _ /\ _)) =>
      let v := eval vm_compute in lhs in
      lazymatch v with
      | Ok (?x, ?y) =>
          pose (a := x); pose (b := y); exists a, b; split; [vm_compute; reflexivity|]
      end
  end.

(** Two elaborations of the library that differ in a variable it reads but
    does not use for its result give the same package. *)
Lemma same_resultId_same_package_witness :
  exists self,
    Examples.tableOf Examples.depot !! "lib" = Some self
    /\ exists st1 out1,
         Prepare.prepare (Examples.tableOf Examples.depot) false 3 Store.empty self
           (Examples.inputs [("FOO", "1"); ("BAR", "a")]) [] = Ok (st1, out1)
         /\ exists st2 out2,
              Prepare.prepare (Examples.tableOf Examples.depot) false 3 st1 self
                (Examples.inputs [("FOO", "1"); ("BAR", "b")]) [] = Ok (st2, out2)
              /\ Store.cur st2 = 2
              /\ Prepare.package out1 = Prepare.package out2.
Proof.
  evaluated as self. evaluated as st1 out1. evaluated as st2 out2.
  split; [vm_compute; reflexivity|].
  refine (proj2 (same_resultId_same_package (Examples.tableOf Examples.depot) false
                   self Store.empty st1 st1 st2 3 3
                   (Examples.inputs [("FOO", "1"); ("BAR", "a")])
                   (Examples.inputs [("FOO", "1"); ("BAR", "b")]) [] [] out1 out2
                   (loaded_registered _ _ _ _ _) (rtc_refl _ _) _ _ (rtc_refl _ _) _) _);
    vm_compute; reflexivity.
Defined.

(** Two elaborations of the library with different values of the variable
    that it provides: the package steps have the same Variant-Id, and the
    packages are two. *)
Lemma same_variantId_two_packages :
  exists self,
    Examples.tableOf Examples.depot !! "lib" = Some self
    /\ exists st1 out1,
         Prepare.prepare (Examples.tableOf Examples.depot) false 3 Store.empty self
           (Examples.inputs [("FOO", "1"); ("BAR", "a")]) [] = Ok (st1, out1)
         /\ exists st2 out2,
              Prepare.prepare (Examples.tableOf Examples.depot) false 3 st1 self
                (Examples.inputs [("FOO", "2"); ("BAR", "a")]) [] = Ok (st2, out2)
              /\ CoreStep.variantId (CorePackage.packageStep (Prepare.package out1))
                 = CoreStep.variantId (CorePackage.packageStep (Prepare.package out2))
              /\ CorePackage.pkgId (Prepare.package out1) = 1
              /\ CorePackage.pkgId (Prepare.package out2) = 2
              /\ Prepare.package out1 <> Prepare.package out2.
Proof.
  evaluated as self. evaluated as st1 out1. evaluated as st2 out2.
  split; [vm_compute; reflexivity|].
  split; [vm_compute; reflexivity|].
  split; [vm_compute; reflexivity|].
  intros H. apply (f_equal CorePackage.pkgId) in H. vm_compute in H. discriminate H.
Qed.

Lemma fitsb_ok n : fitsb n = true -> CoreStep.fits n.
Proof. unfold fitsb, CoreStep.fits. apply Z.ltb_lt. Qed.

Lemma forallb_Forall {A : Type} (p : A -> bool) (P : A -> Prop) l :
  (forall x, p x = true -> P x) -> forallb p l = true -> Forall P l.
Proof.
  intros Hp. induction l as [|x l IH]; simpl; intros H; constructor;
    apply andb_true_iff in H as [H1 H2]; auto.
Qed.

Lemma digestFitsb_ok forceSandbox s :
  digestFitsb forceSandbox s = true -> CoreStep.digestFits forceSandbox s.
Proof.
  unfold digestFitsb, CoreStep.digestFits. intros H.
  apply andb_true_iff in H as [H C7]. apply andb_true_iff in H as [H C6].
  apply andb_true_iff in H as [H C5]. apply andb_true_iff in H as [H C4].
  apply andb_true_iff in H as [H C3]. apply andb_true_iff in H as [C1 C2].
  split; [|split; [|split; [|split; [|split; [|split]]]]].
  - destruct (RecipeSet.sandboxInvariant _); [exact I|].
    destruct (CoreStep.getSandbox s forceSandbox); [|exact I].
    apply andb_true_iff in C1 as [Ha Hb]. split; [now apply fitsb_ok|].
    eapply forallb_Forall; [|exact Hb]. intros x. apply fitsb_ok.
  - destruct (CoreStep.getDigestScript s); [now apply fitsb_ok | exact I].
  - now apply fitsb_ok.
  - eapply forallb_Forall; [|exact C4]. intros x Hx. simpl in Hx.
    apply andb_true_iff in Hx as [Hx Hc]. apply andb_true_iff in Hx as [Ha Hb].
    split; [now apply fitsb_ok|]. split; [now apply fitsb_ok|].
    eapply forallb_Forall; [|exact Hc]. intros y. apply fitsb_ok.
  - now apply fitsb_ok.
  - eapply forallb_Forall; [|exact C6]. intros x Hx. simpl in Hx.
    apply andb_true_iff in Hx as [Ha Hb]. split; now apply fitsb_ok.
  - now apply fitsb_ok.
Qed.

(** The digest of the package step of the library has 20 bytes. *)
Lemma getDigest_length_witness :
  exists self,
    Examples.tableOf Examples.depot !! "lib" = Some self
    /\ exists st out,
         Prepare.prepare (Examples.tableOf Examples.depot) false 3 Store.empty self
           (Examples.inputs [("FOO", "1"); ("BAR", "a")]) [] = Ok (st, out)
         /\ exists d,
              CoreStep.getDigest CoreStep.variantId false
                (CorePackage.packageStep (Prepare.package out)) = Some d
              /\ length d = 20.
Proof.
  evaluated as self. evaluated as st out.
  assert (Hargs : CoreStep.validArgs (CorePackage.packageStep (Prepare.package out)) = [])
    by (vm_compute; reflexivity).
  assert (Hdeps : CoreStep.digestDeps (CorePackage.packageStep (Prepare.package out)) false
                  = []) by (vm_compute; reflexivity).
  destruct (getDigest_length CoreStep.variantId false
              (CorePackage.packageStep (Prepare.package out)))
    as (d & Hd & _ & H20).
  - apply digestFitsb_ok; vm_compute; reflexivity.
  - rewrite Hdeps; constructor.
  - exists d. split; [exact Hd|]. apply H20. unfold CoreStep.hostContribution.
    rewrite Hargs. intros [[Hf _]|Hx].
    + vm_compute in Hf; discriminate Hf.
    + inversion Hx.
Defined.

(** A second call for the library with the inputs of the first finds the
    entry of the first and returns its package. *)
Lemma matcher_hit_witness :
  exists self,
    Examples.tableOf Examples.depot !! "lib" = Some self
    /\ exists st1 out1,
         Prepare.prepare (Examples.tableOf Examples.depot) false 3 Store.empty self
           (Examples.inputs [("FOO", "1"); ("BAR", "a")]) ["app"; "lib"] = Ok (st1, out1)
         /\ exists m,
              Prepare.findMatch (Store.matchers st1 "lib")
                (Examples.inputs [("FOO", "1"); ("BAR", "a")]) = Some m
              /\ PackageMatcher.corePackage m = Prepare.package out1
              /\ Prepare.prepare (Examples.tableOf Examples.depot) false 3 st1 self
                   (Examples.inputs [("FOO", "1"); ("BAR", "a")]) ["app"; "lib"]
                 = Ok (st1, Prepare.mkOutput (PackageMatcher.corePackage m)
                              (PackageMatcher.subTreePackages m)
                              (PackageMatcher.touchedEnv m)
                              (PackageMatcher.touchedTools m)).
Proof.
  evaluated as self. evaluated as st1 out1. evaluated as m.
  split; [vm_compute; reflexivity|].
  assert (Hcall : Tables.later (Examples.tableOf Examples.depot) false Store.empty st1).
  { apply rtc_once. exists 3, self, (Examples.inputs [("FOO", "1"); ("BAR", "a")]),
      ["app"; "lib"], out1. split; vm_compute; reflexivity. }
  destruct (matcher_hit_returns_stored_package (Examples.tableOf Examples.depot) false
              self st1 2 (Examples.inputs [("FOO", "1"); ("BAR", "a")]) ["app"; "lib"]
              (loaded_registered _ _ _ _ _) Hcall) as [Hhit _].
  - vm_compute; reflexivity.
  - destruct (Hhit m) as (_ & _ & Hok & _); [vm_compute; reflexivity|].
    apply Hok. intros n _. vm_compute. intros H. discriminate H.
Defined.

(** The call of [a] for [x] finds the entry that the elaboration of [x]
    for the root has stored, and the match raises: [a] is on the stack and
    below the entry. *)
Lemma matcher_hit_raises :
  Examples.gen Examples.flagged [("FLAG", "0")] = Err (ParseError "Recipes are cyclic")
  /\ exists self,
       Examples.tableOf Examples.flagged !! "x" = Some self
       /\ exists st1 out1,
            Prepare.prepare (Examples.tableOf Examples.flagged) false 4 Store.empty self
              (Examples.inputs [("FLAG", "0")]) ["top"; "x"] = Ok (st1, out1)
            /\ exists m,
                 Prepare.findMatch (Store.matchers st1 "x")
                   (Examples.inputs [("FLAG", "0")]) = Some m
                 /\ PackageMatcher.matches m [("FLAG", "0")] [] [] None = true
                 /\ Prepare.prepare (Examples.tableOf Examples.flagged) false 4 st1 self
                      (Examples.inputs [("FLAG", "0")]) ["top"; "a"; "x"]
                    = Err (ParseError "Recipes are cyclic").
Proof.
  split; [vm_compute; reflexivity|].
  evaluated as self. evaluated as st1 out1. evaluated as m.
  split; vm_compute; reflexivity.
Qed.






(** * Further properties of the code *)

(** ** Paths of the SCMs *)

Lemma agreeingParts_prefix (p1 p2 : list string) :
  agreeingParts p1 p2 = true <-> p1 `prefix_of` p2 \/ p2 `prefix_of` p1.
Proof.
  revert p2. induction p1 as [|a r1 IH]; intros [|b r2]; simpl.
  - split; [intros _; left; apply prefix_nil | reflexivity].
  - split; [intros _; left; apply prefix_nil | reflexivity].
  - split; [intros _; right; apply prefix_nil | reflexivity].
  - rewrite andb_true_iff, IH. destruct (String.eqb_spec a b) as [->|Hab].
    + split.
      * intros [_ [H|H]]; [left | right]; now apply prefix_cons.
      * intros [H|H]; (split; [reflexivity|]); [left | right];
          now apply prefix_cons_inv_2 in H.
    + split; [intros [H _]; discriminate|].
      intros [H|H]; apply prefix_cons_inv_1 in H; congruence.
Qed.

(** X1. Two paths overlap exactly when the components of one, the path [.]
    having none, are the first components of the other; so the relation is
    symmetric, every path overlaps itself, and [.] overlaps every path. *)
Theorem overlappingPaths_prefix (p1 p2 : list string) :
  (overlappingPaths p1 p2 = true
   <-> pathParts p1 `prefix_of` pathParts p2 \/ pathParts p2 `prefix_of` pathParts p1)
  /\ overlappingPaths p1 p2 = overlappingPaths p2 p1
  /\ overlappingPaths p1 p1 = true
  /\ overlappingPaths ["."] p2 = true.
Proof.
  unfold overlappingPaths. split; [apply agreeingParts_prefix|]. split; [|split].
  - apply eq_true_iff_eq. rewrite !agreeingParts_prefix. tauto.
  - apply agreeingParts_prefix. now left.
  - reflexivity.
Qed.

Lemma validateScmPaths_Ok (scms : list ScmSpec.t) : forall known,
  validateScmPaths known scms = Ok tt
  <-> Forall (fun s => ScmSpec.isabs s = false) scms
      /\ Forall (fun s => Forall (fun k => overlappingPaths k (ScmSpec.directory s) = false)
                            known) scms
      /\ ForallOrdPairs (fun a b => overlappingPaths (ScmSpec.directory a)
                                      (ScmSpec.directory b) = false) scms.
Proof.
  induction scms as [|s r IH]; intros known; simpl.
  - split; [intros _; repeat constructor | reflexivity].
  - destruct (ScmSpec.isabs s) eqn:Habs.
    + split; [discriminate|]. intros (H & _). apply Forall_cons in H as [H _]. congruence.
    + destruct (existsb _ known) eqn:Hex.
      * split; [discriminate|]. intros (_ & H & _). apply Forall_cons in H as [H _].
        apply existsb_exists in Hex as (k & Hk & Hov).
        rewrite Forall_forall in H. rewrite (H k) in Hov; [discriminate|].
        now apply list_elem_of_In.
      * rewrite IH. split.
        -- intros (H1 & H2 & H3). split; [now constructor|].
           assert (Hknown : Forall (fun k => overlappingPaths k (ScmSpec.directory s) = false)
                              known).
           { apply Forall_forall. intros k Hk. apply list_elem_of_In in Hk.
             destruct (overlappingPaths k (ScmSpec.directory s)) eqn:Ho; [|reflexivity].
             assert (existsb (fun known => overlappingPaths known (ScmSpec.directory s))
                       known = true) by (apply existsb_exists; eauto).
             congruence. }
           rewrite Forall_forall in H2. split.
           ++ constructor; [assumption|]. apply Forall_forall. intros x Hx.
              specialize (H2 x Hx). rewrite Forall_forall in H2.
              apply Forall_forall. intros k Hk. apply H2, elem_of_app. now left.
           ++ constructor; [|assumption]. rewrite List.Forall_forall. intros x Hx.
              apply list_elem_of_In in Hx. specialize (H2 x Hx).
              rewrite Forall_forall in H2. apply H2, elem_of_app. right.
              apply list_elem_of_singleton. reflexivity.
        -- intros (H1 & H2 & H3). apply Forall_cons in H1 as [_ H1].
           apply Forall_cons in H2 as [_ H2]. inversion H3 as [|x l Hx Hl]; subst.
           split; [assumption|]. split; [|assumption].
           rewrite Forall_forall in H2. rewrite List.Forall_forall in Hx.
           apply Forall_forall. intros x Hin. apply Forall_forall. intros k Hk.
           apply elem_of_app in Hk as [Hk|Hk].
           ++ specialize (H2 x Hin). rewrite Forall_forall in H2. now apply H2.
           ++ apply list_elem_of_singleton in Hk as ->. apply Hx.
              now apply list_elem_of_In.
Qed.

(** X2. The validation of the SCM paths passes exactly when every path is
    relative and no two of them overlap, and it raises [ParseError]
    otherwise; the SCMs of a checkout step that was constructed are such. *)
Theorem scm_paths_relative_and_apart :
  (forall scms,
     validateScmPaths [] scms = Ok tt
     <-> Forall (fun s => ScmSpec.isabs s = false) scms
         /\ ForallOrdPairs (fun a b => overlappingPaths (ScmSpec.directory a)
                                         (ScmSpec.directory b) = false) scms)
  /\ (forall known scms r, validateScmPaths known scms = r ->
        r = Ok tt \/ exists msg, r = Err (ParseError msg))
  /\ (forall p checkout fa fullEnv digestEnv env s t,
        CoreCheckoutStep p checkout fa fullEnv digestEnv env = Ok (s, t) ->
        Forall (fun s => ScmSpec.isabs s = false) (CoreStep.scmList s)
        /\ ForallOrdPairs (fun a b => overlappingPaths (ScmSpec.directory a)
                                        (ScmSpec.directory b) = false)
             (CoreStep.scmList s)).
Proof.
  split; [|split].
  - intros scms. rewrite validateScmPaths_Ok. split.
    + intros (H1 & _ & H3). now split.
    + intros (H1 & H3). split; [assumption|]. split; [|assumption].
      apply Forall_forall. intros x _. constructor.
  - intros known scms. revert known. induction scms as [|s r IH]; intros known res H;
      simpl in H.
    + left. now subst.
    + destruct (ScmSpec.isabs s); [right; subst; eauto|].
      destruct (existsb _ known); [right; subst; eauto|]. now apply (IH _ _ H).
  - intros p checkout fa fullEnv digestEnv env s t H. unfold CoreCheckoutStep in H.
    destruct checkout as [co|].
    + rinv H. destruct a as [scmList t']. rinv H. rinv H. inversion H; subst.
      apply initStep_fields in E1 as (_ & _ & _ & Hs & _). rewrite Hs.
      destruct a. apply validateScmPaths_Ok in E0 as (H1 & _ & H3). now split.
    + rinv H. inversion H; subst. apply initStep_fields in E as (_ & _ & _ & Hs & _).
      rewrite Hs. split; constructor.
Qed.

(** ** The two parts of a digest *)

(** X3. The slices of a digest give back its parts: the first is the SHA-1
    of the recipe bytes and the second the SHA-1 of the host bytes, empty
    exactly when no fingerprint was added; together they are the digest. *)
Theorem digest_slices (h : DigestHasher.t) :
  DigestHasher.sliceRecipes (DigestHasher.digest h) = SHA1.sha1 (DigestHasher.recipes h)
  /\ DigestHasher.sliceHost (DigestHasher.digest h)
     = match DigestHasher.host h with
       | [] => []
       | _ => SHA1.sha1 (DigestHasher.host h)
       end
  /\ (DigestHasher.sliceHost (DigestHasher.digest h) = [] <-> DigestHasher.host h = [])
  /\ DigestHasher.sliceRecipes (DigestHasher.digest h)
     ++ DigestHasher.sliceHost (DigestHasher.digest h) = DigestHasher.digest h.
Proof.
  unfold DigestHasher.sliceRecipes, DigestHasher.sliceHost, DigestHasher.digest.
  pose proof (sha1_length (DigestHasher.recipes h)) as Hr.
  pose proof (sha1_length (DigestHasher.host h)) as Hh.
  destruct (DigestHasher.host h) as [|b bs] eqn:Hhost.
  - split; [|split; [|split]].
    + rewrite <- Hr at 1. apply firstn_all.
    + rewrite <- Hr at 1. apply skipn_all.
    + rewrite <- Hr at 1. rewrite skipn_all. tauto.
    + apply firstn_skipn.
  - assert (Hs : skipn 20 (SHA1.sha1 (DigestHasher.recipes h) ++ SHA1.sha1 (b :: bs))
                 = SHA1.sha1 (b :: bs)).
    { rewrite <- Hr at 1. rewrite skipn_app, Nat.sub_diag, skipn_all. reflexivity. }
    split; [|split; [|split]].
    + rewrite <- Hr at 1. rewrite firstn_app, Nat.sub_diag, firstn_all. simpl.
      apply app_nil_r.
    + exact Hs.
    + rewrite Hs. split; [|discriminate]. intros H. rewrite H in Hh. discriminate Hh.
    + apply firstn_skipn.
Qed.

(** ** Lists of provided packages *)

Lemma NoDup_map_in {A B : Type} (f : A -> B) (l : list A) :
  NoDup (map f l) -> forall a b, In a l -> In b l -> f a = f b -> a = b.
Proof.
  induction l as [|x r IH]; simpl; intros H a b Ha Hb Hf; [contradiction|].
  apply NoDup_cons in H as [Hx H].
  destruct Ha as [<-|Ha], Hb as [<-|Hb]; [reflexivity | | |now apply IH].
  - exfalso. apply Hx. rewrite Hf. now apply list_elem_of_In, in_map.
  - exfalso. apply Hx. rewrite <- Hf. now apply list_elem_of_In, in_map.
Qed.

Lemma append_unique seen l ref l' :
  uniqueOf seen l -> UniquePackageList.append l ref = Ok l' -> uniqueOf (seen ++ [ref]) l'.
Proof.
  intros [H1 H2 H3 H4 H5] H. unfold UniquePackageList.append in H.
  fold (refName ref) in H.
  destruct (Dict.get (refName ref) (UniquePackageList.cache l)) as [ref2|] eqn:Hget.
  - case_bool_decide as Hv; [|discriminate]. inversion H; subst l'.
    destruct (H3 _ _ Hget) as [Hin Hn].
    split; try assumption.
    + now apply sublist_inserts_r.
    + intros r Hr. apply in_app_iff in Hr as [Hr|[<-|[]]]; [now apply H5|].
      exists ref2. now repeat split.
  - inversion H; subst l'. simpl.
    assert (Hfresh : ~ In (refName ref) (map refName (UniquePackageList.ret l))).
    { intros Hin. apply in_map_iff in Hin as (r & Hn & Hin). apply H2 in Hin.
      rewrite Hn in Hin. congruence. }
    split; simpl.
    + rewrite map_app. simpl. apply NoDup_app. split; [assumption|]. split.
      * intros x Hx Hx'. apply list_elem_of_singleton in Hx'. subst.
        apply Hfresh. now apply list_elem_of_In.
      * apply NoDup_singleton.
    + intros r Hr. rewrite get_set. apply in_app_iff in Hr as [Hr|[<-|[]]].
      * destruct (String.eqb_spec (refName r) (refName ref)) as [Heq|_]; [|now apply H2].
        exfalso. apply Hfresh. rewrite <- Heq. now apply in_map.
      * now rewrite String.eqb_refl.
    + intros n r. rewrite get_set.
      destruct (String.eqb_spec n (refName ref)) as [->|_].
      * intros Heq. inversion Heq; subst. split; [|reflexivity].
        apply in_app_iff. right. now left.
      * intros Hg. destruct (H3 _ _ Hg). split; [|assumption]. apply in_app_iff. now left.
    + now apply sublist_app.
    + intros r Hr. apply in_app_iff in Hr as [Hr|[<-|[]]].
      * destruct (H5 r Hr) as (r' & Hr' & Hn). exists r'. split; [|assumption].
        apply in_app_iff. now left.
      * exists ref. split; [|split; reflexivity]. apply in_app_iff. right. now left.
Qed.

Lemma append_conflict seen l ref e :
  uniqueOf seen l -> UniquePackageList.append l ref = Err e ->
  exists r msg, In r seen /\ refName r = refName ref /\ refVariant r <> refVariant ref
                /\ e = ParseError msg.
Proof.
  intros [H1 H2 H3 H4 H5] H. unfold UniquePackageList.append in H.
  fold (refName ref) in H.
  destruct (Dict.get (refName ref) (UniquePackageList.cache l)) as [ref2|] eqn:Hget;
    [|discriminate].
  case_bool_decide as Hv; [discriminate|]. inversion H; subst.
  destruct (H3 _ _ Hget) as [Hin Hn]. exists ref2. eexists. split; [|now repeat split].
  apply list_elem_of_In. eapply elem_of_sublist; [|exact H4]. now apply list_elem_of_In.
Qed.

Lemma extend_unique gen : forall seen l,
  uniqueOf seen l ->
  match UniquePackageList.extend l gen with
  | Ok l' => uniqueOf (seen ++ gen) l'
  | Err e => exists r1 r2 msg, In r1 (seen ++ gen) /\ In r2 gen
                               /\ refName r1 = refName r2
                               /\ refVariant r1 <> refVariant r2
                               /\ e = ParseError msg
  | OutOfFuel => False
  end.
Proof.
  unfold UniquePackageList.extend.
  induction gen as [|ref r IH]; intros seen l Hl; simpl.
  - now rewrite app_nil_r.
  - destruct (UniquePackageList.append l ref) as [l1|e|] eqn:Ha; simpl.
    + specialize (IH _ _ (append_unique _ _ _ _ Hl Ha)).
      rewrite <- app_assoc in IH. simpl in IH.
      destruct (foldR UniquePackageList.append r l1) as [l2|e|]; [assumption| |assumption].
      destruct IH as (r1 & r2 & msg & Hr1 & Hr2 & Hn). exists r1, r2, msg.
      split; [assumption|]. split; [now right | assumption].
    + destruct (append_conflict _ _ _ _ Hl Ha) as (r1 & msg & Hin & Hn & Hv & ->).
      exists r1, ref, msg. split; [apply in_app_iff; now left|].
      split; [now left|]. now repeat split.
    + unfold UniquePackageList.append in Ha.
      destruct (Dict.get _ _); [|discriminate]. case_bool_decide; discriminate.
Qed.

Lemma new_unique : uniqueOf [] UniquePackageList.new.
Proof.
  split; simpl.
  - constructor.
  - intros r [].
  - intros n r H. discriminate H.
  - constructor.
  - intros r [].
Qed.

(** X4. A list of provided packages built from references accepts them
    exactly when all references to one package name have one Variant-Id,
    and raises [ParseError] otherwise.  The accepted list holds every name
    once, keeps the order of the references, and holds for every reference
    an entry of its name and Variant-Id. *)
Theorem unique_package_list (refs : list Ref) :
  ((exists l, UniquePackageList.extend UniquePackageList.new refs = Ok l)
   <-> forall r1 r2, In r1 refs -> In r2 refs -> refName r1 = refName r2 ->
         CoreStep.variantId (CoreRef.destination r1)
         = CoreStep.variantId (CoreRef.destination r2))
  /\ ((exists l, UniquePackageList.extend UniquePackageList.new refs = Ok l)
      \/ exists msg, UniquePackageList.extend UniquePackageList.new refs
                     = Err (ParseError msg))
  /\ forall l, UniquePackageList.extend UniquePackageList.new refs = Ok l ->
       NoDup (map refName (UniquePackageList.result_ l))
       /\ sublist (UniquePackageList.result_ l) refs
       /\ forall r, In r refs ->
            exists r', In r' (UniquePackageList.result_ l)
                       /\ refName r' = refName r
                       /\ CoreStep.variantId (CoreRef.destination r')
                          = CoreStep.variantId (CoreRef.destination r).
Proof.
  pose proof (extend_unique refs [] _ new_unique) as H. simpl in H.
  assert (Hok : forall l, UniquePackageList.extend UniquePackageList.new refs = Ok l ->
            NoDup (map refName (UniquePackageList.result_ l))
            /\ sublist (UniquePackageList.result_ l) refs
            /\ forall r, In r refs ->
                 exists r', In r' (UniquePackageList.result_ l)
                            /\ refName r' = refName r /\ refVariant r' = refVariant r).
  { intros l Hl. rewrite Hl in H. destruct H as [H1 _ _ H4 H5]. now repeat split. }
  split; [|split; [|exact Hok]].
  - split.
    + intros [l Hl] r1 r2 Hr1 Hr2 Hn. destruct (Hok l Hl) as (Hnd & _ & Hall).
      destruct (Hall r1 Hr1) as (a & Ha & Han & Hav).
      destruct (Hall r2 Hr2) as (b & Hb & Hbn & Hbv).
      assert (a = b) as ->.
      { apply (NoDup_map_in refName _ Hnd); [assumption..|congruence]. }
      unfold refVariant in *. congruence.
    + intros Hagree.
      destruct (UniquePackageList.extend UniquePackageList.new refs) as [l|e|];
        [eauto| |contradiction].
      destruct H as (r1 & r2 & msg & Hr1 & Hr2 & Hn & Hv & _). exfalso. apply Hv.
      now apply Hagree.
  - destruct (UniquePackageList.extend UniquePackageList.new refs) as [l|e|];
      [eauto| |contradiction].
    destruct H as (r1 & r2 & msg & _ & _ & _ & _ & ->). eauto.
Qed.

(** ** The packages of an elaboration *)

(** What the end of [prepare] establishes of the package that it builds
    holds of every package that a call returns. *)
Lemma elaborated_good (recipes : gmap string Recipe.t) (sandboxEnabled : bool)
    (good : CorePackage.t -> Prop) :
  Graph.registered recipes ->
  (forall self states l n b,
     recipes !! Recipe.packageName self = Some self ->
     Prepare.finish sandboxEnabled self states l n = Ok b ->
     good (Prepare.builtPackage b)) ->
  forall st fuel self i stack st' out,
  Tables.later recipes sandboxEnabled Store.empty st ->
  recipes !! Recipe.packageName self = Some self ->
  Prepare.prepare recipes sandboxEnabled fuel st self i stack = Ok (st', out) ->
  CorePackage.getName (Prepare.package out) = Recipe.packageName self
  /\ good (Prepare.package out).
Proof.
  intros Hreg Hgood st fuel self i stack st' out Hl Hself Hcall.
  assert (Hinv : Tables.invariant recipes good st).
  { apply (later_invariant _ sandboxEnabled good Hreg Hgood _ _ Hl).
    apply empty_invariant. }
  pose proof (prepare_sound _ sandboxEnabled good Hreg Hgood fuel
                _ _ _ _ _ _ Hinv Hself Hcall) as Hpost.
  now apply post_name in Hpost.
Qed.

Lemma isDeterministic_setProvided s pe pt pd ps :
  CoreStep.kind s <> CheckoutKind ->
  CoreStep.isDeterministic (CoreStep.setProvided s pe pt pd ps) = CoreStep.deterministic s.
Proof. unfold CoreStep.isDeterministic. simpl. destruct (CoreStep.kind s); congruence. Qed.

Lemma initStep_deterministic kind p scmList isValid det digestEnv env args s :
  initStep kind p scmList isValid det digestEnv env args = Ok s ->
  CoreStep.deterministic s = true ->
  det = true
  /\ Forall (fun r => CoreStep.isDeterministic (CoreRef.destination r) = true) args.
Proof.
  unfold initStep. intros H Hd. apply packed_Ok in H.
  pose proof (init_fields _ _ _ _ _ _ _ _ _ _ _ _ _ _ H) as (_ & _ & _ & _ & Ha).
  rewrite (init_deterministic _ _ _ _ _ _ _ _ _ _ _ _ _ _ H) in Hd.
  apply andb_true_iff in Hd as [Hd Hall]. split; [assumption|].
  rewrite forallb_forall in Hall. apply Forall_forall. intros r Hr. apply Hall.
  unfold CoreStep.getAllDepCoreSteps. apply in_app_iff. left. rewrite Ha.
  apply in_map. now apply list_elem_of_In.
Qed.

Lemma CoreCheckoutStep_kind p checkout fa fullEnv digestEnv env s t :
  CoreCheckoutStep p checkout fa fullEnv digestEnv env = Ok (s, t) ->
  CoreStep.kind s = CheckoutKind /\ CoreStep.recipe s = pbRecipe p /\ CoreStep.args s = [].
Proof.
  unfold CoreCheckoutStep. intros H. destruct checkout as [co|].
  - rinv H. destruct a as [scmList t']. rinv H. rinv H. inversion H; subst.
    now apply initStep_fields in E1 as (? & ? & _ & _ & ?).
  - rinv H. inversion H; subst. now apply initStep_fields in E as (? & ? & _ & _ & ?).
Qed.

Lemma finish_shared sandboxEnabled self states l n b :
  Prepare.finish sandboxEnabled self states l n = Ok b ->
  sharedDeterministic (Prepare.builtPackage b).
Proof.
  unfold Prepare.finish, sharedDeterministic. intros H.
  rinv H. destruct a as [[thisDeps indirect] results].
  rinv H. rinv H. destruct a0 as [env t1]. rinv H. destruct a0 as [mask t2].
  rinv H. destruct a0 as [src t3]. rinv H. rename a0 into bld.
  rinv H. rename a0 into pkg.
  rinv H. destruct a0 as [pe t4]. rinv H. destruct a0 as [pt t5].
  rinv H. destruct a0 as [ps t6].
  destruct (Recipe.shared self) eqn:Hsh; simpl in H.
  - destruct (CoreStep.isDeterministic _) eqn:Hdet; [|discriminate].
    inversion H; subst; clear H. simpl. intros _.
    unfold CorePackageStep in E5.
    pose proof (initStep_fields _ _ _ _ _ _ _ _ _ E5) as (Hk & _).
    rewrite isDeterministic_setProvided in Hdet by (rewrite Hk; discriminate).
    split; [rewrite isDeterministic_setProvided by (rewrite Hk; discriminate); exact Hdet|].
    destruct (initStep_deterministic _ _ _ _ _ _ _ _ _ E5 Hdet) as [_ Hargs].
    apply Forall_cons in Hargs as [Hb _]. simpl in Hb. split; [exact Hb|].
    intros Hbuild.
    assert (Hsrc : CoreStep.isDeterministic src = true).
    { destruct (Recipe.build self) as [[s1|] [s2|]] eqn:Hbs; try congruence;
        unfold CoreBuildStep in E4;
        destruct (initStep_deterministic _ _ _ _ _ _ _ _ _ E4
                    (isDeterministic_flag _ Hb)) as [_ Ha];
        apply Forall_cons in Ha as [Ha _]; exact Ha. }
    split; [exact Hsrc|].
    assert (Hk' : CoreStep.kind src = CheckoutKind).
    { destruct (Recipe.checkout self) as [[[c1 c2] c3] c4].
      destruct c1, c2, c3, c4; now apply CoreCheckoutStep_kind in E3 as (? & _). }
    unfold CoreStep.isDeterministic in Hsrc. rewrite Hk' in Hsrc.
    now apply andb_true_iff in Hsrc as [_ ?].
  - inversion H; subst; clear H. simpl. rewrite Hsh. discriminate.
Qed.

(** X5. A shared package that [prepare] returns is deterministic: its
    package step and its build step are, and when the recipe has a build
    script its checkout step and every SCM of that step are too. *)
Theorem shared_packages_are_deterministic
    (recipes : gmap string Recipe.t) (sandboxEnabled : bool)
    (self : Recipe.t) (st st' : Store.t) (fuel : nat) (i : Prepare.Inputs)
    (stack : list string) (out : Prepare.Output) :
  Graph.registered recipes ->
  Tables.later recipes sandboxEnabled Store.empty st ->
  recipes !! Recipe.packageName self = Some self ->
  Prepare.prepare recipes sandboxEnabled fuel st self i stack = Ok (st', out) ->
  Recipe.shared (CorePackage.recipe (Prepare.package out)) = true ->
  CoreStep.isDeterministic (CorePackage.packageStep (Prepare.package out)) = true
  /\ CoreStep.isDeterministic (CorePackage.buildStep (Prepare.package out)) = true
  /\ (Recipe.build (CorePackage.recipe (Prepare.package out)) <> (None, None) ->
      CoreStep.isDeterministic (CorePackage.checkoutStep (Prepare.package out)) = true
      /\ forallb ScmSpec.deterministic
           (CoreStep.scmList (CorePackage.checkoutStep (Prepare.package out))) = true).
Proof.
  intros Hreg Hl Hself Hcall.
  apply (elaborated_good recipes sandboxEnabled sharedDeterministic Hreg
           (fun self states l n b _ H => finish_shared _ _ _ _ _ _ H)
           _ _ _ _ _ _ _ Hl Hself Hcall).
Qed.

Lemma getDigest_setVariantId calculate force s v :
  CoreStep.getDigest calculate force (CoreStep.setVariantId s v)
  = CoreStep.getDigest calculate force s.
Proof. reflexivity. Qed.

Lemma getDigest_setProvided calculate force s pe pt pd ps :
  CoreStep.getDigest calculate force (CoreStep.setProvided s pe pt pd ps)
  = CoreStep.getDigest calculate force s.
Proof. reflexivity. Qed.

Lemma getDigest_20_40 calculate force s d :
  CoreStep.getDigest calculate force s = Some d -> length d = 20 \/ length d = 40.
Proof.
  intros H. rewrite getDigest_factors in H. unfold CoreStep.digestOf in H.
  repeat match type of H with
         | mbind _ ?m = Some _ => destruct m; simpl in H; [|discriminate]
         end.
  inversion H; subst. rewrite digest_length. destruct (DigestHasher.host _); auto.
Qed.

(** ** The matchers *)

Lemma matches_new (p : CorePackage.t) (envData : dict)
    (envTouched : gset string) (toolsData : list (string * Tool))
    (toolsTouched : gset string) (states : list (string * PluginState))
    (sandbox : option Sandbox) (sub : gset string)
    (inputEnv : dict) (inputTools : list (string * Tool))
    (inputStates : list (string * PluginState)) (inputSandbox : option Sandbox) :
  PackageMatcher.matches
    (PackageMatcher.new p envData envTouched toolsData toolsTouched states sandbox sub)
    inputEnv inputTools inputStates inputSandbox = true
  <-> (forall n, n ∈ envTouched -> Dict.get n envData = Dict.get n inputEnv)
      /\ (forall n, n ∈ toolsTouched ->
            PackageMatcher.toolId (Dict.get n toolsData)
            = PackageMatcher.toolId (Dict.get n inputTools))
      /\ PackageMatcher.sandboxId sandbox = PackageMatcher.sandboxId inputSandbox
      /\ dictEqb stateEqb states inputStates = true.
Proof.
  unfold PackageMatcher.matches, PackageMatcher.new. simpl.
  rewrite !andb_true_iff, !forallb_forall, bool_decide_eq_true.
  split.
  - intros [[[He Ht] Hs] Hst]. repeat split; try assumption.
    + intros n Hn.
      specialize (He (n, Dict.get n envData)). simpl in He.
      apply bool_decide_eq_true in He; [assumption|].
      apply in_map_iff. exists n. split; [reflexivity|].
      now apply list_elem_of_In, elem_of_elements.
    + intros n Hn.
      specialize (Ht (n, PackageMatcher.toolId (Dict.get n toolsData))). simpl in Ht.
      apply bool_decide_eq_true in Ht; [assumption|].
      apply in_map_iff. exists n. split; [reflexivity|].
      now apply list_elem_of_In, elem_of_elements.
  - intros (He & Ht & Hs & Hst). repeat split; try assumption.
    + intros [n v] Hin. apply in_map_iff in Hin as (n' & Heq & Hin). inversion Heq; subst.
      apply bool_decide_eq_true. simpl. apply He.
      now apply elem_of_elements, list_elem_of_In.
    + intros [n v] Hin. apply in_map_iff in Hin as (n' & Heq & Hin). inversion Heq; subst.
      apply bool_decide_eq_true. simpl. apply Ht.
      now apply elem_of_elements, list_elem_of_In.
Qed.

(** X6. A matcher built from the inputs of a call matches later inputs
    exactly when they agree with the first ones on every touched variable,
    on the Variant-Id of every touched tool (a missing tool only with a
    missing one), on the Variant-Id of the sandbox and on the states;
    names that were not touched are never compared. *)
Theorem matcher_compares_touched (p : CorePackage.t) (envData : dict)
    (envTouched : gset string) (toolsData : list (string * Tool))
    (toolsTouched : gset string) (states : list (string * PluginState))
    (sandbox : option Sandbox) (sub : gset string)
    (inputEnv : dict) (inputTools : list (string * Tool))
    (inputStates : list (string * PluginState)) (inputSandbox : option Sandbox) :
  PackageMatcher.matches
    (PackageMatcher.new p envData envTouched toolsData toolsTouched states sandbox sub)
    inputEnv inputTools inputStates inputSandbox = true
  <-> (forall n, n ∈ envTouched -> Dict.get n envData = Dict.get n inputEnv)
      /\ (forall n, n ∈ toolsTouched ->
            PackageMatcher.toolId (Dict.get n toolsData)
            = PackageMatcher.toolId (Dict.get n inputTools))
      /\ PackageMatcher.sandboxId sandbox = PackageMatcher.sandboxId inputSandbox
      /\ dictEqb stateEqb states inputStates = true.
Proof. apply matches_new. Qed.

(** ** A second call with the same inputs *)

Lemma get_In {V : Type} (k : string) (v : V) (d : list (string * V)) :
  NoDup (Dict.keys d) -> In (k, v) d -> Dict.get k d = Some v.
Proof.
  induction d as [|[k0 v0] r IH]; simpl; intros Hnd Hin; [contradiction|].
  apply NoDup_cons in Hnd as [Hk Hnd]. destruct Hin as [Heq|Hin].
  - inversion Heq; subst. now rewrite String.eqb_refl.
  - destruct (String.eqb_spec k k0) as [->|_]; [|now apply IH].
    exfalso. apply Hk. apply list_elem_of_In. change k0 with (k0, v).1.
    now apply in_map.
Qed.

Lemma dictEqb_refl {V : Type} (eqb : V -> V -> bool) (d : list (string * V)) :
  NoDup (Dict.keys d) -> Forall (fun kv => eqb kv.2 kv.2 = true) d ->
  dictEqb eqb d d = true.
Proof.
  intros Hnd Hall. unfold dictEqb. rewrite Nat.eqb_refl. simpl.
  apply forallb_forall. intros [k v] Hin. simpl.
  rewrite (get_In _ _ _ Hnd Hin). rewrite Forall_forall in Hall.
  apply (Hall (k, v)). now apply list_elem_of_In.
Qed.

Lemma states_refl states : properStates states -> dictEqb stateEqb states states = true.
Proof.
  intros [Hnd Hall]. apply dictEqb_refl; [assumption|].
  eapply Forall_impl; [exact Hall|]. intros [n s] Hs. simpl in *.
  unfold stateEqb. apply dictEqb_refl; [assumption|].
  apply Forall_forall. intros [k v] _. apply String.eqb_refl.
Qed.

Lemma touched_new (p : CorePackage.t) (envData : dict)
    (envTouched : gset string) (toolsData : list (string * Tool))
    (toolsTouched : gset string) (states : list (string * PluginState))
    (sandbox : option Sandbox) (sub : gset string) :
  let m := PackageMatcher.new p envData envTouched toolsData toolsTouched states
             sandbox sub in
  PackageMatcher.touchedEnv m = envTouched /\ PackageMatcher.touchedTools m = toolsTouched.
Proof.
  unfold PackageMatcher.touchedEnv, PackageMatcher.touchedTools, PackageMatcher.new.
  simpl. rewrite !map_map. simpl. rewrite !map_id.
  split; apply list_to_set_elements_L.
Qed.

(** X7. A call of [prepare] that returned, for a recipe without a filter
    for the tools, has left the tables such that the same call is answered
    from them: it returns the same package with the same names, whatever
    fuel it gets, and entryNames the tables as they are. *)
Theorem second_call_is_answered_from_tables
    (recipes : gmap string Recipe.t) (sandboxEnabled : bool)
    (self : Recipe.t) (st st' : Store.t) (fuel : nat) (i : Prepare.Inputs)
    (stack : list string) (out : Prepare.Output) :
  Graph.registered recipes ->
  Tables.later recipes sandboxEnabled Store.empty st ->
  recipes !! Recipe.packageName self = Some self ->
  Recipe.filterTools self = None ->
  properStates (Prepare.inputStates i) ->
  Prepare.prepare recipes sandboxEnabled fuel st self i stack = Ok (st', out) ->
  forall fuel',
    Prepare.prepare recipes sandboxEnabled (S fuel') st' self i stack = Ok (st', out).
Proof.
  intros Hreg Hl Hself Hfilter Hstates Hcall fuel'.
  pose proof (reachable_invariant _ _ _ Hreg Hl) as Hinv.
  pose proof (prepare_sound recipes sandboxEnabled (fun _ => True) Hreg
                (fun _ _ _ _ _ _ _ => I) fuel _ _ _ _ _ _ Hinv Hself Hcall) as Hpost.
  pose proof (Tables.post_stack _ _ _ _ _ _ _ Hpost) as Hstack.
  destruct fuel as [|fuel]; [discriminate|]. simpl in *.
  unfold Prepare.prepareBody in *.
  destruct (Prepare.findMatch (Store.matchers st _) i) as [m|] eqn:Hm.
  - destruct (Prepare.onStack stack _) eqn:Hon; [discriminate|].
    inversion Hcall; subst. now rewrite Hm, Hon.
  - rinv Hcall. rename a into l0. rinv Hcall. rename a into l1.
    rinv Hcall. rename a into b. unfold Prepare.remember in Hcall.
    rinv Hcall. rename a into pid. inversion Hcall; subst; clear Hcall.
    unfold Store.matchers at 1. simpl. rewrite lookup_insert_eq. simpl.
    unfold Prepare.findMatch. simpl.
    unfold Prepare.filteredTools. rewrite Hfilter.
    assert (Hmatch : PackageMatcher.matches
              (PackageMatcher.new
                 match Store.packages (Prepare.store l1) (Recipe.packageName self) !! pid with
                 | Some q => q
                 | None => Prepare.builtPackage b
                 end (Prepare.inputEnv i) (Prepare.builtTouchedE b)
                 (Prepare.inputTools i) (Prepare.builtTouchedT b)
                 (Prepare.inputStates i) (Prepare.inputSandbox i)
                 (Prepare.subTreePackages l1))
              (Prepare.inputEnv i) (Prepare.inputTools i) (Prepare.inputStates i)
              (Prepare.inputSandbox i) = true).
    { apply matches_new. repeat split; try reflexivity. now apply states_refl. }
    rewrite Hmatch.
    assert (Hon : Prepare.onStack stack (Prepare.subTreePackages l1) = false).
    { apply onStack_false. exact Hstack. }
    simpl. rewrite Hon.
    destruct (touched_new
                match Store.packages (Prepare.store l1) (Recipe.packageName self) !! pid with
                | Some q => q
                | None => Prepare.builtPackage b
                end (Prepare.inputEnv i) (Prepare.builtTouchedE b)
                (Prepare.inputTools i) (Prepare.builtTouchedT b)
                (Prepare.inputStates i) (Prepare.inputSandbox i)
                (Prepare.subTreePackages l1)) as [-> ->].
    reflexivity.
Qed.

(** The package of a call belongs to the recipe of the call. *)
Lemma elaborated_package (recipes : gmap string Recipe.t) (sandboxEnabled : bool)
    (good : CorePackage.t -> Prop) :
  Graph.registered recipes ->
  (forall self states l n b,
     recipes !! Recipe.packageName self = Some self ->
     Prepare.finish sandboxEnabled self states l n = Ok b ->
     good (Prepare.builtPackage b)) ->
  forall st fuel self i stack st' out,
  Tables.later recipes sandboxEnabled Store.empty st ->
  recipes !! Recipe.packageName self = Some self ->
  Prepare.prepare recipes sandboxEnabled fuel st self i stack = Ok (st', out) ->
  CorePackage.recipe (Prepare.package out) = self /\ good (Prepare.package out).
Proof.
  intros Hreg Hgood st fuel self i stack st' out Hl Hself Hcall.
  destruct (elaborated_good recipes sandboxEnabled
              (fun p => recipes !! Recipe.packageName (CorePackage.recipe p)
                        = Some (CorePackage.recipe p) /\ good p) Hreg) with
    (st := st) (fuel := fuel) (self := self) (i := i) (stack := stack) (st' := st')
    (out := out) as (Hn & Hr & Hg); try assumption.
  - intros r states l n b Hr Hb. split; [|now apply (Hgood r states l n b)].
    now rewrite (finish_Ok _ _ _ _ _ _ Hb).
  - split; [|assumption]. unfold CorePackage.getName, Recipe.getPackageName in Hn.
    rewrite Hn, Hself in Hr. now inversion Hr.
Qed.

(** ** The steps of a package *)

Lemma finish_builtSteps sandboxEnabled self states l n b :
  Prepare.finish sandboxEnabled self states l n = Ok b ->
  builtSteps (Prepare.builtPackage b).
Proof.
  unfold Prepare.finish. intros H.
  rinv H. destruct a as [[thisDeps indirect] results].
  rinv H. rinv H. destruct a0 as [env t1]. rinv H. destruct a0 as [mask t2].
  rinv H. destruct a0 as [src t3]. rinv H. rename a0 into bld.
  rinv H. rename a0 into pkg.
  rinv H. destruct a0 as [pe t4]. rinv H. destruct a0 as [pt t5].
  rinv H. destruct a0 as [ps t6].
  destruct (_ && _); [discriminate|]. inversion H; subst; clear H.
  assert (Hsrc : CoreStep.kind src = CheckoutKind /\ CoreStep.recipe src = self
                 /\ CoreStep.args src = []).
  { destruct (Recipe.checkout self) as [[[c1 c2] c3] c4].
    destruct c1, c2, c3, c4; now apply CoreCheckoutStep_kind in E3. }
  assert (Hbld : CoreStep.kind bld = BuildKind /\ CoreStep.recipe bld = self
                 /\ (CoreStep.isValid bld = true <-> (Recipe.build self).1 <> None)
                 /\ (Recipe.build self = (None, None) -> CoreStep.args bld = [])).
  { destruct (Recipe.build self) as [[s1|] [s2|]] eqn:Hb; unfold CoreBuildStep in E4;
      apply initStep_fields in E4 as (Hk & Hr & Hv & _ & Ha); simpl in *;
      rewrite Hv; repeat split; try assumption; try congruence; try discriminate. }
  unfold CorePackageStep in E5.
  apply initStep_fields in E5 as (Hk & Hr & Hv & _ & Ha). simpl in *.
  destruct Hsrc as (? & ? & ?), Hbld as (? & ? & ? & ?).
  constructor; simpl; auto.
Qed.

(** X8. The package that [prepare] returns belongs to the recipe of the
    call. Its steps are a checkout, a build and a package step of that
    recipe; the checkout step has no arguments, the package step has the
    build step as its only argument, and the build step is valid exactly
    when the recipe has a build script and has no arguments when the recipe
    has neither a build script nor its digest. *)
Theorem package_of_the_called_recipe
    (recipes : gmap string Recipe.t) (sandboxEnabled : bool)
    (self : Recipe.t) (st st' : Store.t) (fuel : nat) (i : Prepare.Inputs)
    (stack : list string) (out : Prepare.Output) :
  Graph.registered recipes ->
  Tables.later recipes sandboxEnabled Store.empty st ->
  recipes !! Recipe.packageName self = Some self ->
  Prepare.prepare recipes sandboxEnabled fuel st self i stack = Ok (st', out) ->
  let p := Prepare.package out in
  CorePackage.recipe p = self
  /\ (CoreStep.kind (CorePackage.checkoutStep p) = CheckoutKind
      /\ CoreStep.kind (CorePackage.buildStep p) = BuildKind
      /\ CoreStep.kind (CorePackage.packageStep p) = PackageKind)
  /\ (CoreStep.recipe (CorePackage.checkoutStep p) = self
      /\ CoreStep.recipe (CorePackage.buildStep p) = self
      /\ CoreStep.recipe (CorePackage.packageStep p) = self)
  /\ CoreStep.args (CorePackage.checkoutStep p) = []
  /\ CoreStep.args (CorePackage.packageStep p) = [CoreRef.mk (CorePackage.buildStep p) []]
  /\ (CoreStep.isValid (CorePackage.buildStep p) = true <-> (Recipe.build self).1 <> None)
  /\ (Recipe.build self = (None, None) -> CoreStep.args (CorePackage.buildStep p) = []).
Proof.
  intros Hreg Hl Hself Hcall p. subst p.
  destruct (elaborated_package recipes sandboxEnabled builtSteps Hreg
              (fun self states l n b _ H => finish_builtSteps _ _ _ _ _ _ H)
              _ _ _ _ _ _ _ Hl Hself Hcall) as [Hr [Hk Hrs Hc Hp Hb Hn]].
  rewrite Hr in Hrs, Hb, Hn. tauto.
Qed.

(** ** The identifiers of a package *)

Lemma initStep_variantId kind p scmList isValid det digestEnv env args s :
  initStep kind p scmList isValid det digestEnv env args = Ok s ->
  CoreStep.getDigest CoreStep.variantId false s = Some (CoreStep.variantId s).
Proof.
  unfold initStep, CoreStep.init. cbv zeta. intros H. apply packed_Ok in H.
  destruct (CoreStep.getDigest _ _ _) as [v|] eqn:E; [|discriminate].
  simpl in H. inversion H; subst. rewrite getDigest_setVariantId. exact E.
Qed.

Lemma CoreCheckoutStep_variantId p checkout fa fullEnv digestEnv env s t :
  CoreCheckoutStep p checkout fa fullEnv digestEnv env = Ok (s, t) ->
  CoreStep.getDigest CoreStep.variantId false s = Some (CoreStep.variantId s).
Proof.
  unfold CoreCheckoutStep. intros H. destruct checkout as [co|].
  - rinv H. destruct a as [scmList t']. rinv H. rinv H. inversion H; subst.
    now apply initStep_variantId in E1.
  - rinv H. inversion H; subst. now apply initStep_variantId in E.
Qed.

Lemma finish_digested sandboxEnabled self states l n b :
  Prepare.finish sandboxEnabled self states l n = Ok b ->
  digestedSteps (Prepare.builtPackage b).
Proof.
  unfold Prepare.finish, digestedSteps, digested. intros H.
  rinv H. destruct a as [[thisDeps indirect] results].
  rinv H. rinv H. destruct a0 as [env t1]. rinv H. destruct a0 as [mask t2].
  rinv H. destruct a0 as [src t3]. rinv H. rename a0 into bld.
  rinv H. rename a0 into pkg.
  rinv H. destruct a0 as [pe t4]. rinv H. destruct a0 as [pt t5].
  rinv H. destruct a0 as [ps t6].
  destruct (_ && _); [discriminate|]. inversion H; subst; clear H. simpl.
  split; [|split].
  - destruct (Recipe.checkout self) as [[[c1 c2] c3] c4].
    destruct c1, c2, c3, c4; now apply CoreCheckoutStep_variantId in E3.
  - destruct (Recipe.build self) as [[s1|] [s2|]]; unfold CoreBuildStep in E4;
      now apply initStep_variantId in E4.
  - rewrite getDigest_setProvided. unfold CorePackageStep in E5.
    now apply initStep_variantId in E5.
Qed.

(** X9. In a package that [prepare] returns, the Variant-Id stored in each
    of the three steps is the digest of the step, computed from the stored
    Variant-Ids of the steps it depends on, and has 20 or 40 bytes; the
    package step has a Result-Id, of 20 bytes, under which the package is
    registered in the table of its recipe. *)
Theorem stored_ids_are_digests
    (recipes : gmap string Recipe.t) (sandboxEnabled : bool)
    (self : Recipe.t) (st st' : Store.t) (fuel : nat) (i : Prepare.Inputs)
    (stack : list string) (out : Prepare.Output) :
  Graph.registered recipes ->
  Tables.later recipes sandboxEnabled Store.empty st ->
  recipes !! Recipe.packageName self = Some self ->
  Prepare.prepare recipes sandboxEnabled fuel st self i stack = Ok (st', out) ->
  Forall (fun s => CoreStep.getDigest CoreStep.variantId false s
                   = Some (CoreStep.variantId s)
                   /\ (length (CoreStep.variantId s) = 20
                       \/ length (CoreStep.variantId s) = 40))
    [CorePackage.checkoutStep (Prepare.package out);
     CorePackage.buildStep (Prepare.package out);
     CorePackage.packageStep (Prepare.package out)]
  /\ exists pid,
       CoreStep.getResultId (CorePackage.packageStep (Prepare.package out)) = Some pid
       /\ length pid = 20
       /\ Store.packages st' (Recipe.packageName self) !! pid = Some (Prepare.package out).
Proof.
  intros Hreg Hl Hself Hcall.
  assert (Hgood : forall self states l n b,
            recipes !! Recipe.packageName self = Some self ->
            Prepare.finish sandboxEnabled self states l n = Ok b ->
            digestedSteps (Prepare.builtPackage b)).
  { intros r states l n b _ Hb. now apply finish_digested in Hb. }
  assert (Hinv : Tables.invariant recipes digestedSteps st).
  { apply (later_invariant _ sandboxEnabled digestedSteps Hreg Hgood _ _ Hl).
    apply empty_invariant. }
  pose proof (prepare_sound _ sandboxEnabled digestedSteps Hreg Hgood fuel
                _ _ _ _ _ _ Hinv Hself Hcall) as Hpost.
  destruct (Tables.post_reg _ _ _ _ _ _ _ Hpost) as [pid Hpid].
  destruct (Tables.inv_byId _ _ _ (Tables.post_inv _ _ _ _ _ _ _ Hpost) _ _ _ Hpid)
    as (Hrid & _ & Hd1 & Hd2 & Hd3).
  split.
  - repeat (apply Forall_cons; split); [..|apply Forall_nil; exact I];
      (split; [assumption | eapply getDigest_20_40; eassumption]).
  - exists pid. split; [exact Hrid|]. split; [|exact Hpid].
    unfold Tables.resultIdOf, CoreStep.getResultId in Hrid.
    repeat match type of Hrid with
           | mbind _ ?m = Some _ => destruct m; simpl in Hrid; [|discriminate]
           end.
    inversion Hrid. apply sha1_length.
Qed.

(** ** The names below a package *)

(** X10. The names that [prepare] returns as those of the packages below
    the package hold every recipe that the recipe of the call depends on
    through dependencies without [if], and none of the names on the stack
    of the call; none of these recipes depends on itself. *)
Theorem subtree_names
    (recipes : gmap string Recipe.t) (sandboxEnabled : bool)
    (self : Recipe.t) (st st' : Store.t) (fuel : nat) (i : Prepare.Inputs)
    (stack : list string) (out : Prepare.Output) :
  Graph.registered recipes ->
  Tables.later recipes sandboxEnabled Store.empty st ->
  recipes !! Recipe.packageName self = Some self ->
  Prepare.prepare recipes sandboxEnabled fuel st self i stack = Ok (st', out) ->
  (forall d, Graph.reach recipes (Recipe.packageName self) d -> d ∈ Prepare.subTree out)
  /\ (forall n, In n stack -> n ∉ Prepare.subTree out)
  /\ (forall d, Graph.reach recipes (Recipe.packageName self) d ->
        ~ Graph.reach recipes d d).
Proof.
  intros Hreg Hl Hself Hcall.
  pose proof (reachable_invariant _ _ _ Hreg Hl) as Hinv.
  destruct (prepare_sound recipes sandboxEnabled (fun _ => True) Hreg
              (fun _ _ _ _ _ _ _ => I) fuel _ _ _ _ _ _ Hinv Hself Hcall)
    as [_ _ _ _ _ Hreach Hstack Hacyc].
  auto.
Qed.

(** ** The classes of a recipe *)

Section Order.
Variable classes : gmap string RawRecipe.t.
#[local] Abbreviation inheritsFrom := (Classes.inheritsFrom classes).
#[local] Abbreviation names := Classes.names.

Lemma mapR_getClass l cs :
  mapR (RawRecipe.getClass classes) l = Ok cs ->
  Forall2 (fun n c => classes !! n = Some c) l cs.
Proof.
  revert cs. induction l as [|n r IH]; simpl; intros cs H.
  - inversion H. constructor.
  - rinv H. rinv H. inversion H; subst. constructor; [|now apply IH].
    unfold RawRecipe.getClass in E. destruct (classes !! n); now inversion E.
Qed.

(** The classes that the loop of a call goes through. *)
Lemma subInherit_bases cls cs :
  mapR (RawRecipe.getClass classes) (RawRecipe.inherit cls) = Ok cs ->
  forall d, inheritsFrom cls d
            <-> In d match RawRecipe.anonBaseClass cls with
                     | Some a => a :: cs
                     | None => cs
                     end.
Proof.
  intros H d. apply mapR_getClass in H. unfold Classes.inheritsFrom.
  assert (Hcs : In d cs <-> exists n, In n (RawRecipe.inherit cls) /\ classes !! n = Some d).
  { clear -H. induction H as [|n c l cs Hn _ IH]; simpl.
    - split; [contradiction | intros (n & [] & _)].
    - rewrite IH. split.
      + intros [<-|(m & Hm & Hd)]; eauto.
      + intros (m & [<-|Hm] & Hd); [left; congruence | right; eauto]. }
  destruct (RawRecipe.anonBaseClass cls) as [a|]; simpl; rewrite Hcs.
  - split; [intros [H1|H1]; [left; congruence | now right]
           | intros [H1|H1]; [left; congruence | now right]].
  - split; [intros [H1|H1]; [discriminate | assumption] | now right].
Qed.

Lemma names_app (a b : list RawRecipe.t) : names (a ++ b) = names a ++ names b.
Proof. apply map_app. Qed.

Lemma basesFirst_app V a r :
  Classes.basesFirst classes V a ->
  Classes.basesFirst classes (V ∪ list_to_set (names a)) r ->
  Classes.basesFirst classes V (a ++ r).
Proof.
  intros Ha Hr k c d Hk Hd. destruct (decide (k < length a)) as [Hlt|Hge].
  - rewrite lookup_app_l in Hk by assumption.
    destruct (Ha k c d Hk Hd) as [H|H]; [now left|]. right.
    rewrite take_app_le by lia. exact H.
  - rewrite lookup_app_r in Hk by lia.
    rewrite take_app_ge by lia. rewrite names_app.
    destruct (Hr _ c d Hk Hd) as [H|H].
    + apply elem_of_union in H as [H|H]; [now left|]. right.
      apply in_app_iff. left. apply list_elem_of_In. now apply elem_of_list_to_set in H.
    + right. apply in_app_iff. now right.
Qed.

(** The loop over the classes that a call goes through. *)
Lemma order_loop
    (rec : RawRecipe.t -> gset string -> result (list RawRecipe.t * gset string))
    (top : RawRecipe.t) (l : list RawRecipe.t) (V : gset string) :
  (forall c v r v', In c l -> rec c v = Ok (r, v') ->
                    Classes.ordered classes c false v r v') ->
  (forall c, In c l -> inheritsFrom top c) ->
  forall a v ret visited,
    foldR (fun (acc : list RawRecipe.t * gset string) c =>
             '(r, v) ← rec c acc.2; Ok (acc.1 ++ r, v)) l (a, v) = Ok (ret, visited) ->
    v = V ∪ list_to_set (names a) -> NoDup (names a) ->
    (forall x, In x a -> RawRecipe.packageName x ∉ V) ->
    Classes.basesFirst classes V a ->
    (forall x, In x a -> tc inheritsFrom top x) ->
    visited = V ∪ list_to_set (names ret) /\ NoDup (names ret)
    /\ (forall x, In x ret -> RawRecipe.packageName x ∉ V)
    /\ Classes.basesFirst classes V ret
    /\ (forall x, In x ret -> tc inheritsFrom top x)
    /\ v ⊆ visited
    /\ (forall c, In c l -> RawRecipe.packageName c ∈ visited).
Proof.
  induction l as [|c l IH]; simpl; intros Hrec Htop a v ret visited H Hv Hnd Hfresh Hfirst Hfrom.
  - inversion H; subst. repeat split; try assumption; try reflexivity.
    intros c [].
  - rinv H. destruct a0 as [a1 v1]. rinv E. destruct a0 as [r v']. simpl in E0.
    inversion E; subst a1 v1; clear E.
    destruct (Hrec c _ _ _ (or_introl eq_refl) E0) as [Ov Ond Ofr Ofi _ Oself Ofrom].
    destruct (IH (fun c v r v' Hc => Hrec c v r v' (or_intror Hc))
                 (fun c Hc => Htop c (or_intror Hc)) _ _ _ _ H)
      as (H1 & H2 & H3 & H4 & H5 & H6 & H7).
    + rewrite Ov, Hv, names_app, list_to_set_app_L. symmetry. apply (assoc_L (∪)).
    + rewrite names_app. apply NoDup_app. split; [assumption|]. split; [|assumption].
      intros n Hn Hn'. apply list_elem_of_In, in_map_iff in Hn' as (x & <- & Hx).
      apply (Ofr x Hx). rewrite Hv. apply elem_of_union_r, elem_of_list_to_set. exact Hn.
    + intros x Hx. apply in_app_iff in Hx as [Hx|Hx]; [now apply Hfresh|].
      intros Hin. apply (Ofr x Hx). rewrite Hv. now apply elem_of_union_l.
    + apply basesFirst_app; [assumption|]. now rewrite <- Hv.
    + intros x Hx. apply in_app_iff in Hx as [Hx|Hx]; [now apply Hfrom|].
      eapply tc_rtc_r; [apply tc_once, Htop; now left | now apply Ofrom].
    + repeat split; try assumption.
      * rewrite Ov in H6. etrans; [apply union_subseteq_l | exact H6].
      * intros c' [<-|Hc']; [|now apply H7]. apply H6. now apply Oself.
Qed.

(** A call of [__resolveClassesOrder] that returns. *)
Lemma order_ordered fuel : forall cls stack visited isRecipe ret visited',
  RawRecipe.resolveClassesOrder fuel classes cls stack visited isRecipe
  = Ok (ret, visited') ->
  Classes.ordered classes cls isRecipe visited ret visited'.
Proof.
  induction fuel as [|fuel IH]; intros cls stack visited isRecipe ret visited' H;
    [discriminate|].
  simpl in H. destruct (existsb _ stack); [discriminate|].
  rinv H. rename a into cs. rinv H. destruct a as [ret1 visited1].
  pose proof (subInherit_bases cls cs E) as Hbases.
  destruct (order_loop
              (fun c v => RawRecipe.resolveClassesOrder fuel classes c
                            (stack ++ [if isRecipe then "<recipe>"
                                       else RawRecipe.packageName cls]) v false)
              cls _ visited
              (fun c v r v' _ Hc => IH _ _ _ _ _ _ Hc)
              (fun c Hc => proj2 (Hbases c) Hc)
              [] visited ret1 visited1 E0)
    as (H1 & H2 & H3 & H4 & H5 & H6 & H7).
  { simpl. symmetry. apply (right_id_L ∅ (∪)). }
  { constructor. }
  { intros x []. }
  { intros k c d Hk. rewrite lookup_nil in Hk. discriminate. }
  { intros x []. }
  destruct isRecipe; simpl in H.
  - rewrite andb_false_r in H. inversion H; subst ret visited'; clear H.
    constructor; try assumption.
    + intros d Hd. apply H7. now apply Hbases.
    + discriminate.
  - rewrite andb_true_r in H. case_bool_decide as Hin; simpl in H;
      inversion H; subst ret visited'; clear H.
    + constructor; try assumption.
      * intros d Hd. apply H7. now apply Hbases.
      * intros _. exact Hin.
      * intros x Hx. now apply tc_rtc, H5.
    + constructor.
      * rewrite names_app, list_to_set_app_L, H1. simpl.
        apply leibniz_equiv, set_equiv. intros x.
        rewrite !elem_of_union, elem_of_empty. tauto.
      * rewrite names_app. apply NoDup_app. split; [assumption|]. split.
        -- intros n Hn Hn'. apply list_elem_of_singleton in Hn'. subst n.
           apply Hin. rewrite H1. apply elem_of_union_r, elem_of_list_to_set. exact Hn.
        -- apply NoDup_singleton.
      * intros x Hx. apply in_app_iff in Hx as [Hx|[<-|[]]]; [now apply H3|].
        intros Hv. apply Hin. now apply H6.
      * intros k c d Hk Hd. destruct (decide (k < length ret1)) as [Hlt|Hge].
        -- rewrite lookup_app_l in Hk by assumption. rewrite take_app_le by lia.
           exact (H4 k c d Hk Hd).
        -- rewrite lookup_app_r in Hk by lia.
           destruct (k - length ret1) as [|j] eqn:Hj; simpl in Hk; [|discriminate].
           inversion Hk; subst c. assert (k = length ret1) as -> by lia.
           rewrite take_app_length.
           assert (Hd' : RawRecipe.packageName d ∈ visited1)
             by (apply H7; now apply Hbases).
           rewrite H1 in Hd'. apply elem_of_union in Hd' as [Hd'|Hd']; [now left|].
           right. apply list_elem_of_In. now apply elem_of_list_to_set in Hd'.
      * intros d Hd. apply elem_of_union_r, H7. now apply Hbases.
      * intros _. apply elem_of_union_l, elem_of_singleton. reflexivity.
      * intros x Hx. apply in_app_iff in Hx as [Hx|[<-|[]]];
          [now apply tc_rtc, H5 | apply rtc_refl].
Qed.
End Order.

(** X11. The class order of a recipe: the list that [__resolveClassesOrder]
    returns for a recipe holds every class once, holds the classes that the
    recipe inherits from directly and those that a class of the list
    inherits from, each of them before the class that inherits from it, and
    holds no class that the recipe does not inherit from; the names that
    were visited are those of the list. *)
Theorem classes_once_and_bases_first (classes : gmap string RawRecipe.t)
    (fuel : nat) (self : RawRecipe.t) (inherit : list RawRecipe.t)
    (visited : gset string) :
  RawRecipe.resolveClassesOrder fuel classes self [] ∅ true = Ok (inherit, visited) ->
  NoDup (map RawRecipe.packageName inherit)
  /\ visited = list_to_set (map RawRecipe.packageName inherit)
  /\ (forall d, Classes.inheritsFrom classes self d ->
        In (RawRecipe.packageName d) (map RawRecipe.packageName inherit))
  /\ (forall k c d, inherit !! k = Some c -> Classes.inheritsFrom classes c d ->
        In (RawRecipe.packageName d) (map RawRecipe.packageName (take k inherit)))
  /\ (forall c, In c inherit -> tc (Classes.inheritsFrom classes) self c).
Proof.
  intros H. destruct (order_ordered classes _ _ _ _ _ _ _ H) as [Hv Hnd _ Hfi Hb _ Hfrom].
  assert (Hv' : visited = list_to_set (map RawRecipe.packageName inherit)).
  { rewrite Hv. apply (left_id_L ∅ (∪)). }
  repeat split; try assumption.
  - intros d Hd. apply Hb in Hd. rewrite Hv' in Hd.
    apply list_elem_of_In. now apply elem_of_list_to_set in Hd.
  - intros k c d Hk Hd. destruct (Hfi k c d Hk Hd) as [Hin|Hin]; [|exact Hin].
    now apply elem_of_empty in Hin.
Qed.

(** ** Cyclic inheritance *)

Section Cycles.
Variable classes : gmap string RawRecipe.t.
#[local] Abbreviation inheritsFrom := (Classes.inheritsFrom classes).

Lemma tc_first {A : Type} (R : A -> A -> Prop) x z :
  tc R x z -> exists y, R x y /\ (y = z \/ tc R y z).
Proof. intros H. destruct H as [x y H|x y z H1 H2]; eauto. Qed.

(** Every class of the loop of a call that returned was gone into, and the
    call on it returned. *)
Lemma order_loop_called
    (rec : RawRecipe.t -> gset string -> result (list RawRecipe.t * gset string))
    (l : list RawRecipe.t) : forall acc res,
  foldR (fun (acc : list RawRecipe.t * gset string) c =>
           '(r, v) ← rec c acc.2; Ok (acc.1 ++ r, v)) l acc = Ok res ->
  forall c, In c l -> exists v r, rec c v = Ok r.
Proof.
  induction l as [|x l IH]; simpl; intros acc res H c Hc; [contradiction|].
  rinv H. rinv E. destruct Hc as [<-|Hc]; [eauto|]. eapply IH; eassumption.
Qed.

(** A call that returns has met no class twice on its way down. *)
Lemma order_acyclic fuel : forall cls stack visited isRecipe res,
  RawRecipe.resolveClassesOrder fuel classes cls stack visited isRecipe = Ok res ->
  let clsName := if isRecipe then "<recipe>" else RawRecipe.packageName cls in
  ~ In clsName stack
  /\ forall d, tc inheritsFrom cls d ->
       ~ In (RawRecipe.packageName d) (stack ++ [clsName]) /\ ~ tc inheritsFrom d d.
Proof.
  induction fuel as [|fuel IH]; intros cls stack visited isRecipe res H; [discriminate|].
  simpl in H. cbv zeta.
  destruct (existsb _ stack) eqn:Hex; [discriminate|].
  apply existsb_eqb_false in Hex. split; [exact Hex|].
  rinv H. rename a into cs. rinv H. destruct a as [ret1 visited1]. clear H.
  pose proof (subInherit_bases classes cls cs E) as Hbases.
  assert (Hsub : forall c, inheritsFrom cls c ->
            ~ In (RawRecipe.packageName c)
                (stack ++ [if isRecipe then "<recipe>" else RawRecipe.packageName cls])
            /\ forall d, tc inheritsFrom c d ->
                 ~ In (RawRecipe.packageName d)
                     ((stack ++ [if isRecipe then "<recipe>"
                                 else RawRecipe.packageName cls])
                      ++ [RawRecipe.packageName c])
                 /\ ~ tc inheritsFrom d d).
  { intros c Hc. apply Hbases in Hc.
    destruct (order_loop_called
                (fun c v => RawRecipe.resolveClassesOrder fuel classes c
                              (stack ++ [if isRecipe then "<recipe>"
                                         else RawRecipe.packageName cls]) v false)
                _ _ _ E0 c Hc) as (v & r & Hr).
    exact (IH _ _ _ _ _ Hr). }
  intros d Hd. apply tc_first in Hd as (c & Hc & [<-|Hcd]).
  - destruct (Hsub c Hc) as [Hn Hall]. split; [exact Hn|].
    intros Hcyc. destruct (Hall c Hcyc) as [Hno _]. apply Hno.
    apply in_app_iff. right. now left.
  - destruct (Hsub c Hc) as [_ Hall]. destruct (Hall d Hcd) as [Hno Hacyc].
    split; [|exact Hacyc]. intros Hin. apply Hno. apply in_app_iff. now left.
Qed.

Lemma mapR_getClass_error l e :
  mapR (RawRecipe.getClass classes) l = Err e -> exists msg, e = ParseError msg.
Proof.
  induction l as [|n r IH]; simpl; intros H; [discriminate|].
  destruct (RawRecipe.getClass classes n) as [c|e'|] eqn:G; simpl in H.
  - destruct (mapR _ r) eqn:E; simpl in H; try discriminate.
    inversion H; subst. apply IH. reflexivity.
  - inversion H; subst. unfold RawRecipe.getClass in G.
    destruct (classes !! n); inversion G. eauto.
  - discriminate.
Qed.

(** What [__resolveClassesOrder] raises is a [ParseError]. *)
Lemma order_error fuel : forall cls stack visited isRecipe e,
  RawRecipe.resolveClassesOrder fuel classes cls stack visited isRecipe = Err e ->
  exists msg, e = ParseError msg.
Proof.
  induction fuel as [|fuel IH]; intros cls stack visited isRecipe e H; [discriminate|].
  simpl in H. destruct (existsb _ stack); [inversion H; eauto|].
  destruct (mapR _ (RawRecipe.inherit cls)) as [cs|e'|] eqn:E; simpl in H;
    [|inversion H; subst; eapply mapR_getClass_error; eassumption | discriminate].
  match type of H with
  | mbind _ (foldR ?f _ _) = _ =>
      assert (Hloop : forall cl b e, foldR f cl b = Err e -> exists msg, e = ParseError msg)
  end.
  { clear -IH. induction cl as [|c cl IHl]; simpl; intros b e H; [discriminate|].
    destruct (RawRecipe.resolveClassesOrder fuel classes c _ b.2 false)
      as [[r v]|e'|] eqn:Ec; simpl in H; [|inversion H; subst; eauto | discriminate].
    eapply IHl; eassumption. }
  match type of H with
  | mbind _ ?m = _ => destruct m as [[ret1 v1]|e'|] eqn:El; simpl in H
  end.
  - destruct (_ && _); discriminate.
  - inversion H; subst. eapply Hloop; eassumption.
  - discriminate.
Qed.

Lemma names_grow (names : gset string) (stack : list string) (n : string) :
  n ∈ names -> ~ In n stack ->
  size (names ∖ list_to_set (stack ++ [n])) < size (names ∖ list_to_set stack).
Proof.
  intros Hn Hs. apply subset_size. split.
  - intros x. rewrite !elem_of_difference, !elem_of_list_to_set, elem_of_app.
    intros [? Hx]. split; [assumption|]. intros ?. apply Hx. now left.
  - intros Hsub. assert (Hin : n ∈ names ∖ list_to_set (C := gset string) stack).
    { apply elem_of_difference. split; [assumption|].
      rewrite elem_of_list_to_set. intros Hx. apply Hs. now apply list_elem_of_In. }
    apply Hsub in Hin. apply elem_of_difference in Hin as [_ Hin]. apply Hin.
    rewrite elem_of_list_to_set, elem_of_app. right. apply list_elem_of_In. now left.
Qed.

Lemma names_keep (names : gset string) (stack : list string) (n : string) :
  size (names ∖ list_to_set (stack ++ [n])) <= size (names ∖ list_to_set stack).
Proof.
  apply subseteq_size. intros x.
  rewrite !elem_of_difference, !elem_of_list_to_set, elem_of_app.
  intros [? Hx]. split; [assumption|]. intros ?. apply Hx. now left.
Qed.

(** With more fuel than there are classes off the stack a call returns or
    raises. *)
Lemma order_returns fuel : forall cls stack visited isRecipe,
  Classes.filed classes ->
  (if isRecipe : bool then RawRecipe.anonBaseClass cls = None
   else exists n, classes !! n = Some cls) ->
  size (dom classes ∖ list_to_set (C := gset string) stack)
  + (if isRecipe then 1 else 0) < fuel ->
  RawRecipe.resolveClassesOrder fuel classes cls stack visited isRecipe <> OutOfFuel.
Proof.
  induction fuel as [|fuel IH]; intros cls stack visited isRecipe Hfiled Hcls Hsize; [lia|].
  simpl. destruct (existsb _ stack) eqn:Hex; [discriminate|].
  apply existsb_eqb_false in Hex.
  apply nf_bind.
  { apply nf_mapR. intros n. unfold RawRecipe.getClass. destruct (classes !! n); discriminate. }
  intros cs Hcs. apply mapR_getClass in Hcs.
  assert (Hanon : RawRecipe.anonBaseClass cls = None).
  { destruct isRecipe; [assumption|]. destruct Hcls as (n & Hn). now apply Hfiled in Hn. }
  rewrite Hanon.
  apply nf_bind.
  - apply (foldR_fuel (fun _ => True)); [|auto|exact I].
    intros b c Hc _. apply nf_bind; [|intros [r v] _; discriminate].
    assert (Hc' : exists n, classes !! n = Some c).
    { clear -Hcs Hc. induction Hcs as [|n x l cs Hn _ IHl]; [contradiction|].
      destruct Hc as [<-|Hc]; eauto. }
    apply IH; [assumption | exact Hc' |].
    destruct isRecipe.
    + pose proof (names_keep (dom classes) stack "<recipe>"). lia.
    + destruct Hcls as (n & Hn). pose proof (Hfiled _ _ Hn) as [Hname _].
      assert (Hd : RawRecipe.packageName cls ∈ dom classes).
      { apply elem_of_dom. exists cls. now rewrite Hname. }
      pose proof (names_grow _ stack _ Hd Hex). lia.
  - intros [ret1 v1] _. destruct (_ && _); discriminate.
Qed.
End Cycles.

(** X12. Cyclic inheritance: with the classes filed under their names, a
    recipe that inherits, directly or through other classes, from a class
    that inherits from itself has no class order;
    [__resolveClassesOrder], and with it [resolveClasses], raises
    [ParseError] for it when the fuel exceeds the number of classes by two,
    and never returns, whatever the fuel. *)
Theorem cyclic_inheritance_raises (fnmatchcase : string -> string -> bool)
    (classes : gmap string RawRecipe.t) (self : RawRecipe.t) (fuel : nat) :
  Classes.filed classes ->
  RawRecipe.anonBaseClass self = None ->
  (exists c, tc (Classes.inheritsFrom classes) self c
             /\ tc (Classes.inheritsFrom classes) c c) ->
  (forall res, RawRecipe.resolveClassesOrder fuel classes self [] ∅ true <> Ok res)
  /\ (size (dom classes) + 1 < fuel ->
      exists msg,
        RawRecipe.resolveClassesOrder fuel classes self [] ∅ true = Err (ParseError msg)
        /\ RawRecipe.resolveClasses fnmatchcase fuel classes self = Err (ParseError msg)).
Proof.
  intros Hfiled Hanon (c & Hc & Hcyc).
  assert (Hno : forall res,
            RawRecipe.resolveClassesOrder fuel classes self [] ∅ true <> Ok res).
  { intros res H. destruct (order_acyclic classes _ _ _ _ _ _ H) as [_ Hall].
    destruct (Hall c Hc) as [_ Hacyc]. now apply Hacyc. }
  split; [exact Hno|]. intros Hfuel.
  destruct (RawRecipe.resolveClassesOrder fuel classes self [] ∅ true) as [res|e|] eqn:E.
  - now destruct (Hno res).
  - destruct (order_error classes _ _ _ _ _ _ E) as [msg ->]. exists msg.
    split; [reflexivity|]. unfold RawRecipe.resolveClasses. now rewrite E.
  - exfalso. apply (order_returns classes fuel self [] ∅ true Hfiled Hanon); [|exact E].
    simpl. assert (Hle : size (dom classes ∖ (∅ : gset string)) <= size (dom classes)).
    { apply subseteq_size. apply subseteq_difference_l. reflexivity. }
    lia.
Qed.

(** ** What a recipe takes from its classes *)

(** The inheritance loop, from the last class of the order to the first. *)
Lemma inheritAll_fold self vs vp (inherit : list RawRecipe.t) :
  (RawRecipe.inheritAll self vs vp inherit).1.1
  = fold_right (fun c acc => RawRecipe.inheritClass acc c) self inherit.
Proof.
  unfold RawRecipe.inheritAll. revert self vs vp.
  induction inherit as [|c l IH]; intros self vs vp; simpl; [reflexivity|].
  rewrite fold_left_app. simpl. now rewrite IH.
Qed.

Lemma inheritClass_fields self cls :
  RawRecipe.deps (RawRecipe.inheritClass self cls)
  = RawRecipe.deps cls ++ RawRecipe.deps self
  /\ (RawRecipe.checkout (RawRecipe.inheritClass self cls)).1.2
     = (RawRecipe.checkout cls).1.2 ++ (RawRecipe.checkout self).1.2
  /\ (RawRecipe.checkout (RawRecipe.inheritClass self cls)).2
     = (RawRecipe.checkout cls).2 ++ (RawRecipe.checkout self).2
  /\ RawRecipe.provideDeps (RawRecipe.inheritClass self cls)
     = RawRecipe.provideDeps self ∪ RawRecipe.provideDeps cls
  /\ RawRecipe.getRecipeSet (RawRecipe.inheritClass self cls) = RawRecipe.getRecipeSet self
  /\ RawRecipe.packageName (RawRecipe.inheritClass self cls) = RawRecipe.packageName self.
Proof.
  unfold RawRecipe.inheritClass.
  destruct (RawRecipe.checkout self) as [[[c1 c2] c3] c4]. simpl.
  repeat split; reflexivity.
Qed.

Lemma inherited_fields self (inherit : list RawRecipe.t) :
  let merged := fold_right (fun c acc => RawRecipe.inheritClass acc c) self inherit in
  RawRecipe.deps merged = flat_map RawRecipe.deps inherit ++ RawRecipe.deps self
  /\ (RawRecipe.checkout merged).1.2
     = flat_map (fun c => (RawRecipe.checkout c).1.2) inherit ++ (RawRecipe.checkout self).1.2
  /\ (RawRecipe.checkout merged).2
     = flat_map (fun c => (RawRecipe.checkout c).2) inherit ++ (RawRecipe.checkout self).2
  /\ (forall n, n ∈ RawRecipe.provideDeps merged
                <-> n ∈ RawRecipe.provideDeps self
                    \/ exists c, In c inherit /\ n ∈ RawRecipe.provideDeps c).
Proof.
  induction inherit as [|c l IH]; simpl.
  - repeat split; try reflexivity; [now left|]. intros [H|(c & [] & _)]. exact H.
  - destruct IH as (H1 & H2 & H3 & H4).
    destruct (inheritClass_fields
                (fold_right (fun c acc => RawRecipe.inheritClass acc c) self l) c)
      as (E1 & E2 & E3 & E4 & _).
    rewrite E1, E2, E3, E4, H1, H2, H3, <- !app_assoc.
    repeat split; try reflexivity.
    + intros Hn. apply elem_of_union in Hn as [Hn|Hn].
      * apply H4 in Hn as [Hn|(x & Hx & Hn)]; [now left | right; eauto].
      * right; eauto.
    + intros [Hn|(x & [<-|Hx] & Hn)].
      * apply elem_of_union_l, H4. now left.
      * now apply elem_of_union_r.
      * apply elem_of_union_l, H4. right; eauto.
Qed.

Section ProvideDeps.
Variable fnmatchcase : string -> string -> bool.

(** The loop of the check of the provided dependencies. *)
Lemma provideDeps_loop (avail : list string) (patterns : list string) : forall acc,
  match foldR (fun (acc : gset string) pattern =>
                 match List.filter (fun d => fnmatchcase d pattern) avail with
                 | [] => Err (ParseError "Unknown dependency in provideDeps")
                 | l => Ok (acc ∪ list_to_set l)
                 end) patterns acc with
  | Ok s => (forall p, In p patterns -> exists d, In d avail /\ fnmatchcase d p = true)
            /\ forall n, n ∈ s <-> n ∈ acc
                 \/ (In n avail /\ exists p, In p patterns /\ fnmatchcase n p = true)
  | Err e => e = ParseError "Unknown dependency in provideDeps"
             /\ exists p, In p patterns /\ forall d, In d avail -> fnmatchcase d p = false
  | OutOfFuel => False
  end.
Proof.
  induction patterns as [|p r IH]; intros acc; simpl.
  - split; [intros p [] | intros n; split; [now left | intros [H|(_ & p & [] & _)]; exact H]].
  - destruct (List.filter (fun d => fnmatchcase d p) avail) as [|d l] eqn:Hf; simpl.
    + split; [reflexivity|]. exists p. split; [now left|]. intros d Hd.
      destruct (fnmatchcase d p) eqn:Hm; [|reflexivity].
      assert (Hin : In d (List.filter (fun d => fnmatchcase d p) avail))
        by (apply filter_In; auto).
      rewrite Hf in Hin. contradiction.
    + specialize (IH (acc ∪ list_to_set (d :: l))).
      destruct (foldR _ r _) as [s|e|]; [|..].
      * destruct IH as [Hall Hs]. split.
        -- intros q [<-|Hq]; [|now apply Hall].
           assert (Hin : In d (List.filter (fun d => fnmatchcase d p) avail))
             by (rewrite Hf; now left).
           apply filter_In in Hin. eauto.
        -- intros n. rewrite Hs, elem_of_union, elem_of_list_to_set, <- Hf.
           rewrite list_elem_of_In, filter_In. split.
           ++ intros [[H|[H1 H2]]|(H1 & q & Hq & Hm)]; [now left | right | right].
              ** split; [assumption|]. exists p. split; [now left | assumption].
              ** split; [assumption|]. exists q. split; [now right | assumption].
           ++ intros [H|(H1 & q & [<-|Hq] & Hm)]; [left; now left | left; now right|].
              right. split; [assumption|]. eauto.
      * destruct IH as [He (q & Hq & Hno)]. split; [assumption|]. exists q.
        split; [now right | assumption].
      * assumption.
Qed.
End ProvideDeps.

(** X13. What a recipe takes from its classes: its dependencies are those
    of the classes in their order and then its own, and so are its SCMs and
    its checkout assertions. Its provided dependencies are the names of its
    dependencies that match a [provideDeps] pattern of the recipe or of one
    of the classes; [resolveClasses] raises [ParseError] when a pattern
    matches none of them, and returns otherwise. *)
Theorem recipe_after_its_classes (fnmatchcase : string -> string -> bool)
    (fuel : nat) (classes : gmap string RawRecipe.t) (raw : RawRecipe.t)
    (inherit : list RawRecipe.t) (visited : gset string) :
  RawRecipe.resolveClassesOrder fuel classes raw [] ∅ true = Ok (inherit, visited) ->
  let deps := flat_map RawRecipe.deps inherit ++ RawRecipe.deps raw in
  let pattern p := p ∈ RawRecipe.provideDeps raw
                   \/ exists c, In c inherit /\ p ∈ RawRecipe.provideDeps c in
  (forall r, RawRecipe.resolveClasses fnmatchcase fuel classes raw = Ok r ->
     Recipe.deps r = deps
     /\ Recipe.checkoutSCMs r
        = flat_map (fun c => (RawRecipe.checkout c).1.2) inherit
          ++ (RawRecipe.checkout raw).1.2
     /\ Recipe.checkoutAsserts r
        = flat_map (fun c => (RawRecipe.checkout c).2) inherit ++ (RawRecipe.checkout raw).2
     /\ forall n, n ∈ Recipe.provideDeps r
          <-> In n (map Dependency.recipe deps)
              /\ exists p, pattern p /\ fnmatchcase n p = true)
  /\ ((exists r, RawRecipe.resolveClasses fnmatchcase fuel classes raw = Ok r)
      <-> forall p, pattern p ->
            exists d, In d (map Dependency.recipe deps) /\ fnmatchcase d p = true)
  /\ ((exists r, RawRecipe.resolveClasses fnmatchcase fuel classes raw = Ok r)
      \/ RawRecipe.resolveClasses fnmatchcase fuel classes raw
         = Err (ParseError "Unknown dependency in provideDeps")).
Proof.
  intros Ho deps pattern. unfold RawRecipe.resolveClasses. rewrite Ho. simpl.
  pose proof (inheritAll_fold raw
                (if RecipeSet.mergeEnvironment (RawRecipe.getRecipeSet raw)
                 then RawRecipe.Merged (RawRecipe.listIfAny (RawRecipe.varSelf raw))
                 else RawRecipe.Plain (RawRecipe.varSelf raw))
                (if RecipeSet.mergeEnvironment (RawRecipe.getRecipeSet raw)
                 then RawRecipe.Merged (RawRecipe.listIfAny (RawRecipe.varPrivate raw))
                 else RawRecipe.Plain (RawRecipe.varPrivate raw)) inherit) as Hfold.
  destruct (RawRecipe.inheritAll raw _ _ inherit) as [[merged vs] vp]. simpl in Hfold.
  destruct (inherited_fields raw inherit) as (Hd & Hs & Ha & Hp).
  cbv zeta in Hd, Hs, Ha, Hp. rewrite <- Hfold in Hd, Hs, Ha, Hp.
  fold deps in Hd.
  pose proof (provideDeps_loop fnmatchcase (map Dependency.recipe (RawRecipe.deps merged))
                (elements (RawRecipe.provideDeps merged)) ∅) as Hloop.
  unfold RawRecipe.resolveProvideDeps.
  assert (Hpat : forall p, In p (elements (RawRecipe.provideDeps merged)) <-> pattern p).
  { intros p. rewrite <- list_elem_of_In, elem_of_elements. apply Hp. }
  destruct (foldR _ (elements (RawRecipe.provideDeps merged)) ∅) as [s|e|]; simpl.
  - destruct Hloop as [Hall Hs']. rewrite Hd in Hall, Hs'. split; [|split].
    + intros r Hr. inversion Hr; subst r; clear Hr.
      unfold Recipe.checkoutSCMs, Recipe.checkoutAsserts. simpl.
      split; [exact Hd|]. split; [exact Hs|]. split; [exact Ha|].
      intros n. rewrite Hs'. split.
      * intros [Hn|(Hn & p & Hp' & Hm)]; [now apply elem_of_empty in Hn|].
        split; [assumption|]. exists p. split; [now apply Hpat | assumption].
      * intros (Hn & p & Hp' & Hm). right. split; [assumption|].
        exists p. split; [now apply Hpat | assumption].
    + split; [|eauto]. intros _ p Hp'. apply Hall. now apply Hpat.
    + left. eauto.
  - destruct Hloop as [-> (p & Hp' & Hno)]. rewrite Hd in Hno. split; [|split].
    + intros r Hr. discriminate.
    + split; [intros (r & Hr); discriminate|]. intros Hall.
      destruct (Hall p (proj1 (Hpat p) Hp')) as (d & Hd' & Hm).
      rewrite (Hno d Hd') in Hm. discriminate.
    + now right.
  - contradiction.
Qed.

(** ** Loading a project *)

(** A table that is filled by [__addRecipe] or [__addClass]: no key comes
    twice, and the table holds what was added. *)
Lemma add_loop {A V : Type} (key : A -> string) (G : A -> V -> Prop)
    (f : gmap string V -> A -> result (gmap string V)) (l : list A) :
  (forall m x m', f m x = Ok m' ->
     exists v, G x v /\ m !! key x = None /\ m' = <[ key x := v ]> m) ->
  forall m0 table,
  foldR f l m0 = Ok table ->
  NoDup (map key l)
  /\ (forall x, In x l -> m0 !! key x = None)
  /\ forall k v, table !! k = Some v
       <-> m0 !! k = Some v \/ exists x, In x l /\ key x = k /\ G x v /\ table !! k = Some v.
Proof.
  intros Hf. induction l as [|x l IH]; simpl; intros m0 table H.
  - inversion H; subst. split; [constructor|]. split; [intros x []|].
    intros k v. split; [now left | intros [H1|(x & [] & _)]; exact H1].
  - rinv H. destruct (Hf _ _ _ E) as (v & Hg & Hnone & ->).
    destruct (IH _ _ H) as (Hnd & Hfresh & Htab).
    assert (Hx : table !! key x = Some v).
    { apply Htab. left. apply lookup_insert_eq. }
    split; [|split].
    + apply NoDup_cons. split; [|assumption]. intros Hin.
      apply list_elem_of_In, in_map_iff in Hin as (y & Hy & Hin).
      specialize (Hfresh y Hin). rewrite Hy, lookup_insert_eq in Hfresh. discriminate.
    + intros y [<-|Hy]; [assumption|]. specialize (Hfresh y Hy).
      destruct (decide (key y = key x)) as [Heq|Hne].
      * rewrite Heq, lookup_insert_eq in Hfresh. discriminate.
      * now rewrite lookup_insert_ne in Hfresh by congruence.
    + intros k w. split.
      * intros Hk. pose proof Hk as Hk'. apply Htab in Hk as [Hk|(y & Hy & Hky & Hgy & _)].
        -- destruct (decide (k = key x)) as [->|Hne].
           ++ rewrite lookup_insert_eq in Hk. inversion Hk; subst. right. exists x. auto.
           ++ rewrite lookup_insert_ne in Hk by congruence. now left.
        -- right. exists y. auto.
      * intros [Hk|(y & _ & _ & _ & Hk)]; [|exact Hk]. apply Htab. left.
        rewrite lookup_insert_ne; [assumption|]. intros <-. congruence.
Qed.

Lemma add_Ok {A : Type} what (m : gmap string A) name x m' :
  Project.add what m name x = Ok m' -> m !! name = None /\ m' = <[ name := x ]> m.
Proof.
  unfold Project.add. destruct (m !! name); [discriminate|]. intros H. now inversion H.
Qed.

Lemma init_name recipeSet doc name base isRecipe anon c :
  RawRecipe.init recipeSet doc name base isRecipe anon = Ok c ->
  RawRecipe.packageName c = name /\ RawRecipe.anonBaseClass c = anon
  /\ RawRecipe.inherit c = RawRecipe.dInherit doc
  /\ Dependency.parse (RawRecipe.dDepends doc) = Ok (RawRecipe.deps c).
Proof.
  unfold RawRecipe.init. intros H. rinv H.
  destruct (RawRecipe.resolveScript _ _) as [cs cd]. inversion H; subst. simpl. auto.
Qed.

Lemma resolveClasses_name fnmatchcase fuel classes raw r :
  RawRecipe.resolveClasses fnmatchcase fuel classes raw = Ok r ->
  Recipe.packageName r = RawRecipe.packageName raw.
Proof.
  unfold RawRecipe.resolveClasses. intros H. rinv H. destruct a as [inherit visited].
  pose proof (inheritAll_fold raw
                (if RecipeSet.mergeEnvironment (RawRecipe.getRecipeSet raw)
                 then RawRecipe.Merged (RawRecipe.listIfAny (RawRecipe.varSelf raw))
                 else RawRecipe.Plain (RawRecipe.varSelf raw))
                (if RecipeSet.mergeEnvironment (RawRecipe.getRecipeSet raw)
                 then RawRecipe.Merged (RawRecipe.listIfAny (RawRecipe.varPrivate raw))
                 else RawRecipe.Plain (RawRecipe.varPrivate raw)) inherit) as Hfold.
  destruct (RawRecipe.inheritAll raw _ _ inherit) as [[merged vs] vp]. simpl in Hfold.
  rinv H. inversion H; subst r; clear H. simpl. rewrite Hfold. clear.
  induction inherit as [|c l IH]; simpl; [reflexivity|].
  now destruct (inheritClass_fields
                  (fold_right (fun c acc => RawRecipe.inheritClass acc c) raw l) c)
    as (_ & _ & _ & _ & _ & ->).
Qed.

Lemma mapR_Forall2 {A B : Type} (f : A -> result B) l : forall ys,
  mapR f l = Ok ys -> Forall2 (fun x y => f x = Ok y) l ys.
Proof.
  induction l as [|x r IH]; simpl; intros ys H.
  - inversion H. constructor.
  - rinv H. rinv H. inversion H; subst. constructor; auto.
Qed.

Lemma load_loaded fnmatchcase fuel recipeSet classDocs recipeDocs p :
  Project.load fnmatchcase fuel recipeSet classDocs recipeDocs = Ok p ->
  exists classes raws resolved vr,
    loaded fnmatchcase fuel recipeSet classDocs recipeDocs p classes raws resolved vr.
Proof.
  unfold Project.load. intros H.
  rinv H. rename a into classes. rinv H. rename a into raws.
  rinv H. rename a into resolved. rinv H. rename a into vr.
  rinv H. rename a into rootRecipe. rinv H. rename a into table.
  inversion H; subst; clear H. exists classes, raws.2, resolved, vr.
  (* the classes *)
  destruct (add_loop (fun nd : string * RawRecipe.Doc => nd.1)
              (fun nd c => RawRecipe.init recipeSet nd.2 nd.1 nd.1 false None = Ok c)
              (fun (m : gmap string RawRecipe.t) nd =>
                 c ← RawRecipe.init recipeSet nd.2 nd.1 nd.1 false None;
                 Project.add "Class" m nd.1 c)
              classDocs) with (m0 := (∅ : gmap string RawRecipe.t)) (table := classes)
    as (Hcn & _ & Hct); [|exact E|].
  { intros m x m' Hx. rinv Hx. apply add_Ok in Hx as [? ?]. eauto. }
  (* the recipes *)
  assert (Hraws : NoDup (map fst recipeDocs)
                  /\ Forall2 (fun nd raw => RawRecipe.init recipeSet nd.2 nd.1 nd.1 true None
                                            = Ok raw) recipeDocs raws.2).
  { clear -E0. rename E0 into Hfold.
    assert (Hgen : forall docs (acc : gmap string RawRecipe.t * list RawRecipe.t) res,
              foldR (fun (acc : gmap string RawRecipe.t * list RawRecipe.t) nd =>
                       r ← RawRecipe.init recipeSet nd.2 nd.1 nd.1 true None;
                       m ← Project.add "Package" acc.1 nd.1 r;
                       Ok (m, acc.2 ++ [r])) docs acc = Ok res ->
              NoDup (map fst docs)
              /\ (forall nd, In nd docs -> acc.1 !! nd.1 = None)
              /\ (forall k, is_Some (acc.1 !! k) -> is_Some (res.1 !! k))
              /\ exists new, res.2 = acc.2 ++ new
                   /\ Forall2 (fun nd raw => RawRecipe.init recipeSet nd.2 nd.1 nd.1 true None
                                             = Ok raw) docs new).
    { induction docs as [|nd docs IH]; simpl; intros acc res H.
      - inversion H; subst. split; [constructor|]. split; [intros nd []|].
        split; [auto|]. exists []. split; [now rewrite app_nil_r | constructor].
      - rinv H. rinv E. rinv E. inversion E; subst a; clear E.
        apply add_Ok in E1 as [Hnone ->].
        destruct (IH _ _ H) as (Hnd & Hfresh & Hmono & new & Hnew & Hall). simpl in *.
        split; [|split; [|split]].
        + apply NoDup_cons. split; [|assumption]. intros Hin.
          apply list_elem_of_In, in_map_iff in Hin as (y & Hy & Hin).
          specialize (Hfresh y Hin). rewrite Hy, lookup_insert_eq in Hfresh. discriminate.
        + intros y [<-|Hy]; [assumption|]. specialize (Hfresh y Hy).
          destruct (decide (y.1 = nd.1)) as [Heq|Hne].
          * rewrite Heq, lookup_insert_eq in Hfresh. discriminate.
          * now rewrite lookup_insert_ne in Hfresh by congruence.
        + intros k Hk. apply Hmono. destruct (decide (k = nd.1)) as [->|Hne].
          * rewrite lookup_insert_eq. eauto.
          * now rewrite lookup_insert_ne by congruence.
        + exists (a0 :: new). split; [now rewrite Hnew, <- app_assoc|].
          constructor; assumption. }
    destruct (Hgen _ _ _ Hfold) as (Hnd & _ & _ & new & Hnew & Hall).
    simpl in Hnew. subst new. auto. }
  destruct Hraws as [Hrn Hrf].
  (* the table *)
  destruct (add_loop Recipe.getPackageName (fun r v => v = r)
              (fun (m : gmap string Recipe.t) r =>
                 Project.add "Package" m (Recipe.getPackageName r) r)
              (resolved ++ [rootRecipe]))
    with (m0 := (∅ : gmap string Recipe.t)) (table := table) as (Htn & _ & Htt);
    [|exact E4|].
  { intros m x m' Hx. apply add_Ok in Hx as [? ?]. eauto. }
  constructor; simpl; try assumption.
  - intros n c. rewrite Hct, lookup_empty. split.
    + intros [Hn|([n' doc] & Hin & Hk & Hi & _)]; [discriminate|]. simpl in *. subst n'.
      eauto.
    + intros (doc & Hin & Hi). right. exists (n, doc). simpl.
      repeat split; try assumption. apply Hct. right. exists (n, doc). simpl.
      repeat split; try assumption.
      (* the table holds the class *)
      clear -E Hin Hi. rename E into Hfold.
      assert (Hgen : forall docs (m : gmap string RawRecipe.t) res,
                foldR (fun (m : gmap string RawRecipe.t) nd =>
                         c ← RawRecipe.init recipeSet nd.2 nd.1 nd.1 false None;
                         Project.add "Class" m nd.1 c) docs m = Ok res ->
                (forall k v, m !! k = Some v -> res !! k = Some v)
                /\ (In (n, doc) docs -> res !! n = Some c)).
      { induction docs as [|nd docs IH]; simpl; intros m res H.
        - inversion H; subst. split; [auto | intros []].
        - rinv H. rinv E. apply add_Ok in E as [Hnone ->].
          destruct (IH _ _ H) as [Hkeep Hhere]. split.
          + intros k v Hk. apply Hkeep. rewrite lookup_insert_ne; [assumption|].
            intros <-. congruence.
          + intros [->|Hd]; [|now apply Hhere]. simpl in *. apply Hkeep.
            rewrite Hi in E0. inversion E0; subst. apply lookup_insert_eq. }
      now apply (Hgen _ _ _ Hfold).
  - now apply mapR_Forall2.
  - intros k r. rewrite Htt, lookup_empty. split.
    + intros [Hn|(x & Hin & Hk & -> & _)]; [discriminate|]. auto.
    + intros [Hin Hk]. right. exists r. repeat split; try assumption.
      clear -E4 Hin Hk.
      assert (Hgen : forall rs (m : gmap string Recipe.t) res,
                foldR (fun (m : gmap string Recipe.t) r =>
                         Project.add "Package" m (Recipe.getPackageName r) r) rs m = Ok res ->
                (forall k v, m !! k = Some v -> res !! k = Some v)
                /\ (In r rs -> res !! Recipe.getPackageName r = Some r)).
      { induction rs as [|x rs IH]; simpl; intros m res H.
        - inversion H; subst. split; [auto | intros []].
        - rinv H. apply add_Ok in E as [Hnone ->].
          destruct (IH _ _ H) as [Hkeep Hhere]. split.
          + intros k' v Hk'. apply Hkeep. rewrite lookup_insert_ne; [assumption|].
            intros <-. congruence.
          + intros [->|Hd]; [|now apply Hhere]. apply Hkeep, lookup_insert_eq. }
      rewrite <- Hk. now apply (Hgen _ _ _ E4).
Qed.

(** The recipe of a document, in a loaded project. *)
Lemma loaded_recipe fnmatchcase fuel recipeSet classDocs recipeDocs p classes raws
    resolved vr :
  loaded fnmatchcase fuel recipeSet classDocs recipeDocs p classes raws resolved vr ->
  Forall2 (fun (nd : string * RawRecipe.Doc) r =>
             Recipe.getPackageName r = nd.1 /\ Project.recipes p !! nd.1 = Some r
             /\ exists raw, RawRecipe.init recipeSet nd.2 nd.1 nd.1 true None = Ok raw
                            /\ RawRecipe.resolveClasses fnmatchcase fuel classes raw = Ok r)
    recipeDocs resolved.
Proof.
  intros [_ _ _ Hraws Hres _ _ _ Htab].
  assert (Hin : forall r, In r resolved -> In r (resolved ++ [Project.rootRecipe p])).
  { intros r Hr. apply in_app_iff. now left. }
  remember (resolved ++ [Project.rootRecipe p]) as all eqn:Hall. clear Hall.
  revert resolved Hres Hin. induction Hraws as [|nd raw docs raws Hi _ IH];
    intros resolved Hres Hin; inversion Hres as [|? r ? rs Hr Hrs]; subst; constructor.
  - assert (Hn : Recipe.getPackageName r = nd.1).
    { unfold Recipe.getPackageName. rewrite (resolveClasses_name _ _ _ _ _ Hr).
      now apply init_name in Hi as (? & _). }
    split; [exact Hn|]. split; [|eauto]. apply Htab. split; [|exact Hn].
    apply Hin. now left.
  - apply IH; [assumption|]. intros x Hx. apply Hin. now right.
Qed.

Lemma order_nothing fuel classes vr :
  RawRecipe.inherit vr = [] -> RawRecipe.anonBaseClass vr = None ->
  RawRecipe.resolveClassesOrder (S fuel) classes vr [] ∅ true = Ok ([], ∅).
Proof. intros Hi Ha. simpl. rewrite Hi, Ha. reflexivity. Qed.

Lemma parse_roots (roots : list string) :
  Forall (fun n => n <> "") roots ->
  Dependency.parse
    (map (fun name => Dependency.Dict (Some name) None None None (Some ["result"]) None)
       roots)
  = Ok (map (fun name => Dependency.mk name [] false ["result"] None) roots).
Proof.
  unfold Dependency.parse. induction 1 as [|n r Hn _ IH]; simpl; [reflexivity|].
  destruct n as [|c n]; [congruence|]. simpl. rewrite IH. reflexivity.
Qed.

Lemma parse_roots_named (roots : list string) deps :
  Dependency.parse
    (map (fun name => Dependency.Dict (Some name) None None None (Some ["result"]) None)
       roots) = Ok deps ->
  Forall (fun n => n <> "") roots.
Proof.
  unfold Dependency.parse. revert deps. induction roots as [|n r IH]; simpl; intros deps H;
    [constructor|].
  rinv H. rinv H. constructor; [|eapply IH; eassumption].
  intros ->. discriminate.
Qed.


(** ** The variables and tools of the three steps *)

Lemma ascending_union c1 b1 p1 c2 b2 p2 :
  ascending c1 b1 p1 -> ascending c2 b2 p2 -> ascending (c1 ∪ c2) (b1 ∪ b2) (p1 ∪ p2).
Proof. intros [H1 H2] [H3 H4]. split; apply union_mono; assumption. Qed.

Lemma init_ascending recipeSet doc name base isRecipe anon c :
  RawRecipe.init recipeSet doc name base isRecipe anon = Ok c -> rawAscending c.
Proof.
  unfold RawRecipe.init. intros H. rinv H.
  destruct (RawRecipe.resolveScript _ _) as [cs cd]. inversion H; subst.
  unfold rawAscending, ascending. simpl.
  repeat match goal with |- _ /\ _ => split end; apply union_subseteq_r.
Qed.

Lemma inheritClass_ascending self cls :
  rawAscending self -> rawAscending cls -> rawAscending (RawRecipe.inheritClass self cls).
Proof.
  intros (H1 & H2 & H3) (H4 & H5 & H6). unfold RawRecipe.inheritClass.
  destruct (RawRecipe.checkout self) as [[[c1 c2] c3] c4]. unfold rawAscending. simpl.
  repeat match goal with |- _ /\ _ => split end; now apply ascending_union.
Qed.

(** The classes of the order are classes of the table. *)
Lemma order_members classes fuel self inherit visited :
  Classes.filed classes -> RawRecipe.anonBaseClass self = None ->
  RawRecipe.resolveClassesOrder fuel classes self [] ∅ true = Ok (inherit, visited) ->
  forall c, In c inherit -> exists n, classes !! n = Some c.
Proof.
  intros Hfiled Hanon H c Hc.
  apply (Classes.ord_from _ _ _ _ _ _ (order_ordered classes _ _ _ _ _ _ _ H)) in Hc.
  simpl in Hc. clear H. revert Hanon.
  induction Hc as [x y Hxy|x y z Hxy _ IH]; intros Hanon.
  - destruct Hxy as [Ha|(n & _ & Hn)]; [congruence | eauto].
  - apply IH. destruct Hxy as [Ha|(n & _ & Hn)]; [congruence|].
    now apply Hfiled in Hn.
Qed.

Lemma resolveClasses_ascending fnmatchcase fuel classes raw r :
  Classes.filed classes -> RawRecipe.anonBaseClass raw = None ->
  (forall n c, classes !! n = Some c -> rawAscending c) -> rawAscending raw ->
  RawRecipe.resolveClasses fnmatchcase fuel classes raw = Ok r ->
  ascending (Recipe.checkoutVars r) (Recipe.buildVars r) (Recipe.packageVars r)
  /\ ascending (Recipe.checkoutVarsWeak r) (Recipe.buildVarsWeak r) (Recipe.packageVarsWeak r)
  /\ ascending (Recipe.toolDepCheckout r) (Recipe.toolDepBuild r) (Recipe.toolDepPackage r).
Proof.
  intros Hfiled Hanon Hcls Hraw H. unfold RawRecipe.resolveClasses in H.
  rinv H. destruct a as [inherit visited].
  pose proof (order_members _ _ _ _ _ Hfiled Hanon E) as Hmem.
  pose proof (inheritAll_fold raw
                (if RecipeSet.mergeEnvironment (RawRecipe.getRecipeSet raw)
                 then RawRecipe.Merged (RawRecipe.listIfAny (RawRecipe.varSelf raw))
                 else RawRecipe.Plain (RawRecipe.varSelf raw))
                (if RecipeSet.mergeEnvironment (RawRecipe.getRecipeSet raw)
                 then RawRecipe.Merged (RawRecipe.listIfAny (RawRecipe.varPrivate raw))
                 else RawRecipe.Plain (RawRecipe.varPrivate raw)) inherit) as Hfold.
  destruct (RawRecipe.inheritAll raw _ _ inherit) as [[merged vs] vp]. simpl in Hfold.
  rinv H. inversion H; subst r; clear H. simpl.
  assert (Hm : rawAscending merged).
  { rewrite Hfold. clear -Hmem Hcls Hraw. induction inherit as [|c l IH]; simpl;
      [assumption|].
    apply inheritClass_ascending.
    - apply IH. intros x Hx. apply Hmem. now right.
    - destruct (Hmem c (or_introl eq_refl)) as [n Hn]. eapply Hcls, Hn. }
  exact Hm.
Qed.

(** X15. In every recipe of a loaded project, the variables of the checkout
    step are among those of the build step and these among those of the
    package step; the same holds of the weak variables and of the tools. *)
Theorem checkout_within_build_within_package
    (fnmatchcase : string -> string -> bool) (fuel : nat)
    (recipeSet : RecipeSet.t) (classDocs recipeDocs : list (string * RawRecipe.Doc))
    (p : Project.t) (k : string) (r : Recipe.t) :
  Project.load fnmatchcase fuel recipeSet classDocs recipeDocs = Ok p ->
  Project.recipes p !! k = Some r ->
  (Recipe.checkoutVars r ⊆ Recipe.buildVars r
   /\ Recipe.buildVars r ⊆ Recipe.packageVars r)
  /\ (Recipe.checkoutVarsWeak r ⊆ Recipe.buildVarsWeak r
      /\ Recipe.buildVarsWeak r ⊆ Recipe.packageVarsWeak r)
  /\ (Recipe.toolDepCheckout r ⊆ Recipe.toolDepBuild r
      /\ Recipe.toolDepBuild r ⊆ Recipe.toolDepPackage r).
Proof.
  intros Hload Hr.
  destruct (load_loaded _ _ _ _ _ _ Hload) as (classes & raws & resolved & vr & Hl).
  pose proof (loaded_recipe _ _ _ _ _ _ _ _ _ _ Hl) as Hrec.
  destruct Hl as [_ Hcls _ _ _ Hvr Hroot _ Htab].
  assert (Hfiled : Classes.filed classes).
  { intros n c Hc. apply Hcls in Hc as (doc & _ & Hi).
    now apply init_name in Hi as (? & ? & _). }
  assert (Hnested : forall n c, classes !! n = Some c -> rawAscending c).
  { intros n c Hc. apply Hcls in Hc as (doc & _ & Hi). now apply init_ascending in Hi. }
  apply Htab in Hr as [Hin _]. apply in_app_iff in Hin as [Hin|[<-|[]]].
  - assert (Hraw : exists raw doc name,
              RawRecipe.init recipeSet doc name name true None = Ok raw
              /\ RawRecipe.resolveClasses fnmatchcase fuel classes raw = Ok r).
    { clear -Hrec Hin. induction Hrec as [|nd x docs rs (_ & _ & raw & Hi & Hx) _ IH];
        [contradiction|].
      destruct Hin as [->|Hin]; [eauto | now apply IH]. }
    destruct Hraw as (raw & doc & name & Hi & Hx).
    apply (resolveClasses_ascending _ _ _ _ _ Hfiled) in Hx; try assumption.
    + now apply init_name in Hi as (_ & ? & _).
    + now apply init_ascending in Hi.
  - apply (resolveClasses_ascending _ _ _ _ _ Hfiled) in Hroot; try assumption.
    + now apply init_name in Hvr as (_ & ? & _).
    + now apply init_ascending in Hvr.
Qed.

(** ** The environments of the tools *)

Lemma get_update_other {V : Type} (k : string) (other : list (string * V)) : forall d,
  ~ In k (Dict.keys other) -> Dict.get k (Dict.update d other) = Dict.get k d.
Proof.
  unfold Dict.update. induction other as [|[k0 v0] r IH]; simpl; intros d Hk; [reflexivity|].
  rewrite IH by tauto. rewrite get_set.
  destruct (String.eqb_spec k k0) as [->|_]; [|reflexivity]. exfalso. apply Hk. now left.
Qed.

Lemma keys_update {V : Type} (other : list (string * V)) : forall d k,
  In k (Dict.keys (Dict.update d other)) <-> In k (Dict.keys d) \/ In k (Dict.keys other).
Proof.
  unfold Dict.update. induction other as [|[k0 v0] r IH]; simpl; intros d k; [tauto|].
  rewrite IH, keys_set. simpl. intuition.
Qed.

(** A round of the loop over the tools; the empty environment of a tool
    is disjoint from everything and changes nothing. *)
Lemma toolEnvs_step (toolsView : list (string * Tool)) (acc : gset string * dict)
    (i : string) :
  match Dict.get i toolsView with
  | None => Ok acc
  | Some tool =>
      match CoreTool.environment tool with
      | [] => Ok acc
      | e =>
          let tmp : gset string := list_to_set (Dict.keys e) in
          if bool_decide (tmp ## acc.1)
          then Ok (acc.1 ∪ tmp, Dict.update acc.2 e)
          else Err (ParseError "Multiple tools defined the same environment variable(s)")
      end
  end
  = match CoreTool.environment <$> Dict.get i toolsView with
    | None => Ok acc
    | Some e =>
        if bool_decide (keySet e ## acc.1)
        then Ok (acc.1 ∪ keySet e, Dict.update acc.2 e)
        else Err (ParseError "Multiple tools defined the same environment variable(s)")
    end.
Proof.
  destruct (Dict.get i toolsView) as [tool|]; simpl; [|reflexivity].
  destruct (CoreTool.environment tool) as [|kv e]; [|reflexivity].
  unfold keySet. simpl. rewrite bool_decide_eq_true_2 by apply disjoint_empty_l.
  rewrite (right_id_L ∅ (∪)). now destruct acc.
Qed.

Lemma foldR_ext {A B : Type} (f g : B -> A -> result B) (l : list A) :
  (forall b x, f b x = g b x) -> forall b, foldR f l b = foldR g l b.
Proof.
  intros H. induction l as [|x r IH]; intros b; simpl; [reflexivity|].
  rewrite H. destruct (g b x); simpl; auto.
Qed.

(** The loop over the tools, from the names that are taken and an
    environment. *)
Lemma toolEnvs_loop (toolsView : list (string * Tool)) (names : list string) :
  forall (taken : gset string) (env : dict),
  let envs := omap (fun i => CoreTool.environment <$> Dict.get i toolsView) names in
  match foldR (fun (acc : gset string * dict) i =>
                 match CoreTool.environment <$> Dict.get i toolsView with
                 | None => Ok acc
                 | Some e =>
                     if bool_decide (keySet e ## acc.1)
                     then Ok (acc.1 ∪ keySet e, Dict.update acc.2 e)
                     else Err (ParseError
                       "Multiple tools defined the same environment variable(s)")
                 end) names (taken, env) with
  | Ok (taken', env') =>
      Forall (fun e => keySet e ## taken) envs
      /\ ForallOrdPairs (fun a b => keySet a ## keySet b) envs
      /\ (forall k, In k (Dict.keys env')
                    <-> In k (Dict.keys env) \/ exists e, In e envs /\ In k (Dict.keys e))
      /\ (forall e k, In e envs -> NoDup (Dict.keys e) -> In k (Dict.keys e) ->
                      Dict.get k env' = Dict.get k e)
      /\ (forall k, (forall e, In e envs -> ~ In k (Dict.keys e)) ->
                    Dict.get k env' = Dict.get k env)
  | Err e =>
      e = ParseError "Multiple tools defined the same environment variable(s)"
      /\ ~ (Forall (fun e => keySet e ## taken) envs
            /\ ForallOrdPairs (fun a b => keySet a ## keySet b) envs)
  | OutOfFuel => False
  end.
Proof.
  induction names as [|i names IH]; intros taken env; simpl.
  - split; [constructor|]. split; [constructor|]. split; [|split].
    + intros k. split; [now left | intros [H|(e & [] & _)]; exact H].
    + intros e k [].
    + reflexivity.
  - destruct (CoreTool.environment <$> Dict.get i toolsView) as [e|] eqn:Hi; simpl;
      [|apply IH].
    case_bool_decide as Hdis; simpl.
    + specialize (IH (taken ∪ keySet e) (Dict.update env e)). cbv zeta in IH.
      destruct (foldR _ names _) as [[taken' env']|err|]; [| |assumption].
      * destruct IH as (H1 & H2 & H3 & H4 & H5).
        assert (Hrest : forall x, In x (omap (fun i => CoreTool.environment <$>
                                                Dict.get i toolsView) names) ->
                          keySet x ## taken /\ keySet e ## keySet x).
        { intros x Hx. rewrite Forall_forall in H1.
          specialize (H1 x (proj2 (list_elem_of_In _ _) Hx)). cbv beta in H1.
          apply disjoint_union_r in H1 as [? ?]. split; [assumption|]. now symmetry. }
        split; [|split; [|split; [|split]]].
        -- constructor; [assumption|]. apply Forall_forall. intros x Hx.
           now apply Hrest, list_elem_of_In.
        -- constructor; [|assumption]. apply List.Forall_forall. intros x Hx.
           now apply Hrest.
        -- intros k. rewrite H3, keys_update. split.
           ++ intros [[H|H]|(x & Hx & Hk)];
                [now left | right; exists e; split; [now left|assumption] |].
              right. exists x. split; [now right | assumption].
           ++ intros [H|(x & [<-|Hx] & Hk)]; [left; now left | left; now right|].
              right. eauto.
        -- intros x k [<-|Hx] Hnd Hk; [|now apply H4].
           rewrite H5.
           ++ rewrite get_update by assumption.
              destruct (Dict.get k e) eqn:G; [reflexivity|].
              apply get_None in G. contradiction.
           ++ intros y Hy Hky. destruct (Hrest y Hy) as [_ Hey].
              apply (Hey k); unfold keySet; apply elem_of_list_to_set, list_elem_of_In;
                assumption.
        -- intros k Hk. rewrite H5.
           ++ apply get_update_other. apply Hk. now left.
           ++ intros x Hx. apply Hk. now right.
      * destruct IH as [-> Hno]. split; [reflexivity|]. intros [Ha Hb]. apply Hno.
        apply Forall_cons in Ha as [Ha1 Ha2]. inversion Hb as [|? ? Hb1 Hb2]; subst.
        split; [|assumption]. apply Forall_forall. intros x Hx.
        apply disjoint_union_r. rewrite Forall_forall in Ha2. split; [now apply Ha2|].
        rewrite List.Forall_forall in Hb1. symmetry. apply Hb1. now apply list_elem_of_In.
    + split; [reflexivity|]. intros [Ha _]. apply Forall_cons in Ha as [Ha _].
      now apply Hdis.
Qed.


(** ** The mask of the fingerprints *)

Section Mask.
Variable fa : StringParser.FunArgs.
Variable env : dict.

Lemma mask_loop (conds : list FingerprintIf) : forall (n : nat) (doFp maybe : Z) t res,
  (0 <= doFp)%Z -> (0 <= maybe)%Z ->
  foldR (fun (acc : Z * Z * Z * gset string) fingerprintIf =>
           let '(doFp, maybe, mask, t) := acc in
           match fingerprintIf with
           | FpNone => Ok (doFp, Z.lor maybe mask, Z.shiftl mask 1, t)
           | FpBool true => Ok (Z.lor doFp mask, maybe, Z.shiftl mask 1, t)
           | FpBool false => Ok (doFp, maybe, Z.shiftl mask 1, t)
           | FpStr s =>
               '(c, t') ← Env.evaluate fa env (Some s);
               Ok (if c : bool then Z.lor doFp mask else doFp, maybe,
                   Z.shiftl mask 1, t' ∪ t)
           end) conds (doFp, maybe, (2 ^ Z.of_nat n)%Z, t) = Ok res ->
  exists truth,
    Forall2 (conditionHolds fa env) conds truth
    /\ (0 <= res.1.1.1)%Z /\ (0 <= res.1.1.2)%Z
    /\ (forall k, Z.testbit res.1.1.1 (Z.of_nat k)
                  = Z.testbit doFp (Z.of_nat k)
                    || (Nat.leb n k && default false (truth !! (k - n))))
    /\ (forall k, Z.testbit res.1.1.2 (Z.of_nat k)
                  = Z.testbit maybe (Z.of_nat k)
                    || (Nat.leb n k && default false (map isUnset conds !! (k - n)))).
Proof.
  assert (Hbit : forall n k, Z.testbit (2 ^ Z.of_nat n) (Z.of_nat k) = Nat.eqb n k).
  { intros n k. rewrite Z.pow2_bits_eqb by lia.
    destruct (Nat.eqb_spec n k) as [->|Hne]; [apply Z.eqb_refl|].
    apply Z.eqb_neq. lia. }
  assert (Hshift : forall n, Z.shiftl (2 ^ Z.of_nat n) 1 = (2 ^ Z.of_nat (S n))%Z).
  { intros n. rewrite Z.shiftl_mul_pow2 by lia. rewrite Nat2Z.inj_succ, Z.pow_succ_r by lia.
    lia. }
  assert (Hpos : forall n, (0 <= 2 ^ Z.of_nat n)%Z) by (intros; apply Z.pow_nonneg; lia).
  assert (Hlor : forall a b, (0 <= a)%Z -> (0 <= b)%Z -> (0 <= Z.lor a b)%Z).
  { intros a b Ha Hb. now apply Z.lor_nonneg. }
  assert (Hhead : forall n k (b : bool) (r : list bool),
            Nat.leb n k && default false ((b :: r) !! (k - n))
            = (Nat.eqb n k && b) || (Nat.leb (S n) k && default false (r !! (k - S n)))).
  { intros n k b r. destruct (Nat.eqb_spec n k) as [->|Hne].
    - rewrite Nat.leb_refl, Nat.sub_diag.
      replace (Nat.leb (S k) k) with false by (symmetry; apply Nat.leb_gt; lia).
      simpl. now destruct b.
    - destruct (Nat.leb_spec n k) as [Hle|Hgt].
      + replace (k - n) with (S (k - S n)) by lia.
        replace (Nat.leb (S n) k) with true by (symmetry; apply Nat.leb_le; lia).
        reflexivity.
      + replace (Nat.leb (S n) k) with false by (symmetry; apply Nat.leb_gt; lia).
        reflexivity. }
  induction conds as [|c conds IH]; intros n doFp maybe t res Hd Hm H.
  - simpl in H. inversion H; subst; simpl. exists []. split; [constructor|].
    split; [assumption|]. split; [assumption|].
    split; intros k; simpl; rewrite ?lookup_nil; simpl;
      now rewrite andb_false_r, orb_false_r.
  - simpl in H.
    assert (Hstep : forall (b : bool) t',
              conditionHolds fa env c b ->
              foldR (fun (acc : Z * Z * Z * gset string) fingerprintIf =>
                       let '(doFp, maybe, mask, t) := acc in
                       match fingerprintIf with
                       | FpNone => Ok (doFp, Z.lor maybe mask, Z.shiftl mask 1, t)
                       | FpBool true => Ok (Z.lor doFp mask, maybe, Z.shiftl mask 1, t)
                       | FpBool false => Ok (doFp, maybe, Z.shiftl mask 1, t)
                       | FpStr s =>
                           '(c, t') ← Env.evaluate fa env (Some s);
                           Ok (if c : bool then Z.lor doFp mask else doFp, maybe,
                               Z.shiftl mask 1, t' ∪ t)
                       end) conds
                (if b then Z.lor doFp (2 ^ Z.of_nat n) else doFp,
                 if isUnset c then Z.lor maybe (2 ^ Z.of_nat n) else maybe,
                 (2 ^ Z.of_nat (S n))%Z, t') = Ok res ->
              exists truth,
                Forall2 (conditionHolds fa env) (c :: conds) truth
                /\ (0 <= res.1.1.1)%Z /\ (0 <= res.1.1.2)%Z
                /\ (forall k, Z.testbit res.1.1.1 (Z.of_nat k)
                              = Z.testbit doFp (Z.of_nat k)
                                || (Nat.leb n k && default false (truth !! (k - n))))
                /\ (forall k, Z.testbit res.1.1.2 (Z.of_nat k)
                              = Z.testbit maybe (Z.of_nat k)
                                || (Nat.leb n k
                                    && default false (map isUnset (c :: conds) !! (k - n))))).
    { intros b t' Hb Hfold. apply IH in Hfold as (truth & Hall & H1 & H2 & H3 & H4).
      - exists (b :: truth). split; [now constructor|]. split; [assumption|].
        split; [assumption|]. split; intros k.
        + rewrite H3, Hhead. destruct b.
          * rewrite Z.lor_spec, Hbit, andb_true_r. now rewrite orb_assoc.
          * now rewrite andb_false_r.
        + rewrite H4. simpl map. rewrite Hhead. destruct (isUnset c).
          * rewrite Z.lor_spec, Hbit, andb_true_r. now rewrite orb_assoc.
          * now rewrite andb_false_r.
      - destruct b; [apply Hlor|]; auto.
      - destruct (isUnset c); [apply Hlor|]; auto. }
    destruct c as [|[|]|s]; simpl in H.
    + rewrite Hshift in H. now apply (Hstep false t).
    + rewrite Hshift in H. now apply (Hstep true t).
    + rewrite Hshift in H. now apply (Hstep false t).
    + rinv H. rinv E. destruct a0 as [b t']. inversion E; subst a; clear E.
      rewrite Hshift in H. apply (Hstep b (t' ∪ t)); [|exact H].
      simpl. eauto.
Qed.
End Mask.

Lemma lookup_default_true (l : list bool) k :
  default false (l !! k) = true <-> l !! k = Some true.
Proof. destruct (l !! k) as [[|]|]; simpl; split; congruence. Qed.

Lemma all_false_or_true (l : list bool) :
  Forall (fun b => b = false) l \/ exists j, l !! j = Some true.
Proof.
  induction l as [|b l [IH|[j Hj]]].
  - left. constructor.
  - destruct b; [right; now exists 0 | left; now constructor].
  - right. now exists (S j).
Qed.


(** ** The environment of a sandbox *)

Lemma sandboxEnvironment_loop fa env (d : dict) : forall acc res,
  foldR (fun (acc : dict * gset string) (kv : string * string) =>
           match kv.1 with
           | String k (String v EmptyString) =>
               '(x, t) ← Env.substitute fa env (String v "");
               Ok (Dict.set (String k "") x acc.1, t ∪ acc.2)
           | _ => Err ValueError
           end) d acc = Ok res ->
  Forall (fun kv => String.length kv.1 = 2) d
  /\ forall n, In n (Dict.keys res.1)
       <-> In n (Dict.keys acc.1)
           \/ exists kv, In kv d /\ n = String.substring 0 1 kv.1.
Proof.
  induction d as [|[key val] d IH]; simpl; intros acc res H.
  - inversion H; subst. split; [constructor|]. intros n.
    split; [now left | intros [Hn|(kv & [] & _)]; exact Hn].
  - rinv H. destruct key as [|k [|v [|c r]]]; try discriminate.
    rinv E. destruct a0 as [x t]. inversion E; subst a; clear E.
    destruct (IH _ _ H) as [Hall Hkeys]. split; [now constructor|].
    intros n. rewrite Hkeys. simpl. rewrite keys_set. split.
    + intros [[->|Hn]|(kv & Hkv & ->)].
      * right. exists (String k (String v ""), val). split; [now left | reflexivity].
      * now left.
      * right. exists kv. split; [now right | reflexivity].
    + intros [Hn|(kv & [<-|Hkv] & ->)].
      * left. now right.
      * left. now left.
      * right. eauto.
Qed.

(** X18. The environment of a provided sandbox: the constructor goes
    through the keys of the [environment] dictionary of the specification
    and takes each key apart into two characters. It raises [ValueError]
    for a dictionary whose first key has not two characters, and when it
    returns every key has two; the values of the dictionary are not read,
    and the variables of the sandbox are named by the first characters of
    the keys. *)
Theorem sandbox_environment_keys (fa : StringParser.FunArgs) (rs : RecipeSet.t)
    (env : dict) (enabled : bool) (spec : SandboxSpec.t) :
  (forall sb t, prepareSandbox fa rs env enabled spec = Ok (sb, t) ->
     Forall (fun kv => String.length kv.1 = 2) (SandboxSpec.environment spec)
     /\ forall n, In n (Dict.keys (Provided.sbEnvironment sb))
          <-> exists kv, In kv (SandboxSpec.environment spec)
                         /\ n = String.substring 0 1 kv.1)
  /\ (forall key val rest,
        String.length key <> 2 ->
        sandboxEnvironment fa env ((key, val) :: rest) = Err ValueError)
  /\ (forall d,
        sandboxEnvironment fa env d
        = sandboxEnvironment fa env (map (fun kv => (kv.1, "")) d)).
Proof.
  split; [|split].
  - intros sb t H. unfold prepareSandbox in H. rinv H. destruct a as [mounts t1].
    rinv H. destruct a as [environment t2]. inversion H; subst sb t; clear H. simpl.
    unfold sandboxEnvironment in E0.
    destruct (sandboxEnvironment_loop _ _ _ _ _ E0) as [Hall Hkeys]. split; [exact Hall|].
    intros n. rewrite Hkeys. simpl. split; [intros [[]|H]; exact H | now right].
  - intros key val rest Hlen. unfold sandboxEnvironment. simpl.
    destruct key as [|k [|v [|c r]]]; try reflexivity. simpl in Hlen. congruence.
  - intros d. unfold sandboxEnvironment. generalize (([], ∅) : dict * gset string).
    induction d as [|[key val] d IH]; intros acc; simpl; [reflexivity|].
    destruct key as [|k [|v [|c r]]]; try reflexivity.
    destruct (Env.substitute fa env (String v "")) as [[x t]| |]; simpl; auto.
Qed.

(** ** The dependencies of a document *)

Lemma parseEntry_parsedAs (entry : Dependency.Entry) : forall env fwd use cond,
  parsedAs [entry] (Dependency.parseEntry entry env fwd use cond).
Proof.
  induction entry as [name|name depends environment forward use' newCond IH]
    using Entry_nested_ind; intros env fwd use cond.
  - simpl. auto.
  - assert (Hlist : forall env fwd use cond l,
              Forall (fun e => forall env fwd use cond,
                        parsedAs [e] (Dependency.parseEntry e env fwd use cond)) l ->
              parsedAs l
                ((fix parseEntries (deps : list Dependency.Entry)
                    : result (list Dependency.t) :=
                    match deps with
                    | [] => Ok []
                    | d :: r =>
                        x ← Dependency.parseEntry d env fwd use cond;
                        y ← parseEntries r;
                        Ok (x ++ y)
                    end) l)).
    { clear. intros env fwd use cond l. induction 1 as [|e l He _ IHl]; simpl; [auto|].
      specialize (He env fwd use cond). unfold parsedAs in He. simpl in He.
      destruct (Dependency.parseEntry e env fwd use cond) as [x|err|]; simpl.
      - destruct He as [Hw Hx]. rewrite andb_true_r in Hw. rewrite app_nil_r in Hx.
        match goal with |- parsedAs _ (mbind _ ?m) => destruct m as [y|err|] end;
          unfold parsedAs in *; simpl; rewrite ?Hw; simpl.
        + destruct IHl as [Hwl Hy]. split; [assumption|]. now rewrite map_app, Hx, Hy.
        + assumption.
        + assumption.
      - destruct He as [Hw Hmsg]. rewrite andb_true_r in Hw.
        unfold parsedAs. simpl. rewrite Hw. auto.
      - contradiction. }
    assert (Hup : forall name l r,
              match name with Some (String _ _) => False | _ => True end ->
              parsedAs l r ->
              parsedAs [Dependency.Dict name (Some l) environment forward use' newCond] r).
    { intros nm l r Hnm Hr. unfold parsedAs in *.
      destruct r as [y|err|]; [| |assumption].
      - destruct Hr as [Hw Hy]. simpl.
        destruct nm as [[|c n]|]; try contradiction; now rewrite Hw, app_nil_r.
      - destruct Hr as [Hw Hy]. simpl.
        destruct nm as [[|c n]|]; try contradiction; now rewrite Hw. }
    simpl. destruct name as [[|c n]|].
    + destruct depends as [l|].
      * apply Hup; [exact I|]. apply Hlist. exact IH.
      * simpl. split; [reflexivity | eauto].
    + destruct depends as [l|]; simpl; [split; [reflexivity | eauto] | auto].
    + destruct depends as [l|].
      * apply Hup; [exact I|]. apply Hlist. exact IH.
      * simpl. split; [reflexivity | eauto].
Qed.

Lemma parseEntries_parsedAs (deps : list Dependency.Entry) env fwd use cond :
  parsedAs deps (Dependency.parseEntries deps env fwd use cond).
Proof.
  induction deps as [|e l IH]; simpl; [auto|].
  pose proof (parseEntry_parsedAs e env fwd use cond) as He. unfold parsedAs in He.
  simpl in He.
  destruct (Dependency.parseEntry e env fwd use cond) as [x|err|]; simpl.
  - destruct He as [Hw Hx]. rewrite andb_true_r in Hw. rewrite app_nil_r in Hx.
    destruct (Dependency.parseEntries l env fwd use cond) as [y|err|];
      unfold parsedAs in *; simpl; rewrite ?Hw; simpl.
    + destruct IH as [Hwl Hy]. split; [assumption|]. now rewrite map_app, Hx, Hy.
    + assumption.
    + assumption.
  - destruct He as [Hw Hmsg]. rewrite andb_true_r in Hw.
    unfold parsedAs. simpl. rewrite Hw. auto.
  - contradiction.
Qed.

(** X19. The dependencies of a [depends] list are parsed when every entry,
    at any depth, has either a name or a [depends] list of its own, and
    [parseEntries] raises [ParseError] otherwise. The parsed list names the
    dependencies in the order of the document, the entries of a nested list
    in the place of that list. *)
Theorem dependencies_in_document_order (deps : list Dependency.Entry) (env : dict)
    (fwd : bool) (use : list string) (cond : option string) :
  ((exists l, Dependency.parseEntries deps env fwd use cond = Ok l)
   <-> forallb entryWellFormed deps = true)
  /\ ((exists l, Dependency.parseEntries deps env fwd use cond = Ok l)
      \/ exists msg, Dependency.parseEntries deps env fwd use cond = Err (ParseError msg))
  /\ (forall l, Dependency.parseEntries deps env fwd use cond = Ok l ->
        map Dependency.recipe l = flat_map entryNames deps).
Proof.
  pose proof (parseEntries_parsedAs deps env fwd use cond) as H. unfold parsedAs in H.
  destruct (Dependency.parseEntries deps env fwd use cond) as [l|e|]; [| |contradiction].
  - destruct H as [Hw Hl]. split; [|split].
    + split; [auto | eauto].
    + left. eauto.
    + intros x Hx. now inversion Hx; subst.
  - destruct H as [Hw [msg ->]]. split; [|split].
    + split; [intros [l Hl]; discriminate | congruence].
    + right. eauto.
    + intros x Hx. discriminate.
Qed.

(** ** The numbers of the packages *)

Section Numbers.
Variable recipes : gmap string Recipe.t.
Variable sandboxEnabled : bool.

Lemma finish_pkgId self states l n b :
  Prepare.finish sandboxEnabled self states l n = Ok b ->
  CorePackage.pkgId (Prepare.builtPackage b) = n.
Proof.
  unfold Prepare.finish. intros H.
  rinv H. destruct a as [[thisDeps indirect] results].
  rinv H. rinv H. destruct a0 as [env t1]. rinv H. destruct a0 as [mask t2].
  rinv H. destruct a0 as [src t3]. rinv H. rename a0 into bld.
  rinv H. rename a0 into pkg.
  rinv H. destruct a0 as [pe t4]. rinv H. destruct a0 as [pt t5].
  rinv H. destruct a0 as [ps t6].
  destruct (_ && _); [discriminate|]. inversion H; subst; reflexivity.
Qed.

Lemma remember_numbered self i l b st' out :
  numbered (Prepare.store l) ->
  CorePackage.pkgId (Prepare.builtPackage b) = S (Store.cur (Prepare.store l)) ->
  Prepare.remember self i l b = Ok (st', out) ->
  numbered st' /\ Store.cur st' = S (Store.cur (Prepare.store l)).
Proof.
  intros [Hrange Hapart] Hid H.
  destruct (remember_Ok _ _ _ _ _ _ H) as (pid & m & _ & _ & _ & _ & _ & _ & HbyId).
  assert (Hcur : Store.cur st' = S (Store.cur (Prepare.store l))).
  { unfold Prepare.remember in H. rinv H. now inversion H. }
  split; [|exact Hcur].
  assert (Hold : forall n p q, Store.packages st' n !! p = Some q ->
            Store.packages (Prepare.store l) n !! p = Some q
            \/ (n = Recipe.packageName self /\ p = pid /\ q = Prepare.builtPackage b
                /\ Store.packages (Prepare.store l) n !! p = None)).
  { intros n p q Hq. rewrite (packages_insert _ _ _ _ n HbyId) in Hq.
    destruct (decide (n = Recipe.packageName self)) as [->|Hn]; [|now left].
    destruct (Store.packages (Prepare.store l) (Recipe.packageName self) !! pid) eqn:Hp;
      [now left|].
    destruct (decide (p = pid)) as [->|Hne].
    - rewrite lookup_insert_eq in Hq. inversion Hq; subst. right. auto.
    - rewrite lookup_insert_ne in Hq by congruence. now left. }
  constructor.
  - intros n p q Hq. rewrite Hcur. apply Hold in Hq as [Hq|(_ & _ & -> & _)].
    + specialize (Hrange _ _ _ Hq). lia.
    + rewrite Hid. lia.
  - intros n1 p1 q1 n2 p2 q2 H1 H2 Heq.
    apply Hold in H1 as [H1|(-> & -> & -> & _)], H2 as [H2|(-> & -> & -> & _)].
    + eapply Hapart; eassumption.
    + specialize (Hrange _ _ _ H1). rewrite Hid in Heq. lia.
    + specialize (Hrange _ _ _ H2). rewrite Hid in Heq. lia.
    + auto.
Qed.

Lemma prepare_numbered fuel : forall st self i stack st' out,
  numbered st ->
  Prepare.prepare recipes sandboxEnabled fuel st self i stack = Ok (st', out) ->
  numbered st' /\ Store.cur st <= Store.cur st'.
Proof.
  induction fuel as [|fuel IH]; intros st self i stack st' out Hst H; [discriminate|].
  simpl in H. unfold Prepare.prepareBody in H.
  destruct (Prepare.findMatch _ i) as [m|].
  - destruct (Prepare.onStack stack _); [discriminate|]. inversion H; subst. auto.
  - rinv H. rename a into l0. rinv H. rename a into l1. rinv H. rename a into b.
    apply enter_Ok in E as [Hs0 _].
    assert (Hl1 : numbered (Prepare.store l1) /\ Store.cur st <= Store.cur (Prepare.store l1)).
    { eapply (foldR_inv (fun l => numbered (Prepare.store l)
                                  /\ Store.cur st <= Store.cur (Prepare.store l)));
        [|exact E0|rewrite Hs0; auto].
      intros l dep l' _ Hstep [Hn Hc].
      apply depStep_Ok in Hstep
        as [(_ & -> & _)|(r & i' & st1 & out1 & _ & _ & Hrec & -> & _)]; [auto|].
      destruct (IH _ _ _ _ _ _ Hn Hrec) as [? ?]. split; [assumption | lia]. }
    destruct Hl1 as [Hn1 Hc1].
    pose proof (finish_pkgId _ _ _ _ _ E1) as Hid.
    destruct (remember_numbered _ _ _ _ _ _ Hn1 Hid H) as [Hn' Hc']. split; [assumption | lia].
Qed.
End Numbers.

(** X20. The numbers of the packages: every package that is registered in
    the tables of an elaboration has a number of its own, between one and
    the count of [uidGen], and the count never goes down. *)
Theorem package_numbers_are_unique (recipes : gmap string Recipe.t)
    (sandboxEnabled : bool) (st st' : Store.t) :
  Tables.later recipes sandboxEnabled Store.empty st ->
  Tables.later recipes sandboxEnabled st st' ->
  (forall name pid q, Store.packages st name !! pid = Some q ->
     1 <= CorePackage.pkgId q <= Store.cur st)
  /\ (forall n1 p1 q1 n2 p2 q2,
        Store.packages st n1 !! p1 = Some q1 ->
        Store.packages st n2 !! p2 = Some q2 ->
        CorePackage.pkgId q1 = CorePackage.pkgId q2 ->
        n1 = n2 /\ p1 = p2 /\ q1 = q2)
  /\ Store.cur st <= Store.cur st'.
Proof.
  intros Hl Hl'.
  assert (Hlater : forall a b, Tables.later recipes sandboxEnabled a b ->
            numbered a -> numbered b /\ Store.cur a <= Store.cur b).
  { induction 1 as [a|a b c (fuel & self & i & stack & out & _ & Hcall) _ IH]; [auto|].
    intros Ha. destruct (prepare_numbered recipes sandboxEnabled _ _ _ _ _ _ _ Ha Hcall)
      as [Hb Hab].
    destruct (IH Hb) as [Hc Hbc]. split; [assumption | lia]. }
  assert (Hempty : numbered Store.empty).
  { constructor; intros *; unfold Store.packages; simpl; rewrite lookup_empty; simpl;
      rewrite lookup_empty; discriminate. }
  destruct (Hlater _ _ Hl Hempty) as [[Hrange Hapart] _].
  destruct (Hlater _ _ Hl' (mkNumbered _ Hrange Hapart)) as [_ Hle].
  split; [exact Hrange|]. split; [|exact Hle].
  intros n1 p1 q1 n2 p2 q2 H1 H2 Heq.
  destruct (Hapart _ _ _ _ _ _ H1 H2 Heq) as [-> ->]. rewrite H1 in H2.
  inversion H2. auto.
Qed.

Lemma In_set {V : Type} (k : string) (v : V) (d : list (string * V)) x :
  In x (Dict.set k v d) -> x = (k, v) \/ In x d.
Proof.
  induction d as [|[k0 v0] r IH]; simpl.
  - intros [<-|[]]. now left.
  - destruct (String.eqb k k0); simpl.
    + intros [<-|H]; [now left | right; now right].
    + intros [<-|H]; [right; now left|]. destruct (IH H); [now left | right; now right].
Qed.

Lemma Forall_update {V : Type} (P : string * V -> Prop) (o : list (string * V)) :
  forall d, Forall P d -> Forall P o -> Forall P (Dict.update d o).
Proof.
  unfold Dict.update. induction o as [|[k v] o IH]; simpl; intros d Hd Ho; [assumption|].
  apply Forall_cons in Ho as [Hkv Ho]. apply IH; [|assumption].
  apply Forall_forall. intros x Hx. apply list_elem_of_In, In_set in Hx as [->|Hx];
    [assumption|]. rewrite Forall_forall in Hd. now apply Hd, list_elem_of_In.
Qed.

Lemma init_dicts kind recipe tools sandbox states pkgId fingerprintMask scmList
    isValid det digestEnv env args s :
  CoreStep.init kind recipe tools sandbox states pkgId fingerprintMask scmList
    isValid det digestEnv env args = Some s ->
  CoreStep.tools s = tools /\ CoreStep.sandbox s = sandbox /\ CoreStep.args s = args.
Proof.
  unfold CoreStep.init. intros H.
  destruct (CoreStep.getDigest _ _ _) as [v|]; [|discriminate].
  inversion H; subst. simpl. auto.
Qed.

Lemma initStep_constructed kind p scmList isValid det digestEnv env args s :
  initStep kind p scmList isValid det digestEnv env args = Ok s ->
  Forall Built.tool (pbTools p) -> Built.sandbox (pbSandbox p) -> Forall Built.ref args ->
  CoreStep.constructed s.
Proof.
  unfold initStep. intros H Ht Hs Ha. apply packed_Ok in H.
  eapply CoreStep.constructed_init; [exact H|].
  destruct (init_dicts _ _ _ _ _ _ _ _ _ _ _ _ _ _ H) as (Et & Es & Ea).
  intros d Hd. unfold CoreStep.dependsOn, CoreStep.getAllDepCoreSteps in Hd.
  apply in_app_iff in Hd as [Hd|Hd]; [|apply in_app_iff in Hd as [Hd|Hd]].
  - rewrite Ea in Hd. apply in_map_iff in Hd as (r & <- & Hr).
    rewrite Forall_forall in Ha. now apply Ha, list_elem_of_In.
  - apply in_map_iff in Hd as (nt & <- & Hnt).
    apply list_elem_of_In in Hnt. rewrite sorted_items_perm in Hnt.
    unfold CoreStep.getTools in Hnt. rewrite Et in Hnt.
    destruct (CoreStep.isValid s); [|now apply elem_of_nil in Hnt].
    apply list_elem_of_In, filter_In in Hnt as [Hnt _].
    rewrite Forall_forall in Ht. now apply (Ht nt), list_elem_of_In.
  - unfold CoreStep.getSandbox in Hd. rewrite Es in Hd.
    destruct (pbSandbox p) as [sb|]; [|contradiction].
    destruct (_ && CoreStep.isValid s); [|contradiction].
    destruct Hd as [<-|[]]. exact Hs.
Qed.

Lemma CoreCheckoutStep_constructed p checkout fa fullEnv digestEnv env s t :
  CoreCheckoutStep p checkout fa fullEnv digestEnv env = Ok (s, t) ->
  Forall Built.tool (pbTools p) -> Built.sandbox (pbSandbox p) ->
  CoreStep.constructed s.
Proof.
  unfold CoreCheckoutStep. intros H Ht Hs. destruct checkout as [co|].
  - rinv H. destruct a as [scmList t']. rinv H. rinv H. inversion H; subst.
    eapply initStep_constructed; eauto.
  - rinv H. inversion H; subst. eapply initStep_constructed; eauto.
Qed.

Lemma append_built (l : UniquePackageList.t) r l' :
  Forall Built.ref (UniquePackageList.ret l) -> Built.ref r ->
  UniquePackageList.append l r = Ok l' -> Forall Built.ref (UniquePackageList.ret l').
Proof.
  unfold UniquePackageList.append. intros Hl Hr H.
  destruct (Dict.get _ _).
  - case_bool_decide; inversion H; subst; assumption.
  - inversion H; subst. simpl. apply Forall_app. split; [assumption|].
    now apply Forall_singleton.
Qed.

Lemma extend_built rs : forall (l : UniquePackageList.t) l',
  Forall Built.ref (UniquePackageList.ret l) -> Forall Built.ref rs ->
  UniquePackageList.extend l rs = Ok l' -> Forall Built.ref (UniquePackageList.ret l').
Proof.
  unfold UniquePackageList.extend. induction rs as [|r rs IH]; simpl; intros l l' Hl Hrs H.
  - now inversion H; subst.
  - apply Forall_cons in Hrs as [Hr Hrs]. rinv H.
    eapply IH; [|exact Hrs|exact H]. eapply append_built; eassumption.
Qed.

Lemma wrapRef_built name rs :
  Forall Built.ref rs -> Forall Built.ref (map (wrapRef name) rs).
Proof.
  intros H. apply Forall_forall. intros x Hx.
  apply list_elem_of_In, in_map_iff in Hx as (r & <- & Hr).
  rewrite Forall_forall in H. unfold Built.ref, wrapRef. simpl.
  now apply (H r), list_elem_of_In.
Qed.

Section Built.
Variable recipes : gmap string Recipe.t.
Variable sandboxEnabled : bool.

Lemma enter_built self i st l :
  Built.inputs i -> Prepare.enter sandboxEnabled self i st = Ok l -> Built.loop l.
Proof.
  intros [Ht Hs] H. unfold Prepare.enter in H.
  destruct (Env.filter _ _) as [env t0]. rinv H. destruct a as [env' t1].
  inversion H; subst; clear H.
  assert (Ht' : Forall Built.tool
                  match Recipe.filterTools self with
                  | Some _ => List.filter (fun nt => checkGlobList nt.1 (Recipe.filterTools self))
                                (Prepare.inputTools i)
                  | None => Prepare.inputTools i
                  end).
  { destruct (Recipe.filterTools self); [|assumption].
    apply Forall_forall. intros x Hx. apply list_elem_of_In, filter_In in Hx as [Hx _].
    rewrite Forall_forall in Ht. now apply Ht, list_elem_of_In. }
  assert (Hs' : Built.sandbox
                  match Prepare.inputSandbox i with
                  | Some sb =>
                      if checkGlobList (CoreStep.getName (CoreSandbox.coreStep sb))
                           (Recipe.filterSandbox self)
                      then Some sb else None
                  | None => None
                  end).
  { destruct (Prepare.inputSandbox i) as [sb|]; [|exact I].
    destruct (checkGlobList _ _); [exact Hs | exact I]. }
  constructor; simpl; try assumption; constructor.
Qed.

Lemma applyDep_built self l dep st out l' :
  Built.loop l -> Built.package (Prepare.package out) ->
  Prepare.applyDep sandboxEnabled self l dep st out = Ok l' -> Built.loop l'.
Proof.
  intros [Lt Ldt Ls Lds Lr Li Lp] [_ _ Hpkg Hprov] H. unfold Prepare.applyDep in H.
  set (p := Prepare.package out) in *.
  set (depRef := CoreRef.mk (CorePackage.getCorePackageStep p) [CorePackage.getName p]) in *.
  assert (Hdep : Built.ref depRef) by exact Hpkg.
  assert (Hwrap : Forall Built.ref
                    (map (wrapRef (CorePackage.getName p))
                       (CoreStep.providedDeps (CorePackage.getCorePackageStep p))))
    by now apply wrapRef_built.
  assert (Htools : Forall Built.tool
                     (CoreStep.providedToolsOf (CorePackage.getCorePackageStep p))).
  { unfold CoreStep.providedToolsOf. apply Forall_forall. intros x Hx.
    apply list_elem_of_In, in_map_iff in Hx as (np & <- & _). exact Hpkg. }
  assert (Hsb : Built.sandbox (CoreStep.providedSandboxOf (CorePackage.getCorePackageStep p))).
  { unfold CoreStep.providedSandboxOf. destruct (CoreStep.providedSandbox _); [exact Hpkg | exact I]. }
  rinv H. destruct a as [thisDeps directPackages].
  destruct (Prepare.useResult _ _ _ _) as [thisDeps' results] eqn:Hu.
  assert (Hres : Forall Built.ref results).
  { unfold Prepare.useResult in Hu. destruct (Dependency.useBuildResult dep).
    - destruct (DepTracker.useResultOnce _) as [once dt]. inversion Hu; subst.
      destruct once; [|assumption]. apply Forall_app. split; [assumption|].
      now apply Forall_singleton.
    - now inversion Hu; subst. }
  assert (Hupd : forall b (d : list (string * Tool)), Forall Built.tool d ->
            Forall Built.tool
              (if b : bool
               then Dict.update d (CoreStep.providedToolsOf (CorePackage.getCorePackageStep p))
               else d)).
  { intros b d Hd. destruct b; [now apply Forall_update | assumption]. }
  assert (Hind : Forall Built.ref
                   (if Dependency.useDeps dep
                    then Prepare.indirectPackages l
                         ++ map (wrapRef (CorePackage.getName p))
                              (CoreStep.providedDeps (CorePackage.getCorePackageStep p))
                    else Prepare.indirectPackages l)).
  { destruct (Dependency.useDeps dep); [|assumption]. apply Forall_app. now split. }
  destruct (CoreStep.providedSandboxOf (CorePackage.getCorePackageStep p)) as [sb|] eqn:Esb;
    [destruct (Dependency.useSandbox dep)|].
  - rinv H. inversion H; subst; clear H. constructor; simpl; auto.
    + destruct (Dependency.provideGlobal dep); assumption.
    + destruct (bool_decide _); [|inversion E0; subst; assumption].
      rinv E0. eapply extend_built; [|exact Hwrap|exact E0].
      eapply append_built; eassumption.
  - rinv H. inversion H; subst; clear H. constructor; simpl; auto.
    destruct (bool_decide _); [|inversion E0; subst; assumption].
    rinv E0. eapply extend_built; [|exact Hwrap|exact E0].
    eapply append_built; eassumption.
  - rinv H. inversion H; subst; clear H. constructor; simpl; auto.
    destruct (bool_decide _); [|inversion E0; subst; assumption].
    rinv E0. eapply extend_built; [|exact Hwrap|exact E0].
    eapply append_built; eassumption.
Qed.
End Built.

Lemma indirect_built (refs : list Ref) : forall acc td ip rs,
  Forall Built.ref refs -> Forall Built.ref acc.1.2 -> Forall Built.ref acc.2 ->
  foldR Prepare.indirectStep refs acc = Ok (td, ip, rs) ->
  Forall Built.ref ip /\ Forall Built.ref rs.
Proof.
  induction refs as [|r refs IH]; simpl; intros acc td ip rs Hrefs Hip Hrs H.
  - inversion H; subst. auto.
  - apply Forall_cons in Hrefs as [Hr Hrefs]. rinv H.
    destruct acc as [[td0 ip0] rs0]. destruct a as [[td1 ip1] rs1]. simpl in *.
    unfold Prepare.indirectStep in E.
    destruct (DepTracker.prime _) as [isNew dt]. rinv E.
    destruct (DepTracker.useResultOnce dt) as [once dt']. inversion E; subst; clear E.
    apply (IH _ _ _ _ Hrefs) in H; [assumption| |]; simpl.
    + destruct isNew.
      * inversion E0; subst. apply Forall_app. split; [assumption|].
        now apply Forall_singleton.
      * destruct (negb _); [discriminate|]. now inversion E0; subst.
    + destruct once; [|assumption]. apply Forall_app. split; [assumption|].
      now apply Forall_singleton.
Qed.

Section Built.
Variable recipes : gmap string Recipe.t.
Variable sandboxEnabled : bool.

Lemma finish_built self states l n b :
  Built.loop l -> Prepare.finish sandboxEnabled self states l n = Ok b ->
  Built.package (Prepare.builtPackage b).
Proof.
  intros [Lt Ldt Ls Lds Lr Li Lp] H. unfold Prepare.finish in H.
  rinv H. destruct a as [[thisDeps indirect] results].
  destruct (indirect_built _ (Prepare.thisDeps l, [], Prepare.results l) _ _ _ Li (List.Forall_nil _) Lr E) as [Hind Hres].
  rinv H. rinv H. destruct a0 as [env t1]. rinv H. destruct a0 as [mask t2].
  rinv H. destruct a0 as [src t3]. rinv H. rename a0 into bld.
  rinv H. rename a0 into pkg.
  rinv H. destruct a0 as [pe t4]. rinv H. destruct a0 as [pt t5].
  rinv H. destruct a0 as [ps t6].
  destruct (_ && _); [discriminate|]. inversion H; subst; clear H. simpl.
  assert (Hsrc : CoreStep.constructed src).
  { destruct (Recipe.checkout self) as [[[c1 c2] c3] c4].
    destruct c1, c2, c3, c4; eapply CoreCheckoutStep_constructed; eauto. }
  assert (Hbld : CoreStep.constructed bld).
  { destruct (Recipe.build self) as [[s1|] [s2|]]; unfold CoreBuildStep in E4;
      (eapply initStep_constructed; [exact E4|assumption|assumption|]);
      try (apply Forall_cons; split; [exact Hsrc | exact Hres]); constructor. }
  assert (Hpkg : CoreStep.constructed pkg).
  { unfold CorePackageStep in E5. eapply initStep_constructed; [exact E5|assumption..|].
    apply Forall_singleton. exact Hbld. }
  constructor; simpl; try assumption.
  now apply CoreStep.constructed_provided.
Qed.

Lemma remember_built self i l b st' out :
  Built.store (Prepare.store l) -> Built.package (Prepare.builtPackage b) ->
  Prepare.remember self i l b = Ok (st', out) ->
  Built.store st' /\ Built.package (Prepare.package out).
Proof.
  intros [HbyId Hmatch] Hb H.
  destruct (remember_Ok _ _ _ _ _ _ H) as (pid & m & _ & Hout & _ & Hm & _ & Hbm & Hbi).
  assert (Hp : Built.package (Prepare.package out)).
  { rewrite Hout.
    destruct (Store.packages (Prepare.store l) (Recipe.packageName self) !! pid) eqn:Hq;
      [eapply HbyId; exact Hq | exact Hb]. }
  split; [|exact Hp]. constructor.
  - intros n p q Hq. rewrite (packages_insert _ _ _ _ n Hbi) in Hq.
    destruct (decide (n = Recipe.packageName self)) as [->|Hn]; [|eapply HbyId; exact Hq].
    apply setdefault_lookup in Hq as [Hq|[_ ->]]; [eapply HbyId; exact Hq | exact Hb].
  - intros n x Hx. rewrite (matchers_insert _ _ _ _ n Hbm) in Hx.
    destruct (decide (n = Recipe.packageName self)) as [->|Hn]; [|eapply Hmatch; exact Hx].
    destruct Hx as [<-|Hx]; [now rewrite Hm | eapply Hmatch; exact Hx].
Qed.

Lemma depStep_built rec self i stack l dep l' :
  (forall st r i' stk st' out,
     Built.store st -> Built.inputs i' -> rec st r i' stk = Ok (st', out) ->
     Built.store st' /\ Built.package (Prepare.package out)) ->
  Built.store (Prepare.store l) -> Built.loop l ->
  Prepare.depStep recipes sandboxEnabled rec self i stack l dep = Ok l' ->
  Built.store (Prepare.store l') /\ Built.loop l'.
Proof.
  intros Hrec Hst Hl H. unfold Prepare.depStep, Prepare.getRecipe in H.
  rinv H. destruct a as [c t]. destruct c; simpl in H.
  - destruct (recipes !! Dependency.recipe dep) as [r|]; simpl in H; [|discriminate].
    destruct (existsb _ stack); [discriminate|].
    rinv H. destruct a as [st out].
    destruct Hl as [Lt Ldt Ls Lds Lr Li Lp].
    simpl in E0. apply Hrec in E0 as [Hst' Hp]; [|exact Hst|split; assumption].
    pose proof (applyDep_Ok _ _ _ _ _ _ _ H) as [Hs _].
    split; [now rewrite Hs|].
    eapply applyDep_built; [|exact Hp|exact H]. now constructor.
  - inversion H; subst; simpl. split; [assumption|]. destruct Hl. now constructor.
Qed.

Lemma prepare_built fuel : forall st self i stack st' out,
  Built.store st -> Built.inputs i ->
  Prepare.prepare recipes sandboxEnabled fuel st self i stack = Ok (st', out) ->
  Built.store st' /\ Built.package (Prepare.package out).
Proof.
  induction fuel as [|fuel IH]; intros st self i stack st' out Hst Hi H; [discriminate|].
  simpl in H. unfold Prepare.prepareBody in H.
  destruct (Prepare.findMatch _ i) as [m|] eqn:Hm.
  - destruct (Prepare.onStack stack _); [discriminate|]. inversion H; subst. simpl.
    split; [assumption|]. apply find_some in Hm as [Hin _].
    eapply Built.st_match; eassumption.
  - rinv H. rename a into l0. rinv H. rename a into l1. rinv H. rename a into b.
    pose proof (enter_built _ _ _ _ _ Hi E) as Hl0.
    apply enter_Ok in E as [Hs0 _].
    assert (Hl1 : Built.store (Prepare.store l1) /\ Built.loop l1).
    { eapply (foldR_inv (fun l => Built.store (Prepare.store l) /\ Built.loop l));
        [|exact E0|rewrite Hs0; auto].
      intros l dep l' _ Hstep [Hs Hl]. eapply depStep_built; [|exact Hs|exact Hl|exact Hstep].
      intros. eapply IH; eassumption. }
    destruct Hl1 as [Hs1 Hl1].
    eapply remember_built; [exact Hs1| |exact H]. eapply finish_built; eassumption.
Qed.
End Built.

(** X21. The steps of an elaboration are constructed: every package that
    [generatePackages] registers in the tables, and the package of the root
    that it returns, has a checkout, a build and a package step that have
    come out of the constructor with steps built before them. So if the
    package step of such a package is deterministic, every step that it
    reaches through arguments, tools and sandboxes is deterministic. *)
Theorem elaborated_steps_are_constructed (recipes : gmap string Recipe.t)
    (sandboxEnabled : bool) (fuel : nat) (rootRecipe : Recipe.t) (env : dict)
    (states : list (string * PluginState)) (st : Store.t) (out : Prepare.Output) :
  Prepare.generatePackages recipes sandboxEnabled fuel rootRecipe env states
  = Ok (st, out) ->
  forall p,
    p = Prepare.package out \/ (exists name pid, Store.packages st name !! pid = Some p) ->
    CoreStep.constructed (CorePackage.checkoutStep p)
    /\ CoreStep.constructed (CorePackage.buildStep p)
    /\ CoreStep.constructed (CorePackage.packageStep p)
    /\ (CoreStep.isDeterministic (CorePackage.packageStep p) = true ->
        forall d, tc CoreStep.dependsOn (CorePackage.packageStep p) d ->
                  CoreStep.isDeterministic d = true).
Proof.
  unfold Prepare.generatePackages. intros Hcall p Hp.
  assert (Hempty : Built.store Store.empty).
  { constructor; intros n; unfold Store.packages, Store.matchers; simpl;
      rewrite lookup_empty; simpl; intros *; [rewrite lookup_empty; discriminate|].
    intros []. }
  assert (Hin : Built.inputs (Prepare.mkInputs env states None [])).
  { split; simpl; [constructor | exact I]. }
  destruct (prepare_built recipes sandboxEnabled _ _ _ _ _ _ _ Hempty Hin Hcall)
    as [Hst Hout].
  assert (Hbuilt : Built.package p).
  { destruct Hp as [->|(name & pid & Hq)]; [exact Hout|].
    eapply Built.st_byId; eassumption. }
  destruct Hbuilt as [Hc Hb Hk _]. repeat split; try assumption.
  intros Hdet d Htc. apply isDeterministic_flag in Hdet.
  revert Hk Hdet. induction Htc as [s d Hsd | s m d Hsm _ IH]; intros Hs Hdet.
  - destruct (constructed_deps s Hs) as [_ H]. now apply H.
  - destruct (constructed_deps s Hs) as [Hcs H].
    apply IH; [now apply Hcs|]. apply isDeterministic_flag. now apply H.
Qed.

(** ** What the Result-Id depends on *)

Lemma foldM_same {A B : Type} (f g : B -> A -> option B) (l : list A) :
  (forall b x, f b x = g b x) -> forall b, foldM f l b = foldM g l b.
Proof.
  intros H. induction l as [|x r IH]; intros b; simpl; [reflexivity|].
  rewrite H. destruct (g b x); simpl; auto.
Qed.

Lemma rUpdateTool_variantId (s1 s2 : CoreStep.t) h nt :
  CoreStep.variantId s1 = CoreStep.variantId s2 ->
  CoreStep.rUpdateTool s1 h nt = CoreStep.rUpdateTool s2 h nt.
Proof. intros H. unfold CoreStep.rUpdateTool. now rewrite H. Qed.

Lemma rUpdateDict_order (h : bytes) (d d' : dict) :
  NoDup (Dict.keys d) -> d ≡ₚ d' ->
  CoreStep.rUpdateDict h d = CoreStep.rUpdateDict h d'.
Proof.
  intros Hn Hp. unfold CoreStep.rUpdateDict.
  now rewrite (Permutation_length Hp), (sorted_items_order _ _ Hn Hp).
Qed.

(** X22. The Result-Id of a step depends only on its Variant-Id and on
    what it provides: the provided environment and tools, whatever the
    order in which the dictionaries were filled, the Variant-Ids of the
    provided dependencies in their order, and the provided sandbox. Two
    steps that agree on these have the same Result-Id, whatever else
    differs. *)
Theorem result_id_depends_only_on (s1 s2 : CoreStep.t) :
  CoreStep.variantId s1 = CoreStep.variantId s2 ->
  NoDup (Dict.keys (CoreStep.providedEnv s1)) ->
  CoreStep.providedEnv s1 ≡ₚ CoreStep.providedEnv s2 ->
  NoDup (Dict.keys (CoreStep.providedTools s1)) ->
  CoreStep.providedTools s1 ≡ₚ CoreStep.providedTools s2 ->
  map (fun r => CoreStep.variantId (CoreRef.destination r)) (CoreStep.providedDeps s1)
  = map (fun r => CoreStep.variantId (CoreRef.destination r)) (CoreStep.providedDeps s2) ->
  CoreStep.providedSandbox s1 = CoreStep.providedSandbox s2 ->
  CoreStep.getResultId s1 = CoreStep.getResultId s2.
Proof.
  intros Hv Hne Hpe Hnt Hpt Hd Hs. unfold CoreStep.getResultId.
  assert (Hlen : length (CoreStep.providedDeps s1) = length (CoreStep.providedDeps s2)).
  { apply (f_equal (@length _)) in Hd. now rewrite !length_map in Hd. }
  assert (Hfold : forall h,
            fold_left (fun h dep => h ++ CoreStep.variantId (CoreRef.destination dep))
              (CoreStep.providedDeps s1) h
            = fold_left (fun h dep => h ++ CoreStep.variantId (CoreRef.destination dep))
                (CoreStep.providedDeps s2) h).
  { intros h.
    rewrite <- !(fold_left_map (fun (h : bytes) v => h ++ v)
                   (fun r => CoreStep.variantId (CoreRef.destination r))).
    now rewrite Hd. }
  rewrite Hv, Hs, (rUpdateDict_order _ _ _ Hne Hpe).
  rewrite (Permutation_length Hpt), (sorted_items_order _ _ Hnt Hpt), Hlen.
  destruct (CoreStep.rUpdateDict _ (CoreStep.providedEnv s2)) as [h1|]; simpl;
    [|reflexivity].
  destruct (Bytes.pack_I (length (CoreStep.providedTools s2))) as [n1|]; simpl;
    [|reflexivity].
  rewrite (foldM_same (CoreStep.rUpdateTool s1) (CoreStep.rUpdateTool s2))
    by (intros; now apply rUpdateTool_variantId).
  destruct (foldM (CoreStep.rUpdateTool s2) _ _) as [h2|]; simpl; [|reflexivity].
  destruct (Bytes.pack_I (length (CoreStep.providedDeps s2))) as [n2|]; simpl;
    [|reflexivity].
  now rewrite Hfold.
Qed.

(** ** The further properties on the examples *)

(** The shared tool of the example is deterministic down to its SCM. *)
Lemma shared_packages_are_deterministic_witness :
  exists self,
    Examples.tableOf Examples.sharedTool !! "tool" = Some self
    /\ exists st out,
         Prepare.prepare (Examples.tableOf Examples.sharedTool) false 3 Store.empty self
           (Examples.inputs []) [] = Ok (st, out)
         /\ CoreStep.isDeterministic (CorePackage.packageStep (Prepare.package out)) = true
         /\ CoreStep.isDeterministic (CorePackage.checkoutStep (Prepare.package out)) = true.
Proof.
  evaluated as self. evaluated as st out.
  destruct (shared_packages_are_deterministic (Examples.tableOf Examples.sharedTool) false
              self Store.empty st 3 (Examples.inputs []) [] out
              (loaded_registered _ _ _ _ _) (rtc_refl _ _)) as (Hp & _ & Hc).
  - vm_compute; reflexivity.
  - vm_compute; reflexivity.
  - vm_compute; reflexivity.
  - split; [exact Hp|]. apply Hc. vm_compute. discriminate.
Defined.

(** The library of the depot: the Variant-Ids of its steps are their
    digests, and its Result-Id has 20 bytes. *)
Lemma stored_ids_are_digests_witness :
  exists self,
    Examples.tableOf Examples.depot !! "lib" = Some self
    /\ exists st out,
         Prepare.prepare (Examples.tableOf Examples.depot) false 3 Store.empty self
           (Examples.inputs [("FOO", "1"); ("BAR", "a")]) [] = Ok (st, out)
         /\ exists pid,
              CoreStep.getResultId (CorePackage.packageStep (Prepare.package out)) = Some pid
              /\ length pid = 20
              /\ Store.packages st (Recipe.packageName self) !! pid
                 = Some (Prepare.package out).
Proof.
  evaluated as self. evaluated as st out.
  refine (proj2 (stored_ids_are_digests (Examples.tableOf Examples.depot) false
                   self Store.empty st 3 (Examples.inputs [("FOO", "1"); ("BAR", "a")])
                   [] out (loaded_registered _ _ _ _ _) (rtc_refl _ _) _ _));
    vm_compute; reflexivity.
Defined.

(** The application of the depot: its package is that of the recipe, and
    the package step has the build step as its argument. *)
Lemma package_of_the_called_recipe_witness :
  exists self,
    Examples.tableOf Examples.depot !! "app" = Some self
    /\ exists st out,
         Prepare.prepare (Examples.tableOf Examples.depot) false 4 Store.empty self
           (Examples.inputs [("BAR", "a")]) [] = Ok (st, out)
         /\ CorePackage.recipe (Prepare.package out) = self
         /\ CoreStep.args (CorePackage.packageStep (Prepare.package out))
            = [CoreRef.mk (CorePackage.buildStep (Prepare.package out)) []].
Proof.
  evaluated as self. evaluated as st out.
  destruct (package_of_the_called_recipe (Examples.tableOf Examples.depot) false
              self Store.empty st 4 (Examples.inputs [("BAR", "a")]) [] out
              (loaded_registered _ _ _ _ _) (rtc_refl _ _)) as (Hr & _ & _ & _ & Ha & _).
  - vm_compute; reflexivity.
  - vm_compute; reflexivity.
  - split; [exact Hr | exact Ha].
Defined.

(** The library of the depot, elaborated twice with the same inputs. *)
Lemma second_call_is_answered_from_tables_witness :
  exists self,
    Examples.tableOf Examples.depot !! "lib" = Some self
    /\ exists st out,
         Prepare.prepare (Examples.tableOf Examples.depot) false 3 Store.empty self
           (Examples.inputs [("FOO", "1"); ("BAR", "a")]) [] = Ok (st, out)
         /\ Prepare.prepare (Examples.tableOf Examples.depot) false 1 st self
              (Examples.inputs [("FOO", "1"); ("BAR", "a")]) [] = Ok (st, out).
Proof.
  evaluated as self. evaluated as st out.
  apply (second_call_is_answered_from_tables (Examples.tableOf Examples.depot) false
           self Store.empty st 3 (Examples.inputs [("FOO", "1"); ("BAR", "a")]) [] out
           (loaded_registered _ _ _ _ _) (rtc_refl _ _)).
  - vm_compute; reflexivity.
  - vm_compute; reflexivity.
  - split; constructor.
  - vm_compute; reflexivity.
Defined.

(** The application of the depot has the library below it. *)
Lemma subtree_names_witness :
  exists self,
    Examples.tableOf Examples.depot !! "app" = Some self
    /\ exists st out,
         Prepare.prepare (Examples.tableOf Examples.depot) false 4 Store.empty self
           (Examples.inputs [("BAR", "a")]) ["app"] = Ok (st, out)
         /\ "lib" ∈ Prepare.subTree out /\ "app" ∉ Prepare.subTree out.
Proof.
  evaluated as self. evaluated as st out.
  destruct (subtree_names (Examples.tableOf Examples.depot) false
              self Store.empty st 4 (Examples.inputs [("BAR", "a")]) ["app"] out
              (loaded_registered _ _ _ _ _) (rtc_refl _ _)) as (Hreach & Hstack & _).
  - vm_compute; reflexivity.
  - vm_compute; reflexivity.
  - split; [|apply Hstack; now left]. apply Hreach. apply tc_once.
    exists self, (Dependency.mk "lib" [("FOO", "1")] false ["result"] None).
    split; [vm_compute; reflexivity|]. split; [vm_compute; left; reflexivity|].
    split; reflexivity.
Defined.

(** The recipe of scenario S2 has the class [c] as its only class. *)
Lemma classes_once_and_bases_first_witness :
  exists cls,
    RawRecipe.init (Examples.policies true) Examples.classDoc "c" "c" false None = Ok cls
    /\ exists raw,
         RawRecipe.init (Examples.policies true) Examples.recipeDoc "r" "r" true None
         = Ok raw
         /\ exists inherit visited,
              RawRecipe.resolveClassesOrder 5 {[ "c" := cls ]} raw [] ∅ true
              = Ok (inherit, visited)
              /\ NoDup (map RawRecipe.packageName inherit)
              /\ visited = list_to_set (map RawRecipe.packageName inherit)
              /\ In "c" (map RawRecipe.packageName inherit).
Proof.
  evaluated as cls. evaluated as raw. evaluated as inherit visited.
  destruct (classes_once_and_bases_first {[ "c" := cls ]} 5 raw inherit visited)
    as (Hnd & Hv & Hb & _).
  - vm_compute; reflexivity.
  - split; [exact Hnd|]. split; [exact Hv|].
    apply (Hb cls). right. exists "c". split; [now left | apply lookup_singleton_eq].
Defined.

(** A recipe that inherits from one of two classes that inherit from each
    other has no class order. *)
Lemma cyclic_inheritance_raises_witness :
  exists raw,
    RawRecipe.init (Examples.policies false) Examples.loopDoc "r" "r" true None = Ok raw
    /\ exists msg,
         RawRecipe.resolveClassesOrder 5 Examples.loopClasses raw [] ∅ true
         = Err (ParseError msg)
         /\ RawRecipe.resolveClasses String.eqb 5 Examples.loopClasses raw
            = Err (ParseError msg).
Proof.
  evaluated as raw.
  assert (Ha : exists a, Examples.loopClasses !! "a" = Some a
                         /\ exists b, Examples.loopClasses !! "b" = Some b /\ True).
  { evaluated as a. evaluated as b. exact I. }
  destruct Ha as (a & Ha & b & Hb & _).
  apply (cyclic_inheritance_raises String.eqb Examples.loopClasses raw 5).
  - apply map_Forall_lookup. apply (bool_decide_unpack _). vm_compute. exact I.
  - reflexivity.
  - exists a. split.
    + apply tc_once. right. exists "a". split; [now left | exact Ha].
    + apply tc_l with b.
      * right. exists "b". split; [|exact Hb].
        revert Ha. vm_compute. intros [= <-]. now left.
      * apply tc_once. right. exists "a". split; [|exact Ha].
        revert Hb. vm_compute. intros [= <-]. now left.
  - vm_compute. lia.
Defined.

(** The recipe of scenario S2 takes the dependencies of its class, which
    has none, before its own. *)
Lemma recipe_after_its_classes_witness :
  exists cls,
    RawRecipe.init (Examples.policies true) Examples.classDoc "c" "c" false None = Ok cls
    /\ exists raw,
         RawRecipe.init (Examples.policies true) Examples.recipeDoc "r" "r" true None
         = Ok raw
         /\ exists inherit visited,
              RawRecipe.resolveClassesOrder 5 {[ "c" := cls ]} raw [] ∅ true
              = Ok (inherit, visited)
              /\ exists r,
                   RawRecipe.resolveClasses String.eqb 5 {[ "c" := cls ]} raw = Ok r
                   /\ Recipe.deps r
                      = flat_map RawRecipe.deps inherit ++ RawRecipe.deps raw.
Proof.
  evaluated as cls. evaluated as raw. evaluated as inherit visited. evaluated as r.
  destruct (recipe_after_its_classes String.eqb 5 {[ "c" := cls ]} raw inherit visited)
    as (Hr & _).
  - vm_compute; reflexivity.
  - destruct (Hr r) as (Hd & _); [vm_compute; reflexivity | exact Hd].
Defined.


(** The recipe of scenario S2, loaded with its class. *)
Lemma checkout_within_build_within_package_witness :
  exists p,
    Project.load String.eqb 5 (Examples.policies true) [("c", Examples.classDoc)]
      [("r", Examples.recipeDoc)] = Ok p
    /\ exists r,
         Project.recipes p !! "r" = Some r
         /\ Recipe.checkoutVars r ⊆ Recipe.buildVars r
         /\ Recipe.buildVars r ⊆ Recipe.packageVars r.
Proof.
  evaluated as p. evaluated as r.
  destruct (checkout_within_build_within_package String.eqb 5 (Examples.policies true)
              [("c", Examples.classDoc)] [("r", Examples.recipeDoc)] p "r" r)
    as ((H1 & H2) & _).
  - vm_compute; reflexivity.
  - vm_compute; reflexivity.
  - split; assumption.
Defined.


(** The library of the depot gets the number one. *)
Lemma package_numbers_are_unique_witness :
  exists self,
    Examples.tableOf Examples.depot !! "lib" = Some self
    /\ exists st out,
         Prepare.prepare (Examples.tableOf Examples.depot) false 3 Store.empty self
           (Examples.inputs [("FOO", "1"); ("BAR", "a")]) [] = Ok (st, out)
         /\ Store.cur st = 1
         /\ forall name pid q, Store.packages st name !! pid = Some q ->
              1 <= CorePackage.pkgId q <= Store.cur st.
Proof.
  evaluated as self. evaluated as st out.
  split; [reflexivity|].
  refine (proj1 (package_numbers_are_unique (Examples.tableOf Examples.depot) false st st
                   _ (rtc_refl _ _))).
  apply rtc_once. exists 3, self, (Examples.inputs [("FOO", "1"); ("BAR", "a")]), [], out.
  split; vm_compute; reflexivity.
Defined.

(** The steps of the root package of the depot are constructed. *)
Lemma elaborated_steps_are_constructed_witness :
  exists p,
    Examples.depot = Ok p
    /\ exists st out,
         Prepare.generatePackages (Project.recipes p) false 10 (Project.rootRecipe p)
           [("BAR", "a")] [] = Ok (st, out)
         /\ CoreStep.constructed (CorePackage.checkoutStep (Prepare.package out))
         /\ CoreStep.constructed (CorePackage.buildStep (Prepare.package out))
         /\ CoreStep.constructed (CorePackage.packageStep (Prepare.package out)).
Proof.
  evaluated as p. evaluated as st out.
  destruct (elaborated_steps_are_constructed (Project.recipes p) false 10
              (Project.rootRecipe p) [("BAR", "a")] [] st out) with (p := Prepare.package out)
    as (Hc & Hb & Hk & _).
  - vm_compute; reflexivity.
  - now left.
  - repeat split; assumption.
Defined.

(** The package step of the library, once providing [A] before [B] and
    once [B] before [A] and marked as not deterministic: the Result-Id is
    the same. *)
Lemma result_id_depends_only_on_witness :
  exists self,
    Examples.tableOf Examples.depot !! "lib" = Some self
    /\ exists st out,
         Prepare.prepare (Examples.tableOf Examples.depot) false 3 Store.empty self
           (Examples.inputs [("FOO", "1"); ("BAR", "a")]) [] = Ok (st, out)
         /\ CoreStep.getResultId
              (CoreStep.setProvided (CorePackage.packageStep (Prepare.package out))
                 [("A", "1"); ("B", "2")] []
                 (CoreStep.providedDeps (CorePackage.packageStep (Prepare.package out)))
                 None)
            = CoreStep.getResultId
                (CoreStep.setProvided
                   (CoreStep.setDeterministic
                      (CorePackage.packageStep (Prepare.package out)) false)
                   [("B", "2"); ("A", "1")] []
                   (CoreStep.providedDeps (CorePackage.packageStep (Prepare.package out)))
                   None).
Proof.
  evaluated as self. evaluated as st out.
  apply (result_id_depends_only_on
           (CoreStep.setProvided (CorePackage.packageStep (Prepare.package out))
              [("A", "1"); ("B", "2")] []
              (CoreStep.providedDeps (CorePackage.packageStep (Prepare.package out)))
              None)
           (CoreStep.setProvided
              (CoreStep.setDeterministic
                 (CorePackage.packageStep (Prepare.package out)) false)
              [("B", "2"); ("A", "1")] []
              (CoreStep.providedDeps (CorePackage.packageStep (Prepare.package out)))
              None)).
  - reflexivity.
  - apply (bool_decide_unpack _). vm_compute. exact I.
  - apply perm_swap.
  - apply NoDup_nil_2.
  - reflexivity.
  - reflexivity.
  - reflexivity.
Defined.
